(* ===== verification/_CoqProject ===== *)
-Q . S2P
Prelude.v
CString.v
Kernel.v
State.v
Tunables.v
Override.v
ProcStat.v
Walk.v
FdKernel.v
Internal.v
Synth.v
SynthFrames.v
OverrideLock.v
AcquireSeq.v
SynthFacts.v
Proc.v
Refcount.v
Close.v
Tty.v
Dispatch.v
Handlers.v
FdTable.v
TabKernel.v
Worlds.v
Mmap.v
TtyFacts.v
TtyMode.v
Fcntl.v
Poll.v
Select.v
Open.v
WrapOpen.v
WrapTty.v
WrapClose.v
Elf.v
ElfMain.v
Dirent.v
Preexec.v
Execve.v
PreexecFacts.v
Ioctl.v
Session.v
SessionIo.v
OpenKernel.v
Statx.v
Clock.v
Epoll.v
CopyRange.v
Sockopt.v
Rename.v
Shim.v
Logging.v
Startup.v
LazyFd.v
Syscall.v
XattrLocks.v
SharedLocks.v
Library.v
LibFrame.v
RefBalance.v
WellTyped.v
