(* ===== verification/Prelude.v ===== *)
(** * wslcompat: a verification development

    wslcompat is a shared object that is preloaded (LD_PRELOAD) into programs on WSL1. It wraps
    functions of the C library and supplies what the WSL1 kernel lacks or gets wrong. Its centre is
    a table of synthetic descriptors: descriptors that the kernel knows only as O_PATH placeholders
    and whose operations the library carries out itself, by a handler. Around it are the shims, one
    group of C functions per source file, which pass a call on and step in only when the kernel
    fails it in the way a placeholder, or a missing feature, makes it fail.

    ** How the code is modelled

    A C function is a program [prog (st W) A]: a function of a state that returns a value and a
    new state ([Ret]), leaves the program image for good ([Gone]: a successful exec, an abort), or
    exceeds the bound of one of its loops ([NoFuel]). A state ([State.v]) is the static memory of the
    library ([mem], with the source's structures as records), the world outside, and errno. The
    kernel and the next libc are not in the repository; they are the parameter [Kernel W] of
    [Kernel.v]: one transition function on an abstract world, indexed by the call made. What a
    theorem needs the kernel to do is a class with named laws (KernelProcFd, KernelMaps,
    KernelFiles, KernelNames, KernelEpoll, KernelSockopt, KernelCpu, KernelTermios, KernelOpens,
    KernelPath, ...), each with an
    instance, a small executable machine, on which the theorem's witness runs the code.
    Integers are [Z] with the wrap-around of their C type written out where it can occur;
    strings and buffers are [string]; the bytes of a file image are [list Z]. A C function that
    returns -1 with errno returns [None].

    ** Files and sources

    - [Prelude]: outcomes, the monad, frames ([within R m]: every run relates its states by [R]) with
      their tactics, machine integers. [CString]: the C string functions, number parsing and
      printing. [Kernel], [State]: above.
    - [Tunables] (tunables.c, tunables.h): options from extended attributes, lists, [wslcompat_enabled].
    - [Override] (synth.c 29-310): process identity and copy-on-write views of internal descriptors.
      [ProcStat]: the line of /proc/pid/stat its parser reads.
    - [Walk] (utils.c): the walk of /proc/self/fd, over the names of the directory; [Dirent]: the same
      over the bytes of the buffer that getdents64 fills. [Internal] (internal.c): registered descriptors.
    - [Synth] (synth.c 311-718, 841-935; synth.h): the table: pin, unpin, lookup, register, open,
      close hooks. [SynthFrames]: what each piece of code may do to the table. [SynthFacts]: the
      theorems. [Refcount]: the same reference counts under arbitrary interleaving of threads, as a
      step relation, and its relation to the sequential code. [OverrideLock]: the same for the
      acquisition of override slots under the spin lock, and [AcquireSeq] shows the sequential function
      of [Override] to be one of its runs.
    - [Proc] (proc.c), [Tty] and [TtyFacts] and [TtyMode] (tty.c): the handlers. [Handlers] ties them
      to the table. [Worlds]: frames on the world outside.
    - [Dispatch] (the macros of synth.h and read.c), [Close] (close.c), [Fcntl] (fcntl.c), [Poll] and
      [Select] (poll.c), [Open] (open.c), [Mmap] (mmap.c, mincore.c), [Preexec] (synth.c 724-838),
      [Execve] (execve.c, execveat.c), [Ioctl] (ioctl.c), [Statx] (statx.c), [Clock] (clock.c),
      [Epoll] (epoll.c), [CopyRange] (copy_file_range.c), [Sockopt] (getsockopt.c, setsockopt.c),
      [Rename] (rename.c), [Logging] (logging.c), [Syscall] (syscall.c): the shims.
    - [Elf], [ElfMain] (tools/elfclamp.c): the tool that makes segment alignments uniform, and the
      program around it.
    - [Shim] (shim.h): the pointers to the next symbols and their resolution.
    - [Startup] (the constructors and destructors of logging.c, statx.c and tunables.c). [LazyFd]: the
      descriptors opened on demand (logging.c, statx.c) and moved (internal.c) by any number of threads.
    - [XattrLocks] (future/xattr_locks.c): a sketch of record locks as extended attributes.
      [SharedLocks] (future/locks.c): a sketch of a lock table in shared memory.
    - [Library]: every entry point as one type of calls, and what holds after any sequence of them.
      [LibFrame]: a relation that the primitive steps respect, with every pin met by its unpin, is
      respected by every entry point. Two such relations: [WellTyped] (the shape of the memory, the
      options and the registry) and [RefBalance] (the reference counts and the spin lock).
    - [FdTable]: the descriptor table of the process as an interface (close, dup3, F_DUPFD, flock,
      /proc/self/fd), and the runs of relocation, dup3 and close against it. [PreexecFacts]: what the
      save and restore around an exec do to the table.
    - [WrapOpen] (wslcompat_synth_open), [WrapTty] (wslcompat_tty_install), [WrapClose] (the close of
      the last descriptor of an entry): complete runs against that interface, extended by the laws
      of open ([KernelOpens]). [Session], [SessionIo]: the state between two calls of an application
      ([at_rest]: which descriptors are its own and which the library's) and sequences of its calls.
    - [FdKernel], [TabKernel]: concrete kernels with a descriptor table, for witnesses. [OpenKernel]:
      the second one satisfies the laws of the sessions.

    ** What is proved

    - The table: along any sequence of calls of the whole library no slot is left in transit, counts
      are non-negative and the number of live entries is right ([library_invariant]), and no call
      keeps a reference or the spin lock: every entry has the one reference of its descriptor or is
      free ([library_balances]); under any interleaving a held reference keeps a slot alive ([refcount_safety]); a lookup finds the first
      live slot with the inode, registration publishes, and a close releases the entry exactly when
      nothing else refers to it ([pin_fd_first_match], [register_publishes], [post_close_outcome],
      [should_release_iff]).
    - Sessions: a synthetic descriptor comes into being whole or not at all ([synth_open_atomic]); every
      call of a session returns and every open descriptor is accounted for ([session_accounts]); what
      the application closes leaves nothing behind ([session_no_leak], [tty_wrap_lifecycle],
      [min_addr_session]).
    - Well-formedness: constructors in any order, then any sequence of calls, keep the sizes of the
      arrays, the range of the flags, the options and the registry ([library_well_typed]).
    - Symbols: before and after the constructors a call reaches what dlsym finds
      ([sym_next_any_order]); the byte-level walk refines the walk over names ([walk_bytes_refines]).
    - Isolation: a forked child changes no descriptor another process reads ([cow_isolation]); no
      process ever has two slots of a view, whatever the interleaving ([acquire_unique],
      [acquire_refines]).
    - Races on the internal descriptors lose none of them ([lazy_no_leak]), but for two stores that
      are not exchanges ([mount_fd_lost], [relocated_fd_lost]).
    - Transparency: a shim gives back the references it takes, is invisible on a foreign descriptor
      and answers with the handler on its own ([io_balanced], [shim_foreign_descriptor],
      [shim_owned_descriptor]); close makes one kernel close; poll and select report the right
      descriptors and restore the caller's arguments.
    - Exec: while the descriptors are saved a new image finds the terminals behind the wraps
      ([preexec_image]); a failed exec and a spawn leave the application's descriptors as they were
      ([exec_failure_restores], [spawn_keeps_descriptors]), but for a leaked one
      ([preexec_leaks_probe]). These are stated for the process that installed the entries, with
      room in its table and the start time cached ([calm], [spacious]); so are the sessions.
    - The emulations do what the call they stand for promises: mmap, renameat2, copy_file_range,
      epoll, statx, clocks, record locks, exec; parsers and printers agree with each other.
    - Loops end: reads of a terminal, sleeps on the CPU clock, copying, the walks and parsers.
    - Several theorems state a defect found on the way, e.g. [double_release_frees_stranger],
      [tunable_list_overrun], [recycled_pid_reads_stale_slot], [elfclamp_wraps], [mnt_id_table_cut],
      [cputime_sleep_overshoots], [epoll_pwait2_wraps], [copy_partial_keeps_position],
      [preexec_leaks_probe], [should_release_unlisted], [log_after_fini], [init_shm_loser].

    ** Bounds

    Loops over a fixed array run over the list of its indices. Loops whose length the kernel
    decides take the bound [Fuel], a class argument: getdents batches, terminal reads, sleeps,
    copies. A theorem that such a loop returns says which bound is enough (at least [vmin] rounds,
    the requested time over the pace of the clock, one round per byte to copy); the frame theorems
    hold for every bound. A session of n calls needs room for 8 + 2 n more descriptors, and fuel to
    walk them: each call opens at most two that stay and a few for its own use. Parsers recurse on the text, or on a bound by its length, which is proved
    enough.

    ** What the model leaves out

    - [sym_next (f, ...)] and [syscall (SYS_f, ...)] are both the kernel call [k_f]; [Shim] shows that
      the first is a call of the next function, and what happens when there is none.
    - Calls of the logging macros: with the level of the options below the level of the message they
      do nothing ([log_silent]); otherwise they can change errno ([log_clobbers_errno]).
    - [wslcompat_passthru] is its uncached decision; the per-site cache agrees with it
      ([passthru_site_sound]).
    - Sequential programs: between two instructions of a shim no other thread runs, except in
      [Refcount], [OverrideLock] and [LazyFd], where the atomic steps interleave freely.
    - Pathnames are not NULL unless the code tests for it. Reference counts are unbounded
      integers; between two calls they are 0 or 1 ([library_balances]).
    - The va_list of the execl family is the list of the arguments the caller passed.
    - Of future/locks.c, the three lock functions: they do not compile and their bodies are comments.
    - Messages printed for the user, by the logging macros and by the tool. *)

From stdpp Require Export base list strings numbers option sets relations.
From Stdlib Require Export ZArith Lia.

#[export] Set Default Goal Selector "!".

Declare Scope c_scope.
Delimit Scope c_scope with C.

(** ** Outcomes of running C code

    A piece of C code run in a state of type [S] either returns a value, leaves the program
    image for good (a successful [execve], an abort), or did not finish within the iteration
    bound given to one of its loops. *)
Inductive outcome (S A : Type) : Type :=
| Ret (a : A) (s : S)
| Gone (s : S)
| NoFuel.
Arguments Ret {S A} a s.
Arguments Gone {S A} s.
Arguments NoFuel {S A}.

Definition prog (S A : Type) : Type := S → outcome S A.

Definition ret {S A} (a : A) : prog S A := λ s, Ret a s.

Definition bind {S A B} (m : prog S A) (k : A → prog S B) : prog S B :=
  λ s, match m s with
       | Ret a s' => k a s'
       | Gone s' => Gone s'
       | NoFuel => NoFuel
       end.

Definition gets {S A} (f : S → A) : prog S A := λ s, Ret (f s) s.
Definition modify {S} (f : S → S) : prog S unit := λ s, Ret tt (f s).
Definition gone {S A} : prog S A := λ s, Gone s.
Definition nofuel {S A} : prog S A := λ _, NoFuel.

Notation "'let*' x ':=' m 'in' k" := (bind m (fun x => k))
  (at level 10, x pattern, m at level 200, k at level 200,
   format "'[v' 'let*'  x  ':='  m  'in' '/' k ']'") : c_scope.
Notation "m ';;*' k" := (bind m (fun _ => k))
  (at level 100, k at level 200, right associativity,
   format "'[v' m  ';;*' '/' k ']'") : c_scope.
Open Scope c_scope.

(** [for (i = 0; ...; i++)] over a fixed range of indices, with an early exit: the body
    answers [Some r] to leave the loop with [r]. *)
Fixpoint for_each {S I R} (l : list I) (body : I → prog S (option R)) : prog S (option R) :=
  match l with
  | [] => ret None
  | i :: l' =>
      let* o := body i in
      match o with
      | Some r => ret (Some r)
      | None => for_each l' body
      end
  end.

(** The bound on the iterations of the loops whose length the kernel decides. *)
Class Fuel := fuel : nat.

(** ** Frames: what a run may do to the state

    [within R m]: every run of [m] that returns relates its first and last states by [R] (a run
    that leaves the program image leaves its memory too).
    With [R] a preorder this is compositional; an invariant [I] is kept by [m] when
    [within (λ s s', I s → I s') m]. *)
Definition within {S A} (R : relation S) (m : prog S A) : Prop :=
  ∀ s, match m s with
       | Ret _ s' => R s s'
       | _ => True
       end.

Definition keeps {S} (I : S → Prop) : relation S := λ s s', I s → I s'.
Definition same {S X} (f : S → X) : relation S := λ s s', f s' = f s.

#[export] Instance keeps_preorder {S} (I : S → Prop) : PreOrder (keeps I).
Proof. split; [by intros s H | intros a b c H1 H2 H; apply H2, H1, H]. Qed.

#[export] Instance same_preorder {S X} (f : S → X) : PreOrder (same f).
Proof. split; [by intros s | intros a b c H1 H2; unfold same in *; congruence]. Qed.

(** [hoare P m Q]: partial correctness of a run that returns. *)
Definition hoare {S A} (P : S → Prop) (m : prog S A) (Q : A → S → Prop) : Prop :=
  ∀ s, P s → match m s with Ret a s' => Q a s' | _ => True end.

(** [returns m s]: the run of [m] from [s] ends and returns. *)
Definition returns {S A} (m : prog S A) (s : S) : Prop := ∃ a s', m s = Ret a s'.

Create HintDb within discriminated.

Section within.
Context {S : Type} (R : relation S) `{!PreOrder R}.

Lemma within_ret {A} (a : A) : within R (ret a).
Proof. intros s; simpl; reflexivity. Qed.

Lemma within_gets {A} (f : S → A) : within R (gets f).
Proof. intros s; simpl; reflexivity. Qed.

Lemma within_gone {A} : within R (gone (A:=A)).
Proof. intros s; exact I. Qed.

Lemma within_nofuel {A} : within R (nofuel (A:=A)).
Proof. intros s; exact I. Qed.

Lemma within_modify (f : S → S) : (∀ s, R s (f s)) → within R (modify f).
Proof. intros H s; apply H. Qed.

Lemma within_bind {A B} (m : prog S A) (k : A → prog S B) :
  within R m → (∀ a, within R (k a)) → within R (bind m k).
Proof.
  intros Hm Hk s. unfold bind. specialize (Hm s).
  destruct (m s) as [a s'|s'|]; [|exact I..].
  specialize (Hk a s'). destruct (k a s'); [by etrans | exact I..].
Qed.

Lemma within_for_each_in {I A} (l : list I) (body : I → prog S (option A)) :
  (∀ i, i ∈ l → within R (body i)) → within R (for_each l body).
Proof.
  induction l as [|i l IH]; simpl; intros Hb; [apply within_ret|].
  apply within_bind; [apply Hb; set_solver|].
  intros [r|]; [apply within_ret | apply IH; set_solver].
Qed.

Lemma within_for_each {I A} (l : list I) (body : I → prog S (option A)) :
  (∀ i, within R (body i)) → within R (for_each l body).
Proof. intros Hb. apply within_for_each_in. eauto. Qed.
End within.

Lemma within_mono {S A} (R R' : relation S) (m : prog S A) :
  (∀ s s', R s s' → R' s s') → within R m → within R' m.
Proof. intros HR Hm s. specialize (Hm s). destruct (m s); auto. Qed.

Lemma within_Ret {S A} (R : relation S) (m : prog S A) s a s' :
  within R m → m s = Ret a s' → R s s'.
Proof. intros Hm E. specialize (Hm s). by rewrite E in Hm. Qed.

#[export] Hint Resolve within_ret within_gets within_gone within_nofuel : within.

(** Decompose a [within] goal along the program text: binds, matches and conditionals, the
    leaves by the lemmas of the [within] database. *)
Ltac within_step :=
  first
    [ lazymatch goal with
      | |- within _ (bind _ _) => apply within_bind; [typeclasses eauto | | intros ?]
      | |- within _ (for_each _ _) => apply within_for_each; [typeclasses eauto | intros ?]
      end
    | solve [auto with within typeclass_instances]
    | match goal with
      | |- within _ (match ?x with _ => _ end) => destruct x
      | |- within _ (if ?b then _ else _) => destruct b
      | |- within _ (let (_, _) := ?x in _) => destruct x
      end
    | progress cbv zeta ].
Ltac within_auto := repeat within_step.

(** From one run back to [within]: the goal is about the run of [m] from one state. *)
Ltac within_run R :=
  match goal with
  | |- match ?m ?s with Ret _ _ => _ | _ => _ end =>
      let H := fresh in assert (within R m) as H; [|exact (H s)]
  end.

(** ** Equations for running a program *)
Lemma bind_Ret {S A B} (m : prog S A) (k : A → prog S B) s a s' :
  m s = Ret a s' → bind m k s = k a s'.
Proof. intros E. unfold bind. by rewrite E. Qed.

Lemma bind_cong {S A B} (m : prog S A) (k : A → prog S B) s s' :
  m s = m s' → bind m k s = bind m k s'.
Proof. intros E. unfold bind. by rewrite E. Qed.

Lemma bind_ext {S A B} (m m' : prog S A) (k k' : A → prog S B) s :
  m s = m' s → (∀ a s', k a s' = k' a s') → bind m k s = bind m' k' s.
Proof. intros E Hk. unfold bind. rewrite E. destruct (m' s); auto. Qed.

Lemma for_each_ext {S I R} (l : list I) (f g : I → prog S (option R)) s :
  (∀ i s', f i s' = g i s') → for_each l f s = for_each l g s.
Proof.
  intros H. revert s. induction l as [|i l IH]; intros s; [done|]. simpl.
  apply bind_ext; [apply H|]. by intros [].
Qed.

Lemma bind_Ret_inv {S A B} (m : prog S A) (k : A → prog S B) s b s'' :
  bind m k s = Ret b s'' → ∃ a s', m s = Ret a s' ∧ k a s' = Ret b s''.
Proof. unfold bind. destruct (m s) eqn:E; [eauto|done..]. Qed.

Lemma bind_assoc {S A B C} (m : prog S A) (k : A → prog S B) (h : B → prog S C) s :
  bind (bind m k) h s = bind m (λ a, bind (k a) h) s.
Proof. unfold bind. by destruct (m s). Qed.

(** Invert a run that returned, one bind at a time. *)
Ltac run_inv H :=
  let a := fresh "r" in let s := fresh "s" in let E := fresh "E" in
  apply bind_Ret_inv in H; destruct H as (a & s & E & H).

(** ** Machine integers *)
Definition wrap_u (w : Z) (z : Z) : Z := z mod 2 ^ w.
Definition wrap_s (w : Z) (z : Z) : Z := (z + 2 ^ (w - 1)) mod 2 ^ w - 2 ^ (w - 1).

Definition INT_MAX : Z := 2147483647.
Definition LONG_MAX : Z := 9223372036854775807.
Definition LONG_MIN : Z := -9223372036854775808.
Definition SSIZE_MAX : Z := 9223372036854775807.

Definition in_u (w z : Z) : Prop := (0 ≤ z < 2 ^ w)%Z.
Definition in_s (w z : Z) : Prop := (- 2 ^ (w - 1) ≤ z < 2 ^ (w - 1))%Z.

Lemma wrap_u_id w z : in_u w z → wrap_u w z = z.
Proof. intros H. by apply Z.mod_small. Qed.

Lemma wrap_u_range w z : (0 < w)%Z → in_u w (wrap_u w z).
Proof. intros Hw. apply Z.mod_pos_bound. by apply Z.pow_pos_nonneg; lia. Qed.

Lemma wrap_s_id w z : (0 < w)%Z → in_s w z → wrap_s w z = z.
Proof.
  intros Hw [H1 H2]. unfold wrap_s.
  assert (2 ^ w = 2 * 2 ^ (w - 1))%Z as E.
  { rewrite <-Z.pow_succ_r by lia. f_equal; lia. }
  rewrite Z.mod_small by lia. lia.
Qed.

Lemma wrap_s_range w z : (0 < w)%Z → in_s w (wrap_s w z).
Proof.
  intros Hw. unfold wrap_s, in_s.
  assert (2 ^ w = 2 * 2 ^ (w - 1))%Z as E.
  { rewrite <-Z.pow_succ_r by lia. f_equal; lia. }
  pose proof (Z.mod_pos_bound (z + 2 ^ (w - 1)) (2 ^ w)). lia.
Qed.

(** ** Bit tests, as the C code writes them *)
Definition has_bits (x m : Z) : bool := negb (Z.land x m =? 0)%Z.

Lemma has_bits_pow2 x k : (0 ≤ k)%Z → has_bits x (2 ^ k) = Z.testbit x k.
Proof.
  intros Hk. unfold has_bits. destruct (Z.testbit x k) eqn:E.
  - apply negb_true_iff, Z.eqb_neq. intros H0. apply (f_equal (λ z, Z.testbit z k)) in H0.
    by rewrite Z.land_spec, E, Z.pow2_bits_true, Z.bits_0 in H0.
  - apply negb_false_iff, Z.eqb_eq. apply Z.bits_inj'. intros n Hn.
    rewrite Z.land_spec, Z.pow2_bits_eqb, Z.bits_0 by done.
    destruct (Z.eqb_spec k n); subst; rewrite ?E; by rewrite ?andb_false_r.
Qed.

(** ** List lemmas *)
Lemma list_filter_iff_in {A} (P Q : A → Prop) `{!∀ x, Decision (P x), !∀ x, Decision (Q x)}
    (l : list A) :
  (∀ x, x ∈ l → P x ↔ Q x) → filter P l = filter Q l.
Proof.
  induction l as [|a l IH]; intros Heq; [done|]. rewrite !filter_cons.
  rewrite IH by (intros; apply Heq; by right).
  assert (P a ↔ Q a) as Ha by (apply Heq; left). repeat case_decide; naive_solver.
Qed.
