(* ===== verification/CString.v ===== *)
(** * The C library functions on strings and numbers that the sources call

    [strtol], [strtoull], [atoi], [strncmp], [strchrnul], [snprintf] with ["%s"] and ["%d"], on
    the NUL-free contents of a C string ([string]). *)

From stdpp Require Export pretty.
From Stdlib Require Export Ascii.
From S2P Require Import Prelude.

Open Scope Z_scope.

Definition chr (c : Ascii.ascii) : Z := Z.of_nat (Ascii.nat_of_ascii c).

(** ** Number parsing *)
Definition is_space (c : Ascii.ascii) : bool :=
  let n := chr c in (n =? 32) || ((9 <=? n) && (n <=? 13)).

Fixpoint skip_spaces (s : string) : string :=
  match s with
  | String c s' => if is_space c then skip_spaces s' else s
  | EmptyString => s
  end.

(** The value of a digit character, if it is one in the given base. *)
Definition digit_val (base : Z) (c : Ascii.ascii) : option Z :=
  let n := chr c in
  let v := if (48 <=? n) && (n <=? 57) then n - 48
           else if (97 <=? n) && (n <=? 122) then n - 87
           else if (65 <=? n) && (n <=? 90) then n - 55
           else base in
  if v <? base then Some v else None.

Fixpoint scan_digits (base acc : Z) (s : string) : Z * string :=
  match s with
  | String c s' =>
      match digit_val base c with
      | Some d => scan_digits base (acc * base + d) s'
      | None => (acc, s)
      end
  | EmptyString => (acc, s)
  end.

Definition starts_digit (base : Z) (s : string) : bool :=
  match s with
  | String c _ => match digit_val base c with Some _ => true | None => false end
  | EmptyString => false
  end.

Definition scan_sign (s : string) : bool * string :=
  match s with
  | String c s' =>
      if chr c =? 45 then (true, s') else if chr c =? 43 then (false, s') else (false, s)
  | EmptyString => (false, s)
  end.

(** The radix prefix: base 0 reads [0x..] as hexadecimal and [0..] as octal. *)
Definition scan_radix (base : Z) (s : string) : Z * string :=
  match s with
  | String c0 (String cx s') =>
      if ((base =? 0) || (base =? 16)) && (chr c0 =? 48)
         && ((chr cx =? 120) || (chr cx =? 88)) && starts_digit 16 s'
      then (16, s')
      else if base =? 0 then (if chr c0 =? 48 then 8 else 10, s) else (base, s)
  | String c0 EmptyString =>
      if base =? 0 then (if chr c0 =? 48 then 8 else 10, s) else (base, s)
  | EmptyString => (if base =? 0 then 10 else base, s)
  end.

(** Sign, magnitude and the rest of the text; [None] when no conversion could be done. *)
Definition scan_number (base : Z) (s : string) : option (bool * Z * string) :=
  let '(neg, s1) := scan_sign (skip_spaces s) in
  let '(b, s2) := scan_radix base s1 in
  if starts_digit b s2
  then let '(v, rest) := scan_digits b 0 s2 in Some (neg, v, rest)
  else None.

(** [strtol]: the value saturated to [long] and the end pointer ([s] itself when nothing was
    converted). *)
Definition strtol (s : string) (base : Z) : Z * string :=
  match scan_number base s with
  | Some (neg, v, rest) =>
      (Z.max LONG_MIN (Z.min LONG_MAX (if neg then - v else v)), rest)
  | None => (0, s)
  end.

Definition ULONG_MAX : Z := 18446744073709551615.

(** [strtoull] and [strtoul]: saturated at the top, a minus sign negates modulo [2^64]. *)
Definition strtoull (s : string) (base : Z) : Z * string :=
  match scan_number base s with
  | Some (neg, v, rest) =>
      (if ULONG_MAX <? v then ULONG_MAX else if neg then wrap_u 64 (- v) else v, rest)
  | None => (0, s)
  end.

Definition atoi (s : string) : Z := wrap_s 32 (fst (strtol s 10)).

(** ** Comparison and search *)
Fixpoint starts_with (p s : string) : bool :=
  match p, s with
  | EmptyString, _ => true
  | String a p', String b s' => if decide (a = b) then starts_with p' s' else false
  | String _ _, EmptyString => false
  end.

Fixpoint strdrop (n : nat) (s : string) : string :=
  match n, s with
  | O, _ => s
  | S n', String _ s' => strdrop n' s'
  | S _, EmptyString => EmptyString
  end.

Fixpoint strtake (n : nat) (s : string) : string :=
  match n, s with
  | S n', String c s' => String c (strtake n' s')
  | _, _ => EmptyString
  end.

(** Distance from [s] to the first [c], or to its end: [strchrnul (s, c) - s]. *)
Fixpoint strchrnul (s : string) (c : Ascii.ascii) : nat :=
  match s with
  | EmptyString => O
  | String a s' => if decide (a = c) then O else S (strchrnul s' c)
  end.

(** The text after the last [c], [strrchr (s, c) + 1]; [None] when there is none. *)
Fixpoint strrchr_after (s : string) (c : Ascii.ascii) : option string :=
  match s with
  | EmptyString => None
  | String a s' =>
      match strrchr_after s' c with
      | Some r => Some r
      | None => if decide (a = c) then Some s' else None
      end
  end.

(** [snprintf (buf, n, "%s", s)] leaves the first [n - 1] characters in [buf]. *)
Definition snprintf_s (n : nat) (s : string) : string := strtake (n - 1) s.

(** ["%d"], ["%ld"]. *)
Definition fmt_d (z : Z) : string := pretty z.

(** The length of a buffer, as an [ssize_t]. *)
Definition zlen (s : string) : Z := Z.of_nat (String.length s).

Lemma strtake_length n s : String.length (strtake n s) = Nat.min n (String.length s).
Proof. revert s. induction n; intros [|c s]; simpl; [done..|by rewrite IHn]. Qed.

Lemma starts_with_app p s : starts_with p (p +:+ s) = true.
Proof. induction p as [|a p IH]; simpl; [done|]. by rewrite decide_True. Qed.

Lemma append_empty s : s +:+ "" = s.
Proof.
  induction s as [|c s IH]; [done|]. change (String c (s +:+ "") = String c s). by rewrite IH.
Qed.

Lemma strdrop_app p s : strdrop (String.length p) (p +:+ s) = s.
Proof. induction p; simpl; done. Qed.

(** ** Decimal printing and parsing are inverse *)
Lemma digit_cases (P : N → Prop) :
  P 0%N → P 1%N → P 2%N → P 3%N → P 4%N → P 5%N → P 6%N → P 7%N → P 8%N → P 9%N →
  ∀ d, (d < 10)%N → P d.
Proof.
  intros. assert (d = 0 ∨ d = 1 ∨ d = 2 ∨ d = 3 ∨ d = 4 ∨ d = 5 ∨ d = 6 ∨ d = 7 ∨ d = 8 ∨ d = 9)%N
    by lia.
  by repeat match goal with H : _ ∨ _ |- _ => destruct H; [subst|] | _ => subst end.
Qed.

Lemma digit_val_pretty d :
  (d < 10)%N → digit_val 10 (pretty_N_char d) = Some (Z.of_N d).
Proof.
  revert d. by apply digit_cases.
Qed.

Lemma scan_digits_pretty x s :
  scan_digits 10 0 (pretty_N_go x s) = scan_digits 10 (Z.of_N x) s.
Proof.
  revert s. induction (N.lt_wf_0 x) as [x _ IH]; intros s.
  destruct (decide (x = 0)%N) as [->|Hx]; [done|].
  rewrite pretty_N_go_step by lia. rewrite IH by (apply N.div_lt; lia).
  pose proof (N.mod_lt x 10 ltac:(done)). simpl. rewrite digit_val_pretty by lia.
  f_equal. pose proof (N.div_mod x 10 ltac:(done)). lia.
Qed.

Lemma pretty_N_go_head x s :
  (0 < x)%N → ∃ d s', (d < 10)%N ∧ pretty_N_go x s = String (pretty_N_char d) s'.
Proof.
  revert s. induction (N.lt_wf_0 x) as [x _ IH]; intros s Hx.
  rewrite pretty_N_go_step by done. pose proof (N.mod_lt x 10 ltac:(done)).
  destruct (decide (x `div` 10 = 0)%N) as [->|H0].
  - rewrite pretty_N_go_0. eauto with lia.
  - apply IH; [by apply N.div_lt | by apply N.neq_0_lt_0].
Qed.

Lemma pretty_N_head (x : N) :
  ∃ d s', (d < 10)%N ∧ pretty x = String (pretty_N_char d) s'.
Proof.
  unfold pretty, pretty_N. case_decide as H.
  - exists 0%N, "". done.
  - apply pretty_N_go_head. lia.
Qed.

Lemma scan_digits_pretty_N (x : N) : scan_digits 10 0 (pretty x) = (Z.of_N x, "").
Proof.
  unfold pretty, pretty_N. case_decide as H; [by subst|].
  by rewrite scan_digits_pretty.
Qed.

Lemma digit_head d s :
  (d < 10)%N →
  skip_spaces (String (pretty_N_char d) s) = String (pretty_N_char d) s ∧
  scan_sign (String (pretty_N_char d) s) = (false, String (pretty_N_char d) s) ∧
  starts_digit 10 (String (pretty_N_char d) s) = true.
Proof.
  revert d. by apply digit_cases.
Qed.

Lemma scan_radix_10 s : scan_radix 10 s = (10, s).
Proof. by destruct s as [|c [|c' s]]. Qed.

Lemma scan_number_pretty (x : N) : scan_number 10 (pretty x) = Some (false, Z.of_N x, "").
Proof.
  unfold scan_number. pose proof (scan_digits_pretty_N x) as Hs.
  destruct (pretty_N_head x) as (d & s' & Hd & E). rewrite E in *.
  destruct (digit_head d s' Hd) as (-> & -> & Hst).
  rewrite scan_radix_10, Hst, Hs. done.
Qed.

Lemma fmt_d_nonneg z : 0 ≤ z → fmt_d z = pretty (Z.to_N z).
Proof. destruct z as [|p|p]; intros H; [done..|lia]. Qed.

(** Reading back a file descriptor number printed with ["%d"]. *)
Lemma atoi_fmt_d z : 0 ≤ z ≤ INT_MAX → atoi (fmt_d z) = z.
Proof.
  unfold INT_MAX. intros Hz. rewrite fmt_d_nonneg by lia. unfold atoi, strtol.
  rewrite scan_number_pretty. simpl fst. unfold LONG_MIN, LONG_MAX.
  rewrite Z2N.id, Z.min_r, Z.max_r by lia.
  apply wrap_s_id; [lia|]. unfold in_s; simpl. lia.
Qed.

(** ** Numbers followed by other text *)
Lemma append_assoc a b c : (a +:+ b) +:+ c = a +:+ (b +:+ c).
Proof.
  induction a as [|x a IH]; [done|].
  change (String x ((a +:+ b) +:+ c) = String x (a +:+ (b +:+ c))). by rewrite IH.
Qed.

Lemma length_append a b : String.length (a +:+ b) = (String.length a + String.length b)%nat.
Proof.
  induction a as [|x a IH]; [done|].
  change (S (String.length (a +:+ b)) = S (String.length a + String.length b)). by rewrite IH.
Qed.

Lemma pretty_N_go_app x s : pretty_N_go x s = pretty_N_go x "" +:+ s.
Proof.
  revert s. induction (N.lt_wf_0 x) as [x _ IH]; intros s.
  destruct (decide (x = 0)%N) as [->|Hx]; [done|].
  rewrite !(pretty_N_go_step x) by lia. rewrite (IH (x / 10)%N ltac:(apply N.div_lt; lia)).
  rewrite (IH (x / 10)%N ltac:(apply N.div_lt; lia) (String _ "")), append_assoc. done.
Qed.

Lemma scan_digits_app (x : N) rest :
  scan_digits 10 0 (pretty x +:+ rest) = scan_digits 10 (Z.of_N x) rest.
Proof.
  unfold pretty, pretty_N. case_decide as H; [by subst|].
  by rewrite <-pretty_N_go_app, scan_digits_pretty.
Qed.

Lemma scan_digits_stop acc rest : starts_digit 10 rest = false → scan_digits 10 acc rest = (acc, rest).
Proof. destruct rest as [|c rest]; [done|]. simpl. by destruct (digit_val 10 c). Qed.

(** Reading back ["%ld"], with whatever follows it. *)
Lemma scan_number_fmt z rest :
  starts_digit 10 rest = false →
  scan_number 10 (fmt_d z +:+ rest) = Some (z <? 0, Z.abs z, rest).
Proof.
  intros Hr. assert (∀ x : N, scan_number 10 (pretty x +:+ rest) = Some (false, Z.of_N x, rest) ∧
    scan_number 10 (String "-" (pretty x +:+ rest)) = Some (true, Z.of_N x, rest)) as Hx.
  { intros x. pose proof (scan_digits_app x rest) as Hs. rewrite (scan_digits_stop (Z.of_N x) rest) in Hs by done.
    destruct (pretty_N_head x) as (d & s' & Hd & E). rewrite E in *.
    change (String (pretty_N_char d) s' +:+ rest) with (String (pretty_N_char d) (s' +:+ rest)) in *.
    destruct (digit_head d (s' +:+ rest) Hd) as (H1 & H2 & H3). unfold scan_number. split.
    - rewrite H1, H2, scan_radix_10, H3, Hs. done.
    - change (skip_spaces (String "-" ?t)) with (String "-" t).
      change (scan_sign (String "-" ?t)) with (true, t). cbv beta iota.
      rewrite scan_radix_10, H3, Hs. done. }
  destruct z as [|p|p].
  - exact (proj1 (Hx 0%N)).
  - exact (proj1 (Hx (N.pos p))).
  - exact (proj2 (Hx (N.pos p))).
Qed.

Lemma scan_number_space s : scan_number 10 (String " " s) = scan_number 10 s.
Proof. done. Qed.

Lemma length_pretty_go k x s :
  (x < 10 ^ N.of_nat k)%N → (String.length (pretty_N_go x s) ≤ k + String.length s)%nat.
Proof.
  revert x s. induction k as [|k IH]; intros x s Hx.
  { assert (x = 0)%N as -> by (simpl in Hx; lia). done. }
  destruct (decide (x = 0)%N) as [->|Hne]; [rewrite pretty_N_go_0; lia|].
  rewrite pretty_N_go_step by lia. etrans; [apply IH|simpl; lia].
  apply N.Div0.div_lt_upper_bound. rewrite Nat2N.inj_succ, N.pow_succ_r' in Hx. lia.
Qed.

Lemma length_fmt_d k z :
  (0 < k)%nat → Z.abs z < 10 ^ Z.of_nat k → (String.length (fmt_d z) ≤ S k)%nat ∧
  (0 ≤ z → (String.length (fmt_d z) ≤ k)%nat).
Proof.
  intros Hk Hz. assert (∀ x : N, (x < 10 ^ N.of_nat k)%N → (String.length (pretty x) ≤ k)%nat) as Hx.
  { intros x Hx. unfold pretty, pretty_N. case_decide; [simpl; lia|].
    etrans; [by apply length_pretty_go|simpl; lia]. }
  assert (∀ x : N, Z.of_N x < 10 ^ Z.of_nat k → (x < 10 ^ N.of_nat k)%N) as Hz'.
  { intros x Hxz. apply N2Z.inj_lt. rewrite N2Z.inj_pow, nat_N_Z. exact Hxz. }
  destruct z as [|p|p].
  - simpl. lia.
  - assert (String.length (fmt_d (Z.pos p)) ≤ k)%nat by (apply (Hx (N.pos p)), Hz'; lia). lia.
  - split; [|lia]. change (fmt_d (Z.neg p)) with (String "-" (pretty (N.pos p))). cbn [String.length].
    apply le_n_S, Hx, Hz'. lia.
Qed.

Lemma strtake_whole n s : (String.length s ≤ n)%nat → strtake n s = s.
Proof. revert s. induction n; intros [|c s] H; simpl in *; [done|lia|done|]. by rewrite IHn by lia. Qed.
