(* ===== verification/Kernel.v ===== *)
(** * The kernel interface

    The WSL1 kernel and the next libc in the symbol chain are not part of the repository. They
    appear here as a parameter: one transition function [kstep] on an abstract world [W], indexed
    by the call made. [sym_next (f, ...)] and [syscall (SYS_f, ...)] of the sources both become
    the call [k_f]; a symbol that [dlsym] could not resolve answers [ENOSYS]. The constants are
    those of the x86-64 Linux headers. *)

From S2P Require Import Prelude.

Open Scope Z_scope.

(** ** errno values *)
Definition EPERM : Z := 1.
Definition ENOENT : Z := 2.
Definition ESRCH : Z := 3.
Definition EINTR : Z := 4.
Definition ENOEXEC : Z := 8.
Definition E2BIG : Z := 7.
Definition EBADF : Z := 9.
Definition EAGAIN : Z := 11.
Definition EWOULDBLOCK : Z := 11.
Definition EFAULT : Z := 14.
Definition EEXIST : Z := 17.
Definition ENODEV : Z := 19.
Definition EINVAL : Z := 22.
Definition ENFILE : Z := 23.
Definition EMFILE : Z := 24.
Definition ENOMEM : Z := 12.
Definition ENOSPC : Z := 28.
Definition ENAMETOOLONG : Z := 36.
Definition ENOLCK : Z := 37.
Definition ENOSYS : Z := 38.
Definition ELOOP : Z := 40.
Definition ENOPROTOOPT : Z := 92.
Definition EOPNOTSUPP : Z := 95.

(** ** open, flock and fcntl constants *)
Definition O_RDONLY : Z := 0.
Definition O_WRONLY : Z := 1.
Definition O_RDWR : Z := 2.
Definition O_CREAT : Z := 64.
Definition O_EXCL : Z := 128.
Definition O_TRUNC : Z := 512.
Definition O_NONBLOCK : Z := 2048.
Definition O_DIRECTORY : Z := 65536.
Definition O_CLOEXEC : Z := 524288.
Definition O_PATH : Z := 2097152.
Definition O_TMPFILE : Z := 4259840.

Definition LOCK_SH : Z := 1.
Definition LOCK_EX : Z := 2.
Definition LOCK_NB : Z := 4.
Definition LOCK_UN : Z := 8.

Definition F_GETFD : Z := 1.
Definition F_SETFD : Z := 2.
Definition F_GETFL : Z := 3.
Definition F_SETFL : Z := 4.
Definition F_GETLK : Z := 5.
Definition F_SETLK : Z := 6.
Definition F_SETLKW : Z := 7.
Definition F_OFD_GETLK : Z := 36.
Definition F_OFD_SETLK : Z := 37.
Definition F_OFD_SETLKW : Z := 38.
Definition F_DUPFD_CLOEXEC : Z := 1030.
Definition FD_CLOEXEC : Z := 1.

Definition F_RDLCK : Z := 0.
Definition F_WRLCK : Z := 1.
Definition F_UNLCK : Z := 2.
Definition SEEK_SET : Z := 0.
Definition SEEK_CUR : Z := 1.
Definition SEEK_END : Z := 2.

(** ** ABI structures *)
Record stat := { st_dev : Z; st_ino : Z; st_mode : Z }.

Record timespec := { tv_sec : Z; tv_nsec : Z }.
Record timeval := { tvu_sec : Z; tvu_usec : Z }.

Record flock_t := { l_type : Z; l_whence : Z; l_start : Z; l_len : Z; l_pid : Z }.

Record pollfd := { pfd : Z; pevents : Z; prevents : Z }.

(** The three sets of select, bit [fd] standing for descriptor [fd]; [None] is a null pointer. *)
(** ** File types and paths *)
Definition S_IFMT : Z := 61440.
Definition AT_SYMLINK_NOFOLLOW : Z := 256.
Definition PATH_MAX : nat := Z.to_nat 4096.

Record fdsets := { rset : option Z; wset : option Z; eset : option Z }.

(** A scatter/gather element: the bytes to write, or the room to read into. *)
Record iovec := { iov_base : Z; iov_len : Z }.

(** Kernel [struct termios], the fields the library looks at. *)
Record termios := { c_lflag : Z; c_vmin : Z; c_vtime : Z }.

(** The third argument of [ioctl]: an integer, a [struct termios], or some other object. *)
Inductive ioctl_arg := io_int (z : Z) | io_termios (t : termios) | io_pid (p : Z).

Inductive fcntl_arg := arg_int (z : Z) | arg_flock (l : flock_t).

(** [struct rusage], the two CPU times. *)
Record rusage := { ru_utime : timeval; ru_stime : timeval }.

(** [struct epoll_event]. *)
Record epoll_event := { ep_events : Z; ep_data : Z }.

(** [struct statx], the fields the library looks at or fills in. *)
Record statx_t := {
  stx_mask : Z;
  stx_attributes : Z;
  stx_mode : Z;
  stx_ino : Z;
  stx_attributes_mask : Z;
  stx_btime : timespec;
  stx_ctime : timespec;
  stx_mtime : timespec;
  stx_dev_major : Z;
  stx_dev_minor : Z;
  stx_mnt_id : Z;
}.

#[export] Instance stat_eq_dec : EqDecision stat.
Proof. solve_decision. Defined.
#[export] Instance timespec_eq_dec : EqDecision timespec.
Proof. solve_decision. Defined.
#[export] Instance flock_t_eq_dec : EqDecision flock_t.
Proof. solve_decision. Defined.
#[export] Instance pollfd_eq_dec : EqDecision pollfd.
Proof. solve_decision. Defined.

(** ** Calls

    The index is the type of what the call hands back on success, output buffers included. *)
Inductive call : Type → Type :=
| k_open (path : string) (flags mode : Z) : call Z
| k_openat (dirfd : Z) (path : string) (flags mode : Z) : call Z
| k_close (fd : Z) : call unit
| k_close_range (first last flags : Z) : call unit
| k_fstat (fd : Z) : call stat
| k_flock (fd op : Z) : call unit
| k_fcntl (fd cmd : Z) (arg : fcntl_arg) : call Z
| k_fcntl_lock (fd cmd : Z) (fl : flock_t) : call (Z * flock_t)
| k_dup2 (oldfd newfd : Z) : call Z
| k_dup3 (oldfd newfd flags : Z) : call Z
| k_getdents64 (fd bufsize : Z) : call (list string)
| k_read (fd count : Z) : call string
| k_write (fd : Z) (buf : string) : call Z
| k_pread (fd count offset : Z) : call string
| k_pwrite (fd : Z) (buf : string) (offset : Z) : call Z
| k_lseek (fd offset whence : Z) : call Z
| k_readv (fd : Z) (iov : list iovec) : call Z
| k_writev (fd : Z) (iov : list iovec) : call Z
| k_preadv (fd : Z) (iov : list iovec) (offset : Z) : call Z
| k_pwritev (fd : Z) (iov : list iovec) (offset : Z) : call Z
| k_fsync (fd : Z) : call Z
| k_fdatasync (fd : Z) : call Z
| k_ftruncate (fd length : Z) : call Z
| k_fchmod (fd mode : Z) : call Z
| k_fchown (fd owner group : Z) : call Z
| k_fallocate (fd mode offset len : Z) : call Z
| k_fgetxattr (fd : Z) (name : string) (size : Z) : call string
| k_fsetxattr (fd : Z) (name value : string) (flags : Z) : call Z
| k_flistxattr (fd size : Z) : call string
| k_fremovexattr (fd : Z) (name : string) : call Z
| k_poll (fds : list pollfd) (timeout : Z) : call (Z * list Z)
| k_ppoll (fds : list pollfd) (tmo : option timespec) (sigmask : option Z) : call (Z * list Z)
| k_select (nfds : Z) (sets : fdsets) (tv : option timeval)
    : call (Z * fdsets * option timeval)
| k_ioctl (fd op : Z) (arg : ioctl_arg) : call (Z * ioctl_arg)
| k_mmap (addr length prot flags fd offset : Z) : call Z
| k_pselect (nfds : Z) (sets : fdsets) (tmo : option timespec) (sigmask : option Z)
    : call (Z * fdsets)
| k_ttyname_r (fd size : Z) : call string
| k_process_vm_read (pid count : Z) (remote : iovec) : call string
| k_process_vm_write (pid : Z) (buf : string) (remote : iovec) : call Z
| k_process_vm_readv (pid : Z) (local : list iovec) (remote : iovec) : call Z
| k_process_vm_writev (pid : Z) (local : list iovec) (remote : iovec) : call Z
| k_getrandom (count : Z) : call string
| k_unlinkat (dirfd : Z) (path : string) (flags : Z) : call unit
| k_clock_gettime (clk : Z) (tp : bool) : call timespec
| k_clock_getres (clk : Z) (res : bool) : call timespec
| k_clock_nanosleep (clk flags : Z) (req : option timespec) (rem : bool) : call (Z * option timespec)
| k_getrusage (who : Z) : call rusage
| k_gettid : call Z
| k_munmap (addr length : Z) : call unit
| k_mlock (addr length : Z) : call unit
| k_msync (addr length flags : Z) : call unit
| k_mincore (addr length : Z) : call (list Z)
| k_epoll_create (size : Z) : call Z
| k_epoll_create1 (flags : Z) : call Z
| k_epoll_ctl (epfd op fd : Z) (event : option epoll_event) : call unit
| k_epoll_wait (epfd maxevents timeout : Z) : call (list epoll_event)
| k_epoll_pwait (epfd maxevents timeout : Z) (sigmask : option Z) : call (list epoll_event)
| k_epoll_pwait2 (epfd maxevents : Z) (timeout : option timespec) (sigmask : option Z)
    : call (list epoll_event)
| k_copy_file_range (fd_in : Z) (off_in : option Z) (fd_out : Z) (off_out : option Z)
    (len flags : Z) : call (Z * option Z * option Z)
| k_getsockopt (fd level optname : Z) (optlen : option Z) : call string
| k_setsockopt (fd level optname : Z) (optval : string) : call Z
| k_getsockname (fd : Z) : call Z
| k_linkat (olddirfd : Z) (oldpath : string) (newdirfd : Z) (newpath : string) (flags : Z)
    : call Z
| k_renameat (olddirfd : Z) (oldpath : string) (newdirfd : Z) (newpath : string) : call Z
| k_renameat2 (olddirfd : Z) (oldpath : string) (newdirfd : Z) (newpath : string) (flags : Z)
    : call Z
| k_statx (dirfd : Z) (path : string) (flags mask : Z) : call statx_t
| k_fstatat (dirfd : Z) (path : string) (flags : Z) : call stat
| k_getxattr (path name : string) (size : Z) : call string
| k_lgetxattr (path name : string) (size : Z) : call string
| k_execve (path : string) (argv envp : option (list string)) : call unit
| k_fexecve (fd : Z) (argv envp : option (list string)) : call unit
| k_execv (path : string) (argv : option (list string)) : call unit
| k_execvp (file : string) (argv : option (list string)) : call unit
| k_execvpe (file : string) (argv envp : option (list string)) : call unit
| k_execveat (dirfd : Z) (path : option string) (argv envp : option (list string)) (flags : Z)
    : call unit
| k_system (cmd : option string) : call Z
| k_popen (cmd mode : string) : call Z
| k_posix_spawn (path : string) (argv envp : option (list string)) : call (Z * Z)
| k_posix_spawnp (file : string) (argv envp : option (list string)) : call (Z * Z)
| k_isatty (fd : Z) : call Z
| k_tcgetattr (fd : Z) : call termios
| k_tcsetattr (fd actions : Z) (t : termios) : call Z
| k_tcsetpgrp (fd pgrp : Z) : call Z
| k_tcgetpgrp (fd : Z) : call Z
| k_tcgetsid (fd : Z) : call Z
| k_tcdrain (fd : Z) : call Z
| k_tcsendbreak (fd duration : Z) : call Z
| k_tcflush (fd queue : Z) : call Z
| k_tcflow (fd action : Z) : call Z
| k_ttyname (fd : Z) : call string
| k_kill (pid sig : Z) : call unit
| k_usleep (usec : Z) : call unit
| k_writev_text (fd : Z) (bufs : list string) : call Z
| k_syscall (number : Z) (args : list Z) : call Z.

(** [k_process_vm_read] and [k_process_vm_write] are process_vm_readv and process_vm_writev with a
    single local buffer, whose contents are then part of the call; [k_writev_text] is writev with the bytes of
    its buffers; [k_fcntl_lock] is fcntl with a
    [struct flock], which the kernel may fill in. The exec calls succeed ([inl]) by replacing the
    image of the process: code after them runs only when they fail. [k_clock_nanosleep] and the
    spawn calls answer with an error number of their own rather than through errno.
    The boolean arguments [tp], [res] and [rem] of the clock calls say that the output pointer is
    not NULL. *)

(** The calls by which the library keeps its own books: descriptor numbers, locks on its probes,
    the files of /proc it reads. *)
Definition bookkeeping {R} (c : call R) : bool :=
  match c with
  | k_open _ _ _ | k_close _ | k_fstat _ | k_flock _ _ | k_fcntl _ _ _ | k_getdents64 _ _
  | k_read _ _ => true
  | _ => false
  end.

(** The kernel as a parameter: every call either succeeds ([inl]) or fails with an errno
    ([inr]), and moves the world. [kpid] is the process id [getpid] reports. *)
Class Kernel (W : Type) := {
  kstep : ∀ {R}, call R → W → (R + Z) * W;
  kpid : W → Z;
}.

(** No call changes the identity of the calling process. *)
Class KernelPid (W : Type) `{!Kernel W} : Prop :=
  kstep_pid R (c : call R) w : kpid (snd (kstep c w)) = kpid w.

(** Worlds the process can bring about by its own calls. *)
Definition wstep {W} `{!Kernel W} (w w' : W) : Prop :=
  ∃ R (c : call R), w' = snd (kstep c w).
Definition wreach {W} `{!Kernel W} : relation W := rtc wstep.

Lemma wreach_pid {W} `{!Kernel W, !KernelPid W} (w w' : W) : wreach w w' → kpid w' = kpid w.
Proof.
  induction 1 as [w|w1 w2 w3 (R & c & ->) _ IH]; [done|]. rewrite IH. apply kstep_pid.
Qed.
