(* ===== verification/State.v ===== *)
(** * The library's memory and the state its code runs in

    One record per C structure, one field per static object of the library, and the setters.
    [st W] is what a shim runs in: the memory of the address space, the kernel's world (which
    holds the calling process and its descriptor table) and the calling thread's [errno]. Two
    processes that share an address space (a [vfork] child and its parent) run in states with
    the same [mem] and different worlds. *)

From S2P Require Import Prelude Kernel.

Open Scope Z_scope.

(** ** synth.h: struct synth_override, struct synth_entry *)
Record synth_override := { ov_pid : Z; ov_starttime : Z; ov_fd : Z }.

Definition SYNTH_OVERRIDE_SLOTS : nat := 4.

(** The operation tables of the library, by identity: [tty_ops] of tty.c, [mmap_min_addr_ops] and
    [proc_pid_mem_ops] of proc.c; [h_null] is the null pointer of a slot never registered. *)
Inductive handler := h_null | h_tty | h_mmap_min_addr | h_proc_pid_mem.

(** What [void *userptr] holds: a slot of [tty_table], or a pid cast to a pointer. *)
Inductive userptr := up_null | up_tty (i : nat) | up_pid (pid : Z).

Record synth_entry := {
  refcount : Z;
  probe_fd : Z;
  e_stat : stat;
  e_ops : handler;
  pos : Z;
  e_userptr : userptr;
  e_flags : Z;
  install_pid : Z;
  install_starttime : Z;
  probe_overrides : list synth_override;
}.

(** ** tty.c: struct tty_state *)
Record tty_state := {
  claimed : Z;
  canon : Z;
  nonblock : Z;
  real_fd : Z;
  real_overrides : list synth_override;
  vmin : Z;
  vtime : Z;
}.

(** ** synth.c: struct process *)
Record process := { p_starttime : Z; p_pid : Z }.

(** The [atomic_int] objects registered with internal.c. *)
Inductive internal_slot := s_debugfd | s_mount_fd.

(** ** The static objects *)
Record mem := {
  options : list (string * string);
  env_disabled : bool;
  synth_table : list synth_entry;
  synth_live_entries : Z;
  synth_acquire_lock : bool;
  starttime_cache : process;
  tty_table : list tty_state;
  registry : list (option internal_slot);
  registry_count : Z;
  debugfd : Z;
  mount_fd : Z;
}.

Record st (W : Type) := mkst { s_mem : mem; s_world : W; s_errno : Z }.
Arguments mkst {W}.
Arguments s_mem {W}.
Arguments s_world {W}.
Arguments s_errno {W}.

#[export] Instance synth_override_eq_dec : EqDecision synth_override.
Proof. solve_decision. Defined.
#[export] Instance handler_eq_dec : EqDecision handler.
Proof. solve_decision. Defined.
#[export] Instance userptr_eq_dec : EqDecision userptr.
Proof. solve_decision. Defined.
#[export] Instance synth_entry_eq_dec : EqDecision synth_entry.
Proof. solve_decision. Defined.
#[export] Instance internal_slot_eq_dec : EqDecision internal_slot.
Proof. solve_decision. Defined.

(** ** Setters *)
Definition set_ov_pid x (r : synth_override) : synth_override :=
  {| ov_pid := x; ov_starttime := ov_starttime r; ov_fd := ov_fd r |}.
Definition set_ov_starttime x (r : synth_override) : synth_override :=
  {| ov_pid := ov_pid r; ov_starttime := x; ov_fd := ov_fd r |}.
Definition set_ov_fd x (r : synth_override) : synth_override :=
  {| ov_pid := ov_pid r; ov_starttime := ov_starttime r; ov_fd := x |}.
Definition set_refcount x (r : synth_entry) : synth_entry :=
  {| refcount := x; probe_fd := probe_fd r; e_stat := e_stat r; e_ops := e_ops r; pos := pos
     r; e_userptr := e_userptr r; e_flags := e_flags r; install_pid := install_pid r;
     install_starttime := install_starttime r; probe_overrides := probe_overrides r |}.
Definition set_probe_fd x (r : synth_entry) : synth_entry :=
  {| refcount := refcount r; probe_fd := x; e_stat := e_stat r; e_ops := e_ops r; pos := pos
     r; e_userptr := e_userptr r; e_flags := e_flags r; install_pid := install_pid r;
     install_starttime := install_starttime r; probe_overrides := probe_overrides r |}.
Definition set_e_stat x (r : synth_entry) : synth_entry :=
  {| refcount := refcount r; probe_fd := probe_fd r; e_stat := x; e_ops := e_ops r; pos :=
     pos r; e_userptr := e_userptr r; e_flags := e_flags r; install_pid := install_pid r;
     install_starttime := install_starttime r; probe_overrides := probe_overrides r |}.
Definition set_e_ops x (r : synth_entry) : synth_entry :=
  {| refcount := refcount r; probe_fd := probe_fd r; e_stat := e_stat r; e_ops := x; pos :=
     pos r; e_userptr := e_userptr r; e_flags := e_flags r; install_pid := install_pid r;
     install_starttime := install_starttime r; probe_overrides := probe_overrides r |}.
Definition set_pos x (r : synth_entry) : synth_entry :=
  {| refcount := refcount r; probe_fd := probe_fd r; e_stat := e_stat r; e_ops := e_ops r;
     pos := x; e_userptr := e_userptr r; e_flags := e_flags r; install_pid := install_pid r;
     install_starttime := install_starttime r; probe_overrides := probe_overrides r |}.
Definition set_e_userptr x (r : synth_entry) : synth_entry :=
  {| refcount := refcount r; probe_fd := probe_fd r; e_stat := e_stat r; e_ops := e_ops r;
     pos := pos r; e_userptr := x; e_flags := e_flags r; install_pid := install_pid r;
     install_starttime := install_starttime r; probe_overrides := probe_overrides r |}.
Definition set_e_flags x (r : synth_entry) : synth_entry :=
  {| refcount := refcount r; probe_fd := probe_fd r; e_stat := e_stat r; e_ops := e_ops r;
     pos := pos r; e_userptr := e_userptr r; e_flags := x; install_pid := install_pid r;
     install_starttime := install_starttime r; probe_overrides := probe_overrides r |}.
Definition set_install_pid x (r : synth_entry) : synth_entry :=
  {| refcount := refcount r; probe_fd := probe_fd r; e_stat := e_stat r; e_ops := e_ops r;
     pos := pos r; e_userptr := e_userptr r; e_flags := e_flags r; install_pid := x;
     install_starttime := install_starttime r; probe_overrides := probe_overrides r |}.
Definition set_install_starttime x (r : synth_entry) : synth_entry :=
  {| refcount := refcount r; probe_fd := probe_fd r; e_stat := e_stat r; e_ops := e_ops r;
     pos := pos r; e_userptr := e_userptr r; e_flags := e_flags r; install_pid := install_pid
     r; install_starttime := x; probe_overrides := probe_overrides r |}.
Definition set_probe_overrides x (r : synth_entry) : synth_entry :=
  {| refcount := refcount r; probe_fd := probe_fd r; e_stat := e_stat r; e_ops := e_ops r;
     pos := pos r; e_userptr := e_userptr r; e_flags := e_flags r; install_pid := install_pid
     r; install_starttime := install_starttime r; probe_overrides := x |}.
Definition set_claimed x (r : tty_state) : tty_state :=
  {| claimed := x; canon := canon r; nonblock := nonblock r; real_fd := real_fd r;
     real_overrides := real_overrides r; vmin := vmin r; vtime := vtime r |}.
Definition set_canon x (r : tty_state) : tty_state :=
  {| claimed := claimed r; canon := x; nonblock := nonblock r; real_fd := real_fd r;
     real_overrides := real_overrides r; vmin := vmin r; vtime := vtime r |}.
Definition set_nonblock x (r : tty_state) : tty_state :=
  {| claimed := claimed r; canon := canon r; nonblock := x; real_fd := real_fd r;
     real_overrides := real_overrides r; vmin := vmin r; vtime := vtime r |}.
Definition set_real_fd x (r : tty_state) : tty_state :=
  {| claimed := claimed r; canon := canon r; nonblock := nonblock r; real_fd := x;
     real_overrides := real_overrides r; vmin := vmin r; vtime := vtime r |}.
Definition set_real_overrides x (r : tty_state) : tty_state :=
  {| claimed := claimed r; canon := canon r; nonblock := nonblock r; real_fd := real_fd r;
     real_overrides := x; vmin := vmin r; vtime := vtime r |}.
Definition set_vmin x (r : tty_state) : tty_state :=
  {| claimed := claimed r; canon := canon r; nonblock := nonblock r; real_fd := real_fd r;
     real_overrides := real_overrides r; vmin := x; vtime := vtime r |}.
Definition set_vtime x (r : tty_state) : tty_state :=
  {| claimed := claimed r; canon := canon r; nonblock := nonblock r; real_fd := real_fd r;
     real_overrides := real_overrides r; vmin := vmin r; vtime := x |}.
Definition set_options x (r : mem) : mem :=
  {| options := x; env_disabled := env_disabled r; synth_table := synth_table r;
     synth_live_entries := synth_live_entries r; synth_acquire_lock := synth_acquire_lock r;
     starttime_cache := starttime_cache r; tty_table := tty_table r; registry := registry r;
     registry_count := registry_count r; debugfd := debugfd r; mount_fd := mount_fd r |}.
Definition set_env_disabled x (r : mem) : mem :=
  {| options := options r; env_disabled := x; synth_table := synth_table r;
     synth_live_entries := synth_live_entries r; synth_acquire_lock := synth_acquire_lock r;
     starttime_cache := starttime_cache r; tty_table := tty_table r; registry := registry r;
     registry_count := registry_count r; debugfd := debugfd r; mount_fd := mount_fd r |}.
Definition set_synth_table x (r : mem) : mem :=
  {| options := options r; env_disabled := env_disabled r; synth_table := x;
     synth_live_entries := synth_live_entries r; synth_acquire_lock := synth_acquire_lock r;
     starttime_cache := starttime_cache r; tty_table := tty_table r; registry := registry r;
     registry_count := registry_count r; debugfd := debugfd r; mount_fd := mount_fd r |}.
Definition set_synth_live_entries x (r : mem) : mem :=
  {| options := options r; env_disabled := env_disabled r; synth_table := synth_table r;
     synth_live_entries := x; synth_acquire_lock := synth_acquire_lock r; starttime_cache :=
     starttime_cache r; tty_table := tty_table r; registry := registry r; registry_count :=
     registry_count r; debugfd := debugfd r; mount_fd := mount_fd r |}.
Definition set_synth_acquire_lock x (r : mem) : mem :=
  {| options := options r; env_disabled := env_disabled r; synth_table := synth_table r;
     synth_live_entries := synth_live_entries r; synth_acquire_lock := x; starttime_cache :=
     starttime_cache r; tty_table := tty_table r; registry := registry r; registry_count :=
     registry_count r; debugfd := debugfd r; mount_fd := mount_fd r |}.
Definition set_starttime_cache x (r : mem) : mem :=
  {| options := options r; env_disabled := env_disabled r; synth_table := synth_table r;
     synth_live_entries := synth_live_entries r; synth_acquire_lock := synth_acquire_lock r;
     starttime_cache := x; tty_table := tty_table r; registry := registry r; registry_count
     := registry_count r; debugfd := debugfd r; mount_fd := mount_fd r |}.
Definition set_tty_table x (r : mem) : mem :=
  {| options := options r; env_disabled := env_disabled r; synth_table := synth_table r;
     synth_live_entries := synth_live_entries r; synth_acquire_lock := synth_acquire_lock r;
     starttime_cache := starttime_cache r; tty_table := x; registry := registry r;
     registry_count := registry_count r; debugfd := debugfd r; mount_fd := mount_fd r |}.
Definition set_registry x (r : mem) : mem :=
  {| options := options r; env_disabled := env_disabled r; synth_table := synth_table r;
     synth_live_entries := synth_live_entries r; synth_acquire_lock := synth_acquire_lock r;
     starttime_cache := starttime_cache r; tty_table := tty_table r; registry := x;
     registry_count := registry_count r; debugfd := debugfd r; mount_fd := mount_fd r |}.
Definition set_registry_count x (r : mem) : mem :=
  {| options := options r; env_disabled := env_disabled r; synth_table := synth_table r;
     synth_live_entries := synth_live_entries r; synth_acquire_lock := synth_acquire_lock r;
     starttime_cache := starttime_cache r; tty_table := tty_table r; registry := registry r;
     registry_count := x; debugfd := debugfd r; mount_fd := mount_fd r |}.
Definition set_debugfd x (r : mem) : mem :=
  {| options := options r; env_disabled := env_disabled r; synth_table := synth_table r;
     synth_live_entries := synth_live_entries r; synth_acquire_lock := synth_acquire_lock r;
     starttime_cache := starttime_cache r; tty_table := tty_table r; registry := registry r;
     registry_count := registry_count r; debugfd := x; mount_fd := mount_fd r |}.
Definition set_mount_fd x (r : mem) : mem :=
  {| options := options r; env_disabled := env_disabled r; synth_table := synth_table r;
     synth_live_entries := synth_live_entries r; synth_acquire_lock := synth_acquire_lock r;
     starttime_cache := starttime_cache r; tty_table := tty_table r; registry := registry r;
     registry_count := registry_count r; debugfd := debugfd r; mount_fd := x |}.

(** ** Static initialisation *)
Definition free_override : synth_override := {| ov_pid := 0; ov_starttime := 0; ov_fd := 0 |}.
Definition zero_stat : stat := {| st_dev := 0; st_ino := 0; st_mode := 0 |}.

Definition free_entry : synth_entry :=
  {| refcount := 0; probe_fd := 0; e_stat := zero_stat; e_ops := h_null; pos := 0;
     e_userptr := up_null; e_flags := 0; install_pid := 0; install_starttime := 0;
     probe_overrides := replicate SYNTH_OVERRIDE_SLOTS free_override |}.

Definition free_tty : tty_state :=
  {| claimed := 0; canon := 0; nonblock := 0; real_fd := 0;
     real_overrides := replicate SYNTH_OVERRIDE_SLOTS free_override; vmin := 0; vtime := 0 |}.

Definition SYNTH_TABLE_SIZE : nat := 64.
Definition TTY_TABLE_SIZE : nat := 64.
Definition MAX_INTERNAL_FDS : nat := 16.
#[global] Arguments SYNTH_TABLE_SIZE : simpl never.
#[global] Arguments TTY_TABLE_SIZE : simpl never.
#[global] Arguments MAX_INTERNAL_FDS : simpl never.

Definition init_mem : mem :=
  {| options := []; env_disabled := false;
     synth_table := replicate SYNTH_TABLE_SIZE free_entry; synth_live_entries := 0;
     synth_acquire_lock := false; starttime_cache := {| p_starttime := 0; p_pid := 0 |};
     tty_table := replicate TTY_TABLE_SIZE free_tty;
     registry := replicate MAX_INTERNAL_FDS None; registry_count := 0;
     debugfd := -2; mount_fd := -2 |}.

(** ** Primitive steps of the code *)
Section prim.
Context {W : Type} `{!Kernel W}.

(** A kernel call as C code sees it: [None] is the return value [-1] with [errno] set; on
    success [errno] is left alone. *)
Definition sys {R} (c : call R) : prog (st W) (option R) :=
  λ s, match kstep c (s_world s) with
       | (inl r, w) => Ret (Some r) (mkst (s_mem s) w (s_errno s))
       | (inr e, w) => Ret None (mkst (s_mem s) w e)
       end.

Definition getpid : prog (st W) Z := gets (λ s, kpid (s_world s)).

Definition get_errno : prog (st W) Z := gets s_errno.
Definition set_errno (e : Z) : prog (st W) unit :=
  modify (λ s, mkst (s_mem s) (s_world s) e).

Definition getm {A} (f : mem → A) : prog (st W) A := gets (λ s, f (s_mem s)).
Definition setm (f : mem → mem) : prog (st W) unit :=
  modify (λ s, mkst (f (s_mem s)) (s_world s) (s_errno s)).

(** [preserve_errno ()] up to the end of the scope [m]. *)
Definition preserve_errno {A} (m : prog (st W) A) : prog (st W) A :=
  let* saved := get_errno in
  let* a := m in
  set_errno saved ;;*
  ret a.

(** [return errno = e, -1]. *)
Definition fail_with {R} (e : Z) : prog (st W) (option R) :=
  set_errno e ;;* ret None.
End prim.

#[export] Instance synth_entry_inhabited : Inhabited synth_entry := populate free_entry.
#[export] Instance tty_state_inhabited : Inhabited tty_state := populate free_tty.
#[export] Instance synth_override_inhabited : Inhabited synth_override := populate free_override.

(** Element [i] of a static array; the sources only use indices in range. *)
Definition entry_at (m : mem) (i : nat) : synth_entry := synth_table m !!! i.
Definition tty_at (m : mem) (i : nat) : tty_state := tty_table m !!! i.
Definition upd_entry (i : nat) (f : synth_entry → synth_entry) (m : mem) : mem :=
  set_synth_table (alter f i (synth_table m)) m.
Definition upd_tty (i : nat) (f : tty_state → tty_state) (m : mem) : mem :=
  set_tty_table (alter f i (tty_table m)) m.

(** ** Frames of the primitive steps *)
Section prim_frames.
Context {W : Type} `{!Kernel W}.

Lemma within_sys_mem {R} (c : call R) : within (same s_mem) (sys c).
Proof. intros s. unfold sys. by destruct (kstep c (s_world s)) as [[r|e] w]. Qed.

Lemma within_sys {R} (Rel : relation (st W)) (c : call R) :
  (∀ m w w' e e', Rel (mkst m w e) (mkst m w' e')) → within Rel (sys c).
Proof.
  intros H s. unfold sys. destruct s as [m w e]. simpl.
  by destruct (kstep c w) as [[r|e'] w'].
Qed.

Lemma within_setm (Rel : relation (st W)) f :
  (∀ m w e, Rel (mkst m w e) (mkst (f m) w e)) → within Rel (setm f).
Proof. intros H [m w e]. apply H. Qed.

Lemma within_set_errno (Rel : relation (st W)) e' :
  (∀ m w e, Rel (mkst m w e) (mkst m w e')) → within Rel (set_errno e').
Proof. intros H [m w e]. apply H. Qed.

Lemma within_getm {A} (Rel : relation (st W)) `{!PreOrder Rel} (f : mem → A) :
  within Rel (getm f).
Proof. apply within_gets, _. Qed.

Lemma within_getpid (Rel : relation (st W)) `{!PreOrder Rel} : within Rel getpid.
Proof. apply within_gets, _. Qed.

Lemma within_get_errno (Rel : relation (st W)) `{!PreOrder Rel} : within Rel get_errno.
Proof. apply within_gets, _. Qed.

Lemma sys_Ret {R} (c : call R) s : ∃ o s', sys c s = Ret o s' ∧ s_mem s' = s_mem s.
Proof. unfold sys. destruct (kstep c (s_world s)) as [[r|e] w]; eauto. Qed.
End prim_frames.
#[export] Hint Resolve within_getm within_getpid within_get_errno : within.

(** ** Running a program one step at a time *)
Create Rewrite HintDb run.

Section running.
Context {W : Type} `{!Kernel W}.

Lemma bind_getm {A B} (f : mem → A) (k : A → prog (st W) B) s :
  bind (getm f) k s = k (f (s_mem s)) s.
Proof. done. Qed.

Lemma bind_setm {B} f (k : unit → prog (st W) B) s :
  bind (setm f) k s = k tt (mkst (f (s_mem s)) (s_world s) (s_errno s)).
Proof. done. Qed.

Lemma bind_set_errno {B} e (k : unit → prog (st W) B) s :
  bind (set_errno e) k s = k tt (mkst (s_mem s) (s_world s) e).
Proof. done. Qed.

Lemma bind_get_errno {B} (k : Z → prog (st W) B) s : bind get_errno k s = k (s_errno s) s.
Proof. done. Qed.

Lemma bind_getpid {B} (k : Z → prog (st W) B) s : bind getpid k s = k (kpid (s_world s)) s.
Proof. done. Qed.

Lemma bind_ret {A B} (a : A) (k : A → prog (st W) B) s : bind (ret a) k s = k a s.
Proof. done. Qed.

Lemma ret_run {A} (a : A) (s : st W) : ret a s = Ret a s.
Proof. done. Qed.

Lemma getm_run {A} (f : mem → A) (s : st W) : getm f s = Ret (f (s_mem s)) s.
Proof. done. Qed.

Lemma setm_run f (s : st W) : setm f s = Ret tt (mkst (f (s_mem s)) (s_world s) (s_errno s)).
Proof. done. Qed.

Lemma sys_run {R} (c : call R) (s : st W) :
  ∃ o s', sys c s = Ret o s' ∧ s_mem s' = s_mem s ∧ wreach (s_world s) (s_world s').
Proof.
  unfold sys. assert (wstep (s_world s) (snd (kstep c (s_world s)))) as Hw by (by eexists _, c).
  destruct (kstep c (s_world s)) as [[r|e] w]; do 2 eexists; (split; [done|]);
    (split; [done|by apply rtc_once]).
Qed.

Lemma sys_step {A} (c : call A) (s s1 : st W) r :
  sys c s = Ret r s1 →
  match r with
  | Some a => kstep c (s_world s) = (inl a, s_world s1)
  | None => ∃ e, kstep c (s_world s) = (inr e, s_world s1)
  end.
Proof. unfold sys. destruct (kstep c (s_world s)) as [[a|e] w]; intros [= <- <-]; simpl; eauto. Qed.

Lemma sys_returns {A} (c : call A) (s : st W) : ∃ r s1, sys c s = Ret r s1.
Proof. unfold sys. destruct (kstep c (s_world s)) as [[r|e] w]; eauto. Qed.
End running.

#[export] Hint Rewrite @bind_getm @bind_setm @bind_set_errno @bind_get_errno @bind_getpid @bind_ret
  @bind_assoc @ret_run @getm_run @setm_run : run.

(** Step over memory accesses; over a kernel call, keeping what it cannot change. *)
Ltac run_simpl := autorewrite with run; cbn [s_mem s_world s_errno].
Ltac run_sys :=
  match goal with
  | |- context [bind (sys ?c) ?k ?s] =>
      let o := fresh "o" in let s' := fresh "s" in let E := fresh "E" in
      let Hm := fresh "Hm" in let Hw := fresh "Hw" in
      destruct (sys_run c s) as (o & s' & E & Hm & Hw);
      rewrite (bind_Ret _ _ _ _ _ E)
  end.

Lemma entry_at_upd_eq m i f :
  (i < length (synth_table m))%nat → entry_at (upd_entry i f m) i = f (entry_at m i).
Proof.
  intros Hi. unfold entry_at, upd_entry; simpl. rewrite !list_lookup_total_alt.
  destruct (lookup_lt_is_Some_2 _ _ Hi) as [x Hx].
  by rewrite list_lookup_alter_eq, Hx.
Qed.

Lemma entry_at_upd_ne m i j f :
  i ≠ j → entry_at (upd_entry i f m) j = entry_at m j.
Proof.
  intros Hij. unfold entry_at, upd_entry; simpl. rewrite !list_lookup_total_alt.
  by rewrite list_lookup_alter_ne.
Qed.

Lemma length_upd_entry m i f :
  length (synth_table (upd_entry i f m)) = length (synth_table m).
Proof. apply length_alter. Qed.

