(* ===== verification/Tunables.v ===== *)
(** * tunables.c: configuration from extended attributes

    The table of options filled by the constructor from the [user.wslcompat.*] attributes of the
    executable, the typed readers, and the enabled/disabled decision every shim starts with. *)

From S2P Require Import Prelude CString Kernel State.

Open Scope Z_scope.

Definition MAX_OPTIONS : nat := 32.
Definition KEY_BUF : nat := 64.
Definition VAL_BUF : nat := 512.
Definition LIST_BUF : nat := 1024.
Definition kPrefix : string := "user.wslcompat.".

(** ** The option table

    [lfind]/[lsearch] with [optcmp]: a linear search by key, the first match wins. *)
Fixpoint lfind (key : string) (l : list (string * string)) : option nat :=
  match l with
  | [] => None
  | (k, _) :: l' => if decide (k = key) then Some O else S <$> lfind key l'
  end.

Definition lsearch (e : string * string) (l : list (string * string)) :=
  match lfind (fst e) l with Some _ => l | None => l ++ [e] end.

(** [None] is the [-1] of the source. *)
Definition tunables_add_option (key val : string) (opts : list (string * string))
    : option (list (string * string)) :=
  if (MAX_OPTIONS <=? length opts)%nat then None
  else if negb (starts_with kPrefix key) then None
  else
    let key := strdrop (String.length kPrefix) key in
    Some (lsearch (snprintf_s KEY_BUF key, snprintf_s VAL_BUF val) opts).

(** ** Reading the attributes *)
Definition nul : Ascii.ascii := Ascii.Ascii false false false false false false false false.

(** The C string at the start of a byte buffer. *)
Definition cstr (b : string) : string := strtake (strchrnul b nul) b.

(** The NUL-separated names of an attribute list, in order. *)
Fixpoint nul_split_aux (cur : string) (b : string) : list string :=
  match b with
  | EmptyString => if decide (cur = "") then [] else [cur]
  | String c b' => if decide (c = nul) then cur :: nul_split_aux "" b'
                   else nul_split_aux (cur +:+ String c "") b'
  end.
Definition nul_split : string → list string := nul_split_aux "".

Section init.
Context {W : Type} `{!Kernel W}.

(** One iteration of the constructor's loop; [Some tt] is [break]. *)
Definition tunables_visit (fd : Z) (cur : string) : prog (st W) (option unit) :=
  if negb (starts_with kPrefix cur) then ret None
  else
    let* v := sys (k_fgetxattr fd cur (Z.of_nat VAL_BUF - 1)) in
    match v with
    | None => ret None
    | Some val =>
        let* opts := getm options in
        match tunables_add_option cur (cstr val) opts with
        | None => ret (Some tt)
        | Some opts' => setm (set_options opts') ;;* ret None
        end
    end.

Definition tunables_init : prog (st W) unit :=
  let* fd := sys (k_open "/proc/self/exe" (Z.lor O_RDONLY O_CLOEXEC) 0) in
  match fd with
  | None => ret tt
  | Some fd =>
      let* l := sys (k_flistxattr fd (Z.of_nat LIST_BUF - 1)) in
      match l with
      | Some b => if decide (b = "") then ret None else for_each (nul_split b) (tunables_visit fd)
      | None => ret None
      end ;;*
      sys (k_close fd) ;;* ret tt
  end.
End init.

(** ** Typed readers *)
Definition wslcompat_tunable_str (opts : list (string * string)) (key : string)
    (dflt : option string) : option string :=
  match lfind key opts with
  | Some i => snd <$> (opts !! i)
  | None => dflt
  end.

(** The bytes from [r->val] to the end of the static array: each value fills a buffer of
    [VAL_BUF] bytes, each key one of [KEY_BUF], unused bytes are zero. *)
Fixpoint zeros (n : nat) : string :=
  match n with O => EmptyString | S n' => String nul (zeros n') end.
Definition pad (n : nat) (s : string) : string := s +:+ zeros (n - String.length s).

Definition opts_bytes (l : list (string * string)) : string :=
  foldr (λ kv b, pad KEY_BUF (fst kv) +:+ pad VAL_BUF (snd kv) +:+ b) "" l.

Definition val_bytes (l : list (string * string)) : string :=
  match l with
  | [] => ""
  | (_, v) :: l' =>
      pad VAL_BUF v +:+ opts_bytes l' +:+ zeros ((MAX_OPTIONS - length l) * (KEY_BUF + VAL_BUF))
  end.

(** Distance to the first comma or NUL byte: [strchrnul (s, ',') - s]. *)
Fixpoint entry_len (b : string) : nat :=
  match b with
  | EmptyString => O
  | String c b' => if decide (c = nul) then O
                   else if decide (c = ","%char) then O else S (entry_len b')
  end.

(** The scan of [wslcompat_tunable_list]: at the top of the loop [p == s]; [b] is the memory from
    there on. A mismatch moves past the byte at [p], whether it is a comma or the terminator. *)
Fixpoint list_scan (fuel : nat) (b contains : string) : bool :=
  match fuel with
  | O => false
  | S fuel' =>
      match b with
      | EmptyString => false
      | String c _ =>
          if decide (c = nul) then false
          else
            let n := entry_len b in
            if Nat.eqb (String.length contains) n && String.eqb (strtake n b) contains
            then true
            else list_scan fuel' (strdrop (S n) b) contains
      end
  end.

Definition wslcompat_tunable_list (opts : list (string * string)) (key contains : string) : bool :=
  match lfind key opts with
  | None => false
  | Some i => let b := val_bytes (drop i opts) in list_scan (String.length b) b contains
  end.

Definition wslcompat_tunable_int (opts : list (string * string)) (key : string) (dflt : Z) : Z :=
  match wslcompat_tunable_str opts key None with
  | None => dflt
  | Some s => fst (strtol s 0)
  end.

Definition wslcompat_tunable_bool (opts : list (string * string)) (key : string) (dflt : bool)
    : bool :=
  match wslcompat_tunable_str opts key None with
  | None => dflt
  | Some s =>
      if String.eqb s "1" || String.eqb s "true" || String.eqb s "on" || String.eqb s "yes"
      then true
      else if String.eqb s "0" || String.eqb s "false" || String.eqb s "off" || String.eqb s "no"
      then false
      else dflt
  end.

(** ** The decision *)
Definition wslcompat_enabled (m : mem) (name : string) : bool :=
  if env_disabled m then false
  else if wslcompat_tunable_list (options m) "disabled" name then false
  else match wslcompat_tunable_str (options m) "enabled" None with
       | None => true
       | Some _ => wslcompat_tunable_list (options m) "enabled" name
       end.

(** [wslcompat_passthru (name)] at one call site: [cache] is the site's pair of statics, and the
    answer comes with their new contents. *)
Definition passthru_site (m : mem) (name : string) (cache : option (string * bool))
    : bool * option (string * bool) :=
  match cache with
  | Some (n, r) => if decide (n = name) then (r, cache)
                   else let r := negb (wslcompat_enabled m name) in (r, Some (name, r))
  | None => let r := negb (wslcompat_enabled m name) in (r, Some (name, r))
  end.

(** Without the cache: the options never change after the constructor, so every call site
    answers this ([passthru_site_sound] below). *)
Definition wslcompat_passthru {W} (name : string) : prog (st W) bool :=
  getm (λ m, negb (wslcompat_enabled m name)).

(** ** Reference definitions *)

(** The entries of a comma-separated list. *)
Fixpoint comma_split (s : string) : list string :=
  match s with
  | EmptyString => [""]
  | String c s' =>
      if decide (c = ","%char) then "" :: comma_split s'
      else match comma_split s' with
           | e :: es => String c e :: es
           | [] => [String c ""]
           end
  end.

Fixpoint nul_free (s : string) : bool :=
  match s with
  | EmptyString => true
  | String c s' => bool_decide (c ≠ nul) && nul_free s'
  end.

(** The first entry, and what follows its comma. *)
Fixpoint split_once (s : string) : string * option string :=
  match s with
  | EmptyString => ("", None)
  | String c s' =>
      if decide (c = ","%char) then ("", Some s')
      else let '(e, r) := split_once s' in (String c e, r)
  end.

Lemma comma_split_once s :
  comma_split s = fst (split_once s) ::
    match snd (split_once s) with Some r => comma_split r | None => [] end.
Proof.
  induction s as [|c s IH]; simpl; [done|].
  case_decide; [done|]. rewrite IH. by destruct (split_once s).
Qed.

Lemma split_once_scan s r :
  nul_free s = true →
  let b := s +:+ String nul r in
  entry_len b = String.length (fst (split_once s)) ∧
  strtake (entry_len b) b = fst (split_once s) ∧
  strdrop (S (entry_len b)) b =
    match snd (split_once s) with Some s' => s' +:+ String nul r | None => r end ∧
  (String.length (fst (split_once s)) ≤ String.length s)%nat ∧
  match snd (split_once s) with
  | Some s' => nul_free s' = true ∧ (String.length s' < String.length s)%nat
  | None => True
  end.
Proof.
  induction s as [|c s IH]; intros Hn; simpl in *.
  - done.
  - apply andb_true_iff in Hn as [Hc Hn]. apply bool_decide_eq_true in Hc.
    rewrite (decide_False (P := c = nul)) by done.
    case_decide as Hcomma; simpl.
    + split_and!; [done..|lia|done|lia].
    + specialize (IH Hn). destruct (split_once s) as [e o]. simpl in *.
      destruct IH as (E1 & E2 & E3 & E4 & E5).
      split_and!; [by rewrite E1|by rewrite E2|done|lia|]. destruct o; [|done].
      destruct E5. split; [done|lia].
Qed.

Lemma list_scan_step fuel c b contains :
  c ≠ nul →
  list_scan (S fuel) (String c b) contains =
  let n := entry_len (String c b) in
  if Nat.eqb (String.length contains) n && String.eqb (strtake n (String c b)) contains
  then true
  else list_scan fuel (strdrop (S n) (String c b)) contains.
Proof. intros Hc. cbn [list_scan]. by rewrite decide_False. Qed.

Lemma list_scan_split fuel s r contains :
  nul_free s = true → contains ≠ "" → (String.length s < fuel)%nat →
  list_scan fuel (s +:+ String nul (String nul r)) contains
  = bool_decide (contains ∈ comma_split s).
Proof.
  intros Hn Hc. revert s Hn. induction fuel as [|fuel IH]; intros s Hn Hf; [lia|].
  destruct (split_once_scan s (String nul r) Hn) as (E1 & E2 & E3 & E4 & E5).
  rewrite comma_split_once.
  destruct s as [|c s]; [simpl;
    symmetry; apply bool_decide_eq_false; set_solver|].
  simpl in Hn. apply andb_true_iff in Hn as [Hcn Hn]. apply bool_decide_eq_true in Hcn.
  change (String c s +:+ ?x) with (String c (s +:+ x)) in *.
  rewrite list_scan_step by done. cbv zeta. rewrite E2, E3.
  destruct (Nat.eqb _ _ && String.eqb _ _) eqn:Hm.
  - apply andb_true_iff in Hm as [_ Hm]. apply String.eqb_eq in Hm.
    symmetry. apply bool_decide_eq_true. rewrite Hm. constructor.
  - assert (contains ≠ fst (split_once (String c s))) as Hne.
    { intros ->. rewrite E1, Nat.eqb_refl, String.eqb_refl in Hm. done. }
    destruct (snd (split_once (String c s))) as [s'|].
    + destruct E5 as [Hn' Hlt]. rewrite IH by (done || lia).
      apply bool_decide_ext. set_solver.
    + destruct fuel; simpl;
        symmetry; apply bool_decide_eq_false; set_solver.
Qed.

Lemma string_app_assoc (a b c : string) : (a +:+ b) +:+ c = a +:+ (b +:+ c).
Proof.
  induction a as [|x a IH]; [done|].
  change (String x ((a +:+ b) +:+ c) = String x (a +:+ (b +:+ c))). by rewrite IH.
Qed.

Lemma string_length_app (a b : string) :
  String.length (a +:+ b) = (String.length a + String.length b)%nat.
Proof.
  induction a as [|x a IH]; [done|].
  change (S (String.length (a +:+ b)) = S (String.length a + String.length b)). by rewrite IH.
Qed.

Lemma pad_two n s :
  (String.length s + 2 ≤ n)%nat → ∃ r, pad n s = s +:+ String nul (String nul r).
Proof.
  intros H. unfold pad. destruct (n - String.length s)%nat as [|[|k]] eqn:E; [lia..|].
  exists (zeros k). done.
Qed.

Lemma lfind_Some key l i : lfind key l = Some i → ∃ v, l !! i = Some (key, v).
Proof.
  revert i. induction l as [|[k v] l IH]; intros i; simpl; [done|].
  case_decide as Hk; [intros [= <-]; subst; eauto|].
  destruct (lfind key l); simpl; [|done]. intros [= <-]. by apply IH.
Qed.

Lemma lfind_app_None key l l' : lfind key l = None → lfind key (l ++ l') = Nat.add (length l) <$> lfind key l'.
Proof.
  induction l as [|[k v] l IH]; simpl; [by destruct (lfind key l')|].
  case_decide; [done|]. destruct (lfind key l); [done|]. intros _. rewrite IH by done.
  by destruct (lfind key l').
Qed.

Lemma lfind_app_Some key l l' i : lfind key l = Some i → lfind key (l ++ l') = Some i.
Proof.
  revert i. induction l as [|[k v] l IH]; intros i; simpl; [done|].
  case_decide; [done|]. destruct (lfind key l); simpl; [|done]. intros [= <-].
  by rewrite (IH _ eq_refl).
Qed.

Lemma strtake_all n s : (String.length s ≤ n)%nat → strtake n s = s.
Proof.
  revert s. induction n as [|n IH]; intros [|c s] H; simpl in *; [done|lia|done|].
  rewrite IH by lia. done.
Qed.

Lemma tunable_str_elem opts key v :
  wslcompat_tunable_str opts key None = Some v → (key, v) ∈ opts.
Proof.
  unfold wslcompat_tunable_str. destruct (lfind key opts) as [i|] eqn:E; [|done].
  destruct (lfind_Some _ _ _ E) as [w Hw]. rewrite Hw. intros [= <-].
  by eapply list_elem_of_lookup_2.
Qed.

Definition fits_value (v : string) : Prop :=
  nul_free v = true ∧ (String.length v + 2 ≤ VAL_BUF)%nat.

Lemma tunable_list_scan opts key contains :
  (∀ v, wslcompat_tunable_str opts key None = Some v → fits_value v) → contains ≠ "" →
  wslcompat_tunable_list opts key contains =
  match wslcompat_tunable_str opts key None with
  | Some v => bool_decide (contains ∈ comma_split v)
  | None => false
  end.
Proof.
  unfold wslcompat_tunable_list, wslcompat_tunable_str. intros Hv Hc.
  destruct (lfind key opts) as [i|] eqn:Hf; [|done].
  destruct (lfind_Some _ _ _ Hf) as [v Hi]. rewrite Hi in *. simpl in *.
  destruct (Hv v eq_refl) as [Hn Hlen].
  rewrite (drop_S _ _ _ Hi). unfold val_bytes.
  destruct (pad_two VAL_BUF v Hlen) as [r ->]. rewrite string_app_assoc.
  apply list_scan_split; [done..|]. rewrite string_length_app. simpl. lia.
Qed.

(** ** Properties *)

(** C31: Reading a comma-separated tunable is membership in its entries, when every value fits its
    buffer with at least two terminators (the scan steps past the first of them). *)
Theorem tunable_list_member opts key v contains :
  wslcompat_tunable_str opts key None = Some v → fits_value v → contains ≠ "" →
  wslcompat_tunable_list opts key contains = bool_decide (contains ∈ comma_split v).
Proof.
  intros Hv Hf Hc. rewrite tunable_list_scan; [by rewrite Hv| |done].
  intros v'. rewrite Hv. by intros [= <-].
Qed.

Lemma tunable_list_member_witness :
  wslcompat_tunable_list [("debug", "1"); ("disabled", "fcntl,mmap")] "disabled" "mmap" = true ∧
  wslcompat_tunable_list [("debug", "1"); ("disabled", "fcntl,mmap")] "disabled" "map" = false.
Proof.
  split.
  - rewrite (tunable_list_member _ _ "fcntl,mmap"); [reflexivity..| |done].
    split; [reflexivity | vm_compute; lia].
  - rewrite (tunable_list_member _ _ "fcntl,mmap"); [reflexivity..| |done].
    split; [reflexivity | vm_compute; lia].
Defined.

(** A value that fills its buffer up to the last byte has a single terminator, which the scan
    steps over: it goes on in the next option's key and takes it for a list entry. *)
Theorem tunable_list_overrun :
  ∃ v, String.length v = (VAL_BUF - 1)%nat ∧ comma_split v = [v] ∧
    wslcompat_tunable_list [("disabled", v); ("mmap", "0")] "disabled" "mmap" = true.
Proof.
  exists (String.concat "" (repeat "x" (VAL_BUF - 1))).
  split_and!; vm_compute; reflexivity.
Qed.

(** Adding a tunable and reading it back: the first value given for a key is the one read, cut
    to what its buffer holds; other keys are unaffected. *)
Theorem add_option_lookup opts key val opts' :
  tunables_add_option (kPrefix +:+ key) val opts = Some opts' →
  (String.length key < KEY_BUF)%nat →
  wslcompat_tunable_str opts' key None =
    Some (default (snprintf_s VAL_BUF val) (wslcompat_tunable_str opts key None)) ∧
  (∀ k d, k ≠ key → wslcompat_tunable_str opts' k d = wslcompat_tunable_str opts k d).
Proof.
  unfold tunables_add_option. destruct (_ <=? _)%nat; [done|].
  rewrite starts_with_app, strdrop_app. cbn [negb]. intros [= <-] Hk.
  assert (snprintf_s KEY_BUF key = key) as ->.
  { apply strtake_all. unfold KEY_BUF in *. lia. }
  unfold lsearch, wslcompat_tunable_str. cbn [fst].
  destruct (lfind key opts) as [i|] eqn:E.
  - rewrite E. destruct (lfind_Some _ _ _ E) as [v ->]. done.
  - split.
    + rewrite (lfind_app_None _ _ _ E). simpl. rewrite decide_True by done. simpl.
      rewrite Nat.add_0_r, list_lookup_middle by done. done.
    + intros k d Hne. destruct (lfind k opts) as [i|] eqn:E'.
      * rewrite (lfind_app_Some _ _ _ _ E'). destruct (lfind_Some _ _ _ E') as [v Hv].
        by rewrite lookup_app_l by (by eapply lookup_lt_Some).
      * rewrite (lfind_app_None _ _ _ E'). simpl. by rewrite decide_False by done.
Qed.

Lemma add_option_lookup_witness :
  wslcompat_tunable_str [("debug", "3")] "debug" None = Some "3".
Proof.
  exact (proj1 (add_option_lookup [] "debug" "3" [("debug", "3")] eq_refl ltac:(vm_compute; lia))).
Defined.

(** A call site that caches its answer keeps answering what an uncached one would, as long as the
    options and the environment stay as they are. *)
Theorem passthru_site_sound m name cache :
  match cache with Some (n, r) => r = negb (wslcompat_enabled m n) | None => True end →
  fst (passthru_site m name cache) = negb (wslcompat_enabled m name) ∧
  snd (passthru_site m name cache) = Some (name, negb (wslcompat_enabled m name)).
Proof.
  unfold passthru_site. destruct cache as [[n r]|]; [|done].
  intros ->. case_decide; subst; done.
Qed.

Lemma passthru_site_sound_witness :
  fst (passthru_site init_mem "fcntl" (Some ("fcntl", false))) = false.
Proof. exact (proj1 (passthru_site_sound init_mem "fcntl" (Some ("fcntl", false)) eq_refl)). Defined.

(** The environment variable disables everything; otherwise a name in the [disabled] list is off
    whatever [enabled] says, and with an [enabled] list only its names are on. *)
Theorem enabled_decision m name :
  name ≠ "" →
  (∀ key v, wslcompat_tunable_str (options m) key None = Some v → fits_value v) →
  wslcompat_enabled m name = true ↔
    env_disabled m = false ∧
    (∀ v, wslcompat_tunable_str (options m) "disabled" None = Some v → name ∉ comma_split v) ∧
    (∀ v, wslcompat_tunable_str (options m) "enabled" None = Some v → name ∈ comma_split v).
Proof.
  intros Hname Hfit. unfold wslcompat_enabled.
  rewrite !tunable_list_scan by eauto.
  destruct (env_disabled m); [naive_solver|].
  destruct (wslcompat_tunable_str (options m) "disabled" None) as [d|],
    (wslcompat_tunable_str (options m) "enabled" None) as [v|];
    repeat case_bool_decide; naive_solver.
Qed.

Lemma enabled_decision_witness :
  wslcompat_enabled (set_options [("enabled", "execve,mmap"); ("disabled", "mmap")] init_mem)
    "execve" = true.
Proof.
  apply enabled_decision; [done| |].
  - intros key v Hv%tunable_str_elem. simpl in Hv. rewrite !elem_of_cons in Hv.
    destruct Hv as [[= -> ->]|[[= -> ->]|Hv]]; [split; [reflexivity | vm_compute; lia]..|].
    by apply elem_of_nil in Hv.
  - split; [reflexivity|]. split; simpl; intros v [= <-]; [|vm_compute; by left].
    apply (bool_decide_eq_false_1 _). reflexivity.
Defined.
