(* ===== verification/Override.v ===== *)
(** * synth.c, first part: process identity and copy-on-write descriptors

    A [vfork] child shares the library's memory with its parent but has its own descriptor
    table. The installer of an entry owns the base value of each internal descriptor; every
    other process keeps its own value in an override slot tagged with its pid and start time. *)

From S2P Require Import Prelude CString Kernel State Tunables.

Open Scope Z_scope.

(** ** Process identity *)

Fixpoint skip_char (c : Ascii.ascii) (s : string) : string :=
  match s with
  | String a s' => if decide (a = c) then skip_char c s' else s
  | EmptyString => s
  end.

(** [strtoull (p, &p, 10)], [n] times. *)
Fixpoint skip_fields (n : nat) (s : string) : string :=
  match n with O => s | S n' => skip_fields n' (snd (strtoull s 10)) end.

(** Field 22 of the text of /proc/<pid>/stat: after the last parenthesis, skip the state field
    and 18 numbers. *)
Definition parse_starttime (buf : string) : Z :=
  match strrchr_after buf ")" with
  | None => 0
  | Some p =>
      let p := skip_char " " p in
      let p := strdrop (strchrnul p " ") p in
      fst (strtoull (skip_fields 18 p) 10)
  end.

(** ** Views: where a copy-on-write descriptor lives

    The arguments [(e, slots, n, base)] of the accessors: [probe_fd] and [probe_overrides] of
    entry [e], or [real_fd] and [real_overrides] of the tty slot [t] that entry [e] uses. *)
Inductive fdview := v_probe (e : nat) | v_real (e t : nat).

Definition view_entry (v : fdview) : nat := match v with v_probe e => e | v_real e _ => e end.

Definition view_slots (v : fdview) (m : mem) : list synth_override :=
  match v with
  | v_probe e => probe_overrides (entry_at m e)
  | v_real _ t => real_overrides (tty_at m t)
  end.

Definition view_base (v : fdview) (m : mem) : Z :=
  match v with
  | v_probe e => probe_fd (entry_at m e)
  | v_real _ t => real_fd (tty_at m t)
  end.

Definition set_view_slots (v : fdview) (l : list synth_override) (m : mem) : mem :=
  match v with
  | v_probe e => upd_entry e (set_probe_overrides l) m
  | v_real _ t => upd_tty t (set_real_overrides l) m
  end.

Definition set_view_base (v : fdview) (fd : Z) (m : mem) : mem :=
  match v with
  | v_probe e => upd_entry e (set_probe_fd fd) m
  | v_real _ t => upd_tty t (set_real_fd fd) m
  end.

Definition upd_slot (v : fdview) (i : nat) (f : synth_override → synth_override) (m : mem) : mem :=
  set_view_slots v (alter f i (view_slots v m)) m.

Definition wslcompat_override_init (slots : list synth_override) : list synth_override :=
  set_ov_pid 0 <$> slots.

Fixpoint wslcompat_override_get_pid (slots : list synth_override) (id st : Z) : option nat :=
  match slots with
  | [] => None
  | o :: l => if (ov_pid o =? id) && (ov_starttime o =? st) then Some O
              else S <$> wslcompat_override_get_pid l id st
  end.

Definition synth_is_installer (e : synth_entry) (id st : Z) : bool :=
  (id =? install_pid e) && (st =? install_starttime e).

Section ops.
Context {W : Type} `{!Kernel W}.
Local Abbreviation M := (prog (st W)).

Definition read_proc_starttime (path : string) : M Z :=
  let* fd := sys (k_open path (Z.lor O_RDONLY (Z.lor O_CLOEXEC O_NONBLOCK)) 0) in
  match fd with
  | None => ret 0
  | Some fd =>
      let* n := sys (k_read fd 511) in
      sys (k_close fd) ;;*
      match n with
      | None => ret 0
      | Some b => if decide (b = "") then ret 0 else ret (parse_starttime (cstr b))
      end
  end.

Definition wslcompat_self_starttime_pid (id : Z) : M Z :=
  let* c := getm starttime_cache in
  if p_pid c =? wrap_u 32 id then ret (p_starttime c)
  else
    let* t := read_proc_starttime "/proc/self/stat" in
    let n := {| p_starttime := wrap_u 32 t; p_pid := wrap_u 32 id |} in
    setm (set_starttime_cache n) ;;*
    ret (p_starttime n).

Definition wslcompat_self_starttime : M Z :=
  let* id := getpid in wslcompat_self_starttime_pid id.

Definition pid_starttime (pid : Z) : M Z :=
  let* t := read_proc_starttime ("/proc/" +:+ fmt_d pid +:+ "/stat") in
  ret (wrap_u 32 t).

(** The body of the loop of [wslcompat_override_gc]. *)
Definition override_gc_slot (v : fdview) (self : Z) (i : nat) : M (option unit) :=
  let* o := getm (λ m, view_slots v m !!! i) in
  let p := ov_pid o in
  if (p =? 0) || (p =? -1) then ret None
  else
    let sst := ov_starttime o in
    let* live := (if p =? self
                  then let* t := wslcompat_self_starttime in ret (sst =? t)
                  else let* t := pid_starttime p in ret (t =? sst)) in
    if (live : bool) then ret None
    else setm (upd_slot v i (set_ov_pid 0)) ;;* ret None.

Definition wslcompat_override_gc (v : fdview) : M unit :=
  let* self := getpid in
  let* n := getm (λ m, length (view_slots v m)) in
  for_each (seq 0 n) (override_gc_slot v self) ;;*
  ret tt.

(** Pass 2 of the acquisition: claim the first slot whose pid is 0. *)
Definition override_claim (v : fdview) (id st : Z) (initial_fd : Z) (i : nat) : M (option nat) :=
  let* o := getm (λ m, view_slots v m !!! i) in
  if ov_pid o =? 0 then
    setm (upd_slot v i (set_ov_pid (-1))) ;;*
    setm (upd_slot v i (set_ov_starttime st)) ;;*
    setm (upd_slot v i (set_ov_fd initial_fd)) ;;*
    setm (upd_slot v i (set_ov_pid id)) ;;*
    ret (Some i)
  else ret None.

(** The spin on [synth_acquire_lock] never ends when this thread finds it set, so that run has
    no result. *)
Definition wslcompat_override_acquire_pid (v : fdview) (id st initial_fd : Z) : M (option nat) :=
  wslcompat_override_gc v ;;*
  let* held := getm synth_acquire_lock in
  if (held : bool) then nofuel
  else
    setm (set_synth_acquire_lock true) ;;*
    let* slots := getm (view_slots v) in
    let* result :=
      match wslcompat_override_get_pid slots id st with
      | Some i => ret (Some i)
      | None => for_each (seq 0 (length slots)) (override_claim v id st initial_fd)
      end in
    setm (set_synth_acquire_lock false) ;;*
    ret result.

Definition wslcompat_view_fd_load (v : fdview) : M Z :=
  let* id := getpid in
  let* st := wslcompat_self_starttime_pid id in
  let* e := getm (λ m, entry_at m (view_entry v)) in
  if synth_is_installer e id st then getm (view_base v)
  else
    let* slots := getm (view_slots v) in
    match wslcompat_override_get_pid slots id st with
    | Some i => ret (ov_fd (slots !!! i))
    | None => getm (view_base v)
    end.

Definition wslcompat_view_fd_store (v : fdview) (new_fd : Z) : M unit :=
  let* id := getpid in
  let* st := wslcompat_self_starttime_pid id in
  let* e := getm (λ m, entry_at m (view_entry v)) in
  if synth_is_installer e id st then setm (set_view_base v new_fd)
  else
    let* s := wslcompat_override_acquire_pid v id st new_fd in
    match s with
    | None => ret tt
    | Some i => setm (upd_slot v i (set_ov_fd new_fd))
    end.

(** Compare-and-exchange of one location, [true] when this caller did the transition. *)
Definition wslcompat_view_fd_cas (v : fdview) (expected desired : Z) : M bool :=
  let* id := getpid in
  let* st := wslcompat_self_starttime_pid id in
  let* e := getm (λ m, entry_at m (view_entry v)) in
  if synth_is_installer e id st then
    let* cur := getm (view_base v) in
    if cur =? expected then setm (set_view_base v desired) ;;* ret true else ret false
  else
    let* s := wslcompat_override_acquire_pid v id st expected in
    match s with
    | None => ret false
    | Some i =>
        let* o := getm (λ m, view_slots v m !!! i) in
        if ov_fd o =? expected then setm (upd_slot v i (set_ov_fd desired)) ;;* ret true
        else ret false
    end.

Definition wslcompat_view_fd_relocate (v : fdview) (targetfd : Z) : M Z :=
  let* cur := wslcompat_view_fd_load v in
  if negb (cur =? targetfd) then ret 0
  else
    let* new_fd := sys (k_fcntl targetfd F_DUPFD_CLOEXEC (arg_int 3)) in
    match new_fd with
    | None => wslcompat_view_fd_cas v targetfd (-1) ;;* ret (-1)
    | Some new_fd =>
        let* won := wslcompat_view_fd_cas v targetfd new_fd in
        if (won : bool) then ret new_fd
        else sys (k_close new_fd) ;;* ret 0
    end.
End ops.

(** ** Memory laws of views *)
Definition valid_view (v : fdview) (m : mem) : Prop :=
  match v with
  | v_probe e => (e < length (synth_table m))%nat
  | v_real e t => (e < length (synth_table m))%nat ∧ (t < length (tty_table m))%nat
  end.

Lemma alter_id_total {A} `{!Inhabited A} (l : list A) i f :
  f (l !!! i) = l !!! i → alter f i l = l.
Proof.
  intros H. apply list_eq. intros j. rewrite list_lookup_alter.
  case_decide as E; [subst|done]. destruct (l !! j) as [x|] eqn:E; simpl; [|done].
  by rewrite (list_lookup_total_correct _ _ _ E) in H; rewrite H.
Qed.

Lemma valid_set_slots v l m : valid_view v m → valid_view v (set_view_slots v l m).
Proof. destruct v; simpl; rewrite ?length_alter; done. Qed.

Lemma view_slots_set v l m : valid_view v m → view_slots v (set_view_slots v l m) = l.
Proof.
  destruct v as [e|e t]; simpl; unfold entry_at, tty_at; simpl; intros H;
    by rewrite list_lookup_total_alter_eq by (done || apply H).
Qed.

Lemma view_base_set_slots v l m : view_base v (set_view_slots v l m) = view_base v m.
Proof.
  destruct v as [e|e t]; simpl; unfold entry_at, tty_at; simpl;
    rewrite list_lookup_total_alter; case_decide as E; [by destruct E; subst|done..].
Qed.

Lemma entry_ident_set_slots v l m e :
  install_pid (entry_at (set_view_slots v l m) e) = install_pid (entry_at m e) ∧
  install_starttime (entry_at (set_view_slots v l m) e) = install_starttime (entry_at m e).
Proof.
  destruct v as [e'|e' t]; simpl; unfold entry_at; simpl; [|done].
  rewrite list_lookup_total_alter. case_decide as E; [by destruct E as [<- _]|done].
Qed.

Lemma set_view_slots_set v l l' m :
  set_view_slots v l (set_view_slots v l' m) = set_view_slots v l m.
Proof.
  destruct v; unfold set_view_slots, upd_entry, upd_tty, set_synth_table, set_tty_table; simpl;
    f_equal; rewrite list_alter_alter_eq; apply list_alter_ext; done.
Qed.

Lemma set_view_slots_id v m : set_view_slots v (view_slots v m) m = m.
Proof.
  destruct v as [e|e t]; simpl; unfold upd_entry, upd_tty.
  - rewrite alter_id_total; [by destruct m|]. unfold entry_at. by destruct (_ !!! _).
  - rewrite alter_id_total; [by destruct m|]. unfold tty_at. by destruct (_ !!! _).
Qed.

Lemma set_view_slots_lock v l b m :
  set_view_slots v l (set_synth_acquire_lock b m) = set_synth_acquire_lock b (set_view_slots v l m).
Proof. by destruct v. Qed.

Lemma view_slots_lock v b m : view_slots v (set_synth_acquire_lock b m) = view_slots v m.
Proof. by destruct v. Qed.

Lemma length_view_upd v i f m :
  valid_view v m → length (view_slots v (upd_slot v i f m)) = length (view_slots v m).
Proof. intros H. unfold upd_slot. by rewrite view_slots_set, length_alter. Qed.

(** [m'] is [m] with other contents in the slots of view [v]. *)
Definition slots_only (v : fdview) (m m' : mem) : Prop :=
  ∃ l, m' = set_view_slots v l m.

#[export] Instance slots_only_preorder v : PreOrder (slots_only v).
Proof.
  split.
  - intros m. exists (view_slots v m). by rewrite set_view_slots_id.
  - intros m1 m2 m3 [l ->] [l' ->]. exists l'. by rewrite set_view_slots_set.
Qed.

(** ** Running the accessors *)
Section facts.
Context {W : Type} `{!Kernel W, !KernelPid W}.

(** The world the calls under consideration started from. *)
Variable w0 : W.

(** The calling process is [id], and the cache holds its start time. *)
Definition identity (s : st W) (id t : Z) : Prop :=
  wreach w0 (s_world s) ∧ kpid w0 = id ∧
  starttime_cache (s_mem s) = {| p_starttime := t; p_pid := wrap_u 32 id |}.

Lemma identity_pid s id t : identity s id t → kpid (s_world s) = id.
Proof. intros (Hw & Hp & _). by rewrite (wreach_pid _ _ Hw). Qed.

Lemma read_starttime_run path (s : st W) :
  ∃ t s', read_proc_starttime path s = Ret t s' ∧
          s_mem s' = s_mem s ∧ wreach (s_world s) (s_world s').
Proof.
  unfold read_proc_starttime. run_sys. destruct o as [fd|]; [|eauto 10].
  run_sys. run_sys.
  destruct o as [b|]; [case_decide|]; do 2 eexists; (split; [done|]);
    (split; [congruence|]); by repeat (etrans; [done|]).
Qed.

Lemma identity_cached s id t :
  identity s id t → wslcompat_self_starttime_pid id s = Ret t s.
Proof.
  intros (_ & _ & Hc). unfold wslcompat_self_starttime_pid. run_simpl.
  rewrite Hc. simpl. by rewrite Z.eqb_refl.
Qed.

Lemma self_starttime_run (s : st W) id :
  wreach w0 (s_world s) → kpid w0 = id →
  ∃ t s', wslcompat_self_starttime_pid id s = Ret t s' ∧ identity s' id t ∧
    ∃ c, s_mem s' = set_starttime_cache c (s_mem s).
Proof.
  intros Hr Hp. unfold wslcompat_self_starttime_pid. run_simpl.
  destruct (_ =? _) eqn:E.
  - apply Z.eqb_eq in E. do 2 eexists. split; [done|]. split.
    + split_and!; [done..|]. destruct (starttime_cache (s_mem s)); simpl in *. congruence.
    + exists (starttime_cache (s_mem s)). by destruct (s_mem s).
  - destruct (read_starttime_run "/proc/self/stat" s) as (t & s' & E' & Hm & Hw).
    rewrite (bind_Ret _ _ _ _ _ E'). run_simpl.
    do 2 eexists. split; [done|]. split; [split_and!; [by etrans|done..]|].
    eexists. simpl. by rewrite Hm.
Qed.

Lemma pid_starttime_run pid (s : st W) :
  ∃ t s', pid_starttime pid s = Ret t s' ∧
          s_mem s' = s_mem s ∧ wreach (s_world s) (s_world s').
Proof.
  unfold pid_starttime.
  destruct (read_starttime_run ("/proc/" +:+ fmt_d pid +:+ "/stat") s) as (t & s' & E & Hm & Hw).
  rewrite (bind_Ret _ _ _ _ _ E). eauto 10.
Qed.

(** The kernel has reported another start time for the owner of the slot. *)
Definition reported_dead (o : synth_override) : Prop :=
  ∃ (s s' : st W) t, wreach w0 (s_world s) ∧
    pid_starttime (ov_pid o) s = Ret t s' ∧ t ≠ ov_starttime o.

(** What collection may do to one slot: leave it, or free one that is neither the caller's own
    nor that of a process the kernel reports as running. *)
Definition gc_ok (id t : Z) (o o' : synth_override) : Prop :=
  o' = o ∨
  (o' = set_ov_pid 0 o ∧ ov_pid o ≠ 0 ∧
   ((ov_pid o = id ∧ ov_starttime o ≠ t) ∨ (ov_pid o ≠ id ∧ reported_dead o))).

Lemma override_gc_slot_run v id t (s : st W) i :
  identity s id t → valid_view v (s_mem s) → (i < length (view_slots v (s_mem s)))%nat →
  ∃ s' o', override_gc_slot v id i s = Ret None s' ∧ identity s' id t ∧
    s_mem s' = upd_slot v i (λ _, o') (s_mem s) ∧
    gc_ok id t (view_slots v (s_mem s) !!! i) o'.
Proof.
  intros Hid Hv Hi. unfold override_gc_slot. run_simpl.
  set (o := view_slots v (s_mem s) !!! i).
  assert (∀ s' : st W, s_mem s' = s_mem s → s_mem s' = upd_slot v i (λ _, o) (s_mem s)) as Hsame.
  { intros s' ->. unfold upd_slot. rewrite alter_id_total by done. by rewrite set_view_slots_id. }
  destruct ((_ =? 0) || _) eqn:E0.
  { exists s, o. split_and!; [done..|by apply Hsame|by left]. }
  apply orb_false_iff in E0 as [E0 _]. apply Z.eqb_neq in E0.
  assert (∀ s1 : st W, s_mem s1 = s_mem s → wreach (s_world s) (s_world s1) →
    identity s1 id t) as Hid1.
  { intros s1 Hm Hw. destruct Hid as (Hr & Hp & Hc). split_and!; [by etrans|done|congruence]. }
  assert (∀ s1 : st W, s_mem s1 = s_mem s → wreach (s_world s) (s_world s1) →
    ((ov_pid o = id ∧ ov_starttime o ≠ t) ∨ (ov_pid o ≠ id ∧ reported_dead o)) →
    ∃ s' o', bind (setm (upd_slot v i (set_ov_pid 0))) (λ _, ret (A:=option unit) None) s1
             = Ret None s' ∧ identity s' id t ∧
      s_mem s' = upd_slot v i (λ _, o') (s_mem s) ∧ gc_ok id t o o') as Hfree.
  { intros s1 Hm Hw Hd. run_simpl. eexists _, (set_ov_pid 0 o). split; [done|].
    split_and!; [| |by right].
    - destruct (Hid1 s1 Hm Hw) as (Hr1 & Hp1 & Hc1). split_and!; [done..|]. by destruct v.
    - simpl. rewrite Hm. unfold upd_slot. f_equal. apply list_alter_ext; [|done].
      intros x Hx. unfold o. by rewrite (list_lookup_total_correct _ _ _ Hx). }
  destruct (ov_pid o =? id) eqn:Eid.
  - apply Z.eqb_eq in Eid. run_simpl. unfold wslcompat_self_starttime. run_simpl.
    rewrite (identity_pid _ _ _ Hid), (bind_Ret _ _ _ _ _ (identity_cached s id t Hid)).
    run_simpl. destruct (_ =? _) eqn:Et.
    + exists s, o. split_and!; [done..|by apply Hsame|by left].
    + apply Hfree; [done..|]. left. split; [done|]. by apply Z.eqb_neq.
  - apply Z.eqb_neq in Eid. run_simpl.
    destruct (pid_starttime_run (ov_pid o) s) as (t' & s' & E & Hm & Hw).
    rewrite (bind_Ret _ _ _ _ _ E). run_simpl. destruct (t' =? _) eqn:Et.
    + exists s', o. split_and!; [done|by apply Hid1|by apply Hsame|by left].
    + apply Hfree; [done..|]. right. split; [done|]. apply Z.eqb_neq in Et.
      exists s, s', t'. split; [apply Hid|done].
Qed.

Lemma upd_slot_lookup v i j f m :
  valid_view v m → (i < length (view_slots v m))%nat →
  view_slots v (upd_slot v i f m) !!! j =
  if decide (i = j) then f (view_slots v m !!! i) else view_slots v m !!! j.
Proof.
  intros Hv Hi. unfold upd_slot. rewrite view_slots_set by done.
  rewrite list_lookup_total_alter. repeat case_decide; intuition congruence.
Qed.

Lemma valid_upd_slot v i f m : valid_view v m → valid_view v (upd_slot v i f m).
Proof. apply valid_set_slots. Qed.

Lemma slots_only_upd v i f m : slots_only v m (upd_slot v i f m).
Proof. by eexists. Qed.

(** Memories that differ only in the slots of [v], with every slot treated as [P] allows. *)
Definition slots_step (v : fdview) (P : nat → synth_override → synth_override → Prop)
    (m m' : mem) : Prop :=
  slots_only v m m' ∧ length (view_slots v m') = length (view_slots v m) ∧
  ∀ i, (i < length (view_slots v m))%nat → P i (view_slots v m !!! i) (view_slots v m' !!! i).

Lemma slots_only_valid v m m' : slots_only v m m' → valid_view v m → valid_view v m'.
Proof. intros [l ->]. apply valid_set_slots. Qed.

Lemma gc_loop_run v id t l (s : st W) :
  NoDup l → identity s id t → valid_view v (s_mem s) →
  (∀ i, i ∈ l → (i < length (view_slots v (s_mem s)))%nat) →
  ∃ s', for_each l (override_gc_slot v id) s = Ret None s' ∧ identity s' id t ∧
    slots_step v (λ i o o', if decide (i ∈ l) then gc_ok id t o o' else o' = o)
      (s_mem s) (s_mem s').
Proof.
  revert s. induction l as [|i l IH]; intros s Hnd Hid Hv Hl; simpl.
  - exists s. split_and!; [done..|]. split; [reflexivity|]. split; [done|]. intros i _.
    done.
  - apply NoDup_cons in Hnd as [Hni Hnd].
    destruct (override_gc_slot_run v id t s i) as (s1 & o' & E & Hid1 & Hm1 & Hg);
      [done..|apply Hl; by left|].
    assert (i < length (view_slots v (s_mem s)))%nat as Hi by (apply Hl; by left).
    rewrite (bind_Ret _ _ _ _ _ E).
    destruct (IH s1) as (s2 & E2 & Hid2 & Ho & Hlen & Hp); [done..| | |].
    { rewrite Hm1. by apply valid_upd_slot. }
    { intros j Hj. rewrite Hm1, length_view_upd by done. apply Hl. by right. }
    exists s2. split; [done|]. split; [done|]. rewrite Hm1 in Ho, Hlen, Hp.
    rewrite length_view_upd in Hlen, Hp by done.
    split; [by etrans; [apply slots_only_upd|]|]. split; [done|].
    intros j Hj. specialize (Hp j Hj). rewrite upd_slot_lookup in Hp by done.
    destruct (decide (i = j)) as [<-|Hij].
    + rewrite (decide_False (P := i ∈ l)) in Hp by done.
      case_decide as Hd; [by subst|]. destruct Hd. by left.
    + repeat case_decide; [done|set_solver|set_solver|done].
Qed.

Lemma override_gc_run v id t (s : st W) :
  identity s id t → valid_view v (s_mem s) →
  ∃ s', wslcompat_override_gc v s = Ret tt s' ∧ identity s' id t ∧
    slots_step v (λ _, gc_ok id t) (s_mem s) (s_mem s').
Proof.
  intros Hid Hv. unfold wslcompat_override_gc. run_simpl.
  rewrite (identity_pid _ _ _ Hid).
  destruct (gc_loop_run v id t (seq 0 (length (view_slots v (s_mem s)))) s)
    as (s' & E & Hid' & Ho & Hlen & Hg); [apply NoDup_seq|done..| |].
  { intros i Hi. apply elem_of_seq in Hi. lia. }
  rewrite (bind_Ret _ _ _ _ _ E). exists s'. split_and!; [done..|].
  split; [done|]. split; [done|]. intros i Hi. specialize (Hg i Hi).
  by rewrite decide_True in Hg by (apply elem_of_seq; lia).
Qed.

Lemma get_pid_Some l id t i :
  wslcompat_override_get_pid l id t = Some i ↔
  (i < length l)%nat ∧ ov_pid (l !!! i) = id ∧ ov_starttime (l !!! i) = t ∧
  ∀ j, (j < i)%nat → ¬ (ov_pid (l !!! j) = id ∧ ov_starttime (l !!! j) = t).
Proof.
  revert i. induction l as [|o l IH]; intros i; simpl; [split; [done|lia]|].
  destruct ((_ =? _) && (_ =? _)) eqn:E.
  - apply andb_true_iff in E as [E1%Z.eqb_eq E2%Z.eqb_eq]. split.
    + intros [= <-]. split_and!; [lia|done..|lia].
    + intros (_ & H1 & H2 & H3). destruct i as [|i]; [done|].
      by destruct (H3 O ltac:(lia)).
  - assert (¬ (ov_pid o = id ∧ ov_starttime o = t)) as Hne.
    { intros [<- <-]. by rewrite !Z.eqb_refl in E. }
    destruct i as [|i]; simpl.
    + split; [by destruct (wslcompat_override_get_pid l id t)|]. naive_solver.
    + rewrite fmap_Some. setoid_rewrite IH. split.
      * intros (j & (H1 & H2 & H3 & H4) & [= ->]). split_and!; [lia|done..|].
        intros [|k] Hk; simpl; [done|]. apply H4. lia.
      * intros (H1 & H2 & H3 & H4). exists i. split; [|done]. split_and!; [lia|done..|].
        intros k Hk. apply (H4 (S k)). lia.
Qed.

Lemma get_pid_None l id t :
  wslcompat_override_get_pid l id t = None ↔
  ∀ i, (i < length l)%nat → ¬ (ov_pid (l !!! i) = id ∧ ov_starttime (l !!! i) = t).
Proof.
  induction l as [|o l IH]; simpl; [split; [lia|done]|].
  destruct ((_ =? _) && (_ =? _)) eqn:E.
  - apply andb_true_iff in E as [E1%Z.eqb_eq E2%Z.eqb_eq]. split; [done|].
    intros H. by destruct (H O ltac:(lia)).
  - rewrite fmap_None, IH. split.
    + intros H [|i] Hi; simpl; [|apply H; lia].
      intros [<- <-]. by rewrite !Z.eqb_refl in E.
    + intros H i Hi. apply (H (S i)). lia.
Qed.

(** The slot an identity gets when it claims one. *)
Definition mine (id t fd : Z) : synth_override :=
  {| ov_pid := id; ov_starttime := t; ov_fd := fd |}.

Lemma override_claim_run v id t fd i (s : st W) :
  valid_view v (s_mem s) → (i < length (view_slots v (s_mem s)))%nat →
  override_claim v id t fd i s =
  if ov_pid (view_slots v (s_mem s) !!! i) =? 0
  then Ret (Some i) (mkst (upd_slot v i (λ _, mine id t fd) (s_mem s)) (s_world s) (s_errno s))
  else Ret None s.
Proof.
  intros Hv Hi. unfold override_claim. run_simpl. destruct (_ =? 0); [|done].
  run_simpl. do 2 f_equal. unfold upd_slot.
  rewrite !view_slots_set by (repeat apply valid_set_slots; done).
  rewrite !set_view_slots_set, !list_alter_alter_eq. f_equal.
Qed.

Lemma claim_loop_run v id t fd l (s : st W) :
  valid_view v (s_mem s) → (∀ i, i ∈ l → (i < length (view_slots v (s_mem s)))%nat) →
  (∃ i, i ∈ l ∧ ov_pid (view_slots v (s_mem s) !!! i) = 0 ∧
     for_each l (override_claim v id t fd) s =
     Ret (Some i) (mkst (upd_slot v i (λ _, mine id t fd) (s_mem s)) (s_world s) (s_errno s))) ∨
  (for_each l (override_claim v id t fd) s = Ret None s ∧
   ∀ i, i ∈ l → ov_pid (view_slots v (s_mem s) !!! i) ≠ 0).
Proof.
  intros Hv. induction l as [|i l IH]; intros Hl; simpl.
  - right. split; [done|]. by intros i ?%elem_of_nil.
  - unfold bind at 1 2. rewrite override_claim_run by (done || apply Hl; by left).
    destruct (_ =? 0) eqn:E.
    + left. exists i. split; [by left|]. split; [by apply Z.eqb_eq|done].
    + destruct IH as [(j & Hj & H0 & E')|[E' H0]]; [intros; apply Hl; by right|..].
      * left. exists j. split; [by right|]. done.
      * right. split; [done|]. intros j [->|Hj]%elem_of_cons; [by apply Z.eqb_neq|by apply H0].
Qed.

Lemma unlock_upd v i f m :
  synth_acquire_lock m = false →
  set_synth_acquire_lock false (upd_slot v i f (set_synth_acquire_lock true m)) = upd_slot v i f m.
Proof. intros H. destruct m; simpl in H; subst. by destruct v. Qed.

Lemma unlock_lock m :
  synth_acquire_lock m = false →
  set_synth_acquire_lock false (set_synth_acquire_lock true m) = m.
Proof. intros H. destruct m; simpl in H; by subst. Qed.

Lemma slots_only_lock v m m' :
  slots_only v m m' → synth_acquire_lock m' = synth_acquire_lock m.
Proof. intros [l ->]. by destruct v. Qed.

Lemma valid_lock v b m : valid_view v m → valid_view v (set_synth_acquire_lock b m).
Proof. by destruct v. Qed.

(** What acquiring a slot for [(id, t)] may do to one slot: collect it, or take a free one. *)
Definition acq_ok (id t fd : Z) (o o' : synth_override) : Prop :=
  gc_ok id t o o' ∨ ∃ og, gc_ok id t o og ∧ ov_pid og = 0 ∧ o' = mine id t fd.

Lemma acquire_run v id t fd (s : st W) :
  id ≠ 0 →
  identity s id t → valid_view v (s_mem s) → synth_acquire_lock (s_mem s) = false →
  ∃ r s', wslcompat_override_acquire_pid v id t fd s = Ret r s' ∧ identity s' id t ∧
    slots_step v (λ _, acq_ok id t fd) (s_mem s) (s_mem s') ∧
    match r with
    | Some i => wslcompat_override_get_pid (view_slots v (s_mem s')) id t = Some i ∧
                (view_slots v (s_mem s') !!! i = mine id t fd ∨
                 view_slots v (s_mem s') !!! i = view_slots v (s_mem s) !!! i)
    | None => wslcompat_override_get_pid (view_slots v (s_mem s')) id t = None ∧
              ∀ i, (i < length (view_slots v (s_mem s)))%nat →
                   ov_pid (view_slots v (s_mem s') !!! i) ≠ 0
    end.
Proof.
  intros Hnz Hid Hv Hlock. unfold wslcompat_override_acquire_pid.
  destruct (override_gc_run v id t s Hid Hv) as (s1 & E1 & Hid1 & Ho & Hlen & Hgc).
  rewrite (bind_Ret _ _ _ _ _ E1). run_simpl.
  pose proof (slots_only_lock _ _ _ Ho) as Hlock1. rewrite Hlock in Hlock1. rewrite Hlock1.
  pose proof (slots_only_valid _ _ _ Ho Hv) as Hv1.
  run_simpl. rewrite view_slots_lock.
  assert (slots_step v (λ _, acq_ok id t fd) (s_mem s) (s_mem s1)) as Hstep1.
  { split; [done|]. split; [done|]. intros i Hi. left. by apply Hgc. }
  destruct (wslcompat_override_get_pid (view_slots v (s_mem s1)) id t) as [i|] eqn:Eg.
  - run_simpl. rewrite unlock_lock by done. do 2 eexists. split; [done|].
    split; [exact Hid1|]. split; [done|]. split; [done|]. right. simpl.
    apply get_pid_Some in Eg as (Hi & Hp & Ht & _). rewrite Hlen in Hi.
    destruct (Hgc i Hi) as [Hsame|(Hfree & _ & _)]; [done|].
    rewrite Hfree in Hp. simpl in Hp. congruence.
  - destruct (claim_loop_run v id t fd (seq 0 (length (view_slots v (s_mem s1))))
      (mkst (set_synth_acquire_lock true (s_mem s1)) (s_world s1) (s_errno s1)))
      as [(i & Hi & H0 & El)|[El H0]]; cbn [s_mem s_world s_errno] in *.
    { by apply valid_lock. }
    { intros i Hi%elem_of_seq. rewrite view_slots_lock. lia. }
    + apply elem_of_seq in Hi. rewrite view_slots_lock in H0.
      rewrite (bind_Ret _ _ _ _ _ El). run_simpl. rewrite unlock_upd by done.
      assert (i < length (view_slots v (s_mem s1)))%nat as Hi' by lia.
      do 2 eexists. split; [done|]. cbn [s_mem s_world s_errno].
      split; [destruct Hid1 as (? & ? & ?); split_and!; [done..|by destruct v]|].
      assert (view_slots v (upd_slot v i (λ _, mine id t fd) (s_mem s1)) !!! i = mine id t fd) as Hmine.
      { rewrite upd_slot_lookup by done. by rewrite decide_True. }
      split; [|split; [|by left]].
      * split; [etrans; [done|apply slots_only_upd]|]. rewrite length_view_upd by done.
        split; [done|]. intros j Hj. rewrite upd_slot_lookup by done. case_decide as Hij.
        -- subst j. right. exists (view_slots v (s_mem s1) !!! i). split; [by apply Hgc|done].
        -- left. by apply Hgc.
      * apply get_pid_Some. rewrite Hmine, length_view_upd by done.
        split_and!; [lia|done..|]. intros j Hj. rewrite upd_slot_lookup by done.
        rewrite decide_False by lia. apply (proj1 (get_pid_None _ _ _) Eg). lia.
    + rewrite (bind_Ret _ _ _ _ _ El). run_simpl. rewrite unlock_lock by done.
      do 2 eexists. split; [done|]. split; [exact Hid1|]. split; [done|]. split; [done|].
      intros i Hi. rewrite view_slots_lock in H0. apply H0. apply elem_of_seq. simpl. lia.
Qed.

(** What a whole operation by [(id, t)] may do to one slot: collect it, or leave a slot of its
    own where there was a free one or its own. *)
Definition cow_ok (id t : Z) (o o' : synth_override) : Prop :=
  gc_ok id t o o' ∨
  (ov_pid o' = id ∧ ov_starttime o' = t ∧
   ∃ og, gc_ok id t o og ∧ (ov_pid og = 0 ∨ (ov_pid og = id ∧ ov_starttime og = t))).

Lemma acq_cow id t fd o o' : acq_ok id t fd o o' → cow_ok id t o o'.
Proof. intros [H|(og & H & H0 & ->)]; [by left|]. right. split_and!; eauto. Qed.

Lemma acquire_set_fd v id t fd x m m' i :
  valid_view v m → slots_step v (λ _, acq_ok id t fd) m m' →
  wslcompat_override_get_pid (view_slots v m') id t = Some i →
  slots_step v (λ _, cow_ok id t) m (upd_slot v i (set_ov_fd x) m').
Proof.
  intros Hv (Ho & Hlen & Hs) (Hi & Hp & Ht & _)%get_pid_Some.
  pose proof (slots_only_valid _ _ _ Ho Hv) as Hv'.
  split; [etrans; [done|apply slots_only_upd]|]. rewrite length_view_upd by done.
  split; [done|]. intros j Hj. rewrite upd_slot_lookup by done.
  specialize (Hs j Hj). case_decide as Hij; [subst j|by eapply acq_cow].
  right. simpl. split_and!; [done..|].
  destruct Hs as [Hg|(og & Hg & H0 & Hm)]; [|by eauto].
  exists (view_slots v m' !!! i). eauto.
Qed.

Lemma slots_step_mono v (P Q : nat → synth_override → synth_override → Prop) m m' :
  (∀ i o o', P i o o' → Q i o o') → slots_step v P m m' → slots_step v Q m m'.
Proof. intros H (Ho & Hlen & Hs). split_and!; [done..|]. intros i Hi. by apply H, Hs. Qed.

Lemma identity_upd s id t v i f :
  identity s id t →
  identity (mkst (upd_slot v i f (s_mem s)) (s_world s) (s_errno s)) id t.
Proof. intros (? & ? & ?). split_and!; [done..|by destruct v]. Qed.

Lemma view_fd_cas_run v id t s x y :
  id ≠ 0 → identity s id t → valid_view v (s_mem s) → synth_acquire_lock (s_mem s) = false →
  synth_is_installer (entry_at (s_mem s) (view_entry v)) id t = false →
  ∃ r s', wslcompat_view_fd_cas v x y s = Ret r s' ∧ identity s' id t ∧
    slots_step v (λ _, cow_ok id t) (s_mem s) (s_mem s').
Proof.
  intros Hnz Hid Hv Hlock Hni. unfold wslcompat_view_fd_cas. run_simpl.
  rewrite (identity_pid _ _ _ Hid), (bind_Ret _ _ _ _ _ (identity_cached _ _ _ Hid)).
  run_simpl. rewrite Hni.
  destruct (acquire_run v id t x s) as (r & s1 & E & Hid1 & Hs & Hr); [done..|].
  rewrite (bind_Ret _ _ _ _ _ E).
  assert (slots_step v (λ _, cow_ok id t) (s_mem s) (s_mem s1)) as Hc.
  { eapply slots_step_mono, Hs. intros i o o'. apply acq_cow. }
  destruct r as [i|]; [|eauto 10]. destruct Hr as [Hg Hr]. run_simpl.
  destruct (_ =? _); [|eauto 10]. run_simpl. do 2 eexists. split; [done|].
  split; [by apply identity_upd|]. by eapply acquire_set_fd.
Qed.

Lemma view_fd_store_run v id t s x :
  id ≠ 0 → identity s id t → valid_view v (s_mem s) → synth_acquire_lock (s_mem s) = false →
  synth_is_installer (entry_at (s_mem s) (view_entry v)) id t = false →
  ∃ s', wslcompat_view_fd_store v x s = Ret tt s' ∧ identity s' id t ∧
    slots_step v (λ _, cow_ok id t) (s_mem s) (s_mem s') ∧
    ((∃ i, wslcompat_override_get_pid (view_slots v (s_mem s')) id t = Some i ∧
           ov_fd (view_slots v (s_mem s') !!! i) = x) ∨
     (wslcompat_override_get_pid (view_slots v (s_mem s')) id t = None ∧
      ∀ i, (i < length (view_slots v (s_mem s)))%nat →
           ov_pid (view_slots v (s_mem s') !!! i) ≠ 0)).
Proof.
  intros Hnz Hid Hv Hlock Hni. unfold wslcompat_view_fd_store. run_simpl.
  rewrite (identity_pid _ _ _ Hid), (bind_Ret _ _ _ _ _ (identity_cached _ _ _ Hid)).
  run_simpl. rewrite Hni.
  destruct (acquire_run v id t x s) as (r & s1 & E & Hid1 & Hs & Hr); [done..|].
  rewrite (bind_Ret _ _ _ _ _ E).
  destruct r as [i|]; run_simpl.
  - destruct Hr as [Hg Hr]. eexists. split; [done|]. split; [by apply identity_upd|].
    cbn [s_mem]. split; [by eapply acquire_set_fd|]. left. exists i.
    pose proof (slots_only_valid _ _ _ (proj1 Hs) Hv) as Hv1.
    apply get_pid_Some in Hg as (Hi & Hp & Ht & Hj).
    rewrite upd_slot_lookup, decide_True by done. split; [|done].
    apply get_pid_Some. rewrite length_view_upd by done. rewrite !upd_slot_lookup by done.
    rewrite !decide_True by done. split_and!; [done..|].
    intros j Hlt. rewrite upd_slot_lookup, decide_False by (done || lia). by apply Hj.
  - destruct Hr as [Hg Hr]. eexists. split; [done|]. split; [done|].
    split; [|by right]. eapply slots_step_mono, Hs. intros i o o'. apply acq_cow.
Qed.

Lemma view_fd_load_run v id t s :
  identity s id t →
  wslcompat_view_fd_load v s =
  Ret (if synth_is_installer (entry_at (s_mem s) (view_entry v)) id t then view_base v (s_mem s)
       else match wslcompat_override_get_pid (view_slots v (s_mem s)) id t with
            | Some i => ov_fd (view_slots v (s_mem s) !!! i)
            | None => view_base v (s_mem s)
            end) s.
Proof.
  intros Hid. unfold wslcompat_view_fd_load. run_simpl.
  rewrite (identity_pid _ _ _ Hid), (bind_Ret _ _ _ _ _ (identity_cached _ _ _ Hid)).
  run_simpl. destruct (synth_is_installer _ _ _); [done|]. run_simpl.
  by destruct (wslcompat_override_get_pid _ _ _).
Qed.

Lemma view_fd_relocate_run v id t s x :
  id ≠ 0 → identity s id t → valid_view v (s_mem s) → synth_acquire_lock (s_mem s) = false →
  synth_is_installer (entry_at (s_mem s) (view_entry v)) id t = false →
  ∃ r s', wslcompat_view_fd_relocate v x s = Ret r s' ∧ identity s' id t ∧
    slots_step v (λ _, cow_ok id t) (s_mem s) (s_mem s').
Proof.
  intros Hnz Hid Hv Hlock Hni. unfold wslcompat_view_fd_relocate.
  rewrite (bind_Ret _ _ _ _ _ (view_fd_load_run v id t s Hid)).
  destruct (negb _).
  { do 2 eexists. split; [done|]. split; [done|]. split; [reflexivity|].
    split; [done|]. intros i _. by left; left. }
  run_sys.
  assert (identity s0 id t) as Hid0.
  { destruct Hid as (? & ? & ?). split_and!; [by etrans|done|congruence]. }
  destruct o as [n|].
  - destruct (view_fd_cas_run v id t s0 x n) as (r & s1 & E1 & Hid1 & Hs);
      [done|done|by rewrite Hm..|]. rewrite Hm in Hs.
    rewrite (bind_Ret _ _ _ _ _ E1). destruct r; [eauto|]. run_sys.
    do 2 eexists. split; [done|]. rewrite Hm0. split; [|done].
    destruct Hid1 as (? & ? & ?). split_and!; [by etrans|done|congruence].
  - destruct (view_fd_cas_run v id t s0 x (-1)) as (r & s1 & E1 & Hid1 & Hs);
      [done|done|by rewrite Hm..|]. rewrite Hm in Hs.
    rewrite (bind_Ret _ _ _ _ _ E1). eauto 10.
Qed.
End facts.

(** ** What another process of the same address space sees *)

(** The operations that write a copy-on-write descriptor. *)
Inductive cow_op := op_store (x : Z) | op_cas (x y : Z) | op_relocate (target : Z).

Section sharing.
Context {W : Type} `{!Kernel W, !KernelPid W}.

Definition run_cow (v : fdview) (op : cow_op) : prog (st W) unit :=
  match op with
  | op_store x => wslcompat_view_fd_store v x
  | op_cas x y => wslcompat_view_fd_cas v x y ;;* ret tt
  | op_relocate x => wslcompat_view_fd_relocate v x ;;* ret tt
  end.

(** The value of view [v] that a process in world [w] reads from memory [m]. *)
Definition view_read (v : fdview) (m : mem) (w : W) : option Z :=
  match wslcompat_view_fd_load v (mkst m w 0) with Ret x _ => Some x | _ => None end.

(** The start time the kernel reports to the process of world [w]. *)
Definition self_start (w : W) : Z :=
  match read_proc_starttime "/proc/self/stat" (mkst init_mem w 0) with
  | Ret t _ => wrap_u 32 t
  | _ => 0
  end.

Definition pid_ok (p : Z) : Prop := 0 < p ≤ INT_MAX.

(** If the cache is tagged with this process's pid, it holds this process's start time. *)
Definition cache_coherent (m : mem) (w : W) : Prop :=
  p_pid (starttime_cache m) = wrap_u 32 (kpid w) → p_starttime (starttime_cache m) = self_start w.

(** The process of world [w] is running: the start time /proc reports for it, in whatever world
    the process of [w0] brings about, is the one in its slots. *)
Definition stays_alive (w0 w : W) (slots : list synth_override) : Prop :=
  ∀ o, o ∈ slots → ov_pid o = kpid w → ¬ reported_dead w0 o.

Definition view_value (v : fdview) (m : mem) (id t : Z) : Z :=
  if synth_is_installer (entry_at m (view_entry v)) id t then view_base v m
  else match wslcompat_override_get_pid (view_slots v m) id t with
       | Some i => ov_fd (view_slots v m !!! i)
       | None => view_base v m
       end.

Lemma read_starttime_world path m m' (w : W) e e' :
  ∃ t w' e1 e2, read_proc_starttime path (mkst m w e) = Ret t (mkst m w' e1) ∧
                read_proc_starttime path (mkst m' w e') = Ret t (mkst m' w' e2).
Proof.
  unfold read_proc_starttime, bind, sys. cbn [s_mem s_world s_errno].
  destruct (kstep (k_open _ _ _) w) as [[fd|x] w1]; cbn [s_mem s_world s_errno];
    [|do 4 eexists; done].
  destruct (kstep (k_read _ _) w1) as [[b|x] w2]; cbn [s_mem s_world s_errno];
    destruct (kstep (k_close _) w2) as [[u|y] w3]; cbn [s_mem s_world s_errno];
    try case_decide; do 4 eexists; done.
Qed.

Lemma self_starttime_value m (w : W) e :
  cache_coherent m w →
  ∃ s', wslcompat_self_starttime_pid (kpid w) (mkst m w e) = Ret (self_start w) s' ∧
        identity w s' (kpid w) (self_start w) ∧ ∃ c, s_mem s' = set_starttime_cache c m.
Proof.
  intros Hc.
  destruct (self_starttime_run w (mkst m w e) (kpid w)) as (t & s' & E & Hid & Hm); [done..|].
  exists s'. assert (t = self_start w) as ->; [|done].
  revert E. unfold wslcompat_self_starttime_pid. run_simpl. destruct (_ =? _) eqn:Ep.
  - apply Z.eqb_eq in Ep. intros [= <- <-]. by apply Hc.
  - destruct (read_starttime_world "/proc/self/stat" m init_mem w e 0)
      as (t' & w' & e1 & e2 & E1 & E2).
    rewrite (bind_Ret _ _ _ _ _ E1). run_simpl. intros [= <- <-].
    unfold self_start. by rewrite E2.
Qed.

Lemma view_slots_cache v c m : view_slots v (set_starttime_cache c m) = view_slots v m.
Proof. by destruct v. Qed.
Lemma view_base_cache v c m : view_base v (set_starttime_cache c m) = view_base v m.
Proof. by destruct v. Qed.
Lemma valid_cache v c m : valid_view v m → valid_view v (set_starttime_cache c m).
Proof. by destruct v. Qed.

Lemma view_read_value v m (w : W) :
  cache_coherent m w → view_read v m w = Some (view_value v m (kpid w) (self_start w)).
Proof.
  intros Hc. unfold view_read, wslcompat_view_fd_load. run_simpl.
  destruct (self_starttime_value m w 0 Hc) as (s' & E & Hid & c & Hm).
  rewrite (bind_Ret _ _ _ _ _ E). run_simpl. rewrite Hm. unfold view_value.
  change (entry_at (set_starttime_cache c m)) with (entry_at m).
  destruct (synth_is_installer _ _ _); run_simpl; rewrite ?Hm, ?view_base_cache; [done|].
  rewrite view_slots_cache.
  destruct (wslcompat_override_get_pid _ _ _); run_simpl; by rewrite ?Hm, ?view_base_cache.
Qed.

Lemma cow_frame_value v (w0 wb : W) id t m m' :
  slots_step v (λ _, cow_ok w0 id t) m m' → kpid wb ≠ id → kpid wb ≠ 0 →
  stays_alive w0 wb (view_slots v m) →
  view_value v m' (kpid wb) (self_start wb) = view_value v m (kpid wb) (self_start wb).
Proof.
  intros (Ho & Hlen & Hs) Hne Hnz Hlive. unfold view_value.
  set (tb := self_start wb). set (b := kpid wb) in *.
  assert (synth_is_installer (entry_at m' (view_entry v)) b tb
          = synth_is_installer (entry_at m (view_entry v)) b tb) as ->.
  { destruct Ho as [l ->]. unfold synth_is_installer.
    by destruct (entry_ident_set_slots v l m (view_entry v)) as [-> ->]. }
  assert (view_base v m' = view_base v m) as ->.
  { destruct Ho as [l ->]. apply view_base_set_slots. }
  destruct (synth_is_installer _ _ _); [done|].
  assert (∀ i, (i < length (view_slots v m))%nat →
    (ov_pid (view_slots v m !!! i) = b → view_slots v m' !!! i = view_slots v m !!! i) ∧
    (ov_pid (view_slots v m' !!! i) = b → view_slots v m' !!! i = view_slots v m !!! i)) as Hfor.
  { intros i Hi. specialize (Hs i Hi).
    assert (∀ og, gc_ok w0 id t (view_slots v m !!! i) og →
      ov_pid (view_slots v m !!! i) = b → og = view_slots v m !!! i) as Hgc.
    { intros og [->|(-> & _ & [[Hp _]|[_ Hd]])] Hb; [done|congruence|].
      destruct (Hlive (view_slots v m !!! i)); [|done|done].
      destruct (lookup_lt_is_Some_2 _ _ Hi) as [x Hx].
      rewrite (list_lookup_total_correct _ _ _ Hx). by eapply list_elem_of_lookup_2. }
    destruct Hs as [Hg|(Hp & Ht & og & Hg & Hog)].
    - split; [by apply Hgc|]. intros Hb. destruct Hg as [->|(Heq & _ & _)]; [done|].
      rewrite Heq in Hb. simpl in Hb. congruence.
    - split; [|congruence]. intros Hb. rewrite (Hgc og Hg Hb) in Hog. naive_solver congruence. }
  destruct (wslcompat_override_get_pid (view_slots v m) b tb) as [i|] eqn:E.
  - apply get_pid_Some in E as (Hi & Hp & Ht & Hj).
    assert (wslcompat_override_get_pid (view_slots v m') b tb = Some i) as ->.
    + apply get_pid_Some. rewrite (proj1 (Hfor i Hi) Hp), Hlen. split_and!; [done..|].
      intros j Hlt [Hp' Ht']. pose proof (proj2 (Hfor j ltac:(lia)) Hp') as Hq.
      rewrite Hq in Hp', Ht'.
      by apply (Hj j Hlt).
    + by rewrite (proj1 (Hfor i Hi) Hp).
  - assert (wslcompat_override_get_pid (view_slots v m') b tb = None) as ->; [|done].
    apply get_pid_None. rewrite Hlen. intros i Hi [Hp Ht].
    pose proof (proj2 (Hfor i Hi) Hp) as Hq. rewrite Hq in Hp, Ht. by apply (proj1 (get_pid_None _ _ _) E i Hi).
Qed.

Lemma wrap_pid_inj a b : pid_ok a → pid_ok b → wrap_u 32 a = wrap_u 32 b → a = b.
Proof.
  unfold pid_ok, INT_MAX. intros Ha Hb. rewrite !wrap_u_id by (unfold in_u; lia). done.
Qed.

(** A process whose pid differs from the installer's is not the installer. *)
Lemma not_installer e id t : id ≠ install_pid e → synth_is_installer e id t = false.
Proof. intros H. unfold synth_is_installer. apply andb_false_iff. left. by apply Z.eqb_neq. Qed.

Lemma run_cow_frame v op (s s' : st W) :
  let id := kpid (s_world s) in
  valid_view v (s_mem s) → synth_acquire_lock (s_mem s) = false → id ≠ 0 →
  id ≠ install_pid (entry_at (s_mem s) (view_entry v)) →
  run_cow v op s = Ret tt s' →
  ∃ t c, identity (s_world s) s' id t ∧
    slots_step v (λ _, cow_ok (s_world s) id t) (set_starttime_cache c (s_mem s)) (s_mem s').
Proof.
  intros id Hv Hlock Hnz Hni Hrun.
  destruct (self_starttime_run (s_world s) s id) as (t & s1 & E & Hid & c & Hm); [done..|].
  assert (∀ A (k : Z → Z → prog (st W) A),
    (let* i := getpid in let* t := wslcompat_self_starttime_pid i in k i t)%C s
    = (let* i := getpid in let* t := wslcompat_self_starttime_pid i in k i t)%C s1) as Hwarm.
  { intros A k. run_simpl. rewrite (bind_Ret _ _ _ _ _ E), (identity_pid _ _ _ _ Hid).
    by rewrite (bind_Ret _ _ _ _ _ (identity_cached _ _ _ _ Hid)). }
  assert (run_cow v op s = run_cow v op s1) as Heq.
  { destruct op as [x|x y|x]; simpl.
    - apply Hwarm.
    - apply bind_cong, Hwarm.
    - do 2 apply bind_cong. apply Hwarm. }
  assert (valid_view v (s_mem s1)) as Hv1 by (rewrite Hm; by apply valid_cache).
  assert (synth_acquire_lock (s_mem s1) = false) as Hl1 by (by rewrite Hm).
  assert (synth_is_installer (entry_at (s_mem s1) (view_entry v)) id t = false) as Hi1.
  { rewrite Hm. by apply not_installer. }
  exists t, c. rewrite <-Hm. rewrite Heq in Hrun. destruct op as [x|x y|x]; simpl in Hrun.
  - destruct (view_fd_store_run (s_world s) v id t s1 x) as (s2 & E2 & Hid2 & Hs & _); [done..|].
    rewrite E2 in Hrun. by injection Hrun as <-.
  - destruct (view_fd_cas_run (s_world s) v id t s1 x y) as (r & s2 & E2 & Hid2 & Hs); [done..|].
    rewrite (bind_Ret _ _ _ _ _ E2) in Hrun. by injection Hrun as <-.
  - destruct (view_fd_relocate_run (s_world s) v id t s1 x) as (r & s2 & E2 & Hid2 & Hs); [done..|].
    rewrite (bind_Ret _ _ _ _ _ E2) in Hrun. by injection Hrun as <-.
Qed.

(** C7: A process that did not install the entry can store, exchange or relocate one of the entry's
    internal descriptors without any other process of the address space seeing another value:
    not the installer, not a sibling that runs and has a slot, not one without. *)
Theorem cow_isolation v op (s s' : st W) (wb : W) :
  let id := kpid (s_world s) in
  valid_view v (s_mem s) → synth_acquire_lock (s_mem s) = false →
  pid_ok id → pid_ok (kpid wb) → kpid wb ≠ id →
  id ≠ install_pid (entry_at (s_mem s) (view_entry v)) →
  cache_coherent (s_mem s) wb →
  stays_alive (s_world s) wb (view_slots v (s_mem s)) →
  run_cow v op s = Ret tt s' →
  view_read v (s_mem s') wb = view_read v (s_mem s) wb.
Proof.
  intros id Hv Hlock Hid Hb Hne Hni Hcc Hlive Hrun.
  destruct (run_cow_frame v op s s') as (t & c & Hid' & Hs); [done|done|unfold pid_ok in *; lia|done|done|].
  rewrite (view_read_value v (s_mem s) wb) by done.
  rewrite (view_read_value v (s_mem s') wb).
  - f_equal. rewrite (cow_frame_value _ _ _ _ _ _ _ Hs);
      [by destruct v|done|unfold pid_ok in *; lia|by rewrite view_slots_cache].
  - intros Hp. destruct Hid' as (_ & _ & Hc). rewrite Hc in Hp. simpl in Hp.
    by apply wrap_pid_inj in Hp.
Qed.

Lemma set_view_base_facts v x m :
  valid_view v m →
  view_base v (set_view_base v x m) = x ∧
  starttime_cache (set_view_base v x m) = starttime_cache m ∧
  install_pid (entry_at (set_view_base v x m) (view_entry v)) =
    install_pid (entry_at m (view_entry v)) ∧
  install_starttime (entry_at (set_view_base v x m) (view_entry v)) =
    install_starttime (entry_at m (view_entry v)).
Proof.
  destruct v as [e|e t]; simpl; unfold entry_at, tty_at; simpl; intros H;
    by rewrite list_lookup_total_alter_eq by (done || apply H).
Qed.

Lemma view_read_identity w0 v (s : st W) id t :
  identity w0 s id t → view_read v (s_mem s) (s_world s) = Some (view_value v (s_mem s) id t).
Proof.
  intros Hid. unfold view_read.
  rewrite (view_fd_load_run w0 v id t (mkst (s_mem s) (s_world s) 0)); [done|exact Hid].
Qed.

(** A process that stores a value in a view reads it back: the installer from the base, another
    process from its slot; only when every slot is taken by others is the store dropped, and
    the process goes on reading the base. *)
Theorem cow_store_load v x (s s' : st W) :
  let id := kpid (s_world s) in
  valid_view v (s_mem s) → synth_acquire_lock (s_mem s) = false → pid_ok id →
  wslcompat_view_fd_store v x s = Ret tt s' →
  view_read v (s_mem s') (s_world s') = Some x ∨
  (view_read v (s_mem s') (s_world s') = Some (view_base v (s_mem s)) ∧
   ∀ o, o ∈ view_slots v (s_mem s') → ov_pid o ≠ 0).
Proof.
  intros id Hv Hlock Hpid Hrun.
  destruct (self_starttime_run (s_world s) s id) as (t & s1 & E & Hid & c & Hm); [done..|].
  assert (wslcompat_view_fd_store v x s = wslcompat_view_fd_store v x s1) as Heq.
  { unfold wslcompat_view_fd_store. run_simpl.
    by rewrite (bind_Ret _ _ _ _ _ E), (identity_pid _ _ _ _ Hid),
      (bind_Ret _ _ _ _ _ (identity_cached _ _ _ _ Hid)). }
  rewrite Heq in Hrun. clear Heq.
  assert (valid_view v (s_mem s1)) as Hv1 by (rewrite Hm; by apply valid_cache).
  destruct (synth_is_installer (entry_at (s_mem s1) (view_entry v)) id t) eqn:Hi.
  - left. revert Hrun. unfold wslcompat_view_fd_store. run_simpl.
    rewrite (identity_pid _ _ _ _ Hid), (bind_Ret _ _ _ _ _ (identity_cached _ _ _ _ Hid)).
    run_simpl. rewrite Hi. run_simpl. intros [= <-]. cbn [s_mem s_world].
    destruct (set_view_base_facts v x (s_mem s1) Hv1) as (Hb & Hc & H1 & H2).
    etrans; [eapply (view_read_identity (s_world s) v
      (mkst (set_view_base v x (s_mem s1)) (s_world s1) (s_errno s1)) id t)|].
    + destruct Hid as (? & ? & ?). split_and!; [done..|]. cbn [s_mem]. by rewrite Hc.
    + unfold view_value, synth_is_installer in *. cbn [s_mem]. by rewrite H1, H2, Hi, Hb.
  - destruct (view_fd_store_run (s_world s) v id t s1 x) as (s2 & E2 & Hid2 & Hs & Hor);
      [unfold pid_ok in *; lia|done|done|by rewrite Hm|done|].
    rewrite E2 in Hrun. injection Hrun as <-.
    rewrite (view_read_identity _ _ _ _ _ Hid2). unfold view_value.
    destruct Hs as ([l Hl] & Hlen & _).
    assert (synth_is_installer (entry_at (s_mem s2) (view_entry v)) id t = false) as ->.
    { rewrite Hl. unfold synth_is_installer in *.
      by destruct (entry_ident_set_slots v l (s_mem s1) (view_entry v)) as [-> ->]. }
    destruct Hor as [(i & Hg & Hfd)|[Hg Hfull]]; rewrite Hg; [left; by rewrite Hfd|].
    right. split; [rewrite Hl, view_base_set_slots, Hm; by rewrite view_base_cache|].
    intros o (i & Hi')%list_elem_of_lookup. rewrite <-(list_lookup_total_correct _ _ _ Hi').
    apply Hfull. rewrite <-Hlen. by eapply lookup_lt_Some.
Qed.
End sharing.

(** ** A kernel with three processes, for the examples

    /proc/<pid>/stat is readable for the processes listed, [F_DUPFD_CLOEXEC] hands out
    descriptor 20, and no call changes the world. *)
Module StatKernel.
Record world := { self : Z; procs : list (Z * Z) }.

Definition stat_line (pid start : Z) : string :=
  fmt_d pid +:+ " (a) b) S 1 2 3 4 5 6 7 8 9 10 11 12 13 14 15 16 17 18 " +:+ fmt_d start +:+ " 0".

Definition stat_path (pid : Z) : string := "/proc/" +:+ fmt_d pid +:+ "/stat".

(** A descriptor on /proc/<pid>/stat is numbered [1000 + pid]. *)
Fixpoint find_path (path : string) (l : list (Z * Z)) : option Z :=
  match l with
  | [] => None
  | (p, _) :: l' => if String.eqb path (stat_path p) then Some (1000 + p) else find_path path l'
  end.

Fixpoint find_start (pid : Z) (l : list (Z * Z)) : option Z :=
  match l with
  | [] => None
  | (p, t) :: l' => if p =? pid then Some t else find_start pid l'
  end.

Definition step {R} (c : call R) (w : world) : (R + Z) * world :=
  match c with
  | k_open path _ _ =>
      (match find_path (if String.eqb path "/proc/self/stat" then stat_path (self w) else path)
               (procs w) with
       | Some fd => inl fd
       | None => inr ENOENT
       end, w)
  | k_read fd _ =>
      (match find_start (fd - 1000) (procs w) with
       | Some t => inl (stat_line (fd - 1000) t)
       | None => inr EBADF
       end, w)
  | k_close _ => (inl tt, w)
  | k_fcntl _ _ _ => (inl 20, w)
  | _ => (inr ENOSYS, w)
  end.

#[global] Instance kernel : Kernel world := {| kstep := @step; kpid := self |}.

Lemma step_world {R} (c : call R) w : snd (kstep c w) = w.
Proof. by destruct c. Qed.

#[global] Instance kernel_pid : KernelPid world.
Proof. intros R c w. by rewrite step_world. Qed.

Lemma reach_world (w w' : world) : wreach w w' → w' = w.
Proof. induction 1 as [|x y z (R & c & ->) _ IH]; [done|]. by rewrite IH, step_world. Qed.

(** The installer 100, a child 101 about to close descriptor 9, a sibling 102 with a slot. *)
Definition world_of (pid : Z) : world :=
  {| self := pid; procs := [(100, 5000); (101, 6000); (102, 7000)] |}.

Definition entry : synth_entry :=
  set_install_pid 100 (set_install_starttime 5000 (set_probe_fd 9 (set_refcount 1
    (set_probe_overrides [mine 102 7000 12; mine 33 1 4; free_override; free_override]
      free_entry)))).

Definition memory : mem :=
  set_starttime_cache {| p_starttime := 5000; p_pid := 100 |}
    (set_synth_table (entry :: replicate 63 free_entry) init_mem).

Lemma alive_102 pid : stays_alive (world_of pid) (world_of 102) (view_slots (v_probe 0) memory).
Proof.
  intros o Ho Hp ([m w e] & s' & t & Hw & E & Ht). apply reach_world in Hw. simpl in Hw. subst w.
  simpl in Ho. rewrite !elem_of_cons, elem_of_nil in Ho.
  destruct Ho as [->|[->|[->|[->|[]]]]]; [|done..].
  vm_compute in E. injection E as <- _. done.
Qed.

Lemma alive_100 pid : stays_alive (world_of pid) (world_of 100) (view_slots (v_probe 0) memory).
Proof.
  intros o Ho Hp. exfalso. simpl in Ho, Hp. rewrite !elem_of_cons, elem_of_nil in Ho.
  naive_solver.
Qed.
End StatKernel.

(** The text of a stat file with parentheses in the command name. *)
Example parse_starttime_comm : parse_starttime (StatKernel.stat_line 7 424242) = 424242.
Proof. vm_compute. reflexivity. Qed.

Lemma cow_isolation_witness :
  ∃ s', run_cow (v_probe 0) (op_relocate 9)
          (mkst StatKernel.memory (StatKernel.world_of 101) 0) = Ret tt s' ∧
    view_read (v_probe 0) (s_mem s') (StatKernel.world_of 101) = Some 20 ∧
    view_read (v_probe 0) (s_mem s') (StatKernel.world_of 100) = Some 9 ∧
    view_read (v_probe 0) (s_mem s') (StatKernel.world_of 102) = Some 12.
Proof.
  eexists. split; [vm_compute; reflexivity|]. split; [vm_compute; reflexivity|]. split.
  - etrans; [eapply (cow_isolation (v_probe 0) (op_relocate 9)
      (mkst StatKernel.memory (StatKernel.world_of 101) 0))|];
      [vm_compute; lia|reflexivity|vm_compute; split; done..|done|done| | | |].
    + intros _. vm_compute. reflexivity.
    + apply StatKernel.alive_100.
    + vm_compute. reflexivity.
    + vm_compute. reflexivity.
  - etrans; [eapply (cow_isolation (v_probe 0) (op_relocate 9)
      (mkst StatKernel.memory (StatKernel.world_of 101) 0))|];
      [vm_compute; lia|reflexivity|vm_compute; split; done..|done|done| | | |].
    + intros H. vm_compute in H. done.
    + apply StatKernel.alive_102.
    + vm_compute. reflexivity.
    + vm_compute. reflexivity.
Defined.

Lemma cow_store_load_witness :
  ∃ s', wslcompat_view_fd_store (v_probe 0) 30
          (mkst StatKernel.memory (StatKernel.world_of 101) 0) = Ret tt s' ∧
    (view_read (v_probe 0) (s_mem s') (s_world s') = Some 30 ∨
     (view_read (v_probe 0) (s_mem s') (s_world s') = Some 9 ∧
      ∀ o, o ∈ view_slots (v_probe 0) (s_mem s') → ov_pid o ≠ 0)).
Proof.
  eexists. split; [vm_compute; reflexivity|].
  apply (cow_store_load (v_probe 0) 30 (mkst StatKernel.memory (StatKernel.world_of 101) 0));
    [vm_compute; lia|reflexivity|vm_compute; split; done|vm_compute; reflexivity].
Defined.

(** The start-time cache is tagged with the pid alone. A process that was given a recycled pid
    while the cache still carries its predecessor's entry takes over the predecessor's identity:
    it reads the descriptor number the dead process left in its slot, although the kernel reports
    another start time for it. *)
Theorem recycled_pid_reads_stale_slot :
  ∃ (m : mem) (w : StatKernel.world) fd,
    self_start w ≠ p_starttime (starttime_cache m) ∧
    p_pid (starttime_cache m) = kpid w ∧
    wslcompat_override_get_pid (view_slots (v_probe 0) m) (kpid w) (self_start w) = None ∧
    view_base (v_probe 0) m ≠ fd ∧
    view_read (v_probe 0) m w = Some fd.
Proof.
  exists (set_starttime_cache {| p_starttime := 6500; p_pid := 101 |}
    (upd_entry 0 (set_probe_overrides [mine 101 6500 17]) StatKernel.memory)),
    (StatKernel.world_of 101), 17.
  vm_compute. repeat split; done.
Qed.
