(* ===== verification/ProcStat.v ===== *)
(** * /proc/<pid>/stat

    The start time that tells a process from an earlier one with the same pid is field 22 of a line
    whose second field is the name of the program, in parentheses, with anything in it. *)

From S2P Require Import Prelude CString Kernel State Tunables Override.

Open Scope Z_scope.

(** Numeric fields, each after a blank. *)
Fixpoint stat_fields (l : list Z) : string :=
  match l with [] => "" | x :: l => String " " (fmt_d x +:+ stat_fields l) end.

(** The line: [pre] is the pid and all of the name up to the last parenthesis, [state] the state
    letter, [mid] fields 4 to 21, [start] field 22. *)
Definition stat_line (pre : string) (state : Ascii.ascii) (mid : list Z) (start : Z) (rest : string) : string :=
  pre +:+ String ")" (String " " (String state (stat_fields mid +:+ stat_fields [start] +:+ rest))).

Fixpoint no_char (c : Ascii.ascii) (s : string) : bool :=
  match s with EmptyString => true | String a s => negb (bool_decide (a = c)) && no_char c s end.

Lemma no_char_app c a b : no_char c (a +:+ b) = no_char c a && no_char c b.
Proof.
  induction a as [|x a IH]; [done|]. change (String x a +:+ b) with (String x (a +:+ b)). simpl.
  by rewrite IH, andb_assoc.
Qed.

Lemma strrchr_none s c : no_char c s = true → strrchr_after s c = None.
Proof.
  induction s as [|a s IH]; [done|]. simpl. intros [H1 H2]%andb_true_iff. rewrite IH by done.
  apply negb_true_iff, bool_decide_eq_false in H1. by rewrite decide_False.
Qed.

Lemma strrchr_last p s c : no_char c s = true → strrchr_after (p +:+ String c s) c = Some s.
Proof.
  intros Hs. induction p as [|a p IH].
  - change ("" +:+ String c s) with (String c s). simpl. by rewrite (strrchr_none s c Hs), decide_True.
  - change (String a p +:+ String c s) with (String a (p +:+ String c s)). simpl. by rewrite IH.
Qed.

Lemma no_char_pretty_go c x s :
  (∀ d, (d < 10)%N → pretty_N_char d ≠ c) → no_char c s = true → no_char c (pretty_N_go x s) = true.
Proof.
  intros Hd. revert s. induction (N.lt_wf_0 x) as [x _ IH]. intros s Hs.
  destruct (decide (0 < x)%N) as [Hx|Hx].
  - rewrite pretty_N_go_step by done. apply IH; [by apply N.div_lt|]. simpl.
    rewrite bool_decide_eq_false_2; [done|]. apply Hd. by apply N.mod_lt.
  - assert (x = 0%N) as -> by lia. by rewrite pretty_N_go_0.
Qed.

Lemma fmt_d_no_paren z : no_char ")" (fmt_d z) = true.
Proof.
  assert (∀ d, (d < 10)%N → pretty_N_char d ≠ ")"%char) as Hd by (by apply digit_cases).
  assert (∀ x : N, no_char ")" (pretty x) = true) as Hx.
  { intros x. unfold pretty, pretty_N. case_decide; [done|]. by apply no_char_pretty_go. }
  destruct z as [|p|p]; [apply (Hx 0%N)|apply (Hx (Npos p))|].
  change (no_char ")" (pretty (Npos p)) = true). apply Hx.
Qed.

Lemma stat_fields_no_paren l : no_char ")" (stat_fields l) = true.
Proof.
  induction l as [|x l IH]; [done|]. cbn [stat_fields no_char]. by rewrite no_char_app, fmt_d_no_paren, IH.
Qed.

Lemma fields_stop l rest :
  starts_digit 10 rest = false → starts_digit 10 (stat_fields l +:+ rest) = false.
Proof. by destruct l. Qed.

Lemma strtoull_skips x rest :
  starts_digit 10 rest = false → snd (strtoull (String " " (fmt_d x +:+ rest)) 10) = rest.
Proof. intros Hr. unfold strtoull. rewrite scan_number_space. by rewrite scan_number_fmt. Qed.

Lemma skip_fields_all l rest :
  starts_digit 10 rest = false → skip_fields (length l) (stat_fields l +:+ rest) = rest.
Proof.
  intros Hr. induction l as [|x l IH]; [done|]. cbn [length skip_fields stat_fields].
  change (String " " ?a +:+ ?b) with (String " " (a +:+ b)). rewrite append_assoc.
  rewrite strtoull_skips by by apply fields_stop. exact IH.
Qed.

(** C37: The start time is read from the right field whatever the program is called: blanks,
    parentheses and digits in the name do not lead the parser astray. *)
Theorem starttime_field pre state mid start rest :
  length mid = 18%nat → state ≠ " "%char → state ≠ ")"%char → 0 ≤ start ≤ ULONG_MAX →
  no_char ")" rest = true → starts_digit 10 rest = false →
  parse_starttime (stat_line pre state mid start rest) = start.
Proof.
  intros Hl Hs Hp Hst Hr Hd. unfold parse_starttime, stat_line.
  rewrite strrchr_last.
  2: { cbn [no_char]. rewrite !no_char_app, !stat_fields_no_paren, Hr.
       by rewrite (bool_decide_eq_false_2 (state = _)). }
  cbv beta zeta iota. cbn [skip_char]. rewrite decide_True by done. cbn [skip_char].
  rewrite decide_False by done. cbn [strchrnul]. rewrite decide_False by done. cbn [strdrop].
  assert (strchrnul (stat_fields mid +:+ stat_fields [start] +:+ rest) " " = O) as E by (by destruct mid).
  rewrite E. cbn [strdrop]. rewrite <-Hl, skip_fields_all by done.
  cbn [stat_fields]. change (String " " ?a +:+ ?b) with (String " " (a +:+ b)).
  rewrite append_empty. unfold strtoull. rewrite scan_number_space, scan_number_fmt by done.
  rewrite (proj2 (Z.ltb_ge ULONG_MAX (Z.abs start))) by lia.
  rewrite (proj2 (Z.ltb_ge start 0)) by lia. cbn [fst]. lia.
Qed.

Lemma starttime_field_witness :
  parse_starttime "42 (a) 7 (b) 9) S 1 42 42 0 -1 4194304 5 0 0 0 1 2 0 0 20 0 1 0 123456 0 0" = 123456.
Proof.
  refine (starttime_field "42 (a) 7 (b) 9" "S"
    [1; 42; 42; 0; -1; 4194304; 5; 0; 0; 0; 1; 2; 0; 0; 20; 0; 1; 0] 123456 " 0 0" _ _ _ _ _ _);
    [done|done|done|unfold ULONG_MAX; lia|done|done].
Defined.
