(* ===== verification/Walk.v ===== *)
(** * utils.c: walking /proc/self/fd *)

From stdpp Require Import gmap.
From S2P Require Import Prelude CString Kernel State.

Open Scope Z_scope.

Section walk.
Context {W : Type} `{!Kernel W} {U : Type}.
Local Abbreviation M := (prog (st W)).

(** The callback gets the descriptor and the [user] structure; [true] is a nonzero return. *)
Variable visit : Z → U → M (bool * U).

Definition name_is_fd (name : string) : bool :=
  match name with
  | EmptyString => false
  | String c _ => (48 <=? chr c) && (chr c <=? 57)
  end.

(** The entries of one buffer; [true] when the callback stopped the walk. *)
Fixpoint walk_batch (dirfd : Z) (names : list string) (u : U) : M (bool * U) :=
  match names with
  | [] => ret (false, u)
  | name :: names' =>
      if negb (name_is_fd name) then walk_batch dirfd names' u
      else
        let fd := atoi name in
        if fd =? dirfd then walk_batch dirfd names' u
        else
          let* (stop, u') := visit fd u in
          if (stop : bool) then ret (true, u') else walk_batch dirfd names' u'
  end.

Fixpoint walk_loop (n : nat) (dirfd : Z) (u : U) : M U :=
  match n with
  | O => nofuel
  | S n' =>
      let* b := sys (k_getdents64 dirfd 4096) in
      match b with
      | None | Some [] => ret u
      | Some names =>
          let* (stop, u') := walk_batch dirfd names u in
          if (stop : bool) then ret u' else walk_loop n' dirfd u'
      end
  end.

Definition wslcompat_walk_proc_self_fd `{!Fuel} (u : U) : M U :=
  let* dirfd := sys (k_open "/proc/self/fd" (Z.lor O_RDONLY (Z.lor O_DIRECTORY O_CLOEXEC)) 0) in
  match dirfd with
  | None => ret u
  | Some dirfd =>
      let* u' := walk_loop fuel dirfd u in
      sys (k_close dirfd) ;;* ret u'
  end.
End walk.

Section walk_facts.
Context {W : Type} `{!Kernel W} {U : Type}.
Variable visit : Z → U → prog (st W) (bool * U).

Lemma within_walk `{!Fuel} (R : relation (st W)) `{!PreOrder R} u :
  (∀ A (c : call A), bookkeeping c = true → within R (sys c)) → (∀ fd u, within R (visit fd u)) →
  within R (wslcompat_walk_proc_self_fd visit u).
Proof.
  intros Hsys Hv.
  assert (∀ dirfd names u, within R (walk_batch visit dirfd names u)) as Hb.
  { intros dirfd names. induction names as [|n names IH]; intros u'; simpl; [by within_auto|].
    within_auto; auto. }
  assert (∀ n dirfd u, within R (walk_loop visit n dirfd u)) as Hl.
  { induction n as [|n IH]; intros dirfd u'; simpl; [by within_auto|].
    apply within_bind; [done|by apply Hsys|]. intros [[|x l]|]; [by within_auto| |by within_auto].
    apply within_bind; [done..|]. intros [[] u'']; [by within_auto|done]. }
  unfold wslcompat_walk_proc_self_fd. within_auto; auto.
Qed.
End walk_facts.

(** ** A kernel whose /proc/self/fd lists the descriptor table

    What proc(5) documents: reading the directory to its end names every open descriptor, each
    by its decimal number, beside [.] and [..]. *)
Class KernelProcFd (W : Type) `{!Kernel W} := {
  fds : W → gmap Z stat;
  (** the names not yet read through a directory descriptor *)
  pending : W → Z → list string;
  fds_range w fd : is_Some (fds w !! fd) → 0 ≤ fd ≤ INT_MAX;
  fstat_law fd w :
    kstep (k_fstat fd) w = (match fds w !! fd with Some s => inl s | None => inr EBADF end, w);
  opendir_law flags mode w d w' :
    kstep (k_open "/proc/self/fd" flags mode) w = (inl d, w') →
    ∃ s, fds w !! d = None ∧ fds w' = <[d := s]> (fds w) ∧
      ∀ name, name ∈ pending w' d ↔
        name = "." ∨ name = ".." ∨ ∃ fd, name = fmt_d fd ∧ is_Some (fds w' !! fd);
  getdents_law d n w w' r :
    kstep (k_getdents64 d n) w = (r, w') → is_Some (fds w !! d) →
    fds w' = fds w ∧
    ∃ l, r = inl l ∧ pending w d = l ++ pending w' d ∧ (l = [] → pending w d = []);
}.

Lemma name_is_fd_fmt fd : 0 ≤ fd → name_is_fd (fmt_d fd) = true.
Proof.
  intros H. rewrite fmt_d_nonneg by done.
  destruct (pretty_N_head (Z.to_N fd)) as (d & s' & Hd & ->).
  apply (digit_cases (λ d, name_is_fd (String (pretty_N_char d) s') = true)); done.
Qed.

Section search.
Context {W : Type} `{!Kernel W, !KernelProcFd W}.
Variables (F : gmap Z stat) (m : mem) (hit : Z → bool).
Variable visit : Z → bool → prog (st W) (bool * bool).

(** A visitor that looks for a descriptor: it stops at the first hit. *)
Hypothesis visit_search : ∀ fd w e, fds w = F →
  ∃ e', visit fd false (mkst m w e) = Ret (hit fd, hit fd) (mkst m w e').

Definition name_hit (d : Z) (name : string) : bool :=
  name_is_fd name && negb (atoi name =? d) && hit (atoi name).

Lemma walk_batch_search d names w e :
  fds w = F → ∃ e', let b := existsb (name_hit d) names in
    walk_batch visit d names false (mkst m w e) = Ret (b, b) (mkst m w e').
Proof.
  intros HF. revert e. induction names as [|x names IH]; intros e; [by exists e|].
  simpl. unfold name_hit at 1 3. destruct (name_is_fd x); simpl; [|apply IH].
  destruct (atoi x =? d); simpl; [apply IH|].
  destruct (visit_search (atoi x) w e HF) as [e1 E]. rewrite (bind_Ret _ _ _ _ _ E).
  destruct (hit (atoi x)); [by exists e1|apply IH].
Qed.

Lemma walk_loop_search n d w e :
  fds w = F → is_Some (F !! d) → (length (pending w d) < n)%nat →
  ∃ w' e', walk_loop visit n d false (mkst m w e)
           = Ret (existsb (name_hit d) (pending w d)) (mkst m w' e').
Proof.
  revert w e. induction n as [|n IH]; intros w e HF Hd Hn; [lia|]. cbn [walk_loop].
  unfold bind at 1, sys. cbn [s_world s_mem s_errno].
  destruct (kstep (k_getdents64 d 4096) w) as [r w1] eqn:E.
  apply getdents_law in E as (HF1 & l & -> & Hp & Hend); [|by rewrite HF]. rewrite Hp in *.
  destruct l as [|x l].
  - rewrite app_nil_l in *. rewrite Hend by done. simpl. eauto.
  - destruct (walk_batch_search d (x :: l) w1 e) as [e1 Eb]; [congruence|].
    rewrite (bind_Ret _ _ _ _ _ Eb). rewrite existsb_app.
    destruct (existsb _ (x :: l)); [simpl; eauto|]. simpl orb.
    apply IH; [congruence|done|]. rewrite length_app in Hn. simpl in Hn. lia.
Qed.

(** The walk finds exactly the open descriptors, its own directory descriptor excepted. *)
Lemma walk_search `{!Fuel} flags w e d w' :
  flags = Z.lor O_RDONLY (Z.lor O_DIRECTORY O_CLOEXEC) →
  kstep (k_open "/proc/self/fd" flags 0) w = (inl d, w') →
  fds w' = F → (length (pending w' d) < fuel)%nat →
  ∃ b w'' e', wslcompat_walk_proc_self_fd visit false (mkst m w e) = Ret b (mkst m w'' e') ∧
    (b = true ↔ ∃ fd, is_Some (fds w !! fd) ∧ hit fd = true).
Proof.
  intros -> Eo HF Hn. unfold wslcompat_walk_proc_self_fd, bind at 1, sys.
  cbn [s_world s_mem s_errno]. rewrite Eo.
  pose proof (opendir_law _ _ _ _ _ Eo) as (sd & Hd & HF' & Hp).
  destruct (walk_loop_search fuel d w' e HF) as (w1 & e1 & El); [|done|].
  { rewrite <-HF, HF', lookup_insert_eq. eauto. }
  rewrite (bind_Ret _ _ _ _ _ El).
  destruct (sys_run (k_close d) (mkst m w1 e1)) as (o & [m2 w2 e2] & Ec & Hm & _).
  simpl in Hm. subst m2. rewrite (bind_Ret _ _ _ _ _ Ec). do 3 eexists. split; [done|].
  rewrite existsb_exists. split.
  - intros (name & Hin & Hh). apply list_elem_of_In, Hp in Hin.
    destruct Hin as [->|[->|(fd & -> & [sf Hf])]]; [done..|].
    assert (0 ≤ fd ≤ INT_MAX) as Hr by (eapply fds_range; by rewrite Hf).
    unfold name_hit in Hh. rewrite atoi_fmt_d in Hh by done.
    apply andb_true_iff in Hh as [[_ Hne]%andb_true_iff Hh].
    apply negb_true_iff, Z.eqb_neq in Hne. exists fd. split; [|done].
    rewrite HF', lookup_insert_ne in Hf by done. eauto.
  - intros (fd & [sf Hf] & Hh). exists (fmt_d fd).
    assert (d ≠ fd) as Hne by congruence.
    assert (fds w' !! fd = Some sf) as Hf' by (by rewrite HF', lookup_insert_ne).
    split; [apply list_elem_of_In, Hp; eauto 6|].
    assert (0 ≤ fd ≤ INT_MAX) as Hr by (eapply fds_range; by rewrite Hf').
    unfold name_hit. rewrite name_is_fd_fmt, atoi_fmt_d, Hh by lia.
    apply Z.eqb_neq in Hne. by rewrite Z.eqb_sym, Hne.
Qed.
End search.
