(* ===== verification/FdKernel.v ===== *)
(** * A concrete kernel: one process with a descriptor table

    A small executable kernel that satisfies the interfaces the theorems are stated against, used
    to run the code on concrete inputs. *)

From stdpp Require Import gmap.
From S2P Require Import Prelude CString Kernel State Walk.

Open Scope Z_scope.

Module FdKernel.

Record world := {
  w_pid : Z;
  w_fds : gmap Z stat;
  w_dirs : gmap Z (list string);   (** names still to be listed, per directory descriptor *)
  w_text : gmap Z string;          (** bytes still to be read, per descriptor *)
  w_files : list (string * string);  (** readable files *)
  w_shared : bool;                 (** another process holds a shared lock on every file *)
  w_next : Z;                      (** next inode number *)
}.

Definition open_fds (w : world) : gmap Z stat :=
  filter (λ p : Z * stat, 0 ≤ p.1 ≤ INT_MAX) (w_fds w).

(** The lowest free descriptor. *)
Definition lowest_free (w : world) : option Z :=
  snd <$> list_find (λ z, open_fds w !! z = None) (Z.of_nat <$> seq 0 1024).

Definition install (d : Z) (s : stat) (w : world) : world :=
  {| w_pid := w_pid w; w_fds := <[d := s]> (w_fds w); w_dirs := delete d (w_dirs w);
     w_text := delete d (w_text w); w_files := w_files w; w_shared := w_shared w;
     w_next := w_next w |}.

Definition set_dir (d : Z) (l : list string) (w : world) : world :=
  {| w_pid := w_pid w; w_fds := w_fds w; w_dirs := <[d := l]> (w_dirs w);
     w_text := w_text w; w_files := w_files w; w_shared := w_shared w; w_next := w_next w |}.

Definition set_text (d : Z) (t : string) (w : world) : world :=
  {| w_pid := w_pid w; w_fds := w_fds w; w_dirs := w_dirs w; w_text := <[d := t]> (w_text w);
     w_files := w_files w; w_shared := w_shared w; w_next := w_next w |}.

Definition bump (w : world) : world :=
  {| w_pid := w_pid w; w_fds := w_fds w; w_dirs := w_dirs w; w_text := w_text w;
     w_files := w_files w; w_shared := w_shared w; w_next := w_next w + 1 |}.

Definition shut (d : Z) (w : world) : world :=
  {| w_pid := w_pid w; w_fds := delete d (w_fds w); w_dirs := delete d (w_dirs w);
     w_text := delete d (w_text w); w_files := w_files w; w_shared := w_shared w;
     w_next := w_next w |}.

Definition listing (w : world) : list string :=
  "." :: ".." :: (fmt_d <$> (map_to_list (open_fds w)).*1).

Definition do_open (path : string) (w : world) : (Z + Z) * world :=
  match lowest_free w with
  | None => (inr EMFILE, w)
  | Some d =>
      if decide (path = "/proc/self/fd") then
        let w1 := install d {| st_dev := 3; st_ino := 1; st_mode := 0 |} w in
        (inl d, set_dir d (listing w1) w1)
      else if bool_decide (path = "/tmp") || starts_with ".wslcompat." path then
        (inl d, bump (install d {| st_dev := 7; st_ino := w_next w; st_mode := 0 |} w))
      else if starts_with "/proc/self/fd/" path then
        match open_fds w !! atoi (strdrop 14 path) with
        | Some s => (inl d, install d s w)
        | None => (inr ENOENT, w)
        end
      else match list_find (λ p : string * string, p.1 = path) (w_files w) with
           | Some (_, (_, t)) =>
               (inl d, set_text d t (install d {| st_dev := 3; st_ino := 2; st_mode := 0 |} w))
           | None => (inr ENOENT, w)
           end
  end.

Definition do_dup (old new : Z) (w : world) : (Z + Z) * world :=
  match open_fds w !! old with
  | Some s => if (0 <=? new) && (new <=? INT_MAX) then (inl new, install new s w) else (inr EBADF, w)
  | None => (inr EBADF, w)
  end.

(** Polling: the O_PATH files of device 7 are spuriously readable, files with text are readable. *)
Definition ready (w : world) (fds : list pollfd) : Z * list Z :=
  let rs := (λ p, match open_fds w !! pfd p with
                  | Some s => if st_dev s =? 7 then 1
                              else if decide (default "" (w_text w !! pfd p) = "") then 0 else 1
                  | None => 32
                  end) <$> fds in
  (Z.of_nat (length (filter (λ r, r ≠ 0) rs)), rs).

Definition in_set (o : option Z) (fd : Z) : bool :=
  match o with Some z => Z.testbit z fd | None => false end.

Definition keep (w : world) (l : list Z) (o : option Z) : option Z :=
  match o with
  | Some z => Some (foldr (λ fd acc, if Z.testbit z fd && bool_decide (default "" (w_text w !! fd) ≠ "")
                                     then Z.setbit acc fd else acc) 0 l)
  | None => None
  end.

(** select fails with EPERM on an O_PATH file and with EBADF on a closed descriptor. *)
Definition do_select (w : world) (nfds : Z) (sets : fdsets) : (Z * fdsets) + Z :=
  let all := Z.of_nat <$> seq 0 (Z.to_nat (Z.min nfds 1024)) in
  let l := filter (λ fd, in_set (rset sets) fd || in_set (wset sets) fd || in_set (eset sets) fd) all in
  if existsb (λ fd, match open_fds w !! fd with Some s => st_dev s =? 7 | None => false end) l
  then inr EPERM
  else if existsb (λ fd, bool_decide (open_fds w !! fd = None)) l then inr EBADF
  else
    let out := {| rset := keep w l (rset sets); wset := keep w l (wset sets);
                  eset := keep w l (eset sets) |} in
    inl (foldr (λ fd n, (if in_set (rset out) fd then 1 else 0) + (if in_set (wset out) fd then 1 else 0)
                        + (if in_set (eset out) fd then 1 else 0) + n) 0 l, out).

Definition step {R} (c : call R) (w : world) : (R + Z) * world :=
  match c in call R return (R + Z) * world with
  | k_open path _ _ => do_open path w
  | k_openat _ path _ _ => do_open path w
  | k_close fd => match open_fds w !! fd with
                  | Some _ => (inl tt, shut fd w)
                  | None => (inr EBADF, w)
                  end
  | k_fstat fd => (match open_fds w !! fd with Some s => inl s | None => inr EBADF end, w)
  | k_flock fd op => (if has_bits op LOCK_EX && w_shared w then inr EWOULDBLOCK else inl tt, w)
  | k_getdents64 fd _ =>
      (inl (default [] (w_dirs w !! fd)), set_dir fd [] w)
  | k_read fd _ => match open_fds w !! fd with
                   | Some s =>
                       (* the files of device 7 are open with O_PATH *)
                       if st_dev s =? 7 then (inr EBADF, w)
                       else (inl (default "" (w_text w !! fd)), set_text fd "" w)
                   | None => (inr EBADF, w)
                   end
  | k_write fd b => (inl (Z.of_nat (String.length b)), w)
  | k_dup2 old new => do_dup old new w
  | k_dup3 old new _ => do_dup old new w
  | k_fcntl fd cmd _ =>
      match open_fds w !! fd with
      | Some s =>
          if cmd =? F_DUPFD_CLOEXEC then
            match lowest_free w with
            | Some d => (inl d, install d s w)
            | None => (inr EMFILE, w)
            end
          else (inl 0, w)
      | None => (inr EBADF, w)
      end
  | k_getrandom n => (inl (String.string_of_list_ascii (replicate (Z.to_nat n) "a"%char)), w)
  | k_unlinkat _ _ _ => (inl tt, w)
  | k_poll fds _ => (inl (ready w fds), w)
  | k_ppoll fds _ _ => (inl (ready w fds), w)
  | k_select nfds sets tv => (match do_select w nfds sets with
                              | inl (n, out) => inl (n, out, tv)
                              | inr e => inr e
                              end, w)
  | k_pselect nfds sets _ _ => (do_select w nfds sets, w)
  | _ => (inr ENOSYS, w)
  end.

#[global] Instance kernel : Kernel world := {| kstep := @step; kpid := w_pid |}.

#[global] Instance kernel_pid : KernelPid world.
Proof.
  intros R c w. destruct c; cbn [kstep kernel step]; try done;
    unfold do_open, do_dup; repeat case_match; done.
Qed.

Lemma open_fds_install d s w :
  0 ≤ d ≤ INT_MAX → open_fds (install d s w) = <[d := s]> (open_fds w).
Proof. intros Hd. unfold open_fds. simpl. by apply map_filter_insert_True. Qed.

Lemma lowest_free_range w d : lowest_free w = Some d → 0 ≤ d ≤ INT_MAX ∧ open_fds w !! d = None.
Proof.
  unfold lowest_free. intros ([k z] & E & Hz)%fmap_Some. simpl in Hz. subst z.
  apply list_find_Some in E as (Hk & Hn & _). split; [|done].
  rewrite list_lookup_fmap in Hk. apply fmap_Some in Hk as (n & Hs%lookup_seq & ->).
  unfold INT_MAX. lia.
Qed.

#[global] Program Instance kernel_proc_fd : KernelProcFd world :=
  {| fds := open_fds; pending w d := default [] (w_dirs w !! d) |}.
Next Obligation.
  intros w fd [s Hs]. unfold open_fds in Hs. apply map_lookup_filter_Some in Hs. apply Hs.
Qed.
Next Obligation. done. Qed.
Next Obligation.
  cbn [kstep kernel step]. intros _ _ w d w' H. unfold do_open in H.
  destruct (lowest_free w) as [d'|] eqn:El; [|done]. simpl in H. injection H as <- <-.
  apply lowest_free_range in El as [Hr Hn].
  exists {| st_dev := 3; st_ino := 1; st_mode := 0 |}. split; [done|].
  split; [by apply open_fds_install|]. intros name. cbn [w_dirs set_dir].
  rewrite lookup_insert_eq. unfold listing. simpl. rewrite !elem_of_cons.
  split; (intros [->|[->|Hin]]; [by left|by right; left|right; right]).
  - apply list_elem_of_fmap in Hin as (fd & -> & Hin). exists fd. split; [done|].
    apply list_elem_of_fmap in Hin as ([fd' s] & -> & Hin). apply elem_of_map_to_list in Hin.
    simpl. eauto.
  - destruct Hin as (fd & -> & [s Hs]). apply list_elem_of_fmap. exists fd. split; [done|].
    apply list_elem_of_fmap. exists (fd, s). split; [done|]. by apply elem_of_map_to_list.
Qed.
Next Obligation.
  cbn [kstep kernel step]. intros d n w w' r H _. injection H as <- <-. split; [done|].
  eexists. split; [done|]. cbn [w_dirs set_dir]. rewrite lookup_insert_eq. simpl.
  by rewrite app_nil_r.
Qed.
End FdKernel.
