(* ===== verification/Internal.v ===== *)
(** * internal.c: the registry of library-internal descriptors *)

From S2P Require Import Prelude Kernel State.

Open Scope Z_scope.

(** The [atomic_int] a registered pointer designates. *)
Definition slot_value (m : mem) (s : internal_slot) : Z :=
  match s with s_debugfd => debugfd m | s_mount_fd => mount_fd m end.
Definition set_slot (s : internal_slot) (fd : Z) (m : mem) : mem :=
  match s with s_debugfd => set_debugfd fd m | s_mount_fd => set_mount_fd fd m end.

Section internal.
Context {W : Type} `{!Kernel W}.
Local Abbreviation M := (prog (st W)).

Definition wslcompat_register_internal_fd (s : internal_slot) : M unit :=
  let* i := getm registry_count in
  setm (set_registry_count (wrap_u 64 (i + 1))) ;;*
  if Z.of_nat MAX_INTERNAL_FDS <=? i then ret tt
  else setm (λ m, set_registry (<[Z.to_nat i := Some s]> (registry m)) m).

(** The body of the relocation loop. The exchange of the source compares with [targetfd], which
    was read from the slot just before. *)
Definition relocate_one (targetfd : Z) (i : nat) : M (option unit) :=
  let* s := getm (λ m, registry m !!! i) in
  match s with
  | None => ret None
  | Some s =>
      let* cur := getm (λ m, slot_value m s) in
      if negb (cur =? targetfd) then ret None
      else
        let* newfd := sys (k_fcntl targetfd F_DUPFD_CLOEXEC (arg_int 3)) in
        match newfd with
        | None => setm (set_slot s (-2)) ;;* ret None
        | Some newfd =>
            let* cur := getm (λ m, slot_value m s) in
            if cur =? targetfd then setm (set_slot s newfd) ;;* ret None
            else sys (k_close newfd) ;;* ret None
        end
  end.

Definition wslcompat_relocate_internal_fd (targetfd : Z) : M unit :=
  let* n := getm registry_count in
  let n := if Z.of_nat MAX_INTERNAL_FDS <? n then Z.of_nat MAX_INTERNAL_FDS else n in
  for_each (seq 0 (Z.to_nat n)) (relocate_one targetfd) ;;*
  ret tt.
End internal.

(** fcntl(2): a duplicate is a descriptor that was not in use. *)
Class KernelDup (W : Type) `{!Kernel W} : Prop :=
  dupfd_fresh fd min w n w' :
    kstep (k_fcntl fd F_DUPFD_CLOEXEC (arg_int min)) w = (inl n, w') → n ≠ fd.

Section facts.
Context {W : Type} `{!Kernel W, !KernelDup W}.

(** The registered slots. *)
Definition registered (m : mem) (s : internal_slot) : Prop :=
  ∃ i, (Z.of_nat i < registry_count m) ∧ (i < MAX_INTERNAL_FDS)%nat ∧
       registry m !!! i = Some s.

Lemma slot_value_set s s' fd m :
  slot_value (set_slot s fd m) s' = if decide (s = s') then fd else slot_value m s'.
Proof. by destruct s, s'. Qed.

Lemma registry_set_slot s fd m : registry (set_slot s fd m) = registry m.
Proof. by destruct s. Qed.

Definition registry_of (s : st W) := (registry (s_mem s), registry_count (s_mem s)).

Lemma within_registry t : within (same registry_of) (wslcompat_relocate_internal_fd t).
Proof.
  unfold wslcompat_relocate_internal_fd, relocate_one.
  assert (∀ s x, within (same registry_of) (setm (set_slot s x))) as Hs.
  { intros s x. apply within_setm. intros. by destruct s. }
  assert (∀ A (c : call A), within (same registry_of) (sys c)) as Hc.
  { intros A c. by apply within_sys. }
  within_auto.
Qed.

(** What one step of the loop leaves: slot [i] no longer names [t], and every slot keeps its value
    or gives up [t]. *)
Lemma relocate_one_run t i (s : st W) :
  0 ≤ t →
  ∃ s', relocate_one t i s = Ret None s' ∧
    registry (s_mem s') = registry (s_mem s) ∧
    (∀ sl, registry (s_mem s) !!! i = Some sl → slot_value (s_mem s') sl ≠ t) ∧
    (∀ sl, slot_value (s_mem s') sl ≠ slot_value (s_mem s) sl →
           slot_value (s_mem s) sl = t ∧ slot_value (s_mem s') sl ≠ t) ∧
    (∀ sl, ¬ registry (s_mem s) !!! i = Some sl →
           slot_value (s_mem s') sl = slot_value (s_mem s) sl).
Proof.
  intros Ht. unfold relocate_one. run_simpl.
  destruct (registry (s_mem s) !!! i) as [sl|]; [|by exists s]. run_simpl.
  destruct (slot_value (s_mem s) sl =? t) eqn:E; [apply Z.eqb_eq in E|apply Z.eqb_neq in E].
  2: { exists s. simpl. split_and!; [done|done| |done|done]. by intros ? [= ->]. }
  simpl. unfold bind at 1, sys. destruct (kstep _ (s_world s)) as [[n|er] w'] eqn:Ek.
  - apply dupfd_fresh in Ek. run_simpl. rewrite E, Z.eqb_refl. eexists. split; [done|].
    cbn [s_mem]. rewrite registry_set_slot. split_and!; [done|..].
    + intros ? [= ->]. by rewrite slot_value_set, decide_True.
    + intros sl'. rewrite slot_value_set. case_decide; [subst|done]. by intros.
    + intros sl' Hne. rewrite slot_value_set, decide_False; [done|congruence].
  - run_simpl. eexists. split; [done|]. cbn [s_mem]. rewrite registry_set_slot.
    split_and!; [done|..].
    + intros ? [= ->]. rewrite slot_value_set, decide_True by done. lia.
    + intros sl'. rewrite slot_value_set. case_decide; [subst|done]. intros. split; [done|lia].
    + intros sl' Hne. rewrite slot_value_set, decide_False; [done|congruence].
Qed.

Lemma relocate_loop_run t l (s : st W) :
  0 ≤ t →
  ∃ s', for_each l (relocate_one t) s = Ret None s' ∧
    (∀ i sl, i ∈ l → registry (s_mem s) !!! i = Some sl → slot_value (s_mem s') sl ≠ t) ∧
    (∀ sl, slot_value (s_mem s) sl ≠ t → slot_value (s_mem s') sl = slot_value (s_mem s) sl) ∧
    (∀ sl, (∀ i, i ∈ l → registry (s_mem s) !!! i ≠ Some sl) →
           slot_value (s_mem s') sl = slot_value (s_mem s) sl).
Proof.
  intros Ht. revert s. induction l as [|i l IH]; intros s.
  { exists s. simpl. split_and!; [done|set_solver|done|done]. }
  destruct (relocate_one_run t i s Ht) as (s1 & E1 & Hr & Hi & Hch & Hun).
  destruct (IH s1) as (s' & E' & Hl & Hk & Hu). exists s'. cbn [for_each].
  rewrite (bind_Ret _ _ _ _ _ E1). rewrite Hr in *.
  assert (∀ sl, slot_value (s_mem s) sl ≠ t → slot_value (s_mem s1) sl = slot_value (s_mem s) sl)
    as Hk1.
  { intros sl Hne. destruct (decide (slot_value (s_mem s1) sl = slot_value (s_mem s) sl)) as [|Hd];
      [done|]. by destruct (Hch sl Hd). }
  split_and!; [done|..].
  - intros j sl [->|Hj]%elem_of_cons Hs; [|by eauto].
    rewrite Hk; eauto.
  - intros sl Hne. rewrite Hk by (by rewrite Hk1). by apply Hk1.
  - intros sl Hn. rewrite Hu by (intros; apply Hn; set_solver). apply Hun, Hn. set_solver.
Qed.

(** Before a descriptor number is handed to the application, no registered internal descriptor
    keeps that number, and no other internal descriptor is disturbed: the relocation always
    returns, moves the registered slots that named [t], and leaves the rest alone. *)
Lemma relocate_internal_rescues t (s : st W) :
  0 ≤ t →
  ∃ s', wslcompat_relocate_internal_fd t s = Ret tt s' ∧
    (∀ sl, registered (s_mem s) sl → slot_value (s_mem s') sl ≠ t) ∧
    (∀ sl, slot_value (s_mem s) sl ≠ t ∨ ¬ registered (s_mem s) sl →
           slot_value (s_mem s') sl = slot_value (s_mem s) sl).
Proof.
  intros Ht. unfold wslcompat_relocate_internal_fd. run_simpl.
  set (n := if _ <? _ then _ else _).
  assert (∀ i, i ∈ seq 0 (Z.to_nat n) ↔
    (Z.of_nat i < registry_count (s_mem s)) ∧ (i < MAX_INTERNAL_FDS)%nat) as Hn.
  { intros i. rewrite elem_of_seq. unfold n.
    destruct (Z.of_nat MAX_INTERNAL_FDS <? registry_count (s_mem s)) eqn:E;
      [apply Z.ltb_lt in E|apply Z.ltb_ge in E]; lia. }
  destruct (relocate_loop_run t (seq 0 (Z.to_nat n)) s Ht) as (s' & E & Hl & Hk & Hu).
  rewrite (bind_Ret _ _ _ _ _ E). exists s'. split; [done|]. split.
  - intros sl (i & Hi & Hm & Hs). apply (Hl i); [by apply Hn|done].
  - intros sl [Hne|Hnr]; [by apply Hk|]. apply Hu. intros i Hi Hs. apply Hnr.
    exists i. apply Hn in Hi as [??]. done.
Qed.
End facts.
