(* ===== verification/Synth.v ===== *)
(** * synth.c, second part: the table of synthetic descriptors

    An entry is found by the (dev, ino) of the descriptor's inode. Its [refcount] encodes its
    life: 0 free, -1 being claimed or torn down, at least 1 live, with one reference for the
    producer and one per pin. *)

From S2P Require Import Prelude CString Kernel State Tunables Override Walk.

Open Scope Z_scope.

(** ** synth.h: the operation tables *)
Inductive synth_op_kind := SYNTH_OP_POLL | SYNTH_OP_IO | SYNTH_OP_STAT | SYNTH_OP_PREEXEC.

(** The types of the operations. Entries are indices into [synth_table]; a result of [None] is the -1 of the
    source, and what an operation writes into a buffer of its caller is part of its result. *)
Definition synth_read_fn (W : Type) : Type := nat → Z → prog (st W) (option string).
Definition synth_write_fn (W : Type) : Type := nat → string → prog (st W) (option Z).
Definition synth_pread_fn (W : Type) : Type := nat → Z → Z → prog (st W) (option string).
Definition synth_pwrite_fn (W : Type) : Type := nat → string → Z → prog (st W) (option Z).
Definition synth_readv_fn (W : Type) : Type := nat → list iovec → prog (st W) (option Z).
Definition synth_writev_fn (W : Type) : Type := nat → list iovec → prog (st W) (option Z).
Definition synth_preadv_fn (W : Type) : Type := nat → list iovec → Z → prog (st W) (option Z).
Definition synth_pwritev_fn (W : Type) : Type := nat → list iovec → Z → prog (st W) (option Z).
Definition synth_lseek_fn (W : Type) : Type := nat → Z → Z → prog (st W) (option Z).
Definition synth_mmap_fn (W : Type) : Type := nat → Z → Z → Z → Z → Z → Z → prog (st W) (option Z).
Definition synth_ioctl_fn (W : Type) : Type := nat → Z → ioctl_arg → prog (st W) (option (Z * ioctl_arg)).
Definition synth_fcntl_fn (W : Type) : Type := nat → Z → fcntl_arg → prog (st W) (option Z).
Definition synth_fsync_fn (W : Type) : Type := nat → prog (st W) (option Z).
Definition synth_fdatasync_fn (W : Type) : Type := nat → prog (st W) (option Z).
Definition synth_ftruncate_fn (W : Type) : Type := nat → Z → prog (st W) (option Z).
Definition synth_fchmod_fn (W : Type) : Type := nat → Z → prog (st W) (option Z).
Definition synth_fchown_fn (W : Type) : Type := nat → Z → Z → prog (st W) (option Z).
Definition synth_fallocate_fn (W : Type) : Type := nat → Z → Z → Z → prog (st W) (option Z).
Definition synth_fgetxattr_fn (W : Type) : Type := nat → string → Z → prog (st W) (option string).
Definition synth_fsetxattr_fn (W : Type) : Type := nat → string → string → Z → prog (st W) (option Z).
Definition synth_flistxattr_fn (W : Type) : Type := nat → Z → prog (st W) (option string).
Definition synth_fremovexattr_fn (W : Type) : Type := nat → string → prog (st W) (option Z).
Definition synth_close_fn (W : Type) : Type := nat → prog (st W) unit.
Definition synth_dup_fn (W : Type) : Type := nat → prog (st W) unit.
Definition synth_release_fn (W : Type) : Type := nat → prog (st W) unit.
Definition synth_passthru_fn (W : Type) : Type := nat → synth_op_kind → prog (st W) Z.
Definition synth_relocate_fn (W : Type) : Type := nat → Z → prog (st W) Z.
Definition synth_describe_fn (W : Type) : Type := nat → prog (st W) string.

(** [struct synth_ops]: a null pointer is [None]. *)
Record synth_ops (W : Type) := {
  op_read : option (synth_read_fn W);
  op_write : option (synth_write_fn W);
  op_pread : option (synth_pread_fn W);
  op_pwrite : option (synth_pwrite_fn W);
  op_readv : option (synth_readv_fn W);
  op_writev : option (synth_writev_fn W);
  op_preadv : option (synth_preadv_fn W);
  op_pwritev : option (synth_pwritev_fn W);
  op_lseek : option (synth_lseek_fn W);
  op_mmap : option (synth_mmap_fn W);
  op_ioctl : option (synth_ioctl_fn W);
  op_fcntl : option (synth_fcntl_fn W);
  op_fsync : option (synth_fsync_fn W);
  op_fdatasync : option (synth_fdatasync_fn W);
  op_ftruncate : option (synth_ftruncate_fn W);
  op_fchmod : option (synth_fchmod_fn W);
  op_fchown : option (synth_fchown_fn W);
  op_fallocate : option (synth_fallocate_fn W);
  op_fgetxattr : option (synth_fgetxattr_fn W);
  op_fsetxattr : option (synth_fsetxattr_fn W);
  op_flistxattr : option (synth_flistxattr_fn W);
  op_fremovexattr : option (synth_fremovexattr_fn W);
  op_close : option (synth_close_fn W);
  op_dup : option (synth_dup_fn W);
  op_release : option (synth_release_fn W);
  op_passthru : option (synth_passthru_fn W);
  op_relocate : option (synth_relocate_fn W);
  op_describe : option (synth_describe_fn W);
}.
Arguments op_read {W}.
Arguments op_write {W}.
Arguments op_pread {W}.
Arguments op_pwrite {W}.
Arguments op_readv {W}.
Arguments op_writev {W}.
Arguments op_preadv {W}.
Arguments op_pwritev {W}.
Arguments op_lseek {W}.
Arguments op_mmap {W}.
Arguments op_ioctl {W}.
Arguments op_fcntl {W}.
Arguments op_fsync {W}.
Arguments op_fdatasync {W}.
Arguments op_ftruncate {W}.
Arguments op_fchmod {W}.
Arguments op_fchown {W}.
Arguments op_fallocate {W}.
Arguments op_fgetxattr {W}.
Arguments op_fsetxattr {W}.
Arguments op_flistxattr {W}.
Arguments op_fremovexattr {W}.
Arguments op_close {W}.
Arguments op_dup {W}.
Arguments op_release {W}.
Arguments op_passthru {W}.
Arguments op_relocate {W}.
Arguments op_describe {W}.

(** An operation table with no operation. *)
Definition null_ops {W} : synth_ops W :=
  {| op_read := None; op_write := None; op_pread := None; op_pwrite := None; op_readv := None;
     op_writev := None; op_preadv := None; op_pwritev := None; op_lseek := None; op_mmap := None;
     op_ioctl := None; op_fcntl := None; op_fsync := None; op_fdatasync := None;
     op_ftruncate := None; op_fchmod := None; op_fchown := None; op_fallocate := None;
     op_fgetxattr := None; op_fsetxattr := None; op_flistxattr := None; op_fremovexattr := None;
     op_close := None; op_dup := None; op_release := None; op_passthru := None;
     op_relocate := None; op_describe := None |}.

(** The contents of the operation tables, supplied by tty.c and proc.c. *)
Class Handlers (W : Type) := ops_of : handler → synth_ops W.

Section synth.
Context {W : Type} `{!Kernel W, !Handlers W, !Fuel}.
Local Abbreviation M := (prog (st W)).

Definition entry_ops (e : nat) : M (synth_ops W) := getm (λ m, ops_of (e_ops (entry_at m e))).

Definition synth_probe_fd_load (e : nat) : M Z := wslcompat_view_fd_load (v_probe e).
Definition synth_probe_fd_store (e : nat) (new_fd : Z) : M unit :=
  wslcompat_view_fd_store (v_probe e) new_fd.

(** ** Reference counting

    The compare-exchange loops, run by one thread: the first exchange succeeds. *)
Definition synth_pin (e : nat) : M bool :=
  let* cur := getm (λ m, refcount (entry_at m e)) in
  if 0 <? cur then setm (upd_entry e (set_refcount (cur + 1))) ;;* ret true
  else ret false.

(** The unique cleaner's work, between the exchange to -1 and the return. *)
Definition synth_cleanup (e : nat) : M unit :=
  let* o := entry_ops e in
  match op_release o with Some f => f e | None => ret tt end ;;*
  let* probe := synth_probe_fd_load e in
  (if negb (probe =? -1) then sys (k_close probe) ;;* ret tt else ret tt) ;;*
  synth_probe_fd_store e (-1) ;;*
  setm (upd_entry e (set_refcount 0)) ;;*
  setm (λ m, set_synth_live_entries (wrap_u 32 (synth_live_entries m - 1)) m).

Definition wslcompat_synth_unpin (e : nat) : M unit :=
  let* cur := getm (λ m, refcount (entry_at m e)) in
  if 0 <? cur then
    let next := if cur =? 1 then -1 else cur - 1 in
    setm (upd_entry e (set_refcount next)) ;;*
    if next =? -1 then synth_cleanup e else ret tt
  else ret tt.

(** ** Lookup *)
Definition same_inode (a b : stat) : bool := (st_dev a =? st_dev b) && (st_ino a =? st_ino b).

Definition pin_lookup_slot (key : stat) (i : nat) : M (option nat) :=
  let* pinned := synth_pin i in
  if (pinned : bool) then
    let* e := getm (λ m, entry_at m i) in
    if same_inode (e_stat e) key then ret (Some i)
    else wslcompat_synth_unpin i ;;* ret None
  else ret None.

Definition synth_pin_lookup (key : stat) : M (option nat) :=
  for_each (seq 0 SYNTH_TABLE_SIZE) (pin_lookup_slot key).

Definition wslcompat_synth_pin_fd (fd : Z) : M (option nat) :=
  let* r := sys (k_fstat fd) in
  match r with None => ret None | Some key => synth_pin_lookup key end.

(** [SYNTH_AUTOPIN_FD]: the scope of a pinned entry, unpinned on the way out. *)
Definition autopin {A} (fd : Z) (body : option nat → M A) : M A :=
  let* e := wslcompat_synth_pin_fd fd in
  let* r := body e in
  match e with Some i => wslcompat_synth_unpin i | None => ret tt end ;;*
  ret r.

Definition wslcompat_synth_passthru (fd : Z) (kind : synth_op_kind) : M Z :=
  autopin fd (λ e,
    match e with
    | None => ret (-1)
    | Some i =>
        let* o := entry_ops i in
        match op_passthru o with Some f => f i kind | None => ret (-1) end
    end).

Definition wslcompat_synth_active : M bool := getm (λ m, negb (synth_live_entries m =? 0)).

(** ** Closing *)
Definition wslcompat_synth_pre_close (fd : Z) : M (option nat) := wslcompat_synth_pin_fd fd.

Definition post_close_visit (e : nat) (probe : Z) (fd : Z) (found_other : bool) : M (bool * bool) :=
  if fd =? probe then ret (false, found_other)
  else
    let* r := sys (k_fstat fd) in
    match r with
    | None => ret (false, found_other)
    | Some s =>
        let* en := getm (λ m, entry_at m e) in
        if negb (same_inode s (e_stat en)) then ret (false, found_other) else ret (true, true)
    end.

Definition synth_should_release (e : nat) (probe : Z) : M bool :=
  let* dead := (if probe =? -1 then ret false
                else let* r := sys (k_flock probe (Z.lor LOCK_EX LOCK_NB)) in
                     ret (match r with Some _ => true | None => false end)) in
  if (dead : bool) then ret true
  else
    let* found_other := wslcompat_walk_proc_self_fd (post_close_visit e probe) false in
    ret (negb found_other).

Definition wslcompat_synth_post_close (e : option nat) : M unit :=
  match e with
  | None => ret tt
  | Some e =>
      let* self := getpid in
      let* self_st := wslcompat_self_starttime in
      let* en := getm (λ m, entry_at m e) in
      if negb (install_pid en =? self) || negb (install_starttime en =? self_st)
      then wslcompat_synth_unpin e
      else
        let* probe := synth_probe_fd_load e in
        let* rel := synth_should_release e probe in
        (if (rel : bool) then wslcompat_synth_unpin e else ret tt) ;;*
        wslcompat_synth_unpin e
  end.

(** ** Registration *)
Definition table_gc_slot (i : nat) : M (option unit) :=
  let* pinned := synth_pin i in
  if (pinned : bool) then
    wslcompat_synth_post_close (Some i) ;;*
    let* rc := getm (λ m, refcount (entry_at m i)) in
    if rc =? 0 then ret (Some tt) else ret None
  else ret None.

Definition synth_table_gc : M bool :=
  let* r := for_each (seq 0 SYNTH_TABLE_SIZE) table_gc_slot in
  ret (match r with Some _ => true | None => false end).

Definition register_slot (s : stat) (ops : handler) (probe : Z) (up : userptr) (flags : Z)
    (i : nat) : M (option nat) :=
  let* rc := getm (λ m, refcount (entry_at m i)) in
  if negb (rc =? 0) then ret None
  else
    setm (upd_entry i (set_refcount (-1))) ;;*
    setm (λ m, set_synth_live_entries (wrap_u 32 (synth_live_entries m + 1)) m) ;;*
    setm (upd_entry i (set_e_stat s)) ;;*
    setm (upd_entry i (set_e_ops ops)) ;;*
    setm (upd_entry i (set_probe_fd probe)) ;;*
    setm (upd_entry i (set_e_userptr up)) ;;*
    setm (upd_entry i (set_e_flags flags)) ;;*
    setm (upd_entry i (set_pos 0)) ;;*
    let* self := getpid in
    setm (upd_entry i (set_install_pid self)) ;;*
    let* t := wslcompat_self_starttime in
    setm (upd_entry i (set_install_starttime t)) ;;*
    setm (upd_entry i (λ e, set_probe_overrides (wslcompat_override_init (probe_overrides e)) e)) ;;*
    setm (upd_entry i (set_refcount 1)) ;;*
    ret (Some i).

(** The recursion after a successful sweep is bounded by [n]. *)
Fixpoint synth_register_n (n : nat) (s : stat) (ops : handler) (probe : Z) (up : userptr)
    (flags : Z) : M (option nat) :=
  match n with
  | O => nofuel
  | S n' =>
      let* r := for_each (seq 0 SYNTH_TABLE_SIZE) (register_slot s ops probe up flags) in
      match r with
      | Some i => ret (Some i)
      | None =>
          let* freed := synth_table_gc in
          if (freed : bool) then synth_register_n n' s ops probe up flags else ret None
      end
  end.

(** Two rounds are enough ([register_two_rounds]). *)
Definition synth_register : stat → handler → Z → userptr → Z → M (option nat) :=
  synth_register_n 2.

(** ** Opening *)
Definition proc_self_fd (fd : Z) : string := "/proc/self/fd/" +:+ fmt_d fd.

Definition synth_install_probe (caller_fd : Z) : M Z :=
  let* r := sys (k_flock caller_fd (Z.lor LOCK_SH LOCK_NB)) in
  match r with
  | None => ret (-1)
  | Some _ =>
      let* p := sys (k_open (proc_self_fd caller_fd) (Z.lor O_RDONLY O_CLOEXEC) 0) in
      match p with
      | None => sys (k_flock caller_fd LOCK_UN) ;;* ret (-1)
      | Some probe => ret probe
      end
  end.

Definition close_if (fd : Z) : M unit :=
  if negb (fd =? -1) then sys (k_close fd) ;;* ret tt else ret tt.

(** The [fail] label of [wslcompat_synth_open]. *)
Definition synth_open_fail (probe path back : Z) : M (option Z) :=
  close_if probe ;;* close_if path ;;* close_if back ;;* ret None.

Definition synth_title (slot : nat) (label : string) : string :=
  "synthetic fd: slot " +:+ fmt_d (Z.of_nat slot) +:+ "/" +:+ fmt_d (Z.of_nat SYNTH_TABLE_SIZE)
    +:+ " (" +:+ label +:+ ")" +:+ String (Ascii.ascii_of_nat 10) "".

(** [open_shim] is the [open] of open.c, called by its libc name. *)
Definition wslcompat_synth_open (open_shim : string → Z → Z → M (option Z))
    (flags : Z) (ops : handler) (up : userptr) : M (option Z) :=
  let* back := open_shim "/tmp" (Z.lor O_RDWR (Z.lor O_TMPFILE O_CLOEXEC)) 384 in
  match back with
  | None => synth_open_fail (-1) (-1) (-1)
  | Some back =>
      let* path := sys (k_open (proc_self_fd back) (Z.lor O_PATH (Z.land flags O_CLOEXEC)) 0) in
      match path with
      | None => synth_open_fail (-1) (-1) back
      | Some path =>
          let* s := sys (k_fstat path) in
          match s with
          | None => synth_open_fail (-1) path back
          | Some s =>
              let* probe := synth_install_probe path in
              let* e := synth_register s ops probe up flags in
              match e with
              | None => set_errno ENFILE ;;* synth_open_fail probe path back
              | Some e =>
                  let* o := entry_ops e in
                  let* label := match op_describe o with
                                | Some f => let* l := f e in ret (snprintf_s 128 l)
                                | None => ret "no description"
                                end in
                  sys (k_write back (snprintf_s 256 (synth_title e label))) ;;*
                  sys (k_close back) ;;*
                  ret (Some path)
              end
          end
      end
  end.

(** ** Moving internal descriptors out of the caller's way *)
Definition relocate_slot (targetfd : Z) (i : nat) : M (option unit) :=
  let* pinned := synth_pin i in
  if (pinned : bool) then
    wslcompat_view_fd_relocate (v_probe i) targetfd ;;*
    let* o := entry_ops i in
    match op_relocate o with Some f => f i targetfd ;;* ret tt | None => ret tt end ;;*
    wslcompat_synth_unpin i ;;* ret None
  else ret None.

Definition wslcompat_synth_relocate_internal (targetfd : Z) : M unit :=
  for_each (seq 0 SYNTH_TABLE_SIZE) (relocate_slot targetfd) ;;* ret tt.

(** ** The stat shims: [fstat] and [fstat64] differ in the name of the tunable only for the
    former, and in the structure filled. *)
Definition fstat_shim (fd : Z) : M (option stat) :=
  let* r := sys (k_fstat fd) in
  match r with
  | None => ret None
  | Some s0 =>
      let* off := wslcompat_passthru "fstat" in
      let* active := wslcompat_synth_active in
      if (off : bool) || negb active then ret (Some s0)
      else
        autopin fd (λ e,
          match e with
          | None => ret (Some s0)
          | Some i =>
              let* o := entry_ops i in
              let* real := match op_passthru o with
                           | Some f => f i SYNTH_OP_STAT
                           | None => ret (-1)
                           end in
              if 0 <=? real then sys (k_fstat real) else ret (Some s0)
          end)
  end.

Definition fstat : Z → M (option stat) := fstat_shim.
Definition fstat64 : Z → M (option stat) := fstat_shim.
End synth.
