(* ===== verification/SynthFrames.v ===== *)
(** * Frames of synth.c: what each operation may do to the table *)

From S2P Require Import Prelude CString Kernel State Tunables Override Walk Synth.

Open Scope Z_scope.

(** ** What the copy-on-write accessors leave alone *)

(** The relation [R] between states allows what it takes to find out who the caller is: the bookkeeping
    calls, the start-time cache. *)
Class AllowsIdent {W} `{!Kernel W} (R : relation (st W)) : Prop := {
  allows_ident A (c : call A) : bookkeeping c = true → within R (sys c);
  allows_stamp c : within R (setm (set_starttime_cache c));
}.

(** It allows the acquisition of a slot of view [v]. *)
Class AllowsAcquire {W} `{!Kernel W} (R : relation (st W)) (v : fdview) : Prop :=
  allows_acquire : ∀ id t fd, within R (wslcompat_override_acquire_pid v id t fd).

(** It allows what every accessor does: next to the above, either way to set the acquisition lock. *)
Class AllowsBook {W} `{!Kernel W} (R : relation (st W)) : Prop := {
  allows_book A (c : call A) : bookkeeping c = true → within R (sys c);
  allows_cache c : within R (setm (set_starttime_cache c));
  allows_lock b : within R (setm (set_synth_acquire_lock b));
}.

(** [R] allows every kernel call. *)
Class AllowsSys {W} `{!Kernel W} (R : relation (st W)) : Prop :=
  allows_sys : ∀ A (c : call A), within R (sys c).

(** It also allows writes to the slots and the base of view [v]. *)
Class AllowsCow {W} `{!Kernel W} (R : relation (st W)) (v : fdview) : Prop := {
  allows_slot i f : within R (setm (upd_slot v i f));
  allows_base x : within R (setm (set_view_base v x));
}.
#[export] Hint Resolve allows_sys : within.
#[export] Hint Resolve allows_acquire : within.
#[export] Hint Extern 2 (within _ (sys _)) => apply allows_ident; reflexivity : within.
#[export] Hint Extern 1 (within _ (setm _)) =>
  first [apply allows_stamp | apply allows_lock | apply allows_slot | apply allows_base] : within.

#[export] Instance book_ident {W} `{!Kernel W} (R : relation (st W)) : AllowsBook R → AllowsIdent R.
Proof. by intros []. Qed.

Section cow_frames.
Context {W : Type} `{!Kernel W} (R : relation (st W)) `{!PreOrder R, !AllowsIdent R}.
Context (v : fdview).

Lemma within_read_starttime path : within R (read_proc_starttime path).
Proof. unfold read_proc_starttime. within_auto. Qed.
#[local] Hint Resolve within_read_starttime : within.

Lemma within_starttime_pid id : within R (wslcompat_self_starttime_pid id).
Proof. unfold wslcompat_self_starttime_pid. within_auto. Qed.
#[local] Hint Resolve within_starttime_pid : within.

Lemma within_starttime : within R wslcompat_self_starttime.
Proof. unfold wslcompat_self_starttime. within_auto. Qed.
#[local] Hint Resolve within_starttime : within.

Lemma within_override_gc `{!AllowsCow R v} : within R (wslcompat_override_gc v).
Proof. unfold wslcompat_override_gc, override_gc_slot, pid_starttime. within_auto. Qed.

#[export] Instance within_acquire : AllowsBook R → AllowsCow R v → AllowsAcquire R v.
Proof.
  intros ?? id t fd. unfold wslcompat_override_acquire_pid, override_claim.
  within_auto. apply within_override_gc.
Qed.

Context `{!AllowsAcquire R v, !AllowsCow R v}.

Lemma within_view_load : within R (wslcompat_view_fd_load v).
Proof. unfold wslcompat_view_fd_load. within_auto. Qed.

Lemma within_view_store x : within R (wslcompat_view_fd_store v x).
Proof. unfold wslcompat_view_fd_store. within_auto. Qed.

Lemma within_view_cas x y : within R (wslcompat_view_fd_cas v x y).
Proof. unfold wslcompat_view_fd_cas. within_auto. Qed.
#[local] Hint Resolve within_view_load within_view_store within_view_cas : within.

Lemma within_view_relocate x : within R (wslcompat_view_fd_relocate v x).
Proof. unfold wslcompat_view_fd_relocate. within_auto. Qed.
End cow_frames.
#[export] Hint Resolve within_starttime within_view_load within_view_store
  within_view_relocate : within.

(** ** The table as reference counting sees it *)

(** An entry without its copy-on-write descriptor and its file position, which handlers move. *)
Definition core (e : synth_entry) : synth_entry := set_pos 0 (set_probe_fd 0 (set_probe_overrides [] e)).

Definition tb := (list synth_entry * Z)%type.
Definition cores {W} (s : st W) : tb := (core <$> synth_table (s_mem s), synth_live_entries (s_mem s)).

(** The life of an entry, abstractly: one step per completed operation on a slot. *)
Inductive tbstep : relation tb :=
| tb_pin l n i e :
    l !! i = Some e → 0 < refcount e → tbstep (l, n) (<[i := set_refcount (refcount e + 1) e]> l, n)
| tb_unpin l n i e :
    l !! i = Some e → 1 < refcount e → tbstep (l, n) (<[i := set_refcount (refcount e - 1) e]> l, n)
| tb_free l n i e :
    l !! i = Some e → refcount e = 1 →
    tbstep (l, n) (<[i := set_refcount 0 e]> l, wrap_u 32 (n - 1))
| tb_publish l n i e e' :
    l !! i = Some e → refcount e = 0 → refcount e' = 1 →
    tbstep (l, n) (<[i := e']> l, wrap_u 32 (n + 1)).

(** What the code may do to the table between two states. *)
Definition tbreach {W} (s s' : st W) : Prop := rtc tbstep (cores s) (cores s').

#[export] Instance tbreach_preorder {W} : PreOrder (@tbreach W).
Proof. split; [intros s; apply rtc_refl | intros a b c H1 H2; unfold tbreach in *; by etrans]. Qed.

Lemma tbstep_length p p' : tbstep p p' → length p'.1 = length p.1.
Proof. destruct 1; simpl; by rewrite length_insert. Qed.

Lemma tbreach_length {W} (s s' : st W) :
  tbreach s s' → length (synth_table (s_mem s')) = length (synth_table (s_mem s)).
Proof.
  intros H. assert (∀ p p', rtc tbstep p p' → length p'.1 = length p.1) as Hl.
  { induction 1 as [|p p1 p2 Hs _ IH]; [done|]. by rewrite IH, (tbstep_length _ _ Hs). }
  apply Hl in H. unfold cores in H. simpl in H. by rewrite !length_fmap in H.
Qed.

(** The same, for a table of the size the source gives it. *)
Definition tbgrow {W} (s s' : st W) : Prop :=
  length (synth_table (s_mem s)) = SYNTH_TABLE_SIZE → tbreach s s'.

#[export] Instance tbgrow_preorder {W} : PreOrder (@tbgrow W).
Proof.
  split; [intros s _; apply rtc_refl|]. intros a b c H1 H2 Hl.
  specialize (H1 Hl). etrans; [exact H1|]. apply H2. by rewrite (tbreach_length _ _ H1).
Qed.

Lemma within_reach_grow {W A} (m : prog (st W) A) : within tbreach m → within tbgrow m.
Proof. apply within_mono. by intros s s' H _. Qed.

(** The callbacks of a handler leave reference counting to the table's own code. *)
Class HandlersOk W `{!Kernel W, !Handlers W} : Prop := {
  release_frame h f i : op_release (ops_of h) = Some f → within (same cores) (f i);
  passthru_frame h f i k : op_passthru (ops_of h) = Some f → within (same cores) (f i k);
  relocate_frame h f i t : op_relocate (ops_of h) = Some f → within (same cores) (f i t);
  describe_frame h f i : op_describe (ops_of h) = Some f → within (same cores) (f i);
  close_frame h f i : op_close (ops_of h) = Some f → within (same cores) (f i);
  dup_frame h f i : op_dup (ops_of h) = Some f → within (same cores) (f i);
}.

Lemma list_fmap_alter_id {A B} (g : A → B) (f : A → A) (i : nat) (l : list A) :
  (∀ x, g (f x) = g x) → g <$> alter f i l = g <$> l.
Proof.
  intros H. apply list_eq. intros j. rewrite !list_lookup_fmap, list_lookup_alter.
  case_decide as E; [|done]. subst. destruct (l !! j); simpl; by rewrite ?H.
Qed.

Section cores.
Context {W : Type} `{!Kernel W}.

#[export] Instance cores_sys : AllowsSys (W:=W) (same cores).
Proof. intros A c. by apply within_sys. Qed.

#[export] Instance cores_book : AllowsBook (W:=W) (same cores).
Proof. split; intros; [by apply within_sys|by apply within_setm..]. Qed.

#[export] Instance cores_cow v : AllowsCow (W:=W) (same cores) v.
Proof.
  split; intros; apply within_setm; intros m w e; unfold same, cores; simpl; f_equal;
    destruct v; unfold upd_slot; simpl; try done; by apply list_fmap_alter_id.
Qed.

Lemma within_cores_reach {A} (m : prog (st W) A) : within (same cores) m → within tbreach m.
Proof. apply within_mono. intros s s' H. unfold tbreach. by rewrite H. Qed.

#[export] Instance tbreach_sys : AllowsSys (W:=W) tbreach.
Proof. intros A c. apply within_cores_reach, allows_sys. Qed.

#[export] Instance tbreach_book : AllowsBook (W:=W) tbreach.
Proof. split; intros; apply within_cores_reach; auto with within typeclass_instances. Qed.

#[export] Instance tbreach_cow v : AllowsCow (W:=W) tbreach v.
Proof. split; intros; apply within_cores_reach; auto with within typeclass_instances. Qed.

(** The core of slot [i], from the memory. *)
Lemma cores_lookup (s : st W) i :
  (i < length (synth_table (s_mem s)))%nat →
  (cores s).1 !! i = Some (core (entry_at (s_mem s) i)).
Proof.
  intros Hi. simpl. rewrite list_lookup_fmap. unfold entry_at.
  by rewrite (list_lookup_lookup_total_lt _ _ Hi).
Qed.

Lemma entry_at_oob (m : mem) i : (length (synth_table m) ≤ i)%nat → entry_at m i = free_entry.
Proof. intros Hi. unfold entry_at. rewrite list_lookup_total_alt. by rewrite lookup_ge_None_2. Qed.

(** The cores after one entry is updated. *)
Lemma cores_upd (m : mem) (w : W) e i f :
  (∀ x, core (f x) = f (core x)) →
  cores (mkst (upd_entry i f m) w e) = (alter f i (core <$> synth_table m), synth_live_entries m).
Proof.
  intros Hf. unfold cores; simpl. f_equal. apply list_eq. intros j.
  rewrite list_lookup_alter, !list_lookup_fmap, list_lookup_alter.
  case_decide as E; [|done]. subst. destruct (_ !! j); simpl; by rewrite ?Hf.
Qed.
End cores.

Lemma alter_insert {A} (f : A → A) (i : nat) (l : list A) x :
  l !! i = Some x → alter f i l = <[i := f x]> l.
Proof.
  intros H. apply list_eq. intros j. rewrite list_lookup_alter, list_lookup_insert.
  assert (i < length l)%nat by (by eapply lookup_lt_Some).
  repeat case_decide; subst; rewrite ?H; simpl; intuition (done || lia).
Qed.

(** ** Every operation is a sequence of abstract steps *)
Section reach.
Context {W : Type} `{!Kernel W, !Handlers W, !HandlersOk W} {Hfuel : Fuel}.
Local Abbreviation M := (prog (st W)).

Lemma within_entry_ops (R : relation (st W)) `{!PreOrder R} e : within R (entry_ops e).
Proof. apply within_gets, _. Qed.

Lemma within_probe_load (R : relation (st W)) `{!PreOrder R, !AllowsBook R} e :
  AllowsCow R (v_probe e) → within R (synth_probe_fd_load e).
Proof. intros ?. unfold synth_probe_fd_load. auto with within typeclass_instances. Qed.

Lemma within_probe_store (R : relation (st W)) `{!PreOrder R, !AllowsBook R} e x :
  AllowsCow R (v_probe e) → within R (synth_probe_fd_store e x).
Proof. intros ?. unfold synth_probe_fd_store. auto with within typeclass_instances. Qed.
#[local] Hint Resolve within_entry_ops within_probe_load within_probe_store : within.

(** One table update, as an abstract step. *)
Lemma tb_pin_upd (s : st W) i :
  0 < refcount (entry_at (s_mem s) i) →
  tbreach s (mkst (upd_entry i (set_refcount (refcount (entry_at (s_mem s) i) + 1)) (s_mem s))
               (s_world s) (s_errno s)).
Proof.
  intros Hrc. destruct (decide (i < length (synth_table (s_mem s)))%nat) as [Hi|Hi];
    [|by rewrite entry_at_oob in Hrc by lia].
  pose proof (cores_lookup s i Hi) as Hl. apply rtc_once.
  rewrite cores_upd by done. rewrite (alter_insert _ _ _ _ Hl). exact (tb_pin _ _ _ _ Hl Hrc).
Qed.

Lemma within_pin i : within (@tbreach W) (synth_pin i).
Proof.
  intros s. unfold synth_pin. run_simpl. destruct (0 <? _) eqn:E; [|apply rtc_refl].
  apply Z.ltb_lt in E. run_simpl. by apply tb_pin_upd.
Qed.

(** The cleaner's work before it frees the slot. *)
Lemma cleanup_run i (s s' : st W) :
  synth_cleanup i s = Ret tt s' →
  cores s' = (alter (set_refcount 0) i (cores s).1, wrap_u 32 ((cores s).2 - 1)).
Proof.
  unfold synth_cleanup. intros H.
  run_inv H. run_inv H. run_inv H. run_inv H. run_inv H. run_inv H.
  assert (cores s4 = cores s) as Hc.
  { etrans; [eapply (within_Ret (same cores)), E3; auto with within typeclass_instances|].
    etrans; [eapply (within_Ret (same cores)), E2; within_auto|].
    etrans; [eapply (within_Ret (same cores)), E1; auto with within typeclass_instances|].
    etrans; [eapply (within_Ret (same cores)), E0|eapply (within_Ret (same cores)), E].
    - unfold entry_ops in E. destruct (op_release r) eqn:Eo; [|apply within_ret, _].
      injection E as <- <-. by eapply release_frame.
    - apply within_entry_ops, _. }
  injection E4 as _ <-. injection H as <-. rewrite <-Hc. unfold cores; simpl. f_equal.
  apply list_eq. intros j. rewrite list_lookup_alter, !list_lookup_fmap, list_lookup_alter.
  case_decide as Ej; [|done]. subst. by destruct (_ !! j).
Qed.

Lemma within_unpin i : within (@tbreach W) (wslcompat_synth_unpin i).
Proof.
  intros s. unfold wslcompat_synth_unpin. run_simpl. destruct (0 <? _) eqn:E; [|apply rtc_refl].
  apply Z.ltb_lt in E.
  destruct (decide (i < length (synth_table (s_mem s)))%nat) as [Hi|Hi];
    [|by rewrite entry_at_oob in E by lia].
  pose proof (cores_lookup s i Hi) as Hl.
  set (rc := refcount (entry_at (s_mem s) i)) in *. run_simpl.
  destruct (rc =? 1) eqn:E1.
  - apply Z.eqb_eq in E1. simpl. destruct (synth_cleanup i _) as [[] s'|?|] eqn:Ec; [|done..].
    apply cleanup_run in Ec. unfold tbreach. apply rtc_once. rewrite Ec.
    rewrite cores_upd by done. simpl. rewrite list_alter_alter_eq.
    change (set_refcount 0 ∘ set_refcount (-1)) with (set_refcount 0).
    rewrite (alter_insert _ _ _ _ Hl). exact (tb_free _ _ _ _ Hl E1).
  - apply Z.eqb_neq in E1. destruct (rc - 1 =? -1) eqn:E2; [apply Z.eqb_eq in E2; lia|].
    apply rtc_once. rewrite cores_upd by done. rewrite (alter_insert _ _ _ _ Hl).
    refine (tb_unpin _ _ _ _ Hl _). simpl. fold rc. lia.
Qed.
#[local] Hint Resolve within_pin within_unpin : within.

Lemma within_pin_lookup key : within (@tbreach W) (synth_pin_lookup key).
Proof. unfold synth_pin_lookup, pin_lookup_slot. within_auto. Qed.
#[local] Hint Resolve within_pin_lookup : within.

Lemma within_pin_fd fd : within (@tbreach W) (wslcompat_synth_pin_fd fd).
Proof. unfold wslcompat_synth_pin_fd. within_auto. Qed.
#[local] Hint Resolve within_pin_fd : within.

Lemma within_autopin {A} fd (body : option nat → M A) :
  (∀ e, within (@tbreach W) (body e)) → within tbreach (autopin fd body).
Proof. intros Hb. unfold autopin. within_auto. Qed.

(** A callback of an entry's operation table, when there is one. *)
Lemma within_callback {A} (g : synth_ops W → option A) (h : A → M unit) i :
  (∀ hd f, g (ops_of hd) = Some f → within (same cores) (h f)) →
  within (@tbreach W) (let* o := entry_ops i in
                       match g o with Some f => h f | None => ret tt end).
Proof.
  intros Hh s. unfold entry_ops. run_simpl.
  destruct (g _) as [f|] eqn:Eg; [|apply rtc_refl].
  apply within_cores_reach. by eapply Hh.
Qed.

Lemma within_passthru_cb i k :
  within (@tbreach W) (let* o := entry_ops i in
                       match op_passthru o with Some f => f i k | None => ret (-1) end).
Proof.
  intros s. unfold entry_ops. run_simpl.
  destruct (op_passthru _) as [f|] eqn:Eg; [|apply rtc_refl].
  apply within_cores_reach. by eapply passthru_frame.
Qed.

Lemma within_passthru fd k : within (@tbreach W) (wslcompat_synth_passthru fd k).
Proof.
  apply within_autopin. intros [i|]; [|by within_auto]. apply within_passthru_cb.
Qed.

Lemma within_should_release (R : relation (st W)) `{!PreOrder R, !AllowsBook R} e p :
  within R (synth_should_release e p).
Proof.
  unfold synth_should_release.
  assert (∀ b, within R (wslcompat_walk_proc_self_fd (post_close_visit e p) b)) as Hw.
  { intros b. apply within_walk; [apply _|apply allows_book|].
    intros. unfold post_close_visit. within_auto. }
  within_auto.
Qed.
#[local] Hint Resolve within_should_release : within.

Lemma within_post_close e : within (@tbreach W) (wslcompat_synth_post_close e).
Proof. unfold wslcompat_synth_post_close. within_auto. Qed.
#[local] Hint Resolve within_post_close : within.

Lemma within_table_gc : within (@tbreach W) synth_table_gc.
Proof. unfold synth_table_gc, table_gc_slot. within_auto. Qed.

(** The entry [register_slot] publishes. *)
Definition published (s : stat) (ops : handler) (probe : Z) (up : userptr) (flags pid t : Z)
    (slots : list synth_override) : synth_entry :=
  {| refcount := 1; probe_fd := probe; e_stat := s; e_ops := ops; pos := 0; e_userptr := up;
     e_flags := flags; install_pid := pid; install_starttime := t;
     probe_overrides := wslcompat_override_init slots |}.

Lemma upd_entry_compose i f g m : upd_entry i f (upd_entry i g m) = upd_entry i (f ∘ g) m.
Proof. unfold upd_entry. simpl. by rewrite list_alter_alter_eq. Qed.

Lemma upd_entry_live i f n m :
  upd_entry i f (set_synth_live_entries n m) = set_synth_live_entries n (upd_entry i f m).
Proof. done. Qed.

Lemma upd_entry_cache i f c m :
  upd_entry i f (set_starttime_cache c m) = set_starttime_cache c (upd_entry i f m).
Proof. done. Qed.

(** Registration in a free slot: the whole memory it leaves. *)
Lemma register_slot_run key ops probe up flags i (s : st W) :
  refcount (entry_at (s_mem s) i) = 0 →
  ∃ t c s', register_slot key ops probe up flags i s = Ret (Some i) s' ∧
    c = {| p_starttime := t; p_pid := wrap_u 32 (kpid (s_world s)) |} ∧
    wreach (s_world s) (s_world s') ∧
    s_mem s' = set_synth_live_entries (wrap_u 32 (synth_live_entries (s_mem s) + 1))
      (set_starttime_cache c
        (upd_entry i (λ e, published key ops probe up flags (kpid (s_world s)) t (probe_overrides e))
          (s_mem s))).
Proof.
  intros Hrc. unfold register_slot. run_simpl. rewrite Hrc. cbn [negb Z.eqb].
  rewrite !bind_setm, bind_getpid. cbn [s_mem s_world s_errno].
  rewrite bind_setm. cbn [s_mem s_world s_errno].
  unfold wslcompat_self_starttime. run_simpl.
  match goal with |- context [bind (wslcompat_self_starttime_pid _) _ ?s1] =>
    destruct (self_starttime_run (s_world s) s1 (kpid (s_world s)))
      as (t & s2 & E & Hid & c & Hm); [apply rtc_refl|done|] end.
  rewrite (bind_Ret _ _ _ _ _ E). run_simpl. destruct Hid as (Hw & _ & Hc).
  exists t, c. eexists. split; [done|]. split; [by rewrite Hm in Hc|]. split; [done|].
  cbn [s_mem]. rewrite Hm. cbn [s_mem]. rewrite !upd_entry_live, !upd_entry_cache, !upd_entry_live.
  rewrite !upd_entry_compose. reflexivity.
Qed.

Lemma within_register_slot key ops probe up flags i :
  (i < SYNTH_TABLE_SIZE)%nat →
  within (@tbgrow W) (register_slot key ops probe up flags i).
Proof.
  intros Hi s. destruct (decide (refcount (entry_at (s_mem s) i) = 0)) as [Hrc|Hrc].
  - destruct (register_slot_run key ops probe up flags i s Hrc) as (t & c & s' & E & _ & _ & Hm).
    rewrite E. intros Hlen. rewrite <-Hlen in Hi. apply rtc_once.
    pose proof (cores_lookup s i Hi) as Hl.
    assert (cores s' = (<[i := core (published key ops probe up flags (kpid (s_world s)) t [])]>
      (cores s).1, wrap_u 32 ((cores s).2 + 1))) as ->.
    { unfold cores. rewrite Hm. simpl. f_equal. rewrite <-(alter_insert (λ _, _) _ _ _ Hl).
      apply list_eq. intros j. rewrite list_lookup_alter, !list_lookup_fmap, list_lookup_alter.
      cbn [cores fst]. rewrite !list_lookup_fmap.
      case_decide; [|done]. destruct (synth_table (s_mem s) !! i); reflexivity. }
    refine (tb_publish _ _ _ _ _ Hl _ _); done.
  - unfold register_slot. run_simpl. apply Z.eqb_neq in Hrc. rewrite Hrc. simpl.
    intros _. apply rtc_refl.
Qed.

Lemma within_register n key ops probe up flags :
  within (@tbgrow W) (synth_register_n n key ops probe up flags).
Proof.
  induction n as [|n IH]; cbn [synth_register_n]; [by within_auto|].
  apply within_bind; [apply _| |intros [i|]; [by within_auto|]].
  - apply within_for_each_in; [apply _|]. intros i Hi%elem_of_seq.
    apply within_register_slot. lia.
  - apply within_bind; [apply _|apply within_reach_grow, within_table_gc|].
    intros []; [exact IH|by within_auto].
Qed.

#[export] Instance tbgrow_sys : AllowsSys (W:=W) tbgrow.
Proof. intros A c. apply within_reach_grow, allows_sys. Qed.

#[export] Instance tbgrow_book : AllowsBook (W:=W) tbgrow.
Proof. split; intros; apply within_reach_grow; auto with within typeclass_instances. Qed.

Lemma within_set_errno_grow e : within (@tbgrow W) (set_errno e).
Proof. apply within_reach_grow, within_set_errno. intros. apply rtc_refl. Qed.
#[local] Hint Resolve within_set_errno_grow within_register within_reach_grow : within.

(** A callback followed by more code. *)
Lemma within_entry_bind (R : relation (st W)) `{!PreOrder R} {A B} i (g : synth_ops W → M A)
    (k : A → M B) :
  within R (let* o := entry_ops i in g o) → (∀ a, within R (k a)) →
  within R (let* o := entry_ops i in let* a := g o in k a).
Proof.
  intros Hg Hk s. rewrite <-(bind_assoc (entry_ops i) g k). by apply within_bind.
Qed.

Lemma within_describe i :
  within (@tbgrow W) (let* o := entry_ops i in
    match op_describe o with
    | Some f => let* l := f i in ret (snprintf_s 128 l)
    | None => ret "no description"
    end).
Proof.
  intros s. unfold entry_ops. run_simpl.
  destruct (op_describe _) as [f|] eqn:Ef; [|intros _; apply rtc_refl].
  apply within_reach_grow, within_cores_reach. within_auto. by eapply describe_frame.
Qed.

Lemma within_synth_open open_shim flags ops up :
  (∀ p f m, within (@tbgrow W) (open_shim p f m)) →
  within (@tbgrow W) (wslcompat_synth_open open_shim flags ops up).
Proof.
  intros Ho. unfold wslcompat_synth_open, synth_open_fail, close_if, synth_install_probe,
    synth_register.
  repeat first [apply within_entry_bind; [apply _|apply within_describe|intros ?] | within_step].
Qed.

Lemma within_relocate_internal t : within (@tbreach W) (wslcompat_synth_relocate_internal t).
Proof.
  assert (∀ i, within (@tbreach W) (let* o := entry_ops i in
    match op_relocate o with Some f => f i t ;;* ret tt | None => ret tt end)) as Hr.
  { intros i. apply within_callback. intros h f Hf. within_auto. by eapply relocate_frame. }
  unfold wslcompat_synth_relocate_internal, relocate_slot.
  repeat first [apply within_entry_bind; [apply _|apply Hr|intros ?] | within_step].
Qed.

Lemma within_fstat_shim fd : within (@tbreach W) (fstat_shim fd).
Proof.
  unfold fstat_shim, wslcompat_passthru, wslcompat_synth_active.
  repeat first [apply within_autopin; intros [i|] |
    apply within_entry_bind; [apply _|apply within_passthru_cb|intros ?] | within_step].
Qed.
End reach.
