(* ===== verification/OverrideLock.v ===== *)
(** * Concurrent acquisition of override slots

    The override slots of a view are shared by every process that shares the memory, and by their threads.
    [wslcompat_override_acquire_pid] collects the slots of dead processes without a lock, then finds or
    claims a slot under a spin lock; [wslcompat_override_get_pid] relies on every process having at most one.
    Here is one array of slots, one atomic access per step, for any number of threads. *)

From S2P Require Import Prelude Kernel State.

Open Scope Z_scope.

(** ** Threads *)
Inductive acquire_pc :=
| o_idle
| o_gc (i : nat)               (* collecting: about to look at slot [i] *)
| o_sweep (i : nat) (p : Z)    (* loaded [p] from slot [i] and found that process dead *)
| o_spin                       (* waiting for the lock *)
| o_find (i : nat)             (* pass 1, lock held *)
| o_found (i : nat)            (* the pid of slot [i] is ours: about to compare the start time *)
| o_claim (i : nat)            (* pass 2 *)
| o_fill (i : nat)             (* exchanged 0 for -1 *)
| o_fill_fd (i : nat)
| o_publish (i : nat)
| o_out (r : option nat).

Record acquirer := mkacq { a_id : Z; a_st : Z; a_fd : Z; a_pc : acquire_pc }.
Definition at_pc (a : acquirer) (p : acquire_pc) : acquirer := mkacq (a_id a) (a_st a) (a_fd a) p.

Record slots_state := mkslots { o_slots : list synth_override; o_lock : bool; o_ts : list acquirer }.

(** A pid as a slot holds it when it is neither free nor reserved. *)
Definition owned (p : Z) : Prop := p ≠ 0 ∧ p ≠ -1.

(** That a process is dead is for /proc to say: here any owned slot may be found so. *)
Inductive acquire_step : relation slots_state :=
| o_begin L l ts k a :
    ts !! k = Some a → a_pc a = o_idle →
    acquire_step (mkslots L l ts) (mkslots L l (<[k := at_pc a (o_gc 0)]> ts))
| o_gc_next L l ts k a i :
    ts !! k = Some a → a_pc a = o_gc i → (i < length L)%nat →
    acquire_step (mkslots L l ts) (mkslots L l (<[k := at_pc a (o_gc (i + 1)%nat)]> ts))
| o_gc_dead L l ts k a i s :
    ts !! k = Some a → a_pc a = o_gc i → L !! i = Some s → owned (ov_pid s) →
    acquire_step (mkslots L l ts) (mkslots L l (<[k := at_pc a (o_sweep i (ov_pid s))]> ts))
| o_sweep_ok L l ts k a i p s :
    ts !! k = Some a → a_pc a = o_sweep i p → L !! i = Some s → ov_pid s = p →
    acquire_step (mkslots L l ts) (mkslots (<[i := set_ov_pid 0 s]> L) l (<[k := at_pc a (o_gc (i + 1)%nat)]> ts))
| o_sweep_lost L l ts k a i p s :
    ts !! k = Some a → a_pc a = o_sweep i p → L !! i = Some s → ov_pid s ≠ p →
    acquire_step (mkslots L l ts) (mkslots L l (<[k := at_pc a (o_gc (i + 1)%nat)]> ts))
| o_gc_end L l ts k a i :
    ts !! k = Some a → a_pc a = o_gc i → (length L ≤ i)%nat →
    acquire_step (mkslots L l ts) (mkslots L l (<[k := at_pc a o_spin]> ts))
| o_lock_ok L ts k a :
    ts !! k = Some a → a_pc a = o_spin →
    acquire_step (mkslots L false ts) (mkslots L true (<[k := at_pc a (o_find 0)]> ts))
| o_find_other L l ts k a i s :
    ts !! k = Some a → a_pc a = o_find i → L !! i = Some s → ov_pid s ≠ a_id a →
    acquire_step (mkslots L l ts) (mkslots L l (<[k := at_pc a (o_find (i + 1)%nat)]> ts))
| o_find_pid L l ts k a i s :
    ts !! k = Some a → a_pc a = o_find i → L !! i = Some s → ov_pid s = a_id a →
    acquire_step (mkslots L l ts) (mkslots L l (<[k := at_pc a (o_found i)]> ts))
| o_find_st L l ts k a i s :
    ts !! k = Some a → a_pc a = o_found i → L !! i = Some s → ov_starttime s = a_st a →
    acquire_step (mkslots L l ts) (mkslots L l (<[k := at_pc a (o_out (Some i))]> ts))
| o_find_stale L l ts k a i s :
    ts !! k = Some a → a_pc a = o_found i → L !! i = Some s → ov_starttime s ≠ a_st a →
    acquire_step (mkslots L l ts) (mkslots L l (<[k := at_pc a (o_find (i + 1)%nat)]> ts))
| o_find_end L l ts k a i :
    ts !! k = Some a → a_pc a = o_find i → (length L ≤ i)%nat →
    acquire_step (mkslots L l ts) (mkslots L l (<[k := at_pc a (o_claim 0)]> ts))
| o_claim_ok L l ts k a i s :
    ts !! k = Some a → a_pc a = o_claim i → L !! i = Some s → ov_pid s = 0 →
    acquire_step (mkslots L l ts) (mkslots (<[i := set_ov_pid (-1) s]> L) l (<[k := at_pc a (o_fill i)]> ts))
| o_claim_busy L l ts k a i s :
    ts !! k = Some a → a_pc a = o_claim i → L !! i = Some s → ov_pid s ≠ 0 →
    acquire_step (mkslots L l ts) (mkslots L l (<[k := at_pc a (o_claim (i + 1)%nat)]> ts))
| o_claim_end L l ts k a i :
    ts !! k = Some a → a_pc a = o_claim i → (length L ≤ i)%nat →
    acquire_step (mkslots L l ts) (mkslots L l (<[k := at_pc a (o_out None)]> ts))
| o_write_st L l ts k a i s :
    ts !! k = Some a → a_pc a = o_fill i → L !! i = Some s →
    acquire_step (mkslots L l ts) (mkslots (<[i := set_ov_starttime (a_st a) s]> L) l (<[k := at_pc a (o_fill_fd i)]> ts))
| o_write_fd L l ts k a i s :
    ts !! k = Some a → a_pc a = o_fill_fd i → L !! i = Some s →
    acquire_step (mkslots L l ts) (mkslots (<[i := set_ov_fd (a_fd a) s]> L) l (<[k := at_pc a (o_publish i)]> ts))
| o_write_pid L l ts k a i s :
    ts !! k = Some a → a_pc a = o_publish i → L !! i = Some s →
    acquire_step (mkslots L l ts) (mkslots (<[i := set_ov_pid (a_id a) s]> L) l (<[k := at_pc a (o_out (Some i))]> ts))
| o_unlock L l ts k a r :
    ts !! k = Some a → a_pc a = o_out r →
    acquire_step (mkslots L l ts) (mkslots L false (<[k := at_pc a o_idle]> ts)).

(** ** The invariant *)
Definition inside (p : acquire_pc) : bool :=
  match p with o_idle | o_gc _ | o_sweep _ _ | o_spin => false | _ => true end.

(** No slot up to [n] is that of thread [a]. *)
Definition clear_below (n : nat) (a : acquirer) (L : list synth_override) : Prop :=
  ∀ i s, L !! i = Some s → (i < n)%nat → ov_pid s = a_id a → ov_starttime s ≠ a_st a.
Definition clear (a : acquirer) (L : list synth_override) : Prop := clear_below (length L) a L.

Definition reserved (i : nat) (L : list synth_override) : Prop := ∃ s, L !! i = Some s ∧ ov_pid s = -1.
Definition stamped (i : nat) (a : acquirer) (L : list synth_override) : Prop :=
  ∃ s, L !! i = Some s ∧ ov_pid s = -1 ∧ ov_starttime s = a_st a.

(** What thread [a] knows at its place in the code. *)
Definition knows (a : acquirer) (L : list synth_override) : Prop :=
  match a_pc a with
  | o_sweep _ p => owned p
  | o_find i | o_found i => clear_below i a L
  | o_claim _ => clear a L
  | o_fill i => clear a L ∧ reserved i L
  | o_fill_fd i | o_publish i => clear a L ∧ stamped i a L
  | _ => True
  end.

Definition one_slot_each (L : list synth_override) : Prop :=
  ∀ i j s s', L !! i = Some s → L !! j = Some s' → owned (ov_pid s) →
    ov_pid s = ov_pid s' → ov_starttime s = ov_starttime s' → i = j.

Record slots_ok (x : slots_state) : Prop := {
  so_ids k a : o_ts x !! k = Some a → owned (a_id a);
  so_excl j k a b : o_ts x !! j = Some a → o_ts x !! k = Some b →
    inside (a_pc a) = true → inside (a_pc b) = true → j = k;
  so_locked k a : o_ts x !! k = Some a → inside (a_pc a) = true → o_lock x = true;
  so_knows k a : o_ts x !! k = Some a → knows a (o_slots x);
  so_unique : one_slot_each (o_slots x);
}.

(** ** Preservation *)

(** What a thread outside the critical section knows does not depend on the slots. *)
Lemma knows_outside a L L' : inside (a_pc a) = false → knows a L → knows a L'.
Proof. unfold knows. by destruct (a_pc a). Qed.

(** Thread [k] moves to [p'], the slots become [L'] and the lock [l']. *)
Lemma slots_update L L' l l' ts k a p' :
  slots_ok (mkslots L l ts) → ts !! k = Some a →
  (inside p' = true → l' = true ∧ (inside (a_pc a) = true ∨ l = false)) →
  (l' = false → l = false ∨ inside (a_pc a) = true) →
  knows (at_pc a p') L' →
  (∀ j b, j ≠ k → ts !! j = Some b → knows b L → knows b L') →
  one_slot_each L' → slots_ok (mkslots L' l' (<[k := at_pc a p']> ts)).
Proof.
  intros [O1 O2 O3 O4 O5] Hk Hin Hl Hkn Hoth Hu. cbn [o_slots o_lock o_ts] in *.
  assert (∀ j b, <[k := at_pc a p']> ts !! j = Some b → j = k ∧ b = at_pc a p' ∨ j ≠ k ∧ ts !! j = Some b) as Hlk.
  { intros j b Hj. apply list_lookup_insert_Some in Hj as [(<- & <- & _)|[? ?]]; [by left|by right]. }
  assert (∀ j b, j ≠ k → ts !! j = Some b → inside (a_pc b) = true → inside p' = true → False) as Hno.
  { intros j b Hne Hj Hb Hp. destruct (Hin Hp) as [_ [Ha|E]]; [by apply Hne, (O2 j k b a)|].
    specialize (O3 j b Hj Hb). congruence. }
  split; cbn [o_slots o_lock o_ts].
  - intros j b [[-> ->]|[Hne Hj]]%Hlk; [exact (O1 k a Hk)|by eapply O1].
  - intros i j b c [[-> ->]|[Hne Hi]]%Hlk [[-> ->]|[Hne' Hj]]%Hlk Hb Hc; [done|..|by eapply O2].
    + by destruct (Hno j c).
    + by destruct (Hno i b).
  - intros j b [[-> ->]|[Hne Hj]]%Hlk Hb; [by apply Hin|]. destruct l'; [done|].
    destruct (Hl eq_refl) as [E|Ha]; [|by destruct Hne; apply (O2 j k b a)]. specialize (O3 j b Hj Hb). congruence.
  - intros j b [[-> ->]|[Hne Hj]]%Hlk; [done|]. eauto.
  - done.
Qed.

(** A step that leaves the slots and the lock alone. *)
Lemma slots_quiet L l ts k a p' :
  slots_ok (mkslots L l ts) → ts !! k = Some a → (inside p' = true → inside (a_pc a) = true) →
  knows (at_pc a p') L → slots_ok (mkslots L l (<[k := at_pc a p']> ts)).
Proof.
  intros Hok Hk Hin Hkn. apply (slots_update L L l l ts k a p'); auto.
  - intros Hp. split; [|by left; apply Hin]. apply (so_locked _ Hok k a Hk). by apply Hin.
  - apply Hok.
Qed.

(** A write to slot [i] by the thread that holds the lock. *)
Lemma slots_write L l ts k a p' i s s' :
  slots_ok (mkslots L l ts) → ts !! k = Some a → inside (a_pc a) = true → inside p' = true → L !! i = Some s →
  knows (at_pc a p') (<[i := s']> L) → one_slot_each (<[i := s']> L) →
  slots_ok (mkslots (<[i := s']> L) l (<[k := at_pc a p']> ts)).
Proof.
  intros Hok Hk Ha Hp Hi Hkn Hu. apply (slots_update L (<[i := s']> L) l l ts k a p'); auto.
  - intros _. split; [|by left]. by apply (so_locked _ Hok k a Hk).
  - intros j b Hne Hj. apply knows_outside. destruct (inside (a_pc b)) eqn:Hb; [|done].
    by destruct Hne; apply (so_excl _ Hok j k b a).
Qed.

(** The slots stay apart when slot [i] is freed, reserved, or keeps what identifies it. *)
Lemma unique_write L i s s' :
  L !! i = Some s → one_slot_each L →
  (∀ j x, L !! j = Some x → j ≠ i → owned (ov_pid s') → ov_pid s' = ov_pid x → ov_starttime s' ≠ ov_starttime x) →
  one_slot_each (<[i := s']> L).
Proof.
  intros Hi Hu Hn j k x y Hj Hk Ho E1 E2.
  apply list_lookup_insert_Some in Hj as [(<- & <- & _)|[Hj Hx]], Hk as [(<- & <- & _)|[Hk Hy]]; [done|..].
  - destruct (Hn k y Hy (not_eq_sym Hk) Ho E1); done.
  - rewrite E1 in Ho. by destruct (Hn j x Hx (not_eq_sym Hj) Ho).
  - by apply (Hu j k x y).
Qed.

Lemma clear_write i s' a L :
  clear a L → (ov_pid s' = a_id a → ov_starttime s' ≠ a_st a) → clear a (<[i := s']> L).
Proof.
  intros Hc Hs j x Hj _ Hp. apply list_lookup_insert_Some in Hj as [(<- & <- & _)|[Hne Hj]]; [by apply Hs|].
  apply (Hc j x Hj); [|done]. by eapply lookup_lt_Some.
Qed.

(** Freeing a slot that some process owned. *)
Lemma slots_sweep L l ts k a i p s :
  slots_ok (mkslots L l ts) → ts !! k = Some a → a_pc a = o_sweep i p → L !! i = Some s → ov_pid s = p →
  slots_ok (mkslots (<[i := set_ov_pid 0 s]> L) l (<[k := at_pc a (o_gc (i + 1)%nat)]> ts)).
Proof.
  intros Hok Hk Hpc Hi Hp. pose proof (so_knows _ Hok k a Hk) as Hkn. unfold knows in Hkn. rewrite Hpc in Hkn. cbn [o_slots] in Hkn.
  assert (owned (ov_pid s)) as Hown by (by rewrite Hp). set (s' := set_ov_pid 0 s).
  assert (∀ j, reserved j L → j ≠ i) as Hres by (intros j (x & Hx & E) ->; destruct Hown; congruence).
  apply (slots_update L _ l l ts k a); [done|done|done|by left|done|..].
  - intros j b Hne Hj. pose proof (so_ids _ Hok j b Hj) as [Hb _]. unfold knows.
    assert (∀ n, clear_below n b L → clear_below n b (<[i := s']> L)) as Hcb.
    { intros n Hc m x Hm Hlt E. apply list_lookup_insert_Some in Hm as [(<- & <- & _)|[? Hm]]; [cbn in E; lia|eauto]. }
    assert (clear b L → clear b (<[i := s']> L)) as Hc.
    { intros H. apply clear_write; [done|]. intros E. cbn in E. lia. }
    assert (∀ m, reserved m L → reserved m (<[i := s']> L)) as Hr.
    { intros m Hm. destruct Hm as (x & Hx & E) eqn:?. exists x. split; [|done].
      rewrite list_lookup_insert_ne; [done|]. apply not_eq_sym, Hres. eauto. }
    assert (∀ m, stamped m b L → stamped m b (<[i := s']> L)) as Hst.
    { intros m (x & Hx & E & E'). exists x. split; [|done]. rewrite list_lookup_insert_ne; [done|].
      apply not_eq_sym, Hres. by exists x. }
    destruct (a_pc b); intuition.
  - apply (unique_write L i s); [done|apply Hok|]. intros j x _ _ [Ho _]. by cbn in Ho.
Qed.

(** Pass 1 goes on past slot [i], which is not ours. *)
Lemma clear_next i a p' s L :
  clear_below i a L → L !! i = Some s → (ov_pid s = a_id a → ov_starttime s ≠ a_st a) →
  clear_below (i + 1) (at_pc a p') L.
Proof.
  intros Hc Hi Hs j x Hj Hlt Hp. destruct (decide (j = i)) as [->|Hne].
  - rewrite Hi in Hj. injection Hj as <-. by apply Hs.
  - apply (Hc j x Hj); [lia|done].
Qed.

Lemma insert_self {A} (L : list A) i s s' : L !! i = Some s → <[i := s']> L !! i = Some s'.
Proof. intros Hi. apply list_lookup_insert_eq. by eapply lookup_lt_Some. Qed.

(** The steps of the lock. *)
Lemma slots_lock L ts k a :
  slots_ok (mkslots L false ts) → ts !! k = Some a → slots_ok (mkslots L true (<[k := at_pc a (o_find 0)]> ts)).
Proof.
  intros Hok Hk. apply (slots_update L L false true ts k a); [done|done|by auto|done| |auto|apply Hok].
  intros i s _ Hi. lia.
Qed.

Lemma slots_unlock L l ts k a r :
  slots_ok (mkslots L l ts) → ts !! k = Some a → a_pc a = o_out r →
  slots_ok (mkslots L false (<[k := at_pc a o_idle]> ts)).
Proof.
  intros Hok Hk Hpc. apply (slots_update L L l false ts k a); [done|done|done| |done|auto|apply Hok].
  intros _. right. by rewrite Hpc.
Qed.

(** The writes of pass 2. *)
Lemma slots_claim L l ts k a i s :
  slots_ok (mkslots L l ts) → ts !! k = Some a → a_pc a = o_claim i → L !! i = Some s → ov_pid s = 0 →
  slots_ok (mkslots (<[i := set_ov_pid (-1) s]> L) l (<[k := at_pc a (o_fill i)]> ts)).
Proof.
  intros Hok Hk Hpc Hi Hz. pose proof (so_knows _ Hok k a Hk) as Hkn. unfold knows in Hkn. rewrite Hpc in Hkn. cbn [o_slots] in Hkn.
  pose proof (so_ids _ Hok k a Hk) as [_ Hid]. apply (slots_write L l ts k a _ i s); [done|done|by rewrite Hpc|done|done|..].
  - split; [apply clear_write; [done|]; intros E; cbn in E; congruence|]. exists (set_ov_pid (-1) s). split; [by eapply insert_self|done].
  - apply (unique_write L i s); [done|apply Hok|]. intros j x _ _ [_ Ho]. by cbn in Ho.
Qed.

Lemma slots_stamp L l ts k a i s :
  slots_ok (mkslots L l ts) → ts !! k = Some a → a_pc a = o_fill i → L !! i = Some s →
  slots_ok (mkslots (<[i := set_ov_starttime (a_st a) s]> L) l (<[k := at_pc a (o_fill_fd i)]> ts)).
Proof.
  intros Hok Hk Hpc Hi. pose proof (so_knows _ Hok k a Hk) as Hkn. unfold knows in Hkn. rewrite Hpc in Hkn. cbn [o_slots] in Hkn.
  destruct Hkn as [Hc (x & Hx & Hr)]. rewrite Hi in Hx. injection Hx as <-. pose proof (so_ids _ Hok k a Hk) as [_ Hid].
  apply (slots_write L l ts k a _ i s); [done|done|by rewrite Hpc|done|done|..].
  - split; [apply clear_write; [done|]; intros E; cbn in E; congruence|].
    exists (set_ov_starttime (a_st a) s). split; [by eapply insert_self|done].
  - apply (unique_write L i s); [done|apply Hok|]. intros j y _ _ [_ Ho]. by cbn in Ho.
Qed.

Lemma slots_fd L l ts k a i s :
  slots_ok (mkslots L l ts) → ts !! k = Some a → a_pc a = o_fill_fd i → L !! i = Some s →
  slots_ok (mkslots (<[i := set_ov_fd (a_fd a) s]> L) l (<[k := at_pc a (o_publish i)]> ts)).
Proof.
  intros Hok Hk Hpc Hi. pose proof (so_knows _ Hok k a Hk) as Hkn. unfold knows in Hkn. rewrite Hpc in Hkn. cbn [o_slots] in Hkn.
  destruct Hkn as [Hc (x & Hx & Hr & Hst)]. rewrite Hi in Hx. injection Hx as <-. pose proof (so_ids _ Hok k a Hk) as [_ Hid].
  apply (slots_write L l ts k a _ i s); [done|done|by rewrite Hpc|done|done|..].
  - split; [apply clear_write; [done|]; intros E; cbn in E; congruence|].
    exists (set_ov_fd (a_fd a) s). split; [by eapply insert_self|done].
  - apply (unique_write L i s); [done|apply Hok|]. intros j y _ _ [_ Ho]. by cbn in Ho.
Qed.

Lemma slots_publish L l ts k a i s :
  slots_ok (mkslots L l ts) → ts !! k = Some a → a_pc a = o_publish i → L !! i = Some s →
  slots_ok (mkslots (<[i := set_ov_pid (a_id a) s]> L) l (<[k := at_pc a (o_out (Some i))]> ts)).
Proof.
  intros Hok Hk Hpc Hi. pose proof (so_knows _ Hok k a Hk) as Hkn. unfold knows in Hkn. rewrite Hpc in Hkn. cbn [o_slots] in Hkn.
  destruct Hkn as [Hc (x & Hx & Hr & Hst)]. rewrite Hi in Hx. injection Hx as <-.
  apply (slots_write L l ts k a _ i s); [done|done|by rewrite Hpc|done|done|done|].
  apply (unique_write L i s); [done|apply Hok|]. cbn. intros j y Hj _ _ E1 E2.
  apply (Hc j y Hj); [by eapply lookup_lt_Some|done|congruence].
Qed.

Lemma acquire_step_ok x y : acquire_step x y → slots_ok x → slots_ok y.
Proof.
  intros Hs Hok. destruct Hs as [L l ts k a Hk Hpc|L l ts k a i Hk Hpc|L l ts k a i s Hk Hpc Hi|L l ts k a i p s Hk Hpc Hi|
    L l ts k a i p s Hk Hpc Hi|L l ts k a i Hk Hpc|L ts k a Hk Hpc|L l ts k a i s Hk Hpc Hi Hne|L l ts k a i s Hk Hpc Hi He|
    L l ts k a i s Hk Hpc Hi He|L l ts k a i s Hk Hpc Hi Hne|L l ts k a i Hk Hpc Hlen|L l ts k a i s Hk Hpc Hi Hz|
    L l ts k a i s Hk Hpc Hi|L l ts k a i Hk Hpc|L l ts k a i s Hk Hpc Hi|L l ts k a i s Hk Hpc Hi|L l ts k a i s Hk Hpc Hi|L l ts k a r Hk Hpc];
    pose proof (so_knows _ Hok k a Hk) as Hkn; unfold knows in Hkn; rewrite Hpc in Hkn;
    try (apply slots_quiet; [done|done|by rewrite Hpc|]; cbn [knows at_pc a_pc]; try done);
    eauto using slots_sweep, slots_lock, slots_claim, slots_stamp, slots_fd, slots_publish, slots_unlock.
  - by apply (clear_next i a _ s).
  - by apply (clear_next i a _ s).
  - intros j x Hj Hlt. apply (Hkn j x Hj). cbn in *. apply lookup_lt_Some in Hj. lia.
Qed.

(** ** The theorem *)
Definition acquire_init (ids : list (Z * Z * Z)) (slots : list synth_override) : slots_state :=
  mkslots slots false ((λ x, mkacq x.1.1 x.1.2 x.2 o_idle) <$> ids).

Lemma acquire_init_ok ids slots :
  Forall (λ x, owned x.1.1) ids → one_slot_each slots → slots_ok (acquire_init ids slots).
Proof.
  intros Hid Hu.
  assert (∀ k a, o_ts (acquire_init ids slots) !! k = Some a → owned (a_id a) ∧ a_pc a = o_idle) as Ht.
  { intros k a Hk. cbn [o_ts acquire_init] in Hk. rewrite list_lookup_fmap in Hk. apply fmap_Some in Hk as (x & Hx & ->).
    split; [exact (Forall_lookup_1 _ _ _ _ Hid Hx)|done]. }
  split; [..|done].
  - intros k a Hk. by apply (Ht k a).
  - intros j k a b [_ Ha]%Ht _ H. by rewrite Ha in H.
  - intros k a [_ Ha]%Ht H. by rewrite Ha in H.
  - intros k a [_ Ha]%Ht. unfold knows. by rewrite Ha.
Qed.

(** C8: Whatever the interleaving of threads that collect the slots of dead processes and acquire their own, and
    whichever processes they find dead: no two slots of a view are those of the same process, and at most
    one thread is between the lock and the unlock. *)
Theorem acquire_unique ids slots x :
  Forall (λ i, owned i.1.1) ids → one_slot_each slots → rtc acquire_step (acquire_init ids slots) x →
  one_slot_each (o_slots x) ∧
  (∀ j k a b, o_ts x !! j = Some a → o_ts x !! k = Some b → inside (a_pc a) = true → inside (a_pc b) = true → j = k).
Proof.
  intros Hid Hu Hr. assert (slots_ok x) as Hok.
  { refine (rtc_ind_r slots_ok (acquire_init ids slots) _ _ x Hr); [by apply acquire_init_ok|].
    intros y z _ Hs Hy. by apply (acquire_step_ok y z). }
  split; apply Hok.
Qed.

(** ** Two children that acquire a slot of one array *)
Module AcquireDemo.
Definition free : synth_override := {| ov_pid := 0; ov_starttime := 0; ov_fd := 0 |}.
Definition taken : synth_override := {| ov_pid := 101; ov_starttime := 7; ov_fd := 5 |}.
Definition ids : list (Z * Z * Z) := [(101, 7, 5); (102, 8, 6)].
(** The first has its slot and is out; the second has just got the lock. *)
Definition midway : slots_state :=
  mkslots [taken] true [mkacq 101 7 5 o_idle; mkacq 102 8 6 (o_find 0)].

Tactic Notation "go" uconstr(r) :=
  eapply rtc_l; [apply r; first [done | cbn; lia]|];
  cbv [list_insert insert set_ov_pid set_ov_starttime set_ov_fd at_pc a_id a_st a_fd Nat.add].

Lemma midway_run : rtc acquire_step (acquire_init ids [free]) midway.
Proof.
  unfold acquire_init. cbn [fmap list_fmap ids fst snd].
  go (o_begin [free] false _ 0 (mkacq 101 7 5 o_idle)).
  go (o_begin [free] false _ 1 (mkacq 102 8 6 o_idle)).
  go (o_gc_next [free] false _ 0 (mkacq 101 7 5 (o_gc 0)) 0).
  go (o_gc_end [free] false _ 0 (mkacq 101 7 5 (o_gc 1)) 1).
  go (o_lock_ok [free] _ 0 (mkacq 101 7 5 o_spin)).
  go (o_find_other [free] true _ 0 (mkacq 101 7 5 (o_find 0)) 0 free).
  go (o_gc_next [free] true _ 1 (mkacq 102 8 6 (o_gc 0)) 0).
  go (o_find_end [free] true _ 0 (mkacq 101 7 5 (o_find 1)) 1).
  go (o_claim_ok [free] true _ 0 (mkacq 101 7 5 (o_claim 0)) 0 free).
  go (o_gc_end [{| ov_pid := -1; ov_starttime := 0; ov_fd := 0 |}] true _ 1 (mkacq 102 8 6 (o_gc 1)) 1).
  go (o_write_st _ true _ 0 (mkacq 101 7 5 (o_fill 0)) 0 {| ov_pid := -1; ov_starttime := 0; ov_fd := 0 |}).
  go (o_write_fd _ true _ 0 (mkacq 101 7 5 (o_fill_fd 0)) 0 {| ov_pid := -1; ov_starttime := 7; ov_fd := 0 |}).
  go (o_write_pid _ true _ 0 (mkacq 101 7 5 (o_publish 0)) 0 {| ov_pid := -1; ov_starttime := 7; ov_fd := 5 |}).
  go (o_unlock _ true _ 0 (mkacq 101 7 5 (o_out (Some 0%nat))) (Some 0%nat)).
  go (o_lock_ok _ _ 1 (mkacq 102 8 6 o_spin)).
  apply rtc_refl.
Qed.

Lemma ids_owned : Forall (λ i : Z * Z * Z, owned i.1.1) ids.
Proof. by repeat constructor. Qed.
Lemma free_apart : one_slot_each [free].
Proof. intros i j s s' Hi Hj _ _ _. apply lookup_lt_Some in Hi, Hj. cbn in *. lia. Qed.
End AcquireDemo.

Lemma acquire_unique_witness :
  o_slots AcquireDemo.midway = [AcquireDemo.taken] ∧ one_slot_each (o_slots AcquireDemo.midway).
Proof.
  split; [done|].
  exact (proj1 (acquire_unique _ _ _ AcquireDemo.ids_owned AcquireDemo.free_apart AcquireDemo.midway_run)).
Defined.
