(* ===== verification/AcquireSeq.v ===== *)
(** * The sequential acquisition is one of the concurrent runs

    [Override] has [wslcompat_override_acquire_pid] as a program, [OverrideLock] the same code as steps of a
    thread among others. Here is the link between the two: what the program does to the slots of a view when
    it returns is a run of the step relation, that ends with the lock released and with the program's result. *)

From S2P Require Import Prelude Kernel State Override SynthFrames OverrideLock.

Open Scope Z_scope.

Section sequential.
Context {W : Type} `{!Kernel W} (v : fdview) (id t fd : Z).

Definition thread (p : acquire_pc) : acquirer := mkacq id t fd p.

(** The slots of the view, the lock, and the one thread, at [p]. *)
Definition at_view (s : st W) (p : acquire_pc) : slots_state :=
  mkslots (view_slots v (s_mem s)) (synth_acquire_lock (s_mem s)) [thread p].

Definition goes (p p' : acquire_pc) (s s' : st W) : Prop :=
  valid_view v (s_mem s') ∧ length (view_slots v (s_mem s')) = length (view_slots v (s_mem s)) ∧
  rtc acquire_step (at_view s p) (at_view s' p').

Lemma goes_trans p q r s1 s2 s3 : goes p q s1 s2 → goes q r s2 s3 → goes p r s1 s3.
Proof. intros (_ & L1 & R1) (V2 & L2 & R2). split_and!; [done|congruence|by etrans]. Qed.

Lemma goes_once p p' s : valid_view v (s_mem s) → acquire_step (at_view s p) (at_view s p') → goes p p' s s.
Proof. intros Hv Hs. split_and!; [done..|]. by apply rtc_once. Qed.

(** A write of the thread to slot [i]. *)
Lemma goes_write p p' i f (s : st W) :
  valid_view v (s_mem s) →
  (∀ x, view_slots v (s_mem s) !! i = Some x →
     acquire_step (at_view s p) (mkslots (<[i := f x]> (view_slots v (s_mem s))) (synth_acquire_lock (s_mem s)) [thread p'])) →
  (i < length (view_slots v (s_mem s)))%nat →
  goes p p' s (mkst (upd_slot v i f (s_mem s)) (s_world s) (s_errno s)).
Proof.
  intros Hv Hs Hi. split_and!; cbn [s_mem]; [by apply valid_upd_slot|by apply length_view_upd|].
  apply rtc_once. unfold at_view at 2. cbn [s_mem]. destruct (lookup_lt_is_Some_2 _ _ Hi) as [x Hx].
  replace (synth_acquire_lock (upd_slot v i f (s_mem s))) with (synth_acquire_lock (s_mem s)) by (by destruct v).
  unfold upd_slot. rewrite view_slots_set by done. 
  replace (alter f i (view_slots v (s_mem s))) with (<[i := f x]> (view_slots v (s_mem s))); [by apply Hs|].
  rewrite list_insert_alter. apply list_alter_ext; [|done]. intros y Hy. congruence.
Qed.

(** ** The collection of dead slots *)

(** Code that leaves the slots and the lock alone. *)
Definition quiet (s s' : st W) : Prop :=
  view_slots v (s_mem s') = view_slots v (s_mem s) ∧ synth_acquire_lock (s_mem s') = synth_acquire_lock (s_mem s) ∧
  (valid_view v (s_mem s) → valid_view v (s_mem s')).

#[local] Instance quiet_preorder : PreOrder quiet.
Proof. split; [by intros s|]. intros s1 s2 s3 (A1 & B1 & C1) (A2 & B2 & C2). split_and!; [congruence..|auto]. Qed.

Lemma quiet_goes p s s' : quiet s s' → valid_view v (s_mem s) → goes p p s s'.
Proof. intros (E1 & E2 & Hv) H. split_and!; [auto|by rewrite E1|]. unfold at_view. by rewrite E1, E2. Qed.

Lemma quiet_live (b : bool) p sst :
  within quiet (if b then let* x := wslcompat_self_starttime in ret (sst =? x)
                else let* x := pid_starttime p in ret (x =? sst)).
Proof.
  assert (∀ A (c : call A), within quiet (sys c)) as Hs by (intros A c; by apply within_sys).
  assert (∀ c, within quiet (setm (set_starttime_cache c))) as Hc by (intros c; apply within_setm; by destruct v).
  unfold wslcompat_self_starttime, wslcompat_self_starttime_pid, pid_starttime, read_proc_starttime. within_auto.
Qed.

Lemma gc_slot_goes self i (s : st W) :
  valid_view v (s_mem s) → (i < length (view_slots v (s_mem s)))%nat →
  match override_gc_slot v self i s with
  | Ret r s' => r = None ∧ goes (o_gc i) (o_gc (i + 1)) s s'
  | _ => True
  end.
Proof.
  intros Hv Hi. destruct (lookup_lt_is_Some_2 _ _ Hi) as [x Hx].
  assert (∀ s1, quiet s s1 → goes (o_gc i) (o_gc (i + 1)) s s1) as Hnext.
  { intros s1 Hq. eapply goes_trans; [|by apply quiet_goes]. apply goes_once; [done|]. by apply (o_gc_next _ _ [thread (o_gc i)] 0 (thread (o_gc i)) i). }
  unfold override_gc_slot. rewrite bind_getm, (list_lookup_total_correct _ _ _ Hx).
  destruct ((ov_pid x =? 0) || (ov_pid x =? -1)) eqn:E; [split; [done|by apply Hnext]|].
  apply orb_false_iff in E as [E0%Z.eqb_neq E1%Z.eqb_neq]. cbv zeta. unfold bind at 1.
  pose proof (quiet_live (ov_pid x =? self) (ov_pid x) (ov_starttime x) s) as Hq.
  lazymatch type of Hq with match ?e with Ret _ _ => _ | _ => _ end => destruct e as [[] s1| |] end; [|..|done|done]; [split; [done|by apply Hnext]|].
  rewrite bind_setm. split; [done|]. pose proof Hq as (Es & El & Hv1). eapply (goes_trans _ (o_sweep i (ov_pid x)) _ _ s1).
  - eapply goes_trans; [|by apply quiet_goes]. apply goes_once; [done|]. by apply (o_gc_dead _ _ [thread (o_gc i)] 0 (thread (o_gc i)) i x).
  - apply goes_write; [auto| |by rewrite Es]. intros y Hy. rewrite Es, Hx in Hy. injection Hy as <-.
    apply (o_sweep_ok _ _ [thread (o_sweep i (ov_pid x))] 0 (thread (o_sweep i (ov_pid x))) i (ov_pid x)); [done|done|by rewrite Es|done].
Qed.

Lemma gc_loop_goes self n i (s : st W) :
  valid_view v (s_mem s) → (i + n)%nat = length (view_slots v (s_mem s)) →
  match for_each (seq i n) (override_gc_slot v self) s with
  | Ret _ s' => goes (o_gc i) (o_gc (i + n)) s s'
  | _ => True
  end.
Proof.
  revert i s. induction n as [|n IH]; intros i s Hv Hn; cbn [seq for_each].
  { rewrite Nat.add_0_r. split_and!; [done..|apply rtc_refl]. }
  unfold bind. pose proof (gc_slot_goes self i s Hv ltac:(lia)) as Hg.
  destruct (override_gc_slot v self i s) as [r s1| |]; [|done..]. destruct Hg as (-> & Hg).
  specialize (IH (S i) s1 (proj1 Hg)). destruct Hg as (Hv1 & Hl & Hr).
  specialize (IH ltac:(lia)). destruct (for_each _ _ s1) as [u s2| |]; [|done..].
  eapply goes_trans; [by split_and!|]. rewrite Nat.add_1_r. by replace (i + S n)%nat with (S i + n)%nat by lia.
Qed.

(** ** The two passes under the lock *)
Lemma find_goes (s : st W) j :
  valid_view v (s_mem s) → (j ≤ length (view_slots v (s_mem s)))%nat →
  (∀ i, (i < j)%nat → ¬ (ov_pid (view_slots v (s_mem s) !!! i) = id ∧ ov_starttime (view_slots v (s_mem s) !!! i) = t)) →
  goes (o_find 0) (o_find j) s s.
Proof.
  intros Hv Hj Hno. induction j as [|j IH]; [split_and!; [done..|apply rtc_refl]|].
  eapply goes_trans; [apply IH; [lia|intros; apply Hno; lia]|]. specialize (Hno j ltac:(lia)).
  destruct (lookup_lt_is_Some_2 (view_slots v (s_mem s)) j ltac:(lia)) as [x Hx].
  rewrite (list_lookup_total_correct _ _ _ Hx) in Hno. rewrite <-Nat.add_1_r.
  destruct (decide (ov_pid x = id)) as [Ep|Ep].
  - eapply (goes_trans _ (o_found j)).
    + apply goes_once; [done|]. by apply (o_find_pid _ _ [thread (o_find j)] 0 (thread (o_find j)) j x).
    + apply goes_once; [done|]. apply (o_find_stale _ _ [thread (o_found j)] 0 (thread (o_found j)) j x); [done|done|done|]. intros ?. by apply Hno.
  - apply goes_once; [done|]. by apply (o_find_other _ _ [thread (o_find j)] 0 (thread (o_find j)) j x).
Qed.

(** The claimed slot is filled and published. *)
Lemma fill_goes i (s : st W) :
  valid_view v (s_mem s) → (i < length (view_slots v (s_mem s)))%nat →
  match (setm (upd_slot v i (set_ov_starttime t)) ;;* setm (upd_slot v i (set_ov_fd fd)) ;;*
         setm (upd_slot v i (set_ov_pid id)) ;;* ret (Some i)) s with
  | Ret r s' => r = Some i ∧ goes (o_fill i) (o_out r) s s'
  | _ => False
  end.
Proof.
  intros Hv Hi. rewrite !bind_setm. split; [done|]. cbn [s_mem s_world s_errno].
  eapply (goes_trans _ (o_fill_fd i)).
  { apply goes_write; [done| |done]. intros y Hy. by apply (o_write_st _ _ [thread (o_fill i)] 0 (thread (o_fill i)) i y). }
  eapply (goes_trans _ (o_publish i)).
  { apply goes_write; cbn [s_mem]; [by apply valid_upd_slot| |by rewrite length_view_upd].
    intros y Hy. by apply (o_write_fd _ _ [thread (o_fill_fd i)] 0 (thread (o_fill_fd i)) i y). }
  eapply (goes_write _ _ i _ (mkst _ _ _)); cbn [s_mem]; [by repeat apply valid_upd_slot| |].
  - intros y Hy. by apply (o_write_pid _ _ [thread (o_publish i)] 0 (thread (o_publish i)) i y).
  - by rewrite !length_view_upd by (try apply valid_upd_slot; done).
Qed.

Lemma claim_goes (s : st W) i n :
  valid_view v (s_mem s) → (i + n)%nat = length (view_slots v (s_mem s)) →
  match for_each (seq i n) (override_claim v id t fd) s with
  | Ret r s' => goes (o_claim i) (o_out r) s s'
  | _ => False
  end.
Proof.
  intros Hv. revert i. induction n as [|n IH]; intros i Hn; cbn [seq for_each].
  { apply goes_once; [done|]. apply (o_claim_end _ _ [thread (o_claim i)] 0 (thread (o_claim i)) i); [done|done|lia]. }
  destruct (lookup_lt_is_Some_2 (view_slots v (s_mem s)) i ltac:(lia)) as [x Hx].
  unfold bind at 1. unfold override_claim at 1. rewrite bind_getm, (list_lookup_total_correct _ _ _ Hx).
  destruct (Z.eqb_spec (ov_pid x) 0) as [E|E].
  - set (s1 := mkst (upd_slot v i (set_ov_pid (-1)) (s_mem s)) (s_world s) (s_errno s)).
    assert (goes (o_claim i) (o_fill i) s s1) as H1.
    { apply goes_write; [done| |lia]. intros y Hy. assert (y = x) as -> by congruence.
      by apply (o_claim_ok _ _ [thread (o_claim i)] 0 (thread (o_claim i)) i x). }
    apply (goes_trans _ (o_fill i) _ _ s1); [done|].
    refine (proj2 (fill_goes i s1 (proj1 H1) _)). rewrite (proj1 (proj2 H1)). lia.
  - specialize (IH (S i) ltac:(lia)). unfold ret at 1. destruct (for_each _ _ s) as [r s'| |]; [|done..].
    eapply goes_trans; [|exact IH]. rewrite <-Nat.add_1_r.
    apply goes_once; [done|]. by apply (o_claim_busy _ _ [thread (o_claim i)] 0 (thread (o_claim i)) i x).
Qed.

(** ** The whole function *)
Lemma gc_goes (s s' : st W) :
  valid_view v (s_mem s) → wslcompat_override_gc v s = Ret tt s' → goes o_idle o_spin s s'.
Proof.
  intros Hv Hr. run_inv Hr. injection E as <- <-. rewrite bind_getm in Hr.
  pose proof (gc_loop_goes (kpid (s_world s)) _ 0 s Hv eq_refl) as Hg. unfold bind in Hr.
  destruct (for_each _ _ s) as [u s1| |]; [|done..]. injection Hr as <-. cbn [Nat.add] in Hg.
  eapply (goes_trans _ (o_gc 0)); [|eapply goes_trans; [exact Hg|]]; (apply goes_once; [apply Hv || apply Hg|]).
  - by apply (o_begin _ _ [thread o_idle] 0 (thread o_idle)).
  - set (n := length _) in *. apply (o_gc_end _ _ [thread (o_gc n)] 0 (thread (o_gc n)) n); [done|done|].
    by rewrite (proj1 (proj2 Hg)).
Qed.

(** The search, and the claim when it finds nothing. *)
Lemma passes_goes (s : st W) :
  valid_view v (s_mem s) →
  match (match wslcompat_override_get_pid (view_slots v (s_mem s)) id t with
         | Some i => ret (Some i)
         | None => for_each (seq 0 (length (view_slots v (s_mem s)))) (override_claim v id t fd)
         end) s with
  | Ret r s' => goes (o_find 0) (o_out r) s s'
  | _ => False
  end.
Proof.
  intros Hv. destruct (wslcompat_override_get_pid _ id t) as [i|] eqn:E.
  - apply get_pid_Some in E as (Hi & Ep & Et & Hno). destruct (lookup_lt_is_Some_2 _ _ Hi) as [x Hx].
    rewrite (list_lookup_total_correct _ _ _ Hx) in Ep, Et.
    eapply goes_trans; [by apply (find_goes s i); [|lia|]|]. eapply (goes_trans _ (o_found i)).
    + apply goes_once; [done|]. by apply (o_find_pid _ _ [thread (o_find i)] 0 (thread (o_find i)) i x).
    + apply goes_once; [done|]. by apply (o_find_st _ _ [thread (o_found i)] 0 (thread (o_found i)) i x).
  - pose proof (claim_goes s 0 _ Hv eq_refl) as Hc. destruct (for_each _ _ s) as [r s'| |]; [|done..].
    eapply goes_trans; [by apply (find_goes s (length (view_slots v (s_mem s)))); [| |by apply get_pid_None]|].
    eapply goes_trans; [|exact Hc]. apply goes_once; [done|].
    set (n := length _) in *. by apply (o_find_end _ _ [thread (o_find n)] 0 (thread (o_find n)) n).
Qed.

(** C9: What the acquisition does to the slots of its view and to the lock is a run of one thread of the step
    relation, from idle to idle, that comes by the same result on its way out of the lock. *)
Theorem acquire_refines (s s' : st W) r :
  valid_view v (s_mem s) → wslcompat_override_acquire_pid v id t fd s = Ret r s' →
  ∃ x, rtc acquire_step (at_view s o_idle) x ∧ o_ts x = [thread (o_out r)] ∧ acquire_step x (at_view s' o_idle).
Proof.
  intros Hv Hr. unfold wslcompat_override_acquire_pid in Hr. run_inv Hr. destruct r0.
  destruct (gc_goes s s0 Hv E) as (Hv0 & _ & Rgc). rewrite bind_getm in Hr.
  destruct (synth_acquire_lock (s_mem s0)) eqn:El; [done|]. rewrite bind_setm, bind_getm in Hr. cbn [s_mem] in Hr.
  set (s1 := mkst (set_synth_acquire_lock true (s_mem s0)) (s_world s0) (s_errno s0)) in Hr.
  pose proof (passes_goes s1 (valid_lock v true _ Hv0)) as Hp. change (set_synth_acquire_lock true (s_mem s0)) with (s_mem s1) in Hr. run_inv Hr. rewrite E0 in Hp.
  destruct Hp as (Hv2 & _ & Rp). rewrite bind_setm in Hr. injection Hr as <- <-.
  exists (at_view s2 (o_out r0)). split_and!; [|done|].
  - etrans; [exact Rgc|]. eapply rtc_l; [|exact Rp].
    unfold at_view, s1. cbn [s_mem]. rewrite El, view_slots_lock. cbn [synth_acquire_lock set_synth_acquire_lock]. by apply (o_lock_ok _ [thread o_spin] 0 (thread o_spin)).
  - unfold at_view at 2. cbn [s_mem]. rewrite view_slots_lock.
    by apply (o_unlock _ _ [thread (o_out r0)] 0 (thread (o_out r0)) r0).
Qed.
End sequential.

(** ** A child that finds a dead slot and takes it *)
Module AcquireSeqDemo.
Definition before : st StatKernel.world := mkst StatKernel.memory (StatKernel.world_of 101) 0.
Definition run : outcome (st StatKernel.world) (option nat) := wslcompat_override_acquire_pid (v_probe 0) 101 6000 9 before.
Definition after : st StatKernel.world := match run with Ret _ s => s | _ => before end.
Lemma run_eq : wslcompat_override_acquire_pid (v_probe 0) 101 6000 9 before = Ret (Some 1%nat) after.
Proof. by vm_compute. Qed.
End AcquireSeqDemo.

Lemma acquire_refines_witness :
  view_slots (v_probe 0) (s_mem AcquireSeqDemo.before) = [mine 102 7000 12; mine 33 1 4; free_override; free_override] ∧
  view_slots (v_probe 0) (s_mem AcquireSeqDemo.after) = [mine 102 7000 12; mine 101 6000 9; free_override; free_override] ∧
  ∃ x, rtc acquire_step (at_view (v_probe 0) 101 6000 9 AcquireSeqDemo.before o_idle) x ∧
    o_ts x = [thread 101 6000 9 (o_out (Some 1%nat))] ∧
    acquire_step x (at_view (v_probe 0) 101 6000 9 AcquireSeqDemo.after o_idle).
Proof.
  split; [by vm_compute|]. split; [by vm_compute|].
  apply (acquire_refines (v_probe 0) 101 6000 9 AcquireSeqDemo.before AcquireSeqDemo.after (Some 1%nat)).
  - cbn. lia.
  - exact AcquireSeqDemo.run_eq.
Defined.
