(* ===== verification/SynthFacts.v ===== *)
(** * Invariants and behaviour of the table of synthetic descriptors *)

From stdpp Require Import gmap.
From S2P Require Import Prelude CString Kernel State Tunables Override Walk FdKernel Synth SynthFrames.

Open Scope Z_scope.

(** ** The invariant *)

(** How many entries are claimed. *)
Definition live_count (l : list synth_entry) : nat := length (filter (λ e, refcount e ≠ 0) l).

Definition tb_ok (p : tb) : Prop :=
  length p.1 = SYNTH_TABLE_SIZE ∧ Forall (λ e, 0 ≤ refcount e) p.1 ∧
  p.2 = Z.of_nat (live_count p.1).

(** No slot is in transit, and the counter that guards the fast paths counts the live ones. *)
Definition table_ok (m : mem) : Prop := tb_ok (synth_table m, synth_live_entries m).

Definition b2n (b : bool) : nat := if b then 1%nat else 0%nat.

Lemma live_count_insert (l : list synth_entry) (i : nat) (e e' : synth_entry) :
  l !! i = Some e →
  (live_count (<[i := e']> l) + b2n (bool_decide (refcount e ≠ 0%Z))
   = live_count l + b2n (bool_decide (refcount e' ≠ 0%Z)))%nat.
Proof.
  unfold live_count. revert i. induction l as [|x l IH]; intros [|i] H; simplify_eq/=.
  - rewrite !filter_cons. repeat case_bool_decide; repeat case_decide; simpl; (done || lia).
  - specialize (IH i H). rewrite !filter_cons.
    destruct (decide (refcount x ≠ 0%Z)); cbn [length]; lia.
Qed.

Lemma live_count_le l : (live_count l ≤ length l)%nat.
Proof. apply length_filter. Qed.

Lemma live_count_pos l i e : l !! i = Some e → refcount e ≠ 0 → (1 ≤ live_count l)%nat.
Proof.
  intros Hl Hr. pose proof (live_count_insert l i e (set_refcount 0 e) Hl) as H.
  rewrite bool_decide_true in H by done. rewrite bool_decide_false in H by (simpl; lia).
  simpl in H. lia.
Qed.

Lemma wrap_small n : 0 ≤ n ≤ 64 → wrap_u 32 n = n.
Proof. intros H. apply wrap_u_id. unfold in_u. lia. Qed.

Lemma tbstep_ok p p' : tbstep p p' → tb_ok p → tb_ok p'.
Proof.
  intros Hs (Hlen & Hpos & Hn). pose proof (tbstep_length _ _ Hs) as Hl.
  assert (live_count p'.1 ≤ 64)%nat as Hle by (etrans; [apply live_count_le|]; rewrite Hl, Hlen; done).
  assert (live_count p.1 ≤ 64)%nat as Hle' by (etrans; [apply live_count_le|]; rewrite Hlen; done).
  split; [congruence|].
  destruct Hs as [l n i e Hi Hr|l n i e Hi Hr|l n i e Hi Hr|l n i e e' Hi Hr Hr']; simpl in *;
    (split; [apply Forall_insert; [done|simpl; lia]|]); subst;
    pose proof (live_count_insert l i e) as Hc;
    match goal with |- context [<[i := ?x]> l] => specialize (Hc x Hi) end; simpl in Hc;
    repeat case_bool_decide; simpl in *; rewrite ?wrap_small; lia.
Qed.

Lemma tbreach_ok {W} (s s' : st W) : tbreach s s' → tb_ok (cores s) → tb_ok (cores s').
Proof.
  unfold tbreach. generalize (cores s) (cores s').
  induction 1 as [|p p1 p2 Hs _ IH]; [done|]. eauto using tbstep_ok.
Qed.

Lemma table_ok_cores {W} (s : st W) : table_ok (s_mem s) ↔ tb_ok (cores s).
Proof.
  unfold table_ok, tb_ok, cores; simpl. rewrite length_fmap, Forall_fmap.
  assert (∀ l, live_count (core <$> l) = live_count l) as Hc; [|by rewrite Hc].
  intros l. unfold live_count. induction l as [|x l IH]; [done|].
  rewrite fmap_cons, !filter_cons. cbn [core refcount set_pos set_probe_fd set_probe_overrides].
  destruct (decide (refcount x ≠ 0)); cbn [length]; congruence.
Qed.

Lemma within_table_ok {W A} (m : prog (st W) A) :
  within tbgrow m → within (keeps (λ s, table_ok (s_mem s))) m.
Proof.
  apply within_mono. intros s s' Hs Hok. apply table_ok_cores. eapply tbreach_ok.
  - apply Hs, Hok.
  - by apply table_ok_cores.
Qed.

Lemma init_table_ok : table_ok init_mem.
Proof. by split_and!; [|apply Forall_replicate|vm_compute]. Qed.

(** The counter is zero exactly when every slot is free. *)
Lemma active_iff_live {W} (s : st W) :
  table_ok (s_mem s) →
  wslcompat_synth_active s = Ret false s ↔
  ∀ i, (i < SYNTH_TABLE_SIZE)%nat → refcount (entry_at (s_mem s) i) = 0.
Proof.
  intros (Hlen & Hpos & Hn). simpl in *. unfold wslcompat_synth_active, getm, gets. split.
  - intros Ha i Hi. injection Ha as Ha. apply negb_false_iff, Z.eqb_eq in Ha.
    destruct (decide (refcount (entry_at (s_mem s) i) = 0)) as [|Hne]; [done|]. exfalso.
    pose proof (list_lookup_lookup_total_lt (synth_table (s_mem s)) i) as Hl.
    rewrite Hlen in Hl. specialize (Hl Hi). apply live_count_pos in Hl; [lia|done].
  - intros H. rewrite Hn. replace (live_count (synth_table (s_mem s))) with 0%nat; [done|].
    symmetry. apply length_zero_iff_nil. apply elem_of_nil_inv. intros e.
    rewrite list_elem_of_filter. intros [Hc [i Hl]%list_elem_of_lookup]. apply Hc.
    assert (i < SYNTH_TABLE_SIZE)%nat as Hi by (rewrite <-Hlen; by eapply lookup_lt_Some).
    specialize (H i Hi). unfold entry_at in H. rewrite list_lookup_total_alt, Hl in H. done.
Qed.

(** ** Lookup *)

(** Slot [e] is live and describes the inode [key]. *)
Definition live_match (key : stat) (e : synth_entry) : bool :=
  (0 <? refcount e) && same_inode (e_stat e) key.

Lemma set_refcount_back m i rc :
  refcount (entry_at m i) = rc →
  upd_entry i (set_refcount rc) (upd_entry i (set_refcount (rc + 1)) m) = m.
Proof.
  intros <-. rewrite upd_entry_compose. unfold upd_entry.
  rewrite alter_id_total; [by destruct m|]. unfold entry_at, compose. by destruct (_ !!! _).
Qed.

Section lookup.
Context {W : Type} `{!Kernel W, !Handlers W}.

(** The state with one more reference on slot [i]. *)
Definition pinned (i : nat) (s : st W) : st W :=
  mkst (upd_entry i (set_refcount (refcount (entry_at (s_mem s) i) + 1)) (s_mem s))
    (s_world s) (s_errno s).

(** A reference that is not the last is dropped in memory, with no cleanup. *)
Lemma unpin_shared i (s : st W) :
  1 < refcount (entry_at (s_mem s) i) →
  wslcompat_synth_unpin i s =
  Ret tt (mkst (upd_entry i (set_refcount (refcount (entry_at (s_mem s) i) - 1)) (s_mem s))
            (s_world s) (s_errno s)).
Proof.
  intros Hrc. unfold wslcompat_synth_unpin. run_simpl.
  set (rc := refcount (entry_at (s_mem s) i)) in *.
  destruct (0 <? rc) eqn:E1; [|apply Z.ltb_ge in E1; lia].
  destruct (rc =? 1) eqn:E2; [apply Z.eqb_eq in E2; lia|]. run_simpl.
  destruct (rc - 1 =? -1) eqn:E3; [apply Z.eqb_eq in E3; lia|done].
Qed.

Lemma pin_lookup_slot_run key i (s : st W) :
  (i < length (synth_table (s_mem s)))%nat →
  pin_lookup_slot key i s =
  if live_match key (entry_at (s_mem s) i) then Ret (Some i) (pinned i s) else Ret None s.
Proof.
  intros Hi. unfold pin_lookup_slot, synth_pin, live_match. run_simpl.
  destruct (0 <? _) eqn:E; [|done]. apply Z.ltb_lt in E. simpl. run_simpl.
  rewrite entry_at_upd_eq by done. simpl.
  destruct (same_inode _ _); [done|].
  erewrite bind_Ret by (apply unpin_shared; cbn [s_mem]; rewrite entry_at_upd_eq by done;
    simpl; lia). cbn [s_mem s_world s_errno].
  rewrite entry_at_upd_eq by done. cbn [refcount set_refcount]. rewrite Z.add_simpl_r.
  rewrite set_refcount_back by done. by destruct s.
Qed.

Lemma pin_lookup_run_from key n k (s : st W) :
  (k + n ≤ length (synth_table (s_mem s)))%nat →
  for_each (seq k n) (pin_lookup_slot key) s =
  match list_find (λ i, live_match key (entry_at (s_mem s) i)) (seq k n) with
  | Some (_, i) => Ret (Some i) (pinned i s)
  | None => Ret None s
  end.
Proof.
  revert k. induction n as [|n IH]; intros k Hk; [done|]. cbn [seq for_each list_find].
  unfold bind. rewrite pin_lookup_slot_run by lia.
  destruct (live_match key (entry_at (s_mem s) k)) ; [by rewrite decide_True|].
  rewrite decide_False by (intros []). rewrite IH by lia.
  by destruct (list_find _ (seq (S k) n)) as [[? ?]|].
Qed.

Lemma pin_lookup_first key i (s : st W) :
  length (synth_table (s_mem s)) = SYNTH_TABLE_SIZE → (i < SYNTH_TABLE_SIZE)%nat →
  live_match key (entry_at (s_mem s) i) = true →
  (∀ j, (j < i)%nat → live_match key (entry_at (s_mem s) j) = false) →
  synth_pin_lookup key s = Ret (Some i) (pinned i s).
Proof.
  intros Hlen Hi Hhit Hmin. unfold synth_pin_lookup. rewrite pin_lookup_run_from by lia.
  assert (list_find (λ i, live_match key (entry_at (s_mem s) i)) (seq 0 SYNTH_TABLE_SIZE)
          = Some (i, i)) as ->; [|done].
  apply list_find_Some. split; [apply lookup_seq; lia|]. split; [by apply Is_true_true|].
  intros j y Hy%lookup_seq Hj. destruct Hy as [-> _]. rewrite Hmin by done. intros [].
Qed.
End lookup.

#[local] Opaque SYNTH_TABLE_SIZE.

Section theorems.
Context {W : Type} `{!Kernel W, !Handlers W}.

(** A descriptor resolves to the first live slot of its inode. That slot gains exactly one
    reference and the rest of the memory is untouched; when no live slot has the inode, or the
    descriptor is not open, nothing changes at all. *)
Theorem pin_fd_first_match fd key w' (s : st W) :
  length (synth_table (s_mem s)) = SYNTH_TABLE_SIZE →
  kstep (k_fstat fd) (s_world s) = (inl key, w') →
  let s' := mkst (s_mem s) w' (s_errno s) in
  let hit i := live_match key (entry_at (s_mem s) i) in
  (∃ i, (i < SYNTH_TABLE_SIZE)%nat ∧ hit i ∧ (∀ j, (j < i)%nat → hit j = false) ∧
        wslcompat_synth_pin_fd fd s = Ret (Some i) (pinned i s')) ∨
  ((∀ i, (i < SYNTH_TABLE_SIZE)%nat → hit i = false) ∧
   wslcompat_synth_pin_fd fd s = Ret None s').
Proof.
  intros Hlen Hk s' hit. unfold wslcompat_synth_pin_fd, synth_pin_lookup.
  unfold bind, sys. rewrite Hk. fold s'. rewrite pin_lookup_run_from by (simpl; lia).
  destruct (list_find _ _) as [[k i]|] eqn:E.
  - apply list_find_Some in E as (Hi & Hm & Hmin). apply lookup_seq in Hi as [-> Hi].
    left. exists k. split; [done|]. split; [done|]. split; [|done]. intros j Hj.
    specialize (Hmin j j). rewrite lookup_seq in Hmin. unfold hit.
    apply not_true_is_false. intros ?. apply Hmin; [|done|by apply Is_true_true].
    split; [done|lia].
  - right. split; [|done]. intros i Hi. apply list_find_None in E.
    rewrite Forall_forall in E. apply not_true_is_false. intros ?.
    apply (E i); [apply elem_of_seq; lia|]. by apply Is_true_true.
Qed.
End theorems.

(** ** Sequences of operations *)

(** The entry points of synth.c, as other components call them. *)
Inductive synth_cmd :=
| sc_open (flags : Z) (ops : handler) (up : userptr)
| sc_pin_fd (fd : Z)
| sc_unpin (e : nat)
| sc_pre_close (fd : Z)
| sc_post_close (e : option nat)
| sc_relocate (targetfd : Z)
| sc_passthru (fd : Z) (k : synth_op_kind)
| sc_fstat (fd : Z).

Section sequences.
Context {W : Type} `{!Kernel W, !Handlers W} {Hfuel : Fuel}.
(** The [open] shim that [wslcompat_synth_open] calls. *)
Variable open_shim : string → Z → Z → prog (st W) (option Z).

Definition run_cmd (c : synth_cmd) : prog (st W) unit :=
  match c with
  | sc_open f o u => wslcompat_synth_open open_shim f o u ;;* ret tt
  | sc_pin_fd fd => wslcompat_synth_pin_fd fd ;;* ret tt
  | sc_unpin e => wslcompat_synth_unpin e
  | sc_pre_close fd => wslcompat_synth_pre_close fd ;;* ret tt
  | sc_post_close e => wslcompat_synth_post_close e
  | sc_relocate t => wslcompat_synth_relocate_internal t
  | sc_passthru fd k => wslcompat_synth_passthru fd k ;;* ret tt
  | sc_fstat fd => fstat_shim fd ;;* ret tt
  end.

Fixpoint run_cmds (l : list synth_cmd) : prog (st W) unit :=
  match l with [] => ret tt | c :: l' => run_cmd c ;;* run_cmds l' end.

Hypothesis open_grow : ∀ p f m, within tbgrow (open_shim p f m).
Context `{!HandlersOk W}.

Lemma within_run_cmds l : within tbgrow (run_cmds l).
Proof.
  induction l as [|c l IH]; [apply within_ret, _|]. apply within_bind; [apply _| |done].
  destruct c; cbn [run_cmd]; unfold wslcompat_synth_pre_close;
    try lazymatch goal with
        | |- within _ (bind _ _) => apply within_bind; [apply _| |intros; apply within_ret, _]
        end;
    first [by apply within_synth_open
          | apply within_reach_grow; auto using within_pin_fd, within_unpin, within_post_close,
              within_relocate_internal, within_passthru, within_fstat_shim].
Qed.

(** However the other components use the table from its initial state, no slot is left in transit,
    no reference count is negative, and [synth_live_entries] is the number of live slots. *)
Theorem synth_table_invariant l (s s' : st W) :
  s_mem s = init_mem → run_cmds l s = Ret tt s' → table_ok (s_mem s').
Proof.
  intros Hi Hr.
  refine (within_Ret (keeps (λ s, table_ok (s_mem s))) _ _ _ _ _ Hr _).
  - apply within_table_ok, within_run_cmds.
  - rewrite Hi. apply init_table_ok.
Qed.

(** The fast path of the shims: when [wslcompat_synth_active] answers no, no descriptor whatsoever
    resolves to a synthetic entry. *)
Theorem inactive_nothing_pinned l (s s' : st W) fd :
  s_mem s = init_mem → run_cmds l s = Ret tt s' →
  wslcompat_synth_active s' = Ret false s' →
  ∃ s'', wslcompat_synth_pin_fd fd s' = Ret None s'' ∧ s_mem s'' = s_mem s'.
Proof.
  intros Hi Hr Ha.
  assert (table_ok (s_mem s')) as (Hlen & Hpos & Hn); simpl in *.
  { refine (within_Ret (keeps (λ s, table_ok (s_mem s))) _ _ _ _ _ Hr _).
    - apply within_table_ok, within_run_cmds.
    - rewrite Hi. apply init_table_ok. }
  injection Ha as Ha. apply negb_false_iff, Z.eqb_eq in Ha.
  unfold wslcompat_synth_pin_fd. destruct (sys_run (k_fstat fd) s') as (o & s1 & E & Hm & _).
  rewrite (bind_Ret _ _ _ _ _ E). destruct o as [key|]; [|eauto].
  unfold synth_pin_lookup. rewrite pin_lookup_run_from by (rewrite Hm, Hlen; lia).
  destruct (list_find _ _) as [[k i]|] eqn:Ef; [|eauto]. exfalso.
  apply list_find_Some in Ef as (Hk & Hmt & _). apply lookup_seq in Hk as [-> Hk].
  apply Is_true_true, andb_true_iff in Hmt as [Hrc%Z.ltb_lt _]. rewrite Hm in Hrc.
  pose proof (list_lookup_lookup_total_lt (synth_table (s_mem s')) k) as Hl.
  rewrite Hlen in Hl. specialize (Hl Hk).
  apply live_count_pos in Hl; [lia|]. fold (entry_at (s_mem s') k). simpl in Hrc. lia.
Qed.
End sequences.

(** ** Registration *)
Lemma for_each_Some {S I A} (l : list I) (body : I → prog S (option A)) s r s' :
  for_each l body s = Ret (Some r) s' → ∃ i s1, i ∈ l ∧ body i s1 = Ret (Some r) s'.
Proof.
  revert s. induction l as [|i l IH]; intros s; simpl; [done|]. unfold bind.
  destruct (body i s) as [[x|] s1|?|] eqn:E; [|intros H|done..].
  - intros [= -> ->]. exists i, s. split; [left|done].
  - destruct (IH _ H) as (j & s2 & Hj & Hb). exists j, s2. split; [by right|done].
Qed.

Definition is_free (m : mem) (i : nat) : Prop := refcount (entry_at m i) = 0.

#[export] Instance is_free_dec m i : Decision (is_free m i).
Proof. unfold is_free. apply _. Defined.

Section register.
Context {W : Type} `{!Kernel W, !Handlers W} {Hfuel : Fuel}.
Variables (key : stat) (ops : handler) (probe : Z) (up : userptr) (flags : Z).
Let slot := register_slot (W:=W) key ops probe up flags.

Lemma register_slot_busy i (s : st W) : ¬ is_free (s_mem s) i → slot i s = Ret None s.
Proof.
  intros H%Z.eqb_neq. unfold slot, register_slot. run_simpl. by rewrite H.
Qed.

(** The first loop: the lowest free slot is taken, or there is none. *)
Lemma register_loop_run n k (s : st W) :
  (∃ i s', (k ≤ i < k + n)%nat ∧ is_free (s_mem s) i ∧
     (∀ j, (k ≤ j < i)%nat → ¬ is_free (s_mem s) j) ∧
     for_each (seq k n) slot s = Ret (Some i) s' ∧ slot i s = Ret (Some i) s') ∨
  ((∀ i, (k ≤ i < k + n)%nat → ¬ is_free (s_mem s) i) ∧
   for_each (seq k n) slot s = Ret None s).
Proof.
  revert k. induction n as [|n IH]; intros k; [right; split; [lia|done]|]. cbn [seq for_each].
  destruct (decide (is_free (s_mem s) k)) as [Hf|Hf].
  - left. destruct (register_slot_run key ops probe up flags k s Hf) as (t & c & s' & E & _).
    exists k, s'. split; [lia|]. split; [done|]. split; [lia|]. split; [|done].
    by rewrite (bind_Ret _ _ _ _ _ E).
  - rewrite (bind_Ret _ _ _ _ _ (register_slot_busy k s Hf)).
    destruct (IH (S k)) as [(i & s' & Hi & Hfi & Hmin & E)|[Hn E]].
    + left. exists i, s'. split; [lia|]. split; [done|]. split; [|done].
      intros j Hj. destruct (decide (j = k)) as [->|]; [done|]. apply Hmin. lia.
    + right. split; [|done]. intros i Hi. destruct (decide (i = k)) as [->|]; [done|].
      apply Hn. lia.
Qed.

(** A sweep that reports success has left a free slot. *)
Lemma table_gc_frees (s s' : st W) :
  synth_table_gc s = Ret true s' → ∃ i, (i < SYNTH_TABLE_SIZE)%nat ∧ is_free (s_mem s') i.
Proof.
  unfold synth_table_gc. intros H. run_inv H. destruct r as [[]|]; injection H as Hs; subst; [|done].
  apply for_each_Some in E as (i & s1 & Hi%elem_of_seq & E). exists i. split; [lia|].
  unfold table_gc_slot in E. run_inv E. destruct r as [|]; [|done].
  run_inv E. run_inv E. injection E2 as <- <-.
  destruct (_ =? 0) eqn:Erc; [|done]. injection E as <-. by apply Z.eqb_eq.
Qed.

(** Registration recurses after a sweep freed a slot, and then it takes one: it never goes round a
    third time, so a bound of two rounds gives what any larger bound gives. *)
Theorem register_two_rounds n (s : st W) :
  synth_register_n (2 + n) key ops probe up flags s = synth_register key ops probe up flags s.
Proof.
  unfold synth_register. cbn [plus synth_register_n].
  destruct (register_loop_run SYNTH_TABLE_SIZE 0 s) as [(i & s' & _ & _ & _ & E & _)|[_ E]];
    unfold slot in E; rewrite !(bind_Ret _ _ _ _ _ E); [done|].
  unfold bind at 1 4. destruct (synth_table_gc s) as [[] s1|?|] eqn:Eg; [|done..].
  destruct (table_gc_frees _ _ Eg) as (i & Hi & Hf).
  destruct (register_loop_run SYNTH_TABLE_SIZE 0 s1) as [(j & s' & _ & _ & _ & E1 & _)|[Hn _]];
    [|by destruct (Hn i); [lia|]].
  unfold slot in E1. by rewrite !(bind_Ret _ _ _ _ _ E1).
Qed.

(** C25: With a free slot in the table, registration takes the lowest one, publishes there what the
    caller gave it with one reference and the caller's identity, counts it, and changes nothing
    else but the start-time cache. When no live slot had the inode, looking it up now finds that
    slot. *)
Theorem register_publishes (s : st W) i :
  length (synth_table (s_mem s)) = SYNTH_TABLE_SIZE →
  (i < SYNTH_TABLE_SIZE)%nat → is_free (s_mem s) i → (∀ j, (j < i)%nat → ¬ is_free (s_mem s) j) →
  ∃ t c s', synth_register key ops probe up flags s = Ret (Some i) s' ∧
    s_mem s' = set_synth_live_entries (wrap_u 32 (synth_live_entries (s_mem s) + 1))
      (set_starttime_cache c
        (upd_entry i (λ e, published key ops probe up flags (kpid (s_world s)) t
                             (probe_overrides e)) (s_mem s))) ∧
    ((∀ j, (j < SYNTH_TABLE_SIZE)%nat → live_match key (entry_at (s_mem s) j) = false) →
     synth_pin_lookup key s' = Ret (Some i) (pinned i s')).
Proof.
  intros Hlen Hi Hf Hmin. unfold synth_register. cbn [synth_register_n].
  destruct (register_loop_run SYNTH_TABLE_SIZE 0 s)
    as [(j & s' & Hj & Hfj & Hminj & E & Es)|[Hn _]]; [|by destruct (Hn i); [lia|]].
  assert (j = i) as ->.
  { destruct (lt_eq_lt_dec j i) as [[Hlt|Heq]|Hgt]; [by destruct (Hmin j)|done|].
    by destruct (Hminj i); [lia|]. }
  destruct (register_slot_run key ops probe up flags i s Hf) as (t & c & s1 & E1 & _ & _ & Hm).
  unfold slot in E, Es. rewrite Es in E1. injection E1 as <-.
  exists t, c, s'. split; [by rewrite (bind_Ret _ _ _ _ _ E)|]. split; [done|]. intros Hno.
  assert (∀ k, entry_at (s_mem s') k = entry_at (upd_entry i (λ e, published key ops probe up flags
    (kpid (s_world s)) t (probe_overrides e)) (s_mem s)) k) as He by (intros k; by rewrite Hm).
  apply pin_lookup_first.
  - rewrite Hm. simpl. by rewrite length_alter.
  - done.
  - rewrite He, entry_at_upd_eq by lia. unfold live_match, same_inode; simpl.
    by rewrite !Z.eqb_refl.
  - intros k Hk. rewrite He, entry_at_upd_ne by lia. apply Hno. lia.
Qed.
End register.

(** ** Closing *)

(** Dropping one reference, on the abstract table. *)
Definition tb_drop (i : nat) (p : tb) : tb :=
  match p.1 !! i with
  | Some e =>
      if decide (refcount e = 1) then (<[i := set_refcount 0 e]> p.1, wrap_u 32 (p.2 - 1))
      else if decide (1 < refcount e) then (<[i := set_refcount (refcount e - 1) e]> p.1, p.2)
      else p
  | None => p
  end.

Section closing.
Context {W : Type} `{!Kernel W, !Handlers W, !HandlersOk W} {Hfuel : Fuel}.

Lemma unpin_drop i (s s' : st W) :
  wslcompat_synth_unpin i s = Ret tt s' → cores s' = tb_drop i (cores s).
Proof.
  unfold wslcompat_synth_unpin, tb_drop. run_simpl. intros H.
  destruct (decide (i < length (synth_table (s_mem s)))%nat) as [Hi|Hi].
  - pose proof (cores_lookup s i Hi) as Hl. rewrite Hl.
    set (rc := refcount (entry_at (s_mem s) i)) in *.
    change (refcount (core (entry_at (s_mem s) i))) with rc.
    destruct (0 <? rc) eqn:E; [apply Z.ltb_lt in E|apply Z.ltb_ge in E].
    + autorewrite with run in H. destruct (rc =? 1) eqn:E1.
      * apply Z.eqb_eq in E1. rewrite decide_True by done. apply cleanup_run in H. rewrite H.
        rewrite cores_upd by done. cbn [fst snd]. rewrite list_alter_alter_eq.
        change (set_refcount 0 ∘ set_refcount (-1)) with (set_refcount 0).
        by rewrite <-(alter_insert _ _ _ _ Hl).
      * apply Z.eqb_neq in E1. rewrite decide_False, decide_True by lia.
        destruct (rc - 1 =? -1) eqn:E2; [apply Z.eqb_eq in E2; lia|]. injection H as <-.
        rewrite cores_upd by done. by rewrite <-(alter_insert _ _ _ _ Hl).
    + injection H as <-. by rewrite !decide_False by lia.
  - rewrite entry_at_oob in H by lia. injection H as <-.
    rewrite lookup_ge_None_2; [done|]. cbn [cores fst]. rewrite length_fmap. lia.
Qed.

(** The visitor of the post-close scan, on a kernel with a descriptor table. *)
Lemma post_close_visit_search `{!KernelProcFd W} i probe (F : gmap Z stat) m fd (w : W) e :
  fds w = F →
  let hit := negb (fd =? probe) &&
    match F !! fd with Some st => same_inode st (e_stat (entry_at m i)) | None => false end in
  ∃ e', post_close_visit i probe fd false (mkst m w e) = Ret (hit, hit) (mkst m w e').
Proof.
  intros <-. unfold post_close_visit. destruct (fd =? probe); [by exists e|].
  unfold bind at 1, sys. cbn [s_world s_mem s_errno]. rewrite fstat_law. simpl.
  destruct (fds w !! fd) as [sf|]; [|eauto]. run_simpl.
  by destruct (same_inode _ _); exists e.
Qed.

(** When the exclusive lock on the probe is refused, the entry is released unless the process has
    another descriptor of the wrap's inode open: any one, the probe itself excepted. *)
Theorem should_release_iff `{!KernelProcFd W} i probe m (w : W) e er w1 d w2 :
  probe ≠ -1 →
  kstep (k_flock probe (Z.lor LOCK_EX LOCK_NB)) w = (inr er, w1) →
  kstep (k_open "/proc/self/fd" (Z.lor O_RDONLY (Z.lor O_DIRECTORY O_CLOEXEC)) 0) w1
    = (inl d, w2) →
  (length (pending w2 d) < fuel)%nat →
  ∃ rel w' e', synth_should_release i probe (mkst m w e) = Ret rel (mkst m w' e') ∧
    (rel = false ↔ ∃ fd st, fds w1 !! fd = Some st ∧ fd ≠ probe ∧
                            same_inode st (e_stat (entry_at m i)) = true).
Proof.
  intros Hp Hfl Ho Hn. apply Z.eqb_neq in Hp. unfold synth_should_release. rewrite Hp.
  rewrite bind_assoc. unfold bind at 1, sys. cbn [s_world s_mem s_errno]. rewrite Hfl. run_simpl.
  pose proof (opendir_law _ _ _ _ _ Ho) as (sd & Hd & HF & _).
  destruct (walk_search _ _ _ _ (post_close_visit_search i probe (fds w2) m)
    _ _ er _ _ eq_refl Ho eq_refl Hn) as (b & w' & e' & Ew & Hb).
  rewrite (bind_Ret _ _ _ _ _ Ew). exists (negb b), w', e'. split; [done|].
  rewrite negb_false_iff, Hb. split.
  - intros (fd & [st Hs] & Hh). assert (d ≠ fd) by congruence.
    rewrite HF, lookup_insert_ne, Hs in Hh by done.
    apply andb_true_iff in Hh as [Hne%negb_true_iff%Z.eqb_neq Hh]. eauto.
  - intros (fd & st & Hs & Hne & Hh). exists fd. assert (d ≠ fd) by congruence.
    rewrite HF, lookup_insert_ne, Hs, Hh by done. apply Z.eqb_neq in Hne. rewrite Hne. eauto.
Qed.

(** When the descriptors cannot be listed, the table being full, the scan finds nothing and the entry is
    released whatever else refers to it. *)
Lemma should_release_unlisted i probe m (w : W) e er w1 er' w2 :
  probe ≠ -1 →
  kstep (k_flock probe (Z.lor LOCK_EX LOCK_NB)) w = (inr er, w1) →
  kstep (k_open "/proc/self/fd" (Z.lor O_RDONLY (Z.lor O_DIRECTORY O_CLOEXEC)) 0) w1 = (inr er', w2) →
  synth_should_release i probe (mkst m w e) = Ret true (mkst m w2 er').
Proof.
  intros Hp Hfl Ho. apply Z.eqb_neq in Hp. unfold synth_should_release. rewrite Hp.
  rewrite bind_assoc. unfold bind at 1, sys. cbn [s_world s_mem s_errno]. rewrite Hfl. run_simpl.
  unfold wslcompat_walk_proc_self_fd. rewrite bind_assoc. unfold bind at 1, sys. cbn [s_world s_mem s_errno].
  by rewrite Ho.
Qed.

Lemma cores_refcount (s : st W) i e :
  (cores s).1 !! i = Some e → refcount (entry_at (s_mem s) i) = refcount e.
Proof.
  simpl. rewrite list_lookup_fmap. intros H. unfold entry_at. rewrite list_lookup_total_alt.
  by destruct (_ !! i); simplify_eq/=.
Qed.

Lemma drop_two_refs i (s s' : st W) (rel : bool) :
  refcount (entry_at (s_mem s) i) = 2 →
  cores s' = (if rel then tb_drop i (tb_drop i (cores s)) else tb_drop i (cores s)) →
  refcount (entry_at (s_mem s') i) = if rel then 0 else 1.
Proof.
  intros Hrc Hs'. destruct (decide (i < length (synth_table (s_mem s)))%nat) as [Hi|Hi];
    [|by rewrite entry_at_oob in Hrc by lia].
  pose proof (cores_lookup s i Hi) as Hl.
  assert (tb_drop i (cores s) =
    (<[i := set_refcount 1 (core (entry_at (s_mem s) i))]> (cores s).1, (cores s).2)) as Hd.
  { unfold tb_drop. rewrite Hl. cbn [core refcount set_pos set_probe_fd set_probe_overrides].
    by rewrite Hrc. }
  assert (i < length (cores s).1)%nat as Hi' by (by eapply lookup_lt_Some).
  rewrite Hd in Hs'. destruct rel.
  - unfold tb_drop in Hs'. cbn [fst] in Hs'. rewrite list_lookup_insert_eq in Hs' by done.
    rewrite decide_True in Hs' by done.
    erewrite cores_refcount; [|rewrite Hs'; cbn [fst]; rewrite list_lookup_insert_eq;
      [done|by rewrite length_insert]]. done.
  - erewrite cores_refcount; [|rewrite Hs'; cbn [fst]; by rewrite list_lookup_insert_eq]. done.
Qed.

End closing.

(** ** The theorems on concrete runs *)
#[local] Transparent SYNTH_TABLE_SIZE.

Module SynthDemo.
Import FdKernel.

(** Handlers without callbacks. *)
#[export] Instance handlers : Handlers world := λ _, null_ops.
#[export] Instance handlers_ok : HandlersOk world.
Proof. by split; intros. Qed.
#[export] Instance bound : Fuel := 20%nat.

Definition file (ino : Z) : stat := {| st_dev := 7; st_ino := ino; st_mode := 0 |}.

(** Process 100 with two descriptors, 4 and 5, on the same file. *)
Definition w0 (shared : bool) : world :=
  {| w_pid := 100; w_fds := {[0 := file 1; 4 := file 50; 5 := file 50]}; w_dirs := ∅; w_text := ∅;
     w_files := [("/proc/self/stat", StatKernel.stat_line 100 77)]; w_shared := shared;
     w_next := 60 |}.

Definition start : st world := mkst init_mem (w0 false) 0.
Definition raw_open (p : string) (f m : Z) : prog (st world) (option Z) := sys (k_open p f m).

Lemma raw_open_grow p f m : within (@tbgrow world) (raw_open p f m).
Proof. apply allows_sys. Qed.

Definition final (l : list synth_cmd) : st world :=
  match run_cmds raw_open l start with Ret _ s => s | _ => start end.

(** Open a synthetic file and look at it; then close it as well. *)
Definition opened : list synth_cmd :=
  [sc_open O_CLOEXEC h_mmap_min_addr up_null; sc_pin_fd 2; sc_fstat 2; sc_relocate 3].
Definition closed : list synth_cmd :=
  opened ++ [sc_unpin 0; sc_pre_close 2; sc_post_close (Some 0%nat)].

Lemma opened_run : run_cmds raw_open opened start = Ret tt (final opened).
Proof. by vm_compute. Qed.
Lemma closed_run : run_cmds raw_open closed start = Ret tt (final closed).
Proof. by vm_compute. Qed.

(** An entry on the file of descriptors 4 and 5, with its producer's reference and one pin. *)
Definition held : synth_entry :=
  {| refcount := 2; probe_fd := 5; e_stat := file 50; e_ops := h_null; pos := 0;
     e_userptr := up_null; e_flags := 0; install_pid := 100; install_starttime := 77;
     probe_overrides := replicate 4 free_override |}.
Definition m1 : mem :=
  set_synth_live_entries 1 (set_synth_table (held :: replicate 63 free_entry) init_mem).
Definition s1 : st world := mkst m1 (w0 true) 0.
End SynthDemo.
Import SynthDemo.

Lemma synth_table_invariant_witness :
  refcount (entry_at (s_mem (SynthDemo.final SynthDemo.opened)) 0) = 2 ∧
  table_ok (s_mem (SynthDemo.final SynthDemo.opened)).
Proof.
  split; [by vm_compute|].
  exact (synth_table_invariant SynthDemo.raw_open SynthDemo.raw_open_grow SynthDemo.opened
           SynthDemo.start _ eq_refl SynthDemo.opened_run).
Defined.

Lemma inactive_nothing_pinned_witness :
  ∃ s'', wslcompat_synth_pin_fd 2 (SynthDemo.final SynthDemo.closed) = Ret None s'' ∧
         s_mem s'' = s_mem (SynthDemo.final SynthDemo.closed).
Proof.
  apply (inactive_nothing_pinned SynthDemo.raw_open SynthDemo.raw_open_grow SynthDemo.closed
           SynthDemo.start _ 2 eq_refl SynthDemo.closed_run).
  by vm_compute.
Defined.

Lemma pin_fd_first_match_witness :
  ∃ i s', wslcompat_synth_pin_fd 4 SynthDemo.s1 = Ret (Some i) s'.
Proof.
  destruct (pin_fd_first_match 4 (SynthDemo.file 50) (SynthDemo.w0 true) SynthDemo.s1)
    as [(i & _ & _ & _ & E)|[Hn _]]; [by vm_compute..|by eauto|].
  exfalso. assert (0 < SYNTH_TABLE_SIZE)%nat as H0 by (unfold SYNTH_TABLE_SIZE; lia).
  specialize (Hn 0%nat H0). by vm_compute in Hn.
Defined.

Lemma register_publishes_witness :
  ∃ s', synth_register (SynthDemo.file 51) h_tty 9 (up_tty 3) 0 SynthDemo.s1
        = Ret (Some 1%nat) s'.
Proof.
  destruct (register_publishes (SynthDemo.file 51) h_tty 9 (up_tty 3) 0 SynthDemo.s1 1)
    as (t & c & s' & E & _); [by vm_compute|unfold SYNTH_TABLE_SIZE; lia|by vm_compute| |eauto].
  intros [|j] Hj; [by vm_compute|lia].
Defined.

Lemma should_release_iff_witness :
  ∃ w' e', synth_should_release 0 5 SynthDemo.s1 = Ret false (mkst SynthDemo.m1 w' e').
Proof.
  destruct (should_release_iff 0 5 SynthDemo.m1 (SynthDemo.w0 true) 0 EWOULDBLOCK
    (SynthDemo.w0 true) 1 (snd (kstep (k_open "/proc/self/fd"
       (Z.lor O_RDONLY (Z.lor O_DIRECTORY O_CLOEXEC)) 0) (SynthDemo.w0 true))))
    as (rel & w' & e' & E & Hiff); [done|by vm_compute|by vm_compute|vm_compute; lia|].
  assert (rel = false) as ->; [|eauto].
  apply Hiff. exists 4, (SynthDemo.file 50). by vm_compute.
Defined.

Definition post_closed : st FdKernel.world :=
  match wslcompat_synth_post_close (Some 0%nat) SynthDemo.s1 with Ret _ s => s | _ => SynthDemo.s1 end.

