(* ===== verification/Proc.v ===== *)
(** * proc.c: the synthetic files of /proc

    The handlers of /proc/sys/vm/mmap_min_addr and /proc/<pid>/mem. *)

From S2P Require Import Prelude CString Kernel State Tunables Override Synth SynthFrames.

Open Scope Z_scope.

(** [__builtin_add_overflow] on [off_t]: [None] on overflow. *)
Definition add_off_t (a b : Z) : option Z :=
  if (- 2 ^ 63 <=? a + b) && (a + b <? 2 ^ 63) then Some (a + b) else None.

(** ** /proc/sys/vm/mmap_min_addr *)

(** What the file holds: [snprintf (tmp, 32, "%ld\n", tunable)]. *)
Definition min_addr_text (m : mem) : string :=
  snprintf_s 32 (fmt_d (wslcompat_tunable_int (options m) "mmap_min_addr" 4096) +:+
                 String (Ascii.ascii_of_nat 10) "").

(** [memcpy] of the part of [text] that starts at [off], at most [count] bytes. *)
Definition slice (text : string) (off count : Z) : string :=
  let len := Z.of_nat (String.length text) in
  let take := if len - off <? count then len - off else count in
  strtake (Z.to_nat take) (strdrop (Z.to_nat off) text).

Section min_addr.
Context {W : Type} `{!Kernel W}.
Local Abbreviation M := (prog (st W)).

Definition get_pos (e : nat) : M Z := getm (λ m, pos (entry_at m e)).
Definition put_pos (e : nat) (p : Z) : M unit := setm (upd_entry e (set_pos p)).

Definition mmap_min_addr_read (e : nat) (count : Z) : M (option string) :=
  let* text := getm min_addr_text in
  let* p := get_pos e in
  if Z.of_nat (String.length text) <=? p then ret (Some "")
  else
    let out := slice text p count in
    put_pos e (p + Z.of_nat (String.length out)) ;;*
    ret (Some out).

Definition mmap_min_addr_lseek (e : nat) (offset whence : Z) : M (option Z) :=
  let* p := get_pos e in
  let new_pos := if (whence =? SEEK_SET) || (whence =? SEEK_END) then Some offset
                 else if whence =? SEEK_CUR then add_off_t p offset
                 else None in
  match new_pos with
  | None => fail_with EINVAL
  | Some np => if np <? 0 then fail_with EINVAL else put_pos e np ;;* ret (Some np)
  end.

Definition mmap_min_addr_pread (e : nat) (count offset : Z) : M (option string) :=
  if offset <? 0 then fail_with EINVAL
  else
    let* text := getm min_addr_text in
    if Z.of_nat (String.length text) <=? offset then ret (Some "")
    else ret (Some (slice text offset count)).

Definition mmap_min_addr_describe (e : nat) : M string :=
  ret "/proc/sys/vm/mmap_min_addr polyfill".

Definition mmap_min_addr_ops : synth_ops W :=
  {| op_read := Some mmap_min_addr_read; op_pread := Some mmap_min_addr_pread;
     op_lseek := Some mmap_min_addr_lseek; op_describe := Some mmap_min_addr_describe;
     op_write := None; op_pwrite := None; op_readv := None;
     op_writev := None; op_preadv := None; op_pwritev := None; op_mmap := None;
     op_ioctl := None; op_fcntl := None; op_fsync := None; op_fdatasync := None;
     op_ftruncate := None; op_fchmod := None; op_fchown := None; op_fallocate := None;
     op_fgetxattr := None; op_fsetxattr := None; op_flistxattr := None; op_fremovexattr := None;
     op_close := None; op_dup := None; op_release := None; op_passthru := None;
     op_relocate := None |}.
End min_addr.

(** ** /proc/<pid>/mem *)
Section pid_mem.
Context {W : Type} `{!Kernel W}.
Local Abbreviation M := (prog (st W)).

(** [(pid_t) (uintptr_t) e->userptr]. *)
Definition entry_pid (e : nat) : M Z :=
  getm (λ m, match e_userptr (entry_at m e) with up_pid p => p | _ => 0 end).

(** The remote I/O vector: [n] bytes at the address [p], cast from a signed offset. *)
Definition remote_at (p n : Z) : iovec := {| iov_base := wrap_u 64 p; iov_len := n |}.

Definition advance (e : nat) (n : Z) : M unit :=
  if 0 <? n then let* p := get_pos e in put_pos e (p + n) else ret tt.

Definition proc_pid_mem_read (e : nat) (count : Z) : M (option string) :=
  let* p := get_pos e in
  let* pid := entry_pid e in
  let* n := sys (k_process_vm_read pid count (remote_at p count)) in
  match n with
  | None => ret None
  | Some b => advance e (Z.of_nat (String.length b)) ;;* ret (Some b)
  end.

Definition proc_pid_mem_write (e : nat) (buf : string) : M (option Z) :=
  let count := Z.of_nat (String.length buf) in
  let* p := get_pos e in
  let* pid := entry_pid e in
  let* n := sys (k_process_vm_write pid buf (remote_at p count)) in
  match n with
  | None => ret None
  | Some n => advance e n ;;* ret (Some n)
  end.

Definition proc_pid_mem_pread (e : nat) (count offset : Z) : M (option string) :=
  let* pid := entry_pid e in
  sys (k_process_vm_read pid count (remote_at offset count)).

Definition proc_pid_mem_pwrite (e : nat) (buf : string) (offset : Z) : M (option Z) :=
  let* pid := entry_pid e in
  sys (k_process_vm_write pid buf (remote_at offset (Z.of_nat (String.length buf)))).

(** The total length of an I/O vector in [size_t]: [None] when the sum overflows. *)
Fixpoint iov_total (iov : list iovec) (total : Z) : option Z :=
  match iov with
  | [] => Some total
  | v :: iov' => if 2 ^ 64 <=? total + iov_len v then None else iov_total iov' (total + iov_len v)
  end.

Definition with_total {A} (iov : list iovec) (k : Z → M (option A)) : M (option A) :=
  match iov_total iov 0 with
  | None => fail_with EINVAL
  | Some total => if SSIZE_MAX <? total then fail_with EINVAL else k total
  end.

Definition proc_pid_mem_preadv (e : nat) (iov : list iovec) (offset : Z) : M (option Z) :=
  with_total iov (λ total,
    let* pid := entry_pid e in
    sys (k_process_vm_readv pid iov (remote_at offset total))).

Definition proc_pid_mem_pwritev (e : nat) (iov : list iovec) (offset : Z) : M (option Z) :=
  with_total iov (λ total,
    let* pid := entry_pid e in
    sys (k_process_vm_writev pid iov (remote_at offset total))).

Definition proc_pid_mem_readv (e : nat) (iov : list iovec) : M (option Z) :=
  let* p := get_pos e in
  let* n := proc_pid_mem_preadv e iov p in
  match n with None => ret None | Some n => advance e n ;;* ret (Some n) end.

Definition proc_pid_mem_writev (e : nat) (iov : list iovec) : M (option Z) :=
  let* p := get_pos e in
  let* n := proc_pid_mem_pwritev e iov p in
  match n with None => ret None | Some n => advance e n ;;* ret (Some n) end.

Definition proc_pid_mem_lseek (e : nat) (offset whence : Z) : M (option Z) :=
  let* p := get_pos e in
  let new_pos := if whence =? SEEK_SET then Some offset
                 else if whence =? SEEK_CUR then add_off_t p offset
                 else None in
  match new_pos with
  | None => fail_with EINVAL
  | Some np => if np <? 0 then fail_with EINVAL else put_pos e np ;;* ret (Some np)
  end.

Definition proc_pid_mem_describe (e : nat) : M string :=
  let* pid := entry_pid e in ret ("/proc/" +:+ fmt_d pid +:+ "/mem polyfill").

Definition proc_pid_mem_ops : synth_ops W :=
  {| op_read := Some proc_pid_mem_read; op_write := Some proc_pid_mem_write;
     op_pread := Some proc_pid_mem_pread; op_pwrite := Some proc_pid_mem_pwrite;
     op_readv := Some proc_pid_mem_readv; op_writev := Some proc_pid_mem_writev;
     op_preadv := Some proc_pid_mem_preadv; op_pwritev := Some proc_pid_mem_pwritev;
     op_lseek := Some proc_pid_mem_lseek; op_describe := Some proc_pid_mem_describe;
     op_mmap := None; op_ioctl := None; op_fcntl := None; op_fsync := None; op_fdatasync := None;
     op_ftruncate := None; op_fchmod := None; op_fchown := None; op_fallocate := None;
     op_fgetxattr := None; op_fsetxattr := None; op_flistxattr := None; op_fremovexattr := None;
     op_close := None; op_dup := None; op_release := None; op_passthru := None;
     op_relocate := None |}.

(** [proc_parse_pid], the part of the path after "/proc/". *)
Definition proc_parse_pid (p : string) : M Z :=
  if starts_with "self/" p then getpid
  else
    let (v, rest) := strtol p 10 in
    if negb (starts_with "/" rest) || (v <=? 0) || (INT_MAX <? v) then ret (-1) else ret v.
End pid_mem.

(** ** The synthetic file as a byte stream *)
Lemma strlen_drop n s : String.length (strdrop n s) = (String.length s - n)%nat.
Proof. revert s. induction n; intros [|c s]; simpl; auto. Qed.

Lemma strtake_split a b s : strtake (a + b) s = strtake a s +:+ strtake b (strdrop a s).
Proof.
  revert s. induction a as [|a IH]; intros [|c s]; simpl; [done..|by destruct b|].
  by rewrite IH.
Qed.

Lemma strdrop_drop a b s : strdrop b (strdrop a s) = strdrop (a + b) s.
Proof. revert s. induction a as [|a IH]; intros [|c s]; simpl; auto. by destruct b. Qed.

Lemma slice_length text off count :
  0 ≤ off ≤ Z.of_nat (String.length text) → 0 ≤ count →
  Z.of_nat (String.length (slice text off count)) =
  Z.min count (Z.of_nat (String.length text) - off).
Proof.
  intros Ho Hc. unfold slice. rewrite strtake_length, strlen_drop.
  destruct (_ <? count) eqn:E; [apply Z.ltb_lt in E|apply Z.ltb_ge in E]; lia.
Qed.

Lemma slice_split text off a b :
  0 ≤ off → 0 ≤ a → 0 ≤ b → off + a ≤ Z.of_nat (String.length text) →
  slice text off (a + b) = slice text off a +:+ slice text (off + a) b.
Proof.
  intros Ho Ha Hb Hlen. unfold slice. set (len := Z.of_nat (String.length text)) in *.
  destruct (len - off <? a) eqn:E1; [apply Z.ltb_lt in E1; lia|].
  replace (strdrop (Z.to_nat (off + a)) text) with (strdrop (Z.to_nat a) (strdrop (Z.to_nat off) text))
    by (rewrite strdrop_drop; f_equal; lia).
  rewrite <-strtake_split. f_equal.
  destruct (len - off <? a + b) eqn:E2; destruct (len - (off + a) <? b) eqn:E3;
    rewrite ?Z.ltb_lt, ?Z.ltb_ge in *; lia.
Qed.

Section stream.
Context {W : Type} `{!Kernel W}.

Lemma min_addr_upd_pos e p m : min_addr_text (upd_entry e (set_pos p) m) = min_addr_text m.
Proof. done. Qed.

(** The state after the position moved. *)
Definition seeked (e : nat) (p : Z) (s : st W) : st W :=
  mkst (upd_entry e (set_pos p) (s_mem s)) (s_world s) (s_errno s).

Lemma min_addr_read_run e count (s : st W) :
  let text := min_addr_text (s_mem s) in
  let p := pos (entry_at (s_mem s) e) in
  (e < length (synth_table (s_mem s)))%nat →
  mmap_min_addr_read e count s =
  if Z.of_nat (String.length text) <=? p then Ret (Some "") s
  else Ret (Some (slice text p count)) (seeked e (p + Z.of_nat (String.length (slice text p count))) s).
Proof. intros text p He. unfold mmap_min_addr_read, get_pos, put_pos. run_simpl. by destruct (_ <=? _). Qed.

(** A read returns what a positional read at the file position returns, never more than was asked
    for, and moves the position by what it returned. *)
Theorem min_addr_read_pread e count (s s' : st W) out :
  (e < length (synth_table (s_mem s)))%nat → 0 ≤ pos (entry_at (s_mem s) e) → 0 ≤ count →
  mmap_min_addr_read e count s = Ret (Some out) s' →
  mmap_min_addr_pread e count (pos (entry_at (s_mem s) e)) s = Ret (Some out) s ∧
  Z.of_nat (String.length out) ≤ count ∧
  pos (entry_at (s_mem s') e) = pos (entry_at (s_mem s) e) + Z.of_nat (String.length out).
Proof.
  intros He Hp Hc. rewrite min_addr_read_run by done. unfold mmap_min_addr_pread.
  destruct (_ <? 0) eqn:E0; [apply Z.ltb_lt in E0; lia|]. run_simpl.
  destruct (_ <=? pos _) eqn:E; intros [= <- <-]; [simpl; split_and!; [done|lia|lia]|].
  apply Z.leb_gt in E. split; [done|]. split.
  - rewrite slice_length by lia. lia.
  - cbn [s_mem seeked]. by rewrite entry_at_upd_eq.
Qed.

(** Reading [a] bytes and then [b] bytes gives, put together, what reading [a + b] bytes gives, and
    leaves the file at the same position. *)
Theorem min_addr_reads_concat e a b (s s1 s2 s' : st W) x y z :
  (e < length (synth_table (s_mem s)))%nat → 0 ≤ pos (entry_at (s_mem s) e) → 0 ≤ a → 0 ≤ b →
  mmap_min_addr_read e a s = Ret (Some x) s1 → mmap_min_addr_read e b s1 = Ret (Some y) s2 →
  mmap_min_addr_read e (a + b) s = Ret (Some z) s' →
  x +:+ y = z ∧ s_mem s2 = s_mem s'.
Proof.
  intros He Hp Ha Hb. rewrite (min_addr_read_run e a s), (min_addr_read_run e (a + b) s) by done.
  set (text := min_addr_text (s_mem s)). set (p := pos (entry_at (s_mem s) e)) in *.
  set (len := Z.of_nat (String.length text)) in *.
  destruct (len <=? p) eqn:E; intros [= <- <-].
  { rewrite min_addr_read_run by done. fold text p len. rewrite E.
    intros H1 H2. by simplify_eq. }
  apply Z.leb_gt in E. intros E2 [= <- <-]. revert E2.
  rewrite min_addr_read_run by (cbn [s_mem seeked]; by rewrite length_upd_entry).
  cbn [s_mem seeked]. rewrite entry_at_upd_eq, min_addr_upd_pos by done.
  fold text len. cbn [pos set_pos].
  pose proof (slice_length text p a) as La. pose proof (slice_length text p (a + b)) as Lab.
  fold len in La, Lab. rewrite La by lia. rewrite Lab by lia.
  destruct (Z.le_gt_cases a (len - p)) as [Hle|Hgt].
  - rewrite Z.min_l by done. destruct (len <=? p + a) eqn:E2.
    + apply Z.leb_le in E2. intros [= <- <-].
      rewrite slice_split by lia.
      assert (slice text (p + a) b = "") as ->.
      { assert (Z.of_nat (String.length (slice text (p + a) b)) = 0) as Hz
          by (rewrite slice_length by (fold len; lia); fold len; lia).
        by destruct (slice text (p + a) b). }
      split; [done|]. cbn [s_mem seeked]. do 2 f_equal. lia.
    + apply Z.leb_gt in E2. intros [= <- <-]. rewrite slice_split by lia. split; [done|].
      cbn [s_mem seeked]. rewrite upd_entry_compose. rewrite slice_length by (fold len; lia).
      fold len. unfold upd_entry. f_equal. apply list_alter_ext; [|done]. intros q _.
      unfold compose, set_pos. simpl. f_equal. lia.
  - rewrite Z.min_r by lia. destruct (len <=? p + (len - p)) eqn:E2; [|apply Z.leb_gt in E2; lia].
    intros [= <- <-]. rewrite Z.min_r by lia. split; [|done].
    assert (slice text p (a + b) = slice text p a) as ->.
    { unfold slice. fold len. destruct (len - p <? a + b) eqn:E3, (len - p <? a) eqn:E4;
        rewrite ?Z.ltb_lt, ?Z.ltb_ge in *; (done || lia). }
    apply append_empty.
Qed.

(** A successful seek lands where it says, at a non-negative position; a failed one leaves the
    position and reports [EINVAL]. *)
Theorem min_addr_lseek_bounds e offset whence (s s' : st W) r :
  (e < length (synth_table (s_mem s)))%nat →
  mmap_min_addr_lseek e offset whence s = Ret r s' →
  match r with
  | Some p => 0 ≤ p ∧ pos (entry_at (s_mem s') e) = p
  | None => s_mem s' = s_mem s ∧ s_errno s' = EINVAL
  end.
Proof.
  intros He. unfold mmap_min_addr_lseek, get_pos, put_pos, fail_with. run_simpl.
  destruct (if _ || _ then _ else _) as [p|]; [|by intros [= <- <-]].
  destruct (p <? 0) eqn:E; [by intros [= <- <-]|]. intros [= <- <-].
  apply Z.ltb_ge in E. split; [done|]. cbn [s_mem]. by rewrite entry_at_upd_eq.
Qed.
End stream.

(** The total of an I/O vector of non-negative lengths is computed exactly, and refused exactly when it
    does not fit in [size_t]. *)
Lemma iov_total_exact iov :
  Forall (λ v, 0 ≤ iov_len v) iov →
  let sum := foldr (λ v a, iov_len v + a) 0 iov in
  iov_total iov 0 = if sum <? 2 ^ 64 then Some sum else None.
Proof.
  intros Hf sum.
  assert (∀ l t, Forall (λ v, 0 ≤ iov_len v) l → 0 ≤ t < 2 ^ 64 →
    let n := t + foldr (λ v a, iov_len v + a) 0 l in
    0 ≤ foldr (λ v a, iov_len v + a) 0 l ∧
    iov_total l t = if n <? 2 ^ 64 then Some n else None) as H.
  { clear. induction l as [|v l IH]; intros t Hf Ht; simpl.
    - split; [lia|]. rewrite Z.add_0_r. destruct (t <? _) eqn:E; [done|apply Z.ltb_ge in E; lia].
    - apply Forall_cons in Hf as [Hv Hf]. destruct (2 ^ 64 <=? t + iov_len v) eqn:E.
      + apply Z.leb_le in E. destruct (IH 0 Hf) as [Hn _]; [lia|]. split; [lia|].
        destruct (_ <? _) eqn:E2; [apply Z.ltb_lt in E2; lia|done].
      + apply Z.leb_gt in E. destruct (IH (t + iov_len v) Hf) as [Hn ->]; [lia|].
        split; [lia|]. by rewrite Z.add_assoc. }
  destruct (H iov 0 Hf) as [_ ->]; [lia|]. by rewrite Z.add_0_l.
Qed.
