(* ===== verification/Refcount.v ===== *)
(** * Concurrent life of one slot of the synthetic table

    The compare-exchange loops of [synth_pin], [wslcompat_synth_unpin] and the claim of
    [synth_register], one atomic access per step, for any number of threads on one slot. *)

From stdpp Require Import gmap.
From S2P Require Import Prelude Kernel State Override Walk FdKernel Synth SynthFrames SynthFacts.

Open Scope Z_scope.

(** ** Threads

    [h] is the number of references the thread answers for: its pins, and the producer's
    reference when it is the thread that will drop it. *)
Inductive tpc :=
| t_idle (h : nat)
| t_pin (cur : Z) (h : nat)       (* in the loop of synth_pin, [cur] loaded *)
| t_unpin (cur : Z) (h : nat)     (* in the loop of unpin; [h] includes the reference to drop *)
| t_clean (h : nat)               (* exchanged 1 for -1: running the cleanup *)
| t_claim (h : nat).              (* exchanged 0 for -1: filling the slot *)

Record slot := { c_rc : Z; c_key : Z; c_ts : list tpc }.

Definition next_of (cur : Z) : Z := if cur =? 1 then -1 else cur - 1.

Inductive cstep : relation slot :=
| c_pin_load rc k ts i h :
    ts !! i = Some (t_idle h) →
    cstep {| c_rc := rc; c_key := k; c_ts := ts |}
          {| c_rc := rc; c_key := k; c_ts := <[i := t_pin rc h]> ts |}
| c_pin_ok rc k ts i h :
    ts !! i = Some (t_pin rc h) → 0 < rc →
    cstep {| c_rc := rc; c_key := k; c_ts := ts |}
          {| c_rc := rc + 1; c_key := k; c_ts := <[i := t_idle (S h)]> ts |}
| c_pin_retry rc k ts i cur h : (* also the spurious failure of the weak exchange *)
    ts !! i = Some (t_pin cur h) → 0 < cur →
    cstep {| c_rc := rc; c_key := k; c_ts := ts |}
          {| c_rc := rc; c_key := k; c_ts := <[i := t_pin rc h]> ts |}
| c_pin_give_up rc k ts i cur h :
    ts !! i = Some (t_pin cur h) → cur ≤ 0 →
    cstep {| c_rc := rc; c_key := k; c_ts := ts |}
          {| c_rc := rc; c_key := k; c_ts := <[i := t_idle h]> ts |}
| c_unpin_load rc k ts i h :
    ts !! i = Some (t_idle (S h)) →
    cstep {| c_rc := rc; c_key := k; c_ts := ts |}
          {| c_rc := rc; c_key := k; c_ts := <[i := t_unpin rc (S h)]> ts |}
| c_unpin_last k ts i h :
    ts !! i = Some (t_unpin 1 (S h)) →
    cstep {| c_rc := 1; c_key := k; c_ts := ts |}
          {| c_rc := next_of 1; c_key := k; c_ts := <[i := t_clean h]> ts |}
| c_unpin_more rc k ts i h :
    ts !! i = Some (t_unpin rc (S h)) → 1 < rc →
    cstep {| c_rc := rc; c_key := k; c_ts := ts |}
          {| c_rc := next_of rc; c_key := k; c_ts := <[i := t_idle h]> ts |}
| c_unpin_retry rc k ts i cur h :
    ts !! i = Some (t_unpin cur h) → 0 < cur →
    cstep {| c_rc := rc; c_key := k; c_ts := ts |}
          {| c_rc := rc; c_key := k; c_ts := <[i := t_unpin rc h]> ts |}
| c_unpin_give_up rc k ts i cur h :
    ts !! i = Some (t_unpin cur h) → cur ≤ 0 →
    cstep {| c_rc := rc; c_key := k; c_ts := ts |}
          {| c_rc := rc; c_key := k; c_ts := <[i := t_idle h]> ts |}
| c_clean_done rc k ts i h :
    ts !! i = Some (t_clean h) →
    cstep {| c_rc := rc; c_key := k; c_ts := ts |}
          {| c_rc := 0; c_key := k; c_ts := <[i := t_idle h]> ts |}
| c_claim_ok k ts i h :
    ts !! i = Some (t_idle h) →
    cstep {| c_rc := 0; c_key := k; c_ts := ts |}
          {| c_rc := -1; c_key := k; c_ts := <[i := t_claim h]> ts |}
| c_claim_write rc k k' ts i h :
    ts !! i = Some (t_claim h) →
    cstep {| c_rc := rc; c_key := k; c_ts := ts |}
          {| c_rc := rc; c_key := k'; c_ts := ts |}
| c_publish rc k ts i h :
    ts !! i = Some (t_claim h) →
    cstep {| c_rc := rc; c_key := k; c_ts := ts |}
          {| c_rc := 1; c_key := k; c_ts := <[i := t_idle (S h)]> ts |}
| c_hand_over rc k ts i j h h' : (* the producer's reference passes to the closing thread *)
    i ≠ j → ts !! i = Some (t_idle (S h)) → ts !! j = Some (t_idle h') →
    cstep {| c_rc := rc; c_key := k; c_ts := ts |}
          {| c_rc := rc; c_key := k; c_ts := <[j := t_idle (S h')]> (<[i := t_idle h]> ts) |}.

(** ** The invariant *)
Definition held (t : tpc) : nat :=
  match t with t_idle h | t_pin _ h | t_unpin _ h | t_clean h | t_claim h => h end.
Definition transit (t : tpc) : nat :=
  match t with t_clean _ | t_claim _ => 1%nat | _ => 0%nat end.

Definition refs (c : slot) : nat := sum_list_with held (c_ts c).
Definition transits (c : slot) : nat := sum_list_with transit (c_ts c).

(** Outside a transition the count is the number of references held; during one the count is -1,
    nobody holds a reference and exactly one thread is at work. *)
Definition slot_ok (c : slot) : Prop :=
  (transits c = 0%nat ∧ c_rc c = Z.of_nat (refs c)) ∨
  (transits c = 1%nat ∧ c_rc c = -1 ∧ refs c = 0%nat).

Definition slot_init (n : nat) : slot :=
  {| c_rc := 0; c_key := 0; c_ts := replicate n (t_idle 0) |}.

Lemma sum_insert {A} (f : A → nat) (l : list A) i x y :
  l !! i = Some x →
  (sum_list_with f (<[i := y]> l) + f x = sum_list_with f l + f y)%nat.
Proof.
  revert i. induction l as [|z l IH]; intros [|i] H; simplify_eq/=; [lia|].
  specialize (IH i H). lia.
Qed.

Lemma sum_elem {A} (f : A → nat) (l : list A) i x :
  l !! i = Some x → (f x ≤ sum_list_with f l)%nat.
Proof.
  revert i. induction l as [|z l IH]; intros [|i] H; simplify_eq/=; [lia|].
  specialize (IH i H). lia.
Qed.

(** The two sums after one thread moved. *)
Ltac thread_sums H :=
  match type of H with
  | ?ts !! ?i = Some ?t =>
      pose proof (sum_elem held ts i t H); pose proof (sum_elem transit ts i t H);
      repeat match goal with
      | |- context [<[i := ?t']> ts] =>
          let Hh := fresh "Hh" in let Ht := fresh "Ht" in
          pose proof (sum_insert held ts i t t' H) as Hh;
          pose proof (sum_insert transit ts i t t' H) as Ht;
          generalize dependent (<[i := t']> ts); intros
      end
  end.

Lemma cstep_ok c c' : cstep c c' → slot_ok c → slot_ok c'.
Proof.
  unfold slot_ok, refs, transits.
  destruct 1 as [? ? ? ? ? H|? ? ? ? ? H|? ? ? ? ? ? H|? ? ? ? ? ? H|? ? ? ? ? H|? ? ? ? H
    |rc ? ? ? ? H|? ? ? ? ? ? H|? ? ? ? ? ? H|? ? ? ? ? H|? ? ? ? H|? ? ? ? ? ? H|? ? ? ? ? H
    |? ? ts i j h h' Hij Hi Hj]; cbn [c_rc c_ts];
    try (thread_sums H; unfold next_of; simpl in *; try lia).
  - destruct (rc =? 1) eqn:E; [apply Z.eqb_eq in E; lia|]. lia.
  - pose proof (sum_insert held _ i _ (t_idle h) Hi). pose proof (sum_insert transit _ i _ (t_idle h) Hi).
    assert (<[i := t_idle h]> ts !! j = Some (t_idle h')) as Hj' by (by rewrite list_lookup_insert_ne).
    pose proof (sum_insert held _ j _ (t_idle (S h')) Hj').
    pose proof (sum_insert transit _ j _ (t_idle (S h')) Hj'). simpl in *. lia.
Qed.

Lemma slot_init_ok n : slot_ok (slot_init n).
Proof.
  left. unfold transits, refs. cbn [slot_init c_rc c_ts].
  assert (∀ f : tpc → nat, f (t_idle 0) = 0%nat → sum_list_with f (replicate n (t_idle 0)) = 0%nat)
    as H by (intros f Hf; induction n; simpl; lia).
  by rewrite !H.
Qed.

Lemma reach_ok n c : rtc cstep (slot_init n) c → slot_ok c.
Proof.
  pose proof (slot_init_ok n) as H0. intros H. revert H0.
  induction H as [|x y z Hs _ IH]; eauto using cstep_ok.
Qed.


(** What a pinned slot describes cannot change: no step rewrites an entry on which some thread
    holds a reference. *)
Theorem pinned_entry_stable n c c' i t :
  rtc cstep (slot_init n) c → cstep c c' → c_ts c !! i = Some t → (0 < held t)%nat →
  c_key c' = c_key c.
Proof.
  intros Hr Hs Ht Hh. pose proof (reach_ok _ _ Hr) as Hok.
  pose proof (sum_elem held _ _ _ Ht). unfold slot_ok, refs, transits in Hok.
  destruct Hs as [| | | | | | | | | | |rc k k' ts j h H1| |]; try done. simpl in *.
  pose proof (sum_elem transit _ _ _ H1). simpl in *. lia.
Qed.

(** ** The sequential code is one of the interleavings *)

(** Slot [i] of the memory [m], with thread states [ts] around it. *)
Definition slot_of (m : mem) (i : nat) (ts : list tpc) : slot :=
  {| c_rc := refcount (entry_at m i); c_key := st_ino (e_stat (entry_at m i)); c_ts := ts |}.

Section sequential.
Context {W : Type} `{!Kernel W, !Handlers W, !HandlersOk W}.

(** A thread's own updates of its state. *)
Lemma own_state (ts : list tpc) t x y :
  ts !! t = Some x → <[t := y]> ts !! t = Some y.
Proof. intros H. apply list_lookup_insert_eq. by eapply lookup_lt_Some. Qed.

Lemma pin_interleaving (s s' : st W) e b ts t h :
  ts !! t = Some (t_idle h) → (e < length (synth_table (s_mem s)))%nat →
  synth_pin e s = Ret b s' →
  rtc cstep (slot_of (s_mem s) e ts)
    (slot_of (s_mem s') e (<[t := t_idle (if b then S h else h)]> ts)).
Proof.
  intros Ht Hlen. unfold synth_pin. run_simpl.
  set (p := t_pin (refcount (entry_at (s_mem s) e)) h).
  destruct (0 <? _) eqn:E; [apply Z.ltb_lt in E|apply Z.ltb_ge in E]; intros [= <- <-];
    unfold slot_of; (eapply rtc_l; [by apply c_pin_load|]); apply rtc_once; fold p.
  - cbn [s_mem]. rewrite entry_at_upd_eq by done. cbn [refcount set_refcount e_stat].
    rewrite <-(list_insert_insert_eq ts t (t_idle (S h)) p).
    apply c_pin_ok; [by eapply own_state|done].
  - rewrite <-(list_insert_insert_eq ts t (t_idle h) p).
    eapply c_pin_give_up; [by eapply own_state|done].
Qed.

Lemma slot_of_cores (s : st W) e ts x :
  (cores s).1 !! e = Some x →
  slot_of (s_mem s) e ts = {| c_rc := refcount x; c_key := st_ino (e_stat x); c_ts := ts |}.
Proof.
  simpl. rewrite list_lookup_fmap. intros H. unfold slot_of, entry_at.
  rewrite list_lookup_total_alt. by destruct (_ !! e); simplify_eq/=.
Qed.

Lemma unpin_interleaving (s s' : st W) e ts t h :
  ts !! t = Some (t_idle (S h)) → 0 < refcount (entry_at (s_mem s) e) →
  wslcompat_synth_unpin e s = Ret tt s' →
  rtc cstep (slot_of (s_mem s) e ts) (slot_of (s_mem s') e (<[t := t_idle h]> ts)).
Proof.
  intros Ht Hrc E%unpin_drop.
  destruct (decide (e < length (synth_table (s_mem s)))%nat) as [Hi|Hi];
    [|by rewrite entry_at_oob in Hrc by lia].
  pose proof (cores_lookup s e Hi) as Hl. unfold tb_drop in E. rewrite Hl in E.
  assert (e < length (cores s).1)%nat as Hlt by (by eapply lookup_lt_Some).
  rewrite (slot_of_cores _ _ _ _ Hl). set (x := core (entry_at (s_mem s) e)) in *.
  eapply rtc_l; [by apply c_unpin_load|].
  destruct (decide (refcount x = 1)) as [H1|H1]; [|rewrite decide_True in E by (simpl in *; lia)];
    (erewrite (slot_of_cores s'); [|rewrite E; cbn [fst]; by apply list_lookup_insert_eq]);
    cbn [refcount set_refcount e_stat].
  - rewrite H1. eapply rtc_l; [apply c_unpin_last; by eapply own_state|]. apply rtc_once.
    rewrite list_insert_insert_eq, <-(list_insert_insert_eq ts t (t_idle h) (t_clean h)).
    by eapply c_clean_done, own_state.
  - rewrite <-(list_insert_insert_eq ts t (t_idle h) (t_unpin (refcount x) (S h))).
    apply rtc_once.
    replace (refcount x - 1) with (next_of (refcount x))
      by (unfold next_of; destruct (refcount x =? 1) eqn:E1; [by apply Z.eqb_eq in E1|done]).
    apply c_unpin_more; [by eapply own_state|simpl in *; lia].
Qed.

(** Running [synth_pin] and then, if it succeeded, [wslcompat_synth_unpin] without interruption is
    one of the interleavings of the atomic steps, and gives the slot back as it was. *)
Theorem pin_unpin_interleaving (s s1 s' : st W) e ts t h :
  ts !! t = Some (t_idle h) → (e < length (synth_table (s_mem s)))%nat →
  synth_pin e s = Ret true s1 → wslcompat_synth_unpin e s1 = Ret tt s' →
  rtc cstep (slot_of (s_mem s) e ts) (slot_of (s_mem s1) e (<[t := t_idle (S h)]> ts)) ∧
  rtc cstep (slot_of (s_mem s1) e (<[t := t_idle (S h)]> ts)) (slot_of (s_mem s') e ts) ∧
  cores s' = cores s.
Proof.
  intros Ht Hlen Hp Hu. pose proof (pin_interleaving _ _ _ _ _ _ _ Ht Hlen Hp) as H1.
  split; [exact H1|]. unfold synth_pin in Hp. autorewrite with run in Hp.
  destruct (0 <? _) eqn:E; [apply Z.ltb_lt in E|done]. injection Hp as Hp.
  assert (refcount (entry_at (s_mem s1) e) = refcount (entry_at (s_mem s) e) + 1) as Hrc.
  { rewrite <-Hp. cbn [s_mem]. by rewrite entry_at_upd_eq. }
  split.
  - pose proof (unpin_interleaving s1 s' e (<[t := t_idle (S h)]> ts) t h) as H2.
    rewrite list_insert_insert_eq, (list_insert_id _ _ _ Ht) in H2.
    apply H2; [by eapply own_state|lia|done].
  - apply unpin_drop in Hu. rewrite Hu. pose proof (cores_lookup s e Hlen) as Hl.
    rewrite <-Hp, cores_upd by done. rewrite (alter_insert _ _ _ _ Hl). unfold tb_drop. cbn [fst snd].
    rewrite list_lookup_insert_eq by (by eapply lookup_lt_Some).
    cbn [refcount set_refcount core set_pos set_probe_fd set_probe_overrides].
    rewrite decide_False, decide_True by lia. rewrite list_insert_insert_eq.
    rewrite list_insert_id; [done|]. rewrite Hl. f_equal.
    replace (refcount (entry_at (s_mem s) e) + 1 - 1) with (refcount (entry_at (s_mem s) e)) by lia.
    by destruct (entry_at (s_mem s) e).
Qed.
End sequential.

(** ** Two closers at once

    The invariant rests on each thread dropping references it answers for. The producer's
    reference has no owner: [wslcompat_synth_post_close] drops it whenever the scan says so. *)
Section two_closers.
Context {W : Type} `{!Kernel W, !Handlers W} {Hfuel : Fuel}.

(** Two threads close the two descriptors of one entry. The second is interrupted between the two
    drops at the end of its [wslcompat_synth_post_close], and a third thread registers another
    file. The answer: the second thread's decision, the slot given to the third thread, and that
    slot's reference count in the end. *)
Definition two_closers (fd1 fd2 : Z) (e : nat) (key : stat) (ops : handler) (up : userptr) :
    prog (st W) (bool * option nat * Z) :=
  let* e1 := wslcompat_synth_pre_close fd1 in
  let* e2 := wslcompat_synth_pre_close fd2 in
  sys (k_close fd1) ;;*
  sys (k_close fd2) ;;*
  wslcompat_synth_post_close e1 ;;*
  (* thread 2, in post_close *)
  let* probe := synth_probe_fd_load e in
  let* rel := synth_should_release e probe in
  (if (rel : bool) then wslcompat_synth_unpin e else ret tt) ;;*
  (* thread 3 *)
  let* mine := synth_register key ops (-1) up 0 in
  (* thread 2 again *)
  wslcompat_synth_unpin e ;;*
  let* rc := getm (λ m, refcount (entry_at m e)) in
  ret (rel, mine, rc).
End two_closers.

Module RefcountDemo.
Import FdKernel SynthDemo.

(** Thread 0 registers the slot, thread 1 pins it. *)
Definition shared_slot : slot := {| c_rc := 2; c_key := 9; c_ts := [t_idle 1; t_idle 1] |}.

Lemma shared_slot_reach : rtc cstep (slot_init 2) shared_slot.
Proof.
  eapply rtc_l; [by apply (c_claim_ok _ _ 0 0)|]. simpl.
  eapply rtc_l; [by apply (c_claim_write _ _ 9 _ 0 0)|].
  eapply rtc_l; [by apply (c_publish _ _ _ 0 0)|]. simpl.
  eapply rtc_l; [by apply (c_pin_load _ _ _ 1 0)|]. simpl.
  eapply rtc_l; [by apply (c_pin_ok _ _ _ 1 0)|]. apply rtc_refl.
Qed.

(** Descriptors 4, 5 and the probe 6 on one file, one entry with its producer's reference. *)
Definition world2 : world :=
  {| w_pid := 100; w_fds := {[4 := file 50; 5 := file 50; 6 := file 50]}; w_dirs := ∅;
     w_text := ∅; w_files := [("/proc/self/stat", StatKernel.stat_line 100 77)];
     w_shared := false; w_next := 60 |}.
Definition entry2 : synth_entry := set_refcount 1 (set_probe_fd 6 SynthDemo.held).
Definition s2 : st world :=
  mkst (set_synth_live_entries 1 (set_synth_table (entry2 :: replicate 63 free_entry) init_mem))
    world2 0.
End RefcountDemo.
Import SynthDemo.



Lemma pinned_entry_stable_witness :
  c_key {| c_rc := 2; c_key := 9; c_ts := [t_pin 2 1; t_idle 1] |} = 9.
Proof.
  exact (pinned_entry_stable 2 _ _ 1 (t_idle 1) RefcountDemo.shared_slot_reach
    (c_pin_load 2 9 [t_idle 1; t_idle 1] 0 1 eq_refl) eq_refl Nat.lt_0_1).
Defined.

Lemma pin_unpin_interleaving_witness :
  rtc cstep (slot_of (s_mem RefcountDemo.s2) 0 [t_idle 1; t_idle 0])
    (slot_of (s_mem SynthDemo.s1) 0 [t_idle 1; t_idle 1]).
Proof.
  refine (proj1 (pin_unpin_interleaving RefcountDemo.s2
    (pinned 0 RefcountDemo.s2)
    (match wslcompat_synth_unpin 0 (pinned 0 RefcountDemo.s2) with Ret _ s => s | _ => RefcountDemo.s2 end)
    0 [t_idle 1; t_idle 0] 1 0 eq_refl _ _ _)); [vm_compute; lia|by vm_compute..].
Defined.
