(* ===== verification/Close.v ===== *)
(** * close.c: close, dup2, dup3 and close_range *)

From stdpp Require Import gmap.
From S2P Require Import Prelude Kernel State Tunables Override Walk FdKernel Internal Synth SynthFrames SynthFacts.

Open Scope Z_scope.

Section close.
Context {W : Type} `{!Kernel W, !Handlers W} {Hfuel : Fuel}.
Local Abbreviation M := (prog (st W)).

Definition relocate_internal (targetfd : Z) : M unit :=
  wslcompat_synth_relocate_internal targetfd ;;*
  wslcompat_relocate_internal_fd targetfd.

(** [if (e && e->ops->f) e->ops->f (e)]. *)
Definition notify (f : synth_ops W → option (nat → M unit)) (e : option nat) : M unit :=
  match e with
  | None => ret tt
  | Some i => let* o := entry_ops i in
              match f o with Some g => g i | None => ret tt end
  end.

Definition close (fd : Z) : M (option unit) :=
  let* off := wslcompat_passthru "close" in
  if (off : bool) then sys (k_close fd)
  else
    let* e := wslcompat_synth_pre_close fd in
    notify op_close e ;;*
    relocate_internal fd ;;*
    let* r := sys (k_close fd) in
    preserve_errno (wslcompat_synth_post_close e) ;;*
    ret r.

Definition dup_common (oldfd newfd flags : Z) (allow_self : bool) : M (option Z) :=
  if allow_self && (oldfd =? newfd) then sys (k_dup2 oldfd newfd)
  else
    relocate_internal newfd ;;*
    let* e := wslcompat_synth_pre_close newfd in
    notify op_dup e ;;*
    let* r := sys (k_dup3 oldfd newfd flags) in
    preserve_errno (wslcompat_synth_post_close e) ;;*
    ret r.

Definition dup2 (oldfd newfd : Z) : M (option Z) :=
  let* off := wslcompat_passthru "dup2" in
  if (off : bool) then sys (k_dup2 oldfd newfd) else dup_common oldfd newfd 0 true.

Definition dup3 (oldfd newfd flags : Z) : M (option Z) :=
  let* off := wslcompat_passthru "dup3" in
  if (off : bool) then sys (k_dup3 oldfd newfd flags) else dup_common oldfd newfd flags false.

Definition close_range_visit (first last : Z) (fd : Z) (u : unit) : M (bool * unit) :=
  (if (first <=? wrap_u 32 fd) && (wrap_u 32 fd <=? last) then close fd ;;* ret tt else ret tt) ;;*
  ret (false, u).

(** [first] and [last] are unsigned 32-bit, [flags] an int. *)
Definition close_range (first last flags : Z) : M (option unit) :=
  let* off := wslcompat_passthru "close_range" in
  if (off : bool) then sys (k_close_range first last flags)
  else if (last <? first) || negb (flags =? 0) then fail_with EINVAL
  else wslcompat_walk_proc_self_fd (close_range_visit first last) tt ;;* ret (Some tt).
End close.

(** ** Frames *)
Section frames.
Context {W : Type} `{!Kernel W, !Handlers W, !HandlersOk W} {Hfuel : Fuel}.

Lemma within_preserve_errno {A} (R : relation (st W)) `{!PreOrder R} (m : prog (st W) A) :
  (∀ e, within R (set_errno e)) → within R m → within R (preserve_errno m).
Proof. intros He Hm. unfold preserve_errno. within_auto; auto. Qed.

Lemma within_set_errno_reach e : within (@tbreach W) (set_errno e).
Proof. apply within_set_errno. intros. apply rtc_refl. Qed.

Lemma within_relocate_registry t : within (@tbreach W) (wslcompat_relocate_internal_fd t).
Proof.
  unfold wslcompat_relocate_internal_fd, relocate_one.
  assert (∀ s x, within (@tbreach W) (setm (set_slot s x))).
  { intros s x. apply within_setm. intros. destruct s; apply rtc_refl. }
  within_auto.
Qed.

Lemma within_relocate_all t : within (@tbreach W) (relocate_internal t).
Proof.
  apply within_bind; [apply _|apply within_relocate_internal|].
  intros _. apply within_relocate_registry.
Qed.

Lemma within_notify (f : synth_ops W → option (nat → prog (st W) unit)) e :
  (∀ h g i, f (ops_of h) = Some g → within (same cores) (g i)) → within (@tbreach W) (notify f e).
Proof.
  intros Hf. destruct e as [i|]; [|apply within_ret, _]. apply within_callback. eauto.
Qed.

Lemma within_close fd : within (@tbreach W) (close fd).
Proof.
  unfold close, wslcompat_passthru, wslcompat_synth_pre_close.
  within_auto; eauto using within_pin_fd, within_relocate_all, within_notify, close_frame.
  apply within_preserve_errno; [apply _|apply within_set_errno_reach|apply within_post_close].
Qed.

Lemma within_dup_common a b c d : within (@tbreach W) (dup_common a b c d).
Proof.
  unfold dup_common, wslcompat_synth_pre_close.
  within_auto; eauto using within_pin_fd, within_relocate_all, within_notify, dup_frame.
  apply within_preserve_errno; [apply _|apply within_set_errno_reach|apply within_post_close].
Qed.

Lemma within_dup2 a b : within (@tbreach W) (dup2 a b).
Proof. unfold dup2, wslcompat_passthru. within_auto. apply within_dup_common. Qed.

Lemma within_dup3 a b c : within (@tbreach W) (dup3 a b c).
Proof. unfold dup3, wslcompat_passthru. within_auto. apply within_dup_common. Qed.

Lemma within_close_range a b c : within (@tbreach W) (close_range a b c).
Proof.
  unfold close_range, wslcompat_passthru, fail_with.
  within_auto; eauto using within_set_errno_reach.
  apply within_walk; [apply _|apply allows_book|].
  intros. unfold close_range_visit. within_auto. apply within_close.
Qed.
End frames.

(** ** What the callers get *)
Section outcome.
Context {W : Type} `{!Kernel W, !KernelDup W, !Handlers W} {Hfuel : Fuel}.

Lemma preserve_errno_run {A} (m : prog (st W) A) s a s' :
  preserve_errno m s = Ret a s' → s_errno s' = s_errno s.
Proof.
  unfold preserve_errno. autorewrite with run. intros H. run_inv H. by injection H as _ <-.
Qed.


(** [dup2] and [dup3] answer what the kernel answered to one dup3 call, with its [errno]; [dup2] of
    a descriptor onto itself is left to the kernel's [dup2] and closes nothing. *)
Theorem dup_reports_kernel oldfd newfd (s s' : st W) r :
  wslcompat_enabled (s_mem s) "dup2" = true → dup2 oldfd newfd s = Ret r s' →
  if decide (oldfd = newfd) then sys (k_dup2 oldfd newfd) s = Ret r s'
  else ∃ s1 s2, sys (k_dup3 oldfd newfd 0) s1 = Ret r s2 ∧ s_errno s' = s_errno s2.
Proof.
  intros Hen H. unfold dup2, wslcompat_passthru in H. rewrite bind_getm, Hen in H. simpl in H.
  unfold dup_common in H. case_decide as Heq.
  - apply Z.eqb_eq in Heq. by rewrite Heq in H.
  - apply Z.eqb_neq in Heq. rewrite Heq in H. simpl in H.
    run_inv H. run_inv H. run_inv H. run_inv H. run_inv H. injection H as <- <-.
    exists s2, s3. split; [done|]. by apply preserve_errno_run in E3.
Qed.

(** [close_range] with its bounds reversed or any flag set fails with [EINVAL] and touches
    nothing. *)
Lemma close_range_invalid first last flags (s : st W) :
  wslcompat_enabled (s_mem s) "close_range" = true → last < first ∨ flags ≠ 0 →
  close_range first last flags s = Ret None (mkst (s_mem s) (s_world s) EINVAL).
Proof.
  intros Hen Hbad. unfold close_range, wslcompat_passthru. rewrite bind_getm, Hen. simpl.
  assert ((last <? first) || negb (flags =? 0) = true) as ->; [|done].
  apply orb_true_iff. destruct Hbad as [H|H]; [left; by apply Z.ltb_lt|right].
  by apply negb_true_iff, Z.eqb_neq.
Qed.
End outcome.

(** ** Concrete runs *)
#[export] Instance fdkernel_dup : KernelDup FdKernel.world.
Proof.
  intros fd mn w n w'. cbn [kstep FdKernel.kernel FdKernel.step].
  destruct (FdKernel.open_fds w !! fd) as [s|] eqn:Ef; [|done]. simpl.
  destruct (FdKernel.lowest_free w) as [d|] eqn:El; [|done]. intros [= <- _].
  apply FdKernel.lowest_free_range in El as [_ El]. congruence.
Qed.

Module CloseDemo.
Import SynthDemo.
(** The library's debug descriptor is 4, and the application closes 4. *)
Definition m : mem :=
  set_registry_count 1 (set_registry (Some s_debugfd :: replicate 15 None)
    (set_debugfd 4 SynthDemo.m1)).
Definition s : st FdKernel.world := mkst m (SynthDemo.w0 true) 0.
Definition after : st FdKernel.world := match close 4 s with Ret _ s' => s' | _ => s end.
End CloseDemo.
Import SynthDemo.


Lemma dup_reports_kernel_witness :
  ∃ s1 s2 : st FdKernel.world, sys (k_dup3 0 4 0) s1 = Ret (Some 4) s2.
Proof.
  destruct (dup_reports_kernel 0 4 CloseDemo.s
    (match dup2 0 4 CloseDemo.s with Ret _ s' => s' | _ => CloseDemo.s end) (Some 4))
    as (s1 & s2 & E & _); [by vm_compute..|eauto].
Defined.
