(* ===== verification/Tty.v ===== *)
(** * tty.c: cooked terminals

    The handler that takes over a terminal descriptor once its termios settings have been changed,
    and implements the VMIN and VTIME behaviour of non-canonical reads. *)

From S2P Require Import Prelude CString Kernel State Tunables Override Walk Synth SynthFrames SynthFacts Close.

Open Scope Z_scope.

Definition POLLIN : Z := 1.
Definition ICANON : Z := 2.
Definition TCGETS : Z := 21505.
Definition TCSETS : Z := 21506.
Definition TCSETSW : Z := 21507.
Definition TCSETSF : Z := 21508.
Definition TCSETS2 : Z := 1076646955.
Definition TCSETSW2 : Z := 1076646956.
Definition TCSETSF2 : Z := 1076646957.

(** The case labels that set terminal attributes. *)
Definition is_tcsets (op : Z) : bool :=
  (op =? TCSETS) || (op =? TCSETSW) || (op =? TCSETSF) ||
  (op =? TCSETS2) || (op =? TCSETSW2) || (op =? TCSETSF2).

Section tty.
Context {W : Type} `{!Kernel W}.
Local Abbreviation M := (prog (st W)).

(** [struct tty_state *s = e->userptr]. *)
Definition tty_slot (m : mem) (e : nat) : nat :=
  match e_userptr (entry_at m e) with up_tty t => t | _ => O end.

Definition tty_of (e : nat) : M nat := getm (λ m, tty_slot m e).

Definition tty_real_fd_load (t e : nat) : M Z := wslcompat_view_fd_load (v_real e t).

(** Claim the first free slot. *)
Definition tty_alloc_slot (i : nat) : M (option nat) :=
  let* c := getm (λ m, claimed (tty_at m i)) in
  if c =? 0 then setm (upd_tty i (set_claimed 1)) ;;* ret (Some i) else ret None.

Definition tty_alloc : M (option nat) := for_each (seq 0 TTY_TABLE_SIZE) tty_alloc_slot.

(** [poll (&pfd, 1, timeout)] on one descriptor for input: the return value, -1 on error. *)
Definition poll_in (fd timeout : Z) : M Z :=
  let* r := sys (k_poll [{| pfd := fd; pevents := POLLIN; prevents := 0 |}] timeout) in
  match r with Some (n, _) => ret n | None => ret (-1) end.

Definition tty_read_raw_wait (fd vmin vtime : Z) : M Z :=
  poll_in fd (if 0 <? vmin then -1 else vtime * 100).

(** The loop that collects VMIN bytes; [acc] is what the buffer holds so far. Every round reads at
    least one byte, so [vmin] rounds are enough. *)
Fixpoint tty_collect (n : nat) (fd vmin count timeout : Z) (acc : string) : M (option string) :=
  match n with
  | O => nofuel
  | S n' =>
      if negb ((zlen acc <? vmin) && (zlen acc <? count)) then ret (Some acc)
      else
        let* p := poll_in fd timeout in
        if p <=? 0 then ret (Some acc)
        else
          let* b := sys (k_read fd (count - zlen acc)) in
          match b with
          | None => ret (Some acc)
          | Some b => if decide (b = "") then ret (Some acc)
                      else tty_collect n' fd vmin count timeout (acc +:+ b)
          end
  end.

Definition tty_read (e : nat) (count : Z) : M (option string) :=
  let* t := tty_of e in
  let* fd := tty_real_fd_load t e in
  let* off := wslcompat_passthru "ioctl" in
  if (off : bool) then sys (k_read fd count)
  else
    let* s := getm (λ m, tty_at m t) in
    if negb (canon s =? 0) || negb (nonblock s =? 0) then sys (k_read fd count)
    else if count =? 0 then ret (Some "")
    else
      let* res := tty_read_raw_wait fd (vmin s) (vtime s) in
      if res <? 0 then ret None
      else if res =? 0 then ret (Some "")
      else
        let* n := sys (k_read fd count) in
        match n with
        | None => ret None
        | Some b =>
            if bool_decide (b = "") || (vmin s =? 0) || (vmin s <=? zlen b) || (count <=? zlen b)
            then ret (Some b)
            else tty_collect (S (Z.to_nat (vmin s))) fd (vmin s) count
                   (if negb (vtime s =? 0) then vtime s * 100 else -1) b
        end.

(** The caches kept from a termios structure. *)
Definition cache_termios (t : nat) (ti : termios) : M unit :=
  setm (upd_tty t (set_canon (if has_bits (c_lflag ti) ICANON then 1 else 0))) ;;*
  setm (upd_tty t (set_vmin (c_vmin ti))) ;;*
  setm (upd_tty t (set_vtime (c_vtime ti))).

Definition tty_ioctl (e : nat) (op : Z) (arg : ioctl_arg) : M (option (Z * ioctl_arg)) :=
  let* t := tty_of e in
  let* fd := tty_real_fd_load t e in
  let* r := sys (k_ioctl fd op arg) in
  match r with
  | Some (0, _) =>
      match arg with
      | io_termios ti => if is_tcsets op then cache_termios t ti else ret tt
      | _ => ret tt
      end
  | _ => ret tt
  end ;;*
  ret r.

Definition tty_release (e : nat) : M unit :=
  let* t := tty_of e in
  let* fd := getm (λ m, real_fd (tty_at m t)) in
  sys (k_close fd) ;;*
  setm (upd_tty t (set_real_fd (-1))) ;;*
  setm (upd_tty t (λ s, set_real_overrides (wslcompat_override_init (real_overrides s)) s)) ;;*
  setm (upd_tty t (set_claimed 0)).

Definition tty_fcntl (e : nat) (cmd : Z) (arg : fcntl_arg) : M (option Z) :=
  let* t := tty_of e in
  let* fd := tty_real_fd_load t e in
  let* r := sys (k_fcntl fd cmd arg) in
  match r with
  | None => ret None
  | Some v =>
      (if cmd =? F_SETFL then
         match arg with
         | arg_int a => setm (upd_tty t (set_nonblock (if has_bits a O_NONBLOCK then 1 else 0)))
         | arg_flock _ => ret tt
         end
       else ret tt) ;;*
      ret (Some v)
  end.

Definition tty_passthru (e : nat) (kind : synth_op_kind) : M Z :=
  let* t := tty_of e in tty_real_fd_load t e.

Definition tty_relocate (e : nat) (targetfd : Z) : M Z :=
  let* t := tty_of e in
  let* new_fd := wslcompat_view_fd_relocate (v_real e t) targetfd in
  ret (if 0 <? new_fd then 1 else 0).

Definition tty_describe (e : nat) : M string :=
  let* t := tty_of e in
  let* real := tty_real_fd_load t e in
  if real <? 0 then ret ("tty wrap (real_fd=" +:+ fmt_d real +:+ ")")
  else
    let* name := sys (k_ttyname_r real 64) in
    match name with
    | None => ret ("tty wrap (real_fd=" +:+ fmt_d real +:+ ")")
    | Some name => ret ("tty wrap for " +:+ name)
    end.

Definition tty_ops : synth_ops W :=
  {| op_read := Some tty_read; op_ioctl := Some tty_ioctl; op_fcntl := Some tty_fcntl;
     op_release := Some tty_release; op_passthru := Some tty_passthru;
     op_relocate := Some tty_relocate; op_describe := Some tty_describe;
     op_write := None; op_pread := None; op_pwrite := None; op_readv := None;
     op_writev := None; op_preadv := None; op_pwritev := None; op_lseek := None; op_mmap := None;
     op_fsync := None; op_fdatasync := None;
     op_ftruncate := None; op_fchmod := None; op_fchown := None; op_fallocate := None;
     op_fgetxattr := None; op_fsetxattr := None; op_flistxattr := None; op_fremovexattr := None;
     op_close := None; op_dup := None |}.
End tty.

(** ** Wrapping a terminal *)
Section install.
Context {W : Type} `{!Kernel W, !Handlers W} {Hfuel : Fuel}.
Local Abbreviation M := (prog (st W)).
Variable open_shim : string → Z → Z → M (option Z).

(** The [fail] label: [synth] and [real] are -1 until they are opened. *)
Definition tty_install_fail (t : nat) (real synth : Z) : M Z :=
  (if 0 <=? synth then close synth ;;* ret tt
   else
     (if 0 <=? real then sys (k_close real) ;;* ret tt else ret tt) ;;*
     setm (upd_tty t (set_claimed 0))) ;;*
  ret (-1).

Definition wslcompat_tty_install (fd : Z) (initial : termios) : M Z :=
  let* t := tty_alloc in
  match t with
  | None => ret (-1)
  | Some t =>
      let* real := sys (k_fcntl fd F_DUPFD_CLOEXEC (arg_int 3)) in
      match real with
      | None => tty_install_fail t (-1) (-1)
      | Some real =>
          let* flags := sys (k_fcntl fd F_GETFL (arg_int 0)) in
          match flags with
          | None => tty_install_fail t real (-1)
          | Some flags =>
              let* fdflags := sys (k_fcntl fd F_GETFD (arg_int 0)) in
              match fdflags with
              | None => tty_install_fail t real (-1)
              | Some fdflags =>
                  setm (upd_tty t (set_real_fd real)) ;;*
                  setm (upd_tty t (λ s, set_real_overrides
                                          (wslcompat_override_init (real_overrides s)) s)) ;;*
                  cache_termios t initial ;;*
                  setm (upd_tty t (set_nonblock (if has_bits flags O_NONBLOCK then 1 else 0))) ;;*
                  let* synth := wslcompat_synth_open open_shim O_CLOEXEC h_tty (up_tty t) in
                  match synth with
                  | None => tty_install_fail t real (-1)
                  | Some synth =>
                      let* d := dup3 synth fd (if has_bits fdflags FD_CLOEXEC then O_CLOEXEC else 0) in
                      match d with
                      | None => tty_install_fail t real synth
                      | Some _ => close synth ;;* ret 0
                      end
                  end
              end
          end
      end
  end.
End install.
