(* ===== verification/Dispatch.v ===== *)
(** * Dispatch of an operation to a synthetic descriptor: the macros of synth.h and the shims of
    read.c

    A synthetic descriptor is an O_PATH descriptor, on which the kernel fails every I/O call with a
    known errno, the canary. The shim makes the call, and only when it failed that way looks the
    descriptor up. *)

From stdpp Require Import gmap.
From S2P Require Import Prelude Kernel State Tunables Override Walk FdKernel Synth SynthFrames SynthFacts.

Open Scope Z_scope.

Section dispatch.
Context {W : Type} `{!Kernel W, !Handlers W}.
Local Abbreviation M := (prog (st W)).

(** [SYNTH_DISPATCH (call, fd, ...)]: [Some r] when the macro returns [r] from the shim, [None]
    when it falls through. [op] selects the handler with its arguments, [next] is the next symbol
    with all arguments but the descriptor. *)
Definition SYNTH_DISPATCH {A} (op : synth_ops W → option (nat → M A)) (next : Z → M A) (fd : Z) :
    M (option A) :=
  let* saved := get_errno in
  autopin fd (λ e,
    match e with
    | None => set_errno saved ;;* ret None
    | Some i =>
        let* o := entry_ops i in
        match op o with
        | Some f => let* r := f i in ret (Some r)
        | None =>
            let* real := match op_passthru o with
                         | Some f => f i SYNTH_OP_IO
                         | None => ret (-1)
                         end in
            if 0 <=? real then let* r := next real in ret (Some r)
            else set_errno saved ;;* ret None
        end
    end).

Definition SYNTH_DISPATCH_EXCL {X} (op : synth_ops W → option (nat → M (option X)))
    (next : Z → M (option X)) (fd : Z) : M (option (option X)) :=
  let* d := SYNTH_DISPATCH op next fd in
  match d with
  | Some r => ret (Some r)
  | None =>
      autopin fd (λ e,
        match e with
        | Some _ => set_errno EOPNOTSUPP ;;* ret (Some None)
        | None => ret None
        end)
  end.

(** [SYNTH_SHIM_E (call, canary, fd, ...)]. *)
Definition SYNTH_SHIM_E {X} (call : string) (canary : Z)
    (op : synth_ops W → option (nat → M (option X))) (next : Z → M (option X)) (fd : Z) :
    M (option X) :=
  let* r := next fd in
  match r with
  | Some _ => ret r
  | None =>
      let* e := get_errno in
      if negb (e =? canary) then ret r
      else
        let* off := wslcompat_passthru call in
        if (off : bool) then ret r
        else
          let* d := SYNTH_DISPATCH op next fd in
          match d with Some r' => ret r' | None => ret r end
  end.

(** ** read.c *)
Definition read (fd : Z) (count : Z) : M (option string) :=
  SYNTH_SHIM_E "read" EBADF (λ o, (λ f i, f i count) <$> op_read o)
    (λ fd, sys (k_read fd count)) fd.

Definition write (fd : Z) (buf : string) : M (option Z) :=
  SYNTH_SHIM_E "write" EBADF (λ o, (λ f i, f i buf) <$> op_write o)
    (λ fd, sys (k_write fd buf)) fd.

Definition lseek (fd : Z) (offset whence : Z) : M (option Z) :=
  SYNTH_SHIM_E "lseek" EBADF (λ o, (λ f i, f i offset whence) <$> op_lseek o)
    (λ fd, sys (k_lseek fd offset whence)) fd.

Definition pread (fd : Z) (count offset : Z) : M (option string) :=
  SYNTH_SHIM_E "pread" EBADF (λ o, (λ f i, f i count offset) <$> op_pread o)
    (λ fd, sys (k_pread fd count offset)) fd.

Definition pwrite (fd : Z) (buf : string) (offset : Z) : M (option Z) :=
  SYNTH_SHIM_E "pwrite" EBADF (λ o, (λ f i, f i buf offset) <$> op_pwrite o)
    (λ fd, sys (k_pwrite fd buf offset)) fd.

Definition readv (fd : Z) (iov : list iovec) : M (option Z) :=
  SYNTH_SHIM_E "readv" EPERM (λ o, (λ f i, f i iov) <$> op_readv o)
    (λ fd, sys (k_readv fd iov)) fd.

Definition writev (fd : Z) (iov : list iovec) : M (option Z) :=
  SYNTH_SHIM_E "writev" EPERM (λ o, (λ f i, f i iov) <$> op_writev o)
    (λ fd, sys (k_writev fd iov)) fd.

Definition preadv (fd : Z) (iov : list iovec) (offset : Z) : M (option Z) :=
  SYNTH_SHIM_E "preadv" EPERM (λ o, (λ f i, f i iov offset) <$> op_preadv o)
    (λ fd, sys (k_preadv fd iov offset)) fd.

Definition pwritev (fd : Z) (iov : list iovec) (offset : Z) : M (option Z) :=
  SYNTH_SHIM_E "pwritev" EPERM (λ o, (λ f i, f i iov offset) <$> op_pwritev o)
    (λ fd, sys (k_pwritev fd iov offset)) fd.

Definition fsync (fd : Z) : M (option Z) :=
  SYNTH_SHIM_E "fsync" EBADF op_fsync
    (λ fd, sys (k_fsync fd)) fd.

Definition fdatasync (fd : Z) : M (option Z) :=
  SYNTH_SHIM_E "fdatasync" EBADF op_fdatasync
    (λ fd, sys (k_fdatasync fd)) fd.

Definition ftruncate (fd : Z) (length : Z) : M (option Z) :=
  SYNTH_SHIM_E "ftruncate" EINVAL (λ o, (λ f i, f i length) <$> op_ftruncate o)
    (λ fd, sys (k_ftruncate fd length)) fd.

Definition fchmod (fd : Z) (mode : Z) : M (option Z) :=
  SYNTH_SHIM_E "fchmod" EBADF (λ o, (λ f i, f i mode) <$> op_fchmod o)
    (λ fd, sys (k_fchmod fd mode)) fd.

Definition fchown (fd : Z) (owner group : Z) : M (option Z) :=
  SYNTH_SHIM_E "fchown" EBADF (λ o, (λ f i, f i owner group) <$> op_fchown o)
    (λ fd, sys (k_fchown fd owner group)) fd.

Definition fallocate (fd : Z) (mode offset len : Z) : M (option Z) :=
  SYNTH_SHIM_E "fallocate" EOPNOTSUPP (λ o, (λ f i, f i mode offset len) <$> op_fallocate o)
    (λ fd, sys (k_fallocate fd mode offset len)) fd.

Definition fgetxattr (fd : Z) (name : string) (size : Z) : M (option string) :=
  SYNTH_SHIM_E "fgetxattr" EBADF (λ o, (λ f i, f i name size) <$> op_fgetxattr o)
    (λ fd, sys (k_fgetxattr fd name size)) fd.

Definition fsetxattr (fd : Z) (name value : string) (flags : Z) : M (option Z) :=
  SYNTH_SHIM_E "fsetxattr" EBADF (λ o, (λ f i, f i name value flags) <$> op_fsetxattr o)
    (λ fd, sys (k_fsetxattr fd name value flags)) fd.

Definition flistxattr (fd : Z) (size : Z) : M (option string) :=
  SYNTH_SHIM_E "flistxattr" EBADF (λ o, (λ f i, f i size) <$> op_flistxattr o)
    (λ fd, sys (k_flistxattr fd size)) fd.

Definition fremovexattr (fd : Z) (name : string) : M (option Z) :=
  SYNTH_SHIM_E "fremovexattr" EBADF (λ o, (λ f i, f i name) <$> op_fremovexattr o)
    (λ fd, sys (k_fremovexattr fd name)) fd.

(** The fortified entry points abort when the caller's buffer is too small. *)
Definition __read_chk (fd nbytes buflen : Z) : M (option string) :=
  if buflen <? nbytes then gone else read fd nbytes.

Definition __pread_chk (fd nbytes offset buflen : Z) : M (option string) :=
  if buflen <? nbytes then gone else pread fd nbytes offset.

(** The large-file names are aliases: one function under two names. *)
Definition lseek64 := lseek.
Definition pread64 := pread.
Definition pwrite64 := pwrite.
Definition preadv64 := preadv.
Definition pwritev64 := pwritev.
Definition ftruncate64 := ftruncate.
Definition fallocate64 := fallocate.
Definition __pread64_chk := __pread_chk.
End dispatch.

(** Every operation of the handlers leaves reference counting alone. *)
Class HandlersIo W `{!Kernel W, !Handlers W} : Prop := {
  read_frame h f i count : op_read (ops_of h) = Some f → within (same cores) (f i count);
  write_frame h f i buf : op_write (ops_of h) = Some f → within (same cores) (f i buf);
  lseek_frame h f i offset whence : op_lseek (ops_of h) = Some f → within (same cores) (f i offset whence);
  pread_frame h f i count offset : op_pread (ops_of h) = Some f → within (same cores) (f i count offset);
  pwrite_frame h f i buf offset : op_pwrite (ops_of h) = Some f → within (same cores) (f i buf offset);
  readv_frame h f i iov : op_readv (ops_of h) = Some f → within (same cores) (f i iov);
  writev_frame h f i iov : op_writev (ops_of h) = Some f → within (same cores) (f i iov);
  preadv_frame h f i iov offset : op_preadv (ops_of h) = Some f → within (same cores) (f i iov offset);
  pwritev_frame h f i iov offset : op_pwritev (ops_of h) = Some f → within (same cores) (f i iov offset);
  fsync_frame h f i : op_fsync (ops_of h) = Some f → within (same cores) (f i);
  fdatasync_frame h f i : op_fdatasync (ops_of h) = Some f → within (same cores) (f i);
  ftruncate_frame h f i length : op_ftruncate (ops_of h) = Some f → within (same cores) (f i length);
  fchmod_frame h f i mode : op_fchmod (ops_of h) = Some f → within (same cores) (f i mode);
  fchown_frame h f i owner group : op_fchown (ops_of h) = Some f → within (same cores) (f i owner group);
  fallocate_frame h f i mode offset len : op_fallocate (ops_of h) = Some f → within (same cores) (f i mode offset len);
  fgetxattr_frame h f i name size : op_fgetxattr (ops_of h) = Some f → within (same cores) (f i name size);
  fsetxattr_frame h f i name value flags : op_fsetxattr (ops_of h) = Some f → within (same cores) (f i name value flags);
  flistxattr_frame h f i size : op_flistxattr (ops_of h) = Some f → within (same cores) (f i size);
  fremovexattr_frame h f i name : op_fremovexattr (ops_of h) = Some f → within (same cores) (f i name);
}.

(** The calls of read.c. *)
Inductive io_call :=
| io_read (fd : Z) (count : Z)
| io_write (fd : Z) (buf : string)
| io_lseek (fd : Z) (offset whence : Z)
| io_pread (fd : Z) (count offset : Z)
| io_pwrite (fd : Z) (buf : string) (offset : Z)
| io_readv (fd : Z) (iov : list iovec)
| io_writev (fd : Z) (iov : list iovec)
| io_preadv (fd : Z) (iov : list iovec) (offset : Z)
| io_pwritev (fd : Z) (iov : list iovec) (offset : Z)
| io_fsync (fd : Z)
| io_fdatasync (fd : Z)
| io_ftruncate (fd : Z) (length : Z)
| io_fchmod (fd : Z) (mode : Z)
| io_fchown (fd : Z) (owner group : Z)
| io_fallocate (fd : Z) (mode offset len : Z)
| io_fgetxattr (fd : Z) (name : string) (size : Z)
| io_fsetxattr (fd : Z) (name value : string) (flags : Z)
| io_flistxattr (fd : Z) (size : Z)
| io_fremovexattr (fd : Z) (name : string).

Section run_io.
Context {W : Type} `{!Kernel W, !Handlers W}.

Definition run_io (c : io_call) : prog (st W) unit :=
  match c with
  | io_read fd count => read fd count ;;* ret tt
  | io_write fd buf => write fd buf ;;* ret tt
  | io_lseek fd offset whence => lseek fd offset whence ;;* ret tt
  | io_pread fd count offset => pread fd count offset ;;* ret tt
  | io_pwrite fd buf offset => pwrite fd buf offset ;;* ret tt
  | io_readv fd iov => readv fd iov ;;* ret tt
  | io_writev fd iov => writev fd iov ;;* ret tt
  | io_preadv fd iov offset => preadv fd iov offset ;;* ret tt
  | io_pwritev fd iov offset => pwritev fd iov offset ;;* ret tt
  | io_fsync fd => fsync fd ;;* ret tt
  | io_fdatasync fd => fdatasync fd ;;* ret tt
  | io_ftruncate fd length => ftruncate fd length ;;* ret tt
  | io_fchmod fd mode => fchmod fd mode ;;* ret tt
  | io_fchown fd owner group => fchown fd owner group ;;* ret tt
  | io_fallocate fd mode offset len => fallocate fd mode offset len ;;* ret tt
  | io_fgetxattr fd name size => fgetxattr fd name size ;;* ret tt
  | io_fsetxattr fd name value flags => fsetxattr fd name value flags ;;* ret tt
  | io_flistxattr fd size => flistxattr fd size ;;* ret tt
  | io_fremovexattr fd name => fremovexattr fd name ;;* ret tt
  end.
End run_io.

(** ** Balance: a dispatch gives back the reference it takes *)
Definition balanced {W} (s s' : st W) : Prop :=
  length (synth_table (s_mem s)) = SYNTH_TABLE_SIZE → cores s' = cores s.

Lemma cores_length {W} (s s' : st W) :
  cores s' = cores s → length (synth_table (s_mem s')) = length (synth_table (s_mem s)).
Proof.
  intros H. injection H as H _. apply (f_equal length) in H. by rewrite !length_fmap in H.
Qed.

#[export] Instance balanced_preorder {W} : PreOrder (@balanced W).
Proof.
  split; [by intros s _|]. intros a b c H1 H2 Hl. specialize (H1 Hl).
  rewrite H2; [done|]. by rewrite (cores_length _ _ H1).
Qed.

Lemma within_cores_balanced {W A} (m : prog (st W) A) :
  within (same cores) m → within balanced m.
Proof. apply within_mono. by intros s s' H _. Qed.

Lemma drop_pinned {W} i (s s' : st W) :
  (i < length (synth_table (s_mem s)))%nat → 0 < refcount (entry_at (s_mem s) i) →
  cores s' = tb_drop i (cores (pinned i s)) → cores s' = cores s.
Proof.
  intros Hi Hrc ->. unfold pinned. rewrite cores_upd by done.
  pose proof (cores_lookup s i Hi) as Hl. rewrite (alter_insert _ _ _ _ Hl).
  unfold tb_drop. cbn [fst snd].
  rewrite list_lookup_insert_eq by (by eapply lookup_lt_Some).
  cbn [refcount set_refcount core set_pos set_probe_fd set_probe_overrides].
  rewrite decide_False, decide_True by lia. rewrite list_insert_insert_eq, list_insert_id; [done|].
  rewrite Hl. f_equal. rewrite Z.add_simpl_r. by destruct (entry_at (s_mem s) i).
Qed.

Section balance.
Context {W : Type} `{!Kernel W, !Handlers W, !HandlersOk W}.
Local Abbreviation M := (prog (st W)).

Lemma within_autopin_balanced {A} fd (body : option nat → M A) :
  (∀ e, within (same cores) (body e)) → within balanced (autopin fd body).
Proof.
  intros Hb s. destruct (autopin fd body s) as [a s'|?|] eqn:E; [|done..]. intros Hlen.
  unfold autopin in E. run_inv E. run_inv E. run_inv E. injection E as -> <-.
  pose proof (within_Ret (same cores) _ _ _ _ (Hb r) E1) as Hc. unfold same in Hc.
  unfold wslcompat_synth_pin_fd in E0. run_inv E0.
  pose proof (within_Ret (same s_mem) _ _ _ _ (within_sys_mem _) E) as Hm. unfold same in Hm.
  assert (cores s3 = cores s) as Hc3 by (unfold cores; by rewrite Hm).
  destruct r0 as [key|].
  - unfold synth_pin_lookup in E0. rewrite pin_lookup_run_from in E0 by (rewrite Hm, Hlen; lia).
    destruct (list_find _ _) as [[k i]|] eqn:Ef; injection E0 as <- <-.
    + apply list_find_Some in Ef as (Hk & Hmt & _). apply lookup_seq in Hk as [-> Hk].
      apply Is_true_true, andb_true_iff in Hmt as [Hrc%Z.ltb_lt _].
      destruct r1. apply unpin_drop in E2. rewrite Hc in E2. rewrite <-Hc3.
      apply (drop_pinned k); [rewrite Hm, Hlen; lia|done|done].
    + injection E2 as _ <-. congruence.
  - injection E0 as <- <-. injection E2 as _ <-. congruence.
Qed.

Lemma within_set_errno_cores e : within (same (@cores W)) (set_errno e).
Proof. by apply within_set_errno. Qed.

Lemma within_dispatch {A} (op : synth_ops W → option (nat → M A)) next fd :
  (∀ h f i, op (ops_of h) = Some f → within (same cores) (f i)) →
  (∀ fd, within (same cores) (next fd)) →
  within balanced (SYNTH_DISPATCH op next fd).
Proof.
  intros Hop Hn. unfold SYNTH_DISPATCH. apply within_bind; [apply _|apply within_gets, _|].
  intros saved. apply within_autopin_balanced. intros [i|].
  - intros s. unfold entry_ops. rewrite bind_getm.
    destruct (op _) as [f|] eqn:Ef; [within_run (same (@cores W)); within_auto; by eapply Hop|].
    destruct (op_passthru _) as [p|] eqn:Ep; within_run (same (@cores W)); within_auto;
      first [by eapply passthru_frame | apply Hn | apply within_set_errno_cores].
  - within_auto. apply within_set_errno_cores.
Qed.

Lemma within_shim {X} call canary (op : synth_ops W → option (nat → M (option X))) next fd :
  (∀ h f i, op (ops_of h) = Some f → within (same cores) (f i)) →
  (∀ fd, within (same cores) (next fd)) →
  within balanced (SYNTH_SHIM_E call canary op next fd).
Proof.
  intros Hop Hn. unfold SYNTH_SHIM_E, wslcompat_passthru. within_auto.
  - by apply within_cores_balanced.
  - by apply within_dispatch.
Qed.

(** Whatever an I/O call on a descriptor does, the reference it took on a synthetic entry is given
    back: every entry has the references, the identity and the handler it had before, and the live
    counter is unchanged. *)
Theorem io_balanced `{!HandlersIo W} (c : io_call) (s s' : st W) :
  table_ok (s_mem s) → run_io c s = Ret tt s' → cores s' = cores s.
Proof.
  intros (Hlen & _) H. refine (within_Ret balanced _ _ _ _ _ H Hlen). clear H Hlen.
  destruct c; cbn [run_io];
    (apply within_bind; [apply _| |intros; apply within_ret, _]);
    (apply within_shim; [|intros; auto with within typeclass_instances]);
    intros h g i Hg; simpl in Hg; try (apply fmap_Some in Hg as (f & Hf & ->));
    eauto using read_frame, write_frame, lseek_frame, pread_frame, pwrite_frame, readv_frame,
      writev_frame, preadv_frame, pwritev_frame, fsync_frame, fdatasync_frame, ftruncate_frame,
      fchmod_frame, fchown_frame, fallocate_frame, fgetxattr_frame, fsetxattr_frame,
      flistxattr_frame, fremovexattr_frame.
Qed.

Lemma pin_fd_None_mem fd (s s' : st W) :
  length (synth_table (s_mem s)) = SYNTH_TABLE_SIZE →
  wslcompat_synth_pin_fd fd s = Ret None s' → s_mem s' = s_mem s.
Proof.
  intros Hlen. unfold wslcompat_synth_pin_fd. intros H. run_inv H.
  pose proof (within_Ret (same s_mem) _ _ _ _ (within_sys_mem _) E) as Hm. unfold same in Hm.
  destruct r as [key|]; [|injection H as <-; done].
  unfold synth_pin_lookup in H. rewrite pin_lookup_run_from in H by (rewrite Hm, Hlen; lia).
  destruct (list_find _ _) as [[??]|]; [done|]. by injection H as <-.
Qed.

(** C27: On a descriptor that is not synthetic a shim is invisible: the application gets the kernel's
    answer and errno, and the library's memory is untouched, even when the kernel's errno happens
    to be the canary. *)
Theorem shim_foreign_descriptor {X} call canary (op : synth_ops W → option (nat → M (option X)))
    next fd r (s s1 s2 : st W) :
  length (synth_table (s_mem s1)) = SYNTH_TABLE_SIZE →
  next fd s = Ret r s1 → wslcompat_synth_pin_fd fd s1 = Ret None s2 →
  ∃ s', SYNTH_SHIM_E call canary op next fd s = Ret r s' ∧
        s_errno s' = s_errno s1 ∧ s_mem s' = s_mem s1.
Proof.
  intros Hlen Hn Hp. pose proof (pin_fd_None_mem _ _ _ Hlen Hp) as Hm.
  unfold SYNTH_SHIM_E. rewrite (bind_Ret _ _ _ _ _ Hn). destruct r as [x|]; [by exists s1|].
  rewrite bind_get_errno. destruct (negb _); [by exists s1|].
  unfold wslcompat_passthru. rewrite bind_getm. destruct (negb _); [by exists s1|].
  unfold SYNTH_DISPATCH, autopin. rewrite bind_assoc, bind_get_errno, bind_assoc.
  rewrite (bind_Ret _ _ _ _ _ Hp). run_simpl. by eexists.
Qed.

(** On a synthetic descriptor that fails with the canary, the application gets the answer of the
    entry's handler, with the errno the handler left: giving the reference back runs no cleanup
    and disturbs neither. *)
Theorem shim_owned_descriptor {X} call canary (op : synth_ops W → option (nat → M (option X)))
    next fd i f r (s s1 s2 s3 : st W) :
  table_ok (s_mem s1) → wslcompat_enabled (s_mem s1) call = true →
  next fd s = Ret None s1 → s_errno s1 = canary →
  wslcompat_synth_pin_fd fd s1 = Ret (Some i) s2 →
  op (ops_of (e_ops (entry_at (s_mem s2) i))) = Some f →
  f i s2 = Ret r s3 → cores s3 = cores s2 →
  ∃ s', SYNTH_SHIM_E call canary op next fd s = Ret r s' ∧ s_errno s' = s_errno s3 ∧
        cores s' = cores s1.
Proof.
  intros (Hlen & _ & _) Hen Hn He Hp Hop Hf Hc. simpl in Hlen.
  assert ((i < length (synth_table (s_mem s1)))%nat ∧ 0 < refcount (entry_at (s_mem s1) i) ∧
          cores s2 = cores (pinned i s1)) as (Hi & Hrc & Hc2).
  { unfold wslcompat_synth_pin_fd in Hp. run_inv Hp.
    pose proof (within_Ret (same s_mem) _ _ _ _ (within_sys_mem _) E) as Hm. unfold same in Hm.
    destruct r0 as [key|]; [|done].
    unfold synth_pin_lookup in Hp. rewrite pin_lookup_run_from in Hp by (rewrite Hm, Hlen; lia).
    destruct (list_find _ _) as [[k j]|] eqn:Ef; [|done]. injection Hp as <- <-.
    apply list_find_Some in Ef as (Hk & Hmt & _). apply lookup_seq in Hk as [-> Hk].
    apply Is_true_true, andb_true_iff in Hmt as [Hrc%Z.ltb_lt _]. rewrite Hm in Hrc.
    split; [rewrite Hlen; lia|]. split; [done|]. unfold pinned, cores. simpl. by rewrite Hm. }
  assert (refcount (entry_at (s_mem s3) i) = refcount (entry_at (s_mem s1) i) + 1) as Hrc3.
  { pose proof (cores_lookup (pinned i s1) i) as Hl. unfold pinned at 1 in Hl.
    cbn [s_mem] in Hl. rewrite length_upd_entry in Hl. specialize (Hl Hi). rewrite <-Hc2, <-Hc in Hl. rewrite (cores_refcount _ _ _ Hl). simpl.
    by rewrite entry_at_upd_eq. }
  unfold SYNTH_SHIM_E. rewrite (bind_Ret _ _ _ _ _ Hn), bind_get_errno, He, Z.eqb_refl.
  cbn [negb]. unfold wslcompat_passthru. rewrite bind_getm, Hen. cbn [negb].
  unfold SYNTH_DISPATCH, autopin, entry_ops.
  rewrite bind_assoc, bind_get_errno, bind_assoc, (bind_Ret _ _ _ _ _ Hp), !bind_assoc, bind_getm, Hop.
  rewrite bind_assoc, (bind_Ret _ _ _ _ _ Hf), bind_ret, bind_assoc.
  pose proof (unpin_shared i s3 ltac:(lia)) as Eu.
  rewrite (bind_Ret _ _ _ _ _ Eu). run_simpl. eexists. split; [done|]. split; [done|].
  apply unpin_drop in Eu. rewrite Hc, Hc2 in Eu. by eapply drop_pinned.
Qed.
End balance.
