(* ===== verification/Handlers.v ===== *)
(** * The library's own operation tables, against the interface of the table *)

From stdpp Require Import gmap.
From S2P Require Import Prelude CString Kernel State Tunables Override Walk FdKernel Internal Synth SynthFrames SynthFacts Close Tty Proc Dispatch.

Open Scope Z_scope.

(** [tty_ops], [mmap_min_addr_ops] and [proc_pid_mem_ops]; the null table is never dispatched on. *)
#[global] Instance lib_handlers {W} `{!Kernel W} : Handlers W := λ h,
  match h with
  | h_null => null_ops
  | h_tty => tty_ops
  | h_mmap_min_addr => mmap_min_addr_ops
  | h_proc_pid_mem => proc_pid_mem_ops
  end.

Section laws.
Context {W : Type} `{!Kernel W}.

Lemma within_upd_tty t f : within (same (@cores W)) (setm (upd_tty t f)).
Proof. by apply within_setm. Qed.

Lemma within_put_pos e p : within (same (@cores W)) (put_pos e p).
Proof.
  apply within_setm. intros m w er. unfold same, cores. simpl. f_equal.
  by apply list_fmap_alter_id.
Qed.
#[local] Hint Resolve within_upd_tty within_put_pos within_set_errno_cores : within.

Lemma within_collect n fd vm count timeout acc :
  within (same (@cores W)) (tty_collect n fd vm count timeout acc).
Proof.
  revert acc. induction n as [|n IH]; intros acc; cbn [tty_collect]; unfold poll_in; within_auto.
Qed.
#[local] Hint Resolve within_collect : within.

Lemma within_tty_read e n : within (same (@cores W)) (tty_read e n).
Proof.
  unfold tty_read, tty_of, tty_real_fd_load, wslcompat_passthru, tty_read_raw_wait, poll_in.
  within_auto.
Qed.

Lemma within_tty_load t e : within (same (@cores W)) (tty_real_fd_load t e).
Proof. unfold tty_real_fd_load. within_auto. Qed.
#[local] Hint Resolve within_tty_load : within.

#[export] Instance lib_handlers_ok : HandlersOk W.
Proof.
  split; intros [] f i; cbn; intros; simplify_eq; try done.
  - unfold tty_release, tty_of. within_auto.
  - unfold tty_passthru, tty_of. within_auto.
  - unfold tty_relocate, tty_of. within_auto.
  - unfold tty_describe, tty_of. within_auto.
Qed.

Lemma within_fail {A} e : within (same (@cores W)) (fail_with (R:=A) e).
Proof. unfold fail_with. within_auto. Qed.
#[local] Hint Resolve within_fail : within.

#[export] Instance lib_handlers_io : HandlersIo W.
Proof.
  split; intros [] f i; cbn; intros; simplify_eq; try done;
    first
      [ apply within_tty_read
      | unfold mmap_min_addr_read, mmap_min_addr_lseek, mmap_min_addr_pread, proc_pid_mem_read,
          proc_pid_mem_write, proc_pid_mem_pread, proc_pid_mem_pwrite, proc_pid_mem_readv,
          proc_pid_mem_writev, proc_pid_mem_preadv, proc_pid_mem_pwritev, proc_pid_mem_lseek,
          with_total, advance, get_pos, entry_pid; within_auto ].
Qed.
End laws.

(** ** The shims on a synthetic file *)
Module IoDemo.
Import FdKernel.

(** Descriptors 4 and 5 on a synthetic /proc/sys/vm/mmap_min_addr. *)
Definition entry : synth_entry :=
  {| refcount := 1; probe_fd := 5; e_stat := SynthDemo.file 50; e_ops := h_mmap_min_addr; pos := 2;
     e_userptr := up_null; e_flags := 0; install_pid := 100; install_starttime := 77;
     probe_overrides := replicate 4 free_override |}.
Definition m : mem :=
  set_synth_live_entries 1 (set_synth_table (entry :: replicate 63 free_entry) init_mem).
Definition s : st world := mkst m (SynthDemo.w0 false) 0.
Definition failed : st world := mkst m (SynthDemo.w0 false) EBADF.
Definition after : st world := match run_io (io_read 4 100) s with Ret _ s' => s' | _ => s end.
Definition next (fd : Z) : prog (st world) (option string) := sys (k_read fd 100).
Definition sel : synth_ops world → option (nat → prog (st world) (option string)) :=
  λ o, (λ f i, f i 100) <$> op_read o.

Lemma m_ok : table_ok m.
Proof. by vm_compute; repeat constructor. Qed.
End IoDemo.

Lemma io_balanced_witness : cores IoDemo.after = cores IoDemo.s.
Proof. apply (io_balanced (io_read 4 100)); [apply IoDemo.m_ok|by vm_compute]. Defined.

Lemma shim_foreign_descriptor_witness :
  ∃ s', SYNTH_SHIM_E "read" EBADF IoDemo.sel IoDemo.next 0 IoDemo.s = Ret None s' ∧
        s_errno s' = EBADF ∧ s_mem s' = IoDemo.m.
Proof.
  apply (shim_foreign_descriptor "read" EBADF IoDemo.sel IoDemo.next 0 None IoDemo.s IoDemo.failed
           IoDemo.failed); by vm_compute.
Defined.

Lemma shim_owned_descriptor_witness :
  ∃ b s', SYNTH_SHIM_E "read" EBADF IoDemo.sel IoDemo.next 4 IoDemo.s = Ret (Some b) s' ∧
          cores s' = cores IoDemo.s.
Proof.
  destruct (shim_owned_descriptor "read" EBADF IoDemo.sel IoDemo.next 4 0
    (λ i, mmap_min_addr_read i 100) (Some (slice (min_addr_text IoDemo.m) 2 100))
    IoDemo.s IoDemo.failed (pinned 0 IoDemo.failed) (seeked 0 5 (pinned 0 IoDemo.failed)))
    as (s' & E & _ & Hc);
    [apply IoDemo.m_ok|by vm_compute|by vm_compute|done|by vm_compute|reflexivity|by vm_compute..|].
  eauto.
Defined.

(** ** Reads of the synthetic file *)
Lemma min_addr_read_pread_witness :
  mmap_min_addr_pread 0 100 2 IoDemo.s = Ret (Some (slice (min_addr_text IoDemo.m) 2 100)) IoDemo.s.
Proof.
  refine (proj1 (min_addr_read_pread 0 100 IoDemo.s (seeked 0 5 IoDemo.s) _ _ _ _ _));
    [vm_compute; lia|by vm_compute..].
Defined.

Lemma min_addr_reads_concat_witness :
  slice (min_addr_text IoDemo.m) 2 1 +:+ slice (min_addr_text IoDemo.m) 3 7
  = slice (min_addr_text IoDemo.m) 2 8.
Proof.
  refine (proj1 (min_addr_reads_concat 0 1 7 IoDemo.s (seeked 0 3 IoDemo.s)
    (seeked 0 5 (seeked 0 3 IoDemo.s)) (seeked 0 5 IoDemo.s) _ _ _ _ _ _ _ _ _ _));
    [vm_compute; lia|by vm_compute..].
Defined.

Lemma min_addr_lseek_bounds_witness :
  pos (entry_at (s_mem (seeked 0 6 IoDemo.s)) 0) = 6.
Proof.
  refine (proj2 (min_addr_lseek_bounds 0 4 SEEK_CUR IoDemo.s (seeked 0 6 IoDemo.s) (Some 6) _ _));
    [vm_compute; lia|by vm_compute].
Defined.
