(* ===== verification/FdTable.v ===== *)
(** * The descriptor table of the process, through the library's own calls

    What the manual pages say of the calls by which the library shuffles descriptors, as an interface,
    and how the bookkeeping of closing and duplicating runs against it when the calling process is
    the one that installed the synthetic descriptors. *)

From stdpp Require Import gmap.
From S2P Require Import Prelude CString Kernel State Tunables Override Walk Internal Synth SynthFrames SynthFacts Close Tty Proc Dispatch Handlers.

Open Scope Z_scope.

(** What a descriptor stands for: the inode of its open file, its close-on-exec flag, whether its open
    file description holds a shared flock, and whether it was opened with O_PATH. *)
Record fdesc := { d_stat : stat; d_cloexec : bool; d_shared : bool; d_path : bool }.

(** A duplicate: the same open file description, with a flag of its own. *)
Definition with_cloexec (b : bool) (x : fdesc) : fdesc :=
  {| d_stat := d_stat x; d_cloexec := b; d_shared := d_shared x; d_path := d_path x |}.

(** A descriptor fresh from open. *)
Definition new_desc (s : stat) (flags : Z) : fdesc :=
  {| d_stat := s; d_cloexec := has_bits flags O_CLOEXEC; d_shared := false; d_path := has_bits flags O_PATH |}.

Definition with_shared (b : bool) (x : fdesc) : fdesc :=
  {| d_stat := d_stat x; d_cloexec := d_cloexec x; d_shared := b; d_path := d_path x |}.

Lemma with_cloexec_twice a b x : with_cloexec a (with_cloexec b x) = with_cloexec a x.
Proof. done. Qed.
Lemma with_cloexec_id x : with_cloexec (d_cloexec x) x = x.
Proof. by destruct x. Qed.

(** close(2), dup3(2), fcntl(2), flock(2), open(2). [room] is the number of descriptors the process
    may have open. *)
Class KernelTable (W : Type) `{!Kernel W, !KernelProcFd W} := {
  tab : W → gmap Z fdesc;
  room : nat;
  tab_fds w : fds w = d_stat <$> tab w;
  tab_close fd w :
    is_Some (tab w !! fd) →
    ∃ w', kstep (k_close fd) w = (inl tt, w') ∧ tab w' = delete fd (tab w);
  tab_opendir w :
    (size (tab w) < room)%nat →
    ∃ d x w', kstep (k_open "/proc/self/fd" (Z.lor O_RDONLY (Z.lor O_DIRECTORY O_CLOEXEC)) 0) w = (inl d, w') ∧
      tab w !! d = None ∧ tab w' = <[d := x]> (tab w) ∧ NoDup (pending w' d) ∧
      (length (pending w' d) ≤ size (tab w) + 3)%nat;
  tab_getdents d n w : is_Some (tab w !! d) → tab (snd (kstep (k_getdents64 d n) w)) = tab w;
  tab_getfd fd w x :
    tab w !! fd = Some x →
    kstep (k_fcntl fd F_GETFD (arg_int 0)) w = (inl (if d_cloexec x then FD_CLOEXEC else 0), w);
  tab_dupfd fd mn w x :
    tab w !! fd = Some x → 0 ≤ mn ≤ 64 → (size (tab w) < room)%nat →
    ∃ n w', kstep (k_fcntl fd F_DUPFD_CLOEXEC (arg_int mn)) w = (inl n, w') ∧ mn ≤ n ∧
      tab w !! n = None ∧ tab w' = <[n := with_cloexec true x]> (tab w);
  tab_dup3 old new (b : bool) w x :
    tab w !! old = Some x → is_Some (tab w !! new) → old ≠ new →
    ∃ w', kstep (k_dup3 old new (if b then O_CLOEXEC else 0)) w = (inl new, w') ∧
      tab w' = <[new := with_cloexec b x]> (tab w);
  (** an exclusive lock is refused while another open file of the inode is locked *)
  tab_flock p fd w x y :
    tab w !! p = Some x → d_shared x = false → tab w !! fd = Some y → d_shared y = true →
    same_inode (d_stat x) (d_stat y) = true →
    ∃ e w', kstep (k_flock p (Z.lor LOCK_EX LOCK_NB)) w = (inr e, w') ∧ tab w' = tab w;
}.

(** ** Walking a table *)

(** A visitor that only computes, run on one descriptor after the other until it stops. *)
Fixpoint scan {U} (f : Z → U → bool * U) (l : list Z) (u : U) : U :=
  match l with
  | [] => u
  | fd :: l => let '(stop, u') := f fd u in if (stop : bool) then u' else scan f l u'
  end.

Definition listed (d : Z) (names : list string) : list Z :=
  filter (λ fd, fd ≠ d) (atoi <$> filter (λ n, name_is_fd n = true) names).

Section walking.
Context {W : Type} `{!Kernel W, !KernelProcFd W, !KernelTable W, !KernelPid W} {Hfuel : Fuel} {U : Type}.
Variables (visit : Z → U → prog (st W) (bool * U)) (f : Z → U → bool * U) (m : mem) (w0 : W).

(** The table while the directory is open on [d]. *)
Definition walking (d : Z) (w : W) : Prop :=
  tab w0 !! d = None ∧ (∃ x, tab w = <[d := x]> (tab w0)) ∧ kpid w = kpid w0.

Hypothesis visit_pure : ∀ d w fd u e,
  walking d w → is_Some (tab w0 !! fd) →
  ∃ e', visit fd u (mkst m w e) = Ret (f fd u) (mkst m w e').

(** The names of open descriptors, and of no others. *)
Definition names_ok (d : Z) (names : list string) : Prop :=
  ∀ n, n ∈ names → name_is_fd n = true → atoi n ≠ d → is_Some (tab w0 !! atoi n).

Lemma listed_cons d n names :
  listed d (n :: names) =
  if decide (name_is_fd n = true) then
    if decide (atoi n ≠ d) then atoi n :: listed d names else listed d names
  else listed d names.
Proof.
  unfold listed. rewrite filter_cons. case_decide; [|done]. rewrite fmap_cons, filter_cons.
  by case_decide.
Qed.

Lemma walk_batch_pure d names u w e :
  walking d w → names_ok d names →
  ∃ b u' e', walk_batch visit d names u (mkst m w e) = Ret (b, u') (mkst m w e') ∧
    ∀ l, scan f (listed d names ++ l) u = if b then u' else scan f l u'.
Proof.
  intros Hw. revert u e. induction names as [|n names IH]; intros u e Hok; [by eexists false, u, e|].
  rewrite listed_cons. cbn [walk_batch].
  assert (names_ok d names) as Hok' by (intros k Hk; apply Hok; by right).
  destruct (name_is_fd n) eqn:En; cbn [negb]; [|rewrite decide_False by done; by apply IH].
  rewrite decide_True by done.
  destruct (Z.eqb_spec (atoi n) d) as [->|Hne]; [rewrite decide_False by tauto; by apply IH|].
  rewrite decide_True by done.
  destruct (visit_pure d w (atoi n) u e Hw (Hok n (list_elem_of_here _ _) En Hne)) as [e1 E].
  rewrite (bind_Ret _ _ _ _ _ E). cbn [app scan]. destruct (f (atoi n) u) as [[] u1]; [by eexists true, u1, e1|].
  by apply IH.
Qed.

Lemma walk_loop_pure n d u w e :
  walking d w → names_ok d (pending w d) → (length (pending w d) < n)%nat →
  ∃ w' e', walk_loop visit n d u (mkst m w e) = Ret (scan f (listed d (pending w d)) u) (mkst m w' e') ∧
    walking d w'.
Proof.
  revert u w e. induction n as [|n IH]; intros u w e Hw Hok Hn; [lia|]. cbn [walk_loop].
  destruct Hw as (Hd & (x & Ht) & Hp). unfold bind at 1, sys. cbn [s_world s_mem s_errno].
  pose proof (kstep_pid _ (k_getdents64 d 4096) w) as Hk.
  assert (is_Some (tab w !! d)) as Hs by (rewrite Ht, lookup_insert_eq; eauto).
  pose proof (tab_getdents d 4096 w Hs) as Hg.
  destruct (kstep (k_getdents64 d 4096) w) as [r w1] eqn:E. cbn [snd] in Hk, Hg.
  apply getdents_law in E as (_ & l & -> & Hpe & Hend);
    [|rewrite tab_fds, lookup_fmap, Ht, lookup_insert_eq; eauto].
  assert (walking d w1) as Hw1 by (split_and!; [done|exists x; congruence|congruence]).
  destruct l as [|y l].
  - rewrite Hend by done. by eexists w1, e.
  - rewrite Hpe in Hok, Hn. rewrite length_app in Hn. cbn [length] in Hn.
    assert (names_ok d (y :: l)) as Hok1 by (intros k Hk1; apply Hok, elem_of_app; by left).
    assert (names_ok d (pending w1 d)) as Hok2 by (intros k Hk1; apply Hok, elem_of_app; by right).
    destruct (walk_batch_pure d (y :: l) u w1 e Hw1 Hok1) as (b & u1 & e1 & Eb & Hsc).
    rewrite (bind_Ret _ _ _ _ _ Eb). rewrite Hpe.
    assert (listed d ((y :: l) ++ pending w1 d) = listed d (y :: l) ++ listed d (pending w1 d)) as ->
      by (unfold listed; by rewrite filter_app, fmap_app, filter_app).
    rewrite Hsc. destruct b; [by eexists w1, e1|]. apply IH; [done..|lia].
Qed.

(** The walk runs the visitor over the open descriptors, each once, and leaves the table as it was. *)
Lemma walk_pure u e :
  (size (tab w0) < room)%nat → (size (tab w0) + 3 < fuel)%nat →
  ∃ l w' e', wslcompat_walk_proc_self_fd visit u (mkst m w0 e) = Ret (scan f l u) (mkst m w' e') ∧
    tab w' = tab w0 ∧ kpid w' = kpid w0 ∧ NoDup l ∧ ∀ fd, fd ∈ l ↔ is_Some (tab w0 !! fd).
Proof.
  intros Hr Hf. unfold wslcompat_walk_proc_self_fd, bind at 1, sys. cbn [s_world s_mem s_errno].
  destruct (tab_opendir w0 Hr) as (d & x & w1 & Eo & Hd & Ht & Hnd & Hlen). rewrite Eo.
  pose proof (kstep_pid _ (k_open "/proc/self/fd" (Z.lor O_RDONLY (Z.lor O_DIRECTORY O_CLOEXEC)) 0) w0) as Hk.
  rewrite Eo in Hk. cbn [snd] in Hk.
  assert (walking d w1) as Hw1 by (split_and!; eauto).
  destruct (opendir_law _ _ _ _ _ Eo) as (_ & _ & _ & Hp).
  assert (∀ fd, is_Some (fds w1 !! fd) ↔ fd = d ∨ is_Some (tab w0 !! fd)) as Hdom.
  { intros fd. rewrite tab_fds, lookup_fmap, fmap_is_Some, Ht, lookup_insert_is_Some'.
    split; (intros [->|]; [by left|by right]). }
  assert (∀ n fd, n = fmt_d fd → is_Some (fds w1 !! fd) → name_is_fd n = true ∧ atoi n = fd) as Hname.
  { intros n fd -> Hs1. pose proof (fds_range _ _ Hs1). rewrite name_is_fd_fmt, atoi_fmt_d by lia. done. }
  assert (∀ n, n ∈ pending w1 d → name_is_fd n = true → n = fmt_d (atoi n) ∧ is_Some (fds w1 !! atoi n)) as Hin.
  { intros n [->|[->|(fd & Hn & Hs)]]%Hp He; [done..|].
    destruct (Hname n fd Hn Hs) as [_ Ha]. by rewrite Ha. }
  destruct (walk_loop_pure fuel d u w1 e Hw1) as (w2 & e2 & El & Hw2); [|lia|].
  { intros n Hn He Hne. destruct (Hin n Hn He) as [_ [?|?]%Hdom]; done. }
  rewrite (bind_Ret _ _ _ _ _ El). destruct Hw2 as (_ & (x2 & Ht2) & Hk2).
  destruct (tab_close d w2) as (w3 & Ec & Ht3); [rewrite Ht2, lookup_insert_eq; eauto|].
  pose proof (kstep_pid _ (k_close d) w2) as Hk3. rewrite Ec in Hk3. cbn [snd] in Hk3.
  exists (listed d (pending w1 d)), w3, e2. unfold bind, sys. cbn [s_world s_mem s_errno]. rewrite Ec.
  split; [done|]. split; [rewrite Ht3, Ht2, delete_insert_id by done; done|].
  split; [congruence|]. split.
  - apply NoDup_filter. apply NoDup_fmap_2_strong; [|by apply NoDup_filter].
    intros n n' [He Hn]%list_elem_of_filter [He' Hn']%list_elem_of_filter Ha.
    destruct (Hin n Hn He) as [-> _], (Hin n' Hn' He') as [-> _]. by rewrite Ha.
  - intros fd. unfold listed. rewrite list_elem_of_filter, list_elem_of_fmap. split.
    + intros (Hne & n & -> & [He Hn]%list_elem_of_filter). destruct (Hin n Hn He) as [_ [?|?]%Hdom]; done.
    + intros Hs. assert (fd ≠ d) as Hne by (intros ->; rewrite Hd in Hs; by destruct Hs).
      split; [done|]. assert (is_Some (fds w1 !! fd)) as Hs1 by (apply Hdom; by right).
      destruct (Hname _ fd eq_refl Hs1) as [He Ha]. exists (fmt_d fd). split; [done|].
      apply list_elem_of_filter. split; [done|]. apply Hp. eauto.
Qed.
End walking.

(** ** Installed entries at rest *)
Definition live (m : mem) (i : nat) : Prop :=
  (i < SYNTH_TABLE_SIZE)%nat ∧ 0 < refcount (entry_at m i).

Definition wraps (m : mem) (i : nat) (s : stat) : Prop :=
  live m i ∧ same_inode (e_stat (entry_at m i)) s = true.

(** The inode is that of a synthetic descriptor. *)
Definition is_wrap (m : mem) (s : stat) : Prop := ∃ i, wraps m i s.

(** The hidden descriptor behind a wrapped terminal. *)
Definition real_of (m : mem) (i : nat) : Z := real_fd (tty_at m (tty_slot m i)).

(** [x] is known to keep entry [i] in use: it holds the lock that the probe of the entry, if it has
    one, is refused. *)
Definition locked (m : mem) (i : nat) (x : fdesc) : Prop :=
  probe_fd (entry_at m i) = -1 ∨ d_shared x = true.

(** The descriptors the library keeps for itself. *)
Definition internal (m : mem) (fd : Z) : Prop :=
  (∃ i, live m i ∧ (probe_fd (entry_at m i) = fd ∨ e_ops (entry_at m i) = h_tty ∧ real_of m i = fd)) ∨
  (∃ sl, registered m sl ∧ slot_value m sl = fd).

Definition pin (i : nat) (m : mem) : mem :=
  upd_entry i (set_refcount (refcount (entry_at m i) + 1)) m.

Lemma same_inode_eq a b : same_inode a b = true ↔ st_dev a = st_dev b ∧ st_ino a = st_ino b.
Proof. unfold same_inode. by rewrite andb_true_iff, !Z.eqb_eq. Qed.

Section calm.
Context {W : Type} `{!Kernel W, !KernelProcFd W, !KernelTable W, !KernelPid W} {Hfuel : Fuel}.
(** The calling process. *)
Variables id t : Z.

(** The process has installed every live entry; each has a descriptor that still holds the shared
    lock, its probe is another open file of the inode, and what the library keeps for itself is open
    and, the probes excepted, not synthetic. Every wrapped terminal has a slot and a hidden descriptor
    of its own. *)
Record calm (m : mem) (w : W) : Prop := {
  calm_pid : kpid w = id;
  calm_cache : starttime_cache m = {| p_starttime := t; p_pid := wrap_u 32 id |};
  calm_dup3 : wslcompat_enabled m "dup3" = true;
  calm_close : wslcompat_enabled m "close" = true;
  calm_open : wslcompat_enabled m "open" = true;
  calm_openat : wslcompat_enabled m "openat" = true;
  calm_len : length (synth_table m) = SYNTH_TABLE_SIZE;
  calm_tty_len : length (tty_table m) = TTY_TABLE_SIZE;
  calm_unique i j s : wraps m i s → wraps m j s → i = j;
  calm_ident i : live m i → install_pid (entry_at m i) = id ∧ install_starttime (entry_at m i) = t;
  calm_probe i : live m i → probe_fd (entry_at m i) = -1 ∨
    ∃ x, tab w !! probe_fd (entry_at m i) = Some x ∧ d_shared x = false ∧ wraps m i (d_stat x);
  calm_real i : live m i → e_ops (entry_at m i) = h_tty → real_of m i = -1 ∨
    ∃ x, tab w !! real_of m i = Some x ∧ ¬ is_wrap m (d_stat x);
  calm_holder i : live m i → ∃ fd x, tab w !! fd = Some x ∧ locked m i x ∧ wraps m i (d_stat x);
  calm_registry sl : registered m sl → slot_value m sl < 0 ∨
    ∃ x, tab w !! slot_value m sl = Some x ∧ ¬ is_wrap m (d_stat x);
  calm_slot i : live m i → e_ops (entry_at m i) = h_tty →
    (tty_slot m i < length (tty_table m))%nat ∧ claimed (tty_at m (tty_slot m i)) ≠ 0;
  calm_slot_inj i j : live m i → live m j → e_ops (entry_at m i) = h_tty → e_ops (entry_at m j) = h_tty →
    tty_slot m i = tty_slot m j → i = j;
  calm_real_inj i j : live m i → live m j → e_ops (entry_at m i) = h_tty → e_ops (entry_at m j) = h_tty →
    real_of m i = real_of m j → 0 ≤ real_of m i → i = j;
  calm_real_own i sl : live m i → e_ops (entry_at m i) = h_tty → registered m sl →
    real_of m i = slot_value m sl → real_of m i < 0;
}.

(** Room for [k] more descriptors, and fuel to walk them. *)
Definition spacious (k : nat) (w : W) : Prop :=
  (size (tab w) + k ≤ room)%nat ∧ (size (tab w) + k ≤ fuel)%nat.

Lemma tab_range w fd : is_Some (tab w !! fd) → 0 ≤ fd ≤ INT_MAX.
Proof. intros H. apply (fds_range w). by rewrite tab_fds, lookup_fmap, fmap_is_Some. Qed.

Lemma load_base v (m : mem) (w : W) e :
  starttime_cache m = {| p_starttime := t; p_pid := wrap_u 32 id |} → kpid w = id →
  install_pid (entry_at m (view_entry v)) = id → install_starttime (entry_at m (view_entry v)) = t →
  wslcompat_view_fd_load v (mkst m w e) = Ret (view_base v m) (mkst m w e).
Proof.
  intros Hc Hp Hi Ht. rewrite (view_fd_load_run w v id t).
  - cbn [s_mem]. unfold synth_is_installer. by rewrite Hi, Ht, !Z.eqb_refl.
  - split; [apply rtc_refl|]. done.
Qed.

Lemma pin_entry i j m :
  entry_at (pin i m) j =
  if decide (i = j ∧ (i < length (synth_table m))%nat)
  then set_refcount (refcount (entry_at m i) + 1) (entry_at m j) else entry_at m j.
Proof.
  unfold pin, entry_at, upd_entry. cbn [synth_table set_synth_table].
  rewrite list_lookup_total_alter. case_decide as H; [by destruct H as [<- _]|done].
Qed.

Lemma pin_same {A} (g : synth_entry → A) i j m :
  (∀ x e, g (set_refcount x e) = g e) → g (entry_at (pin i m) j) = g (entry_at m j).
Proof. intros Hg. rewrite pin_entry. case_decide; [apply Hg|done]. Qed.

Lemma pin_live i j m : live m i → live (pin i m) j ↔ live m j.
Proof.
  intros [Hi Hr]. unfold live. rewrite pin_entry. case_decide as Hd; [|done]. destruct Hd as [<- _].
  cbn [refcount set_refcount]. lia.
Qed.

Lemma pin_wraps i j m s : live m i → wraps (pin i m) j s ↔ wraps m j s.
Proof. intros Hl. unfold wraps. by rewrite pin_live, (pin_same e_stat). Qed.

Lemma pin_is_wrap i m s : live m i → is_wrap (pin i m) s ↔ is_wrap m s.
Proof. intros Hl. unfold is_wrap. split; intros [j Hj]; exists j; by apply (pin_wraps i j). Qed.

Lemma pin_slot i j m : tty_slot (pin i m) j = tty_slot m j.
Proof. unfold tty_slot. by rewrite (pin_same e_userptr). Qed.

Lemma pin_real i j m : real_of (pin i m) j = real_of m j.
Proof. unfold real_of. by rewrite pin_slot. Qed.

Lemma pin_internal i fd m : live m i → internal (pin i m) fd ↔ internal m fd.
Proof.
  intros Hl. unfold internal. apply or_iff_compat_r.
  split; intros (j & Hj & H); exists j; (split; [by apply (pin_live i j)|]);
    by rewrite (pin_same probe_fd), (pin_same e_ops), pin_real in *.
Qed.

Lemma calm_pin i m (w : W) : calm m w → live m i → calm (pin i m) w.
Proof.
  intros C Hl. split.
  - apply C.
  - apply (calm_cache _ _ C).
  - apply (calm_dup3 _ _ C).
  - apply (calm_close _ _ C).
  - apply (calm_open _ _ C).
  - apply (calm_openat _ _ C).
  - unfold pin. rewrite length_upd_entry. apply C.
  - apply (calm_tty_len _ _ C).
  - intros j k s. rewrite !pin_wraps by done. apply (calm_unique _ _ C).
  - intros j. rewrite pin_live, (pin_same install_pid), (pin_same install_starttime) by done. apply C.
  - intros j. rewrite pin_live, (pin_same probe_fd) by done. intros Hj.
    destruct (calm_probe _ _ C j Hj) as [|(x & Hx & Hs & Hw)]; [by left|right]. exists x. by rewrite pin_wraps.
  - intros j. rewrite pin_live, (pin_same e_ops), pin_real by done. intros Hj Ho.
    destruct (calm_real _ _ C j Hj Ho) as [|(x & Hx & Hw)]; [by left|right]. exists x. by rewrite pin_is_wrap.
  - intros j. rewrite pin_live by done. intros Hj. destruct (calm_holder _ _ C j Hj) as (fd & x & Hx & Hs & Hw).
    exists fd, x. unfold locked in *. by rewrite pin_wraps, (pin_same probe_fd).
  - intros sl Hsl. destruct (calm_registry _ _ C sl Hsl) as [|(x & Hx & Hw)]; [by left|right].
    exists x. by rewrite pin_is_wrap.
  - intros j. rewrite pin_live, (pin_same e_ops), pin_slot by done. apply (calm_slot _ _ C).
  - intros j k. rewrite !pin_live, !(pin_same e_ops), !pin_slot by done. apply (calm_slot_inj _ _ C).
  - intros j k. rewrite !pin_live, !(pin_same e_ops), !pin_real by done. apply (calm_real_inj _ _ C).
  - intros j sl. rewrite pin_live, (pin_same e_ops), pin_real by done. apply (calm_real_own _ _ C).
Qed.

(** The pin of [pin_fd] is given back. *)
Lemma unpin_pin i m (w : W) e :
  length (synth_table m) = SYNTH_TABLE_SIZE → live m i →
  wslcompat_synth_unpin i (mkst (pin i m) w e) = Ret tt (mkst m w e).
Proof.
  intros Hl [Hi Hr]. assert (refcount (entry_at (pin i m) i) = refcount (entry_at m i) + 1) as Hrc.
  { rewrite pin_entry, decide_True by (split; [done|lia]). done. }
  rewrite unpin_shared by (cbn [s_mem]; lia). cbn [s_mem s_world s_errno]. rewrite Hrc, Z.add_simpl_r.
  unfold pin. by rewrite set_refcount_back.
Qed.

Lemma live_match_wraps m i s :
  (i < SYNTH_TABLE_SIZE)%nat → live_match s (entry_at m i) = true ↔ wraps m i s.
Proof. intros Hi. unfold live_match, wraps, live. rewrite andb_true_iff, Z.ltb_lt. tauto. Qed.

Lemma pin_fd_cases fd x m (w : W) e :
  calm m w → tab w !! fd = Some x →
  (∃ i, wraps m i (d_stat x) ∧
     wslcompat_synth_pin_fd fd (mkst m w e) = Ret (Some i) (mkst (pin i m) w e)) ∨
  (¬ is_wrap m (d_stat x) ∧ wslcompat_synth_pin_fd fd (mkst m w e) = Ret None (mkst m w e)).
Proof.
  intros C Hx. pose proof (calm_len _ _ C) as Hlen.
  unfold wslcompat_synth_pin_fd, bind, sys. cbn [s_world s_mem s_errno].
  rewrite fstat_law, tab_fds, lookup_fmap, Hx. cbn [fmap option_fmap option_map].
  unfold synth_pin_lookup. rewrite pin_lookup_run_from by (cbn [s_mem]; lia). cbn [s_mem].
  destruct (list_find _ _) as [[k i]|] eqn:E.
  - left. apply list_find_Some in E as (Hk & Hm & _). apply lookup_seq in Hk as [-> Hk].
    exists k. split; [|done]. by apply live_match_wraps, Is_true_true.
  - right. split; [|done]. intros (i & Hw). apply list_find_None in E. rewrite Forall_forall in E.
    destruct Hw as [[Hi Hr] Hs]. apply (E i); [apply elem_of_seq; lia|].
    apply Is_true_true. by apply live_match_wraps.
Qed.

(** What is known of an entry while it is pinned. *)
Lemma pinned_load i m (w : W) e :
  calm m w → live m i →
  synth_probe_fd_load i (mkst (pin i m) w e) = Ret (probe_fd (entry_at m i)) (mkst (pin i m) w e).
Proof.
  intros C Hl. destruct (calm_ident _ _ C i Hl) as [Hi Ht]. unfold synth_probe_fd_load.
  rewrite load_base; cbn [view_entry view_base];
    rewrite ?(pin_same install_pid), ?(pin_same install_starttime), ?(pin_same probe_fd) by done;
    (done || apply (calm_cache _ _ C) || apply (calm_pid _ _ C)).
Qed.

(** The lock on the probe is refused while a descriptor of the wrap holds the shared one. *)
Lemma probe_lock_refused i m (w : W) e m' :
  calm m w → live m i → let p := probe_fd (entry_at m i) in
  ∃ w' e', (if p =? -1 then ret false
            else let* r := sys (k_flock p (Z.lor LOCK_EX LOCK_NB)) in
                 ret (match r with Some _ => true | None => false end)) (mkst m' w e)
           = Ret false (mkst m' w' e') ∧ tab w' = tab w ∧ kpid w' = kpid w.
Proof.
  intros C Hl p. destruct (Z.eqb_spec p (-1)) as [|Hp]; [by exists w, e|].
  destruct (calm_holder _ _ C i Hl) as (h & y & Hh & Hsh & [_ Hwh%same_inode_eq]).
  destruct (calm_probe _ _ C i Hl) as [|(x & Hx & Hxs & [_ Hxw%same_inode_eq])]; [done|].
  destruct Hsh as [|Hsh]; [done|].
  destruct (tab_flock p h w x y) as (er & w1 & E1 & Ht1); [done..| |].
  { apply same_inode_eq. destruct Hxw, Hwh. split; congruence. }
  pose proof (kstep_pid _ (k_flock p (Z.lor LOCK_EX LOCK_NB)) w) as Hk1. rewrite E1 in Hk1.
  unfold bind, sys. cbn [s_world s_mem s_errno]. rewrite E1. by exists w1, er.
Qed.

(** The scan of a list of descriptors that holds a hit. *)
Definition seek (hit : Z → bool) (fd : Z) (u : bool) : bool * bool := if hit fd then (true, true) else (false, u).

Lemma scan_seek hit h l u : h ∈ l → hit h = true → scan (seek hit) l u = true.
Proof.
  intros Hin Hh. induction l as [|fd l IH]; [by apply elem_of_nil in Hin|]. cbn [scan]. unfold seek at 1.
  destruct (hit fd) eqn:E; [done|]. apply elem_of_cons in Hin as [<-|Hin]; [congruence|by apply IH].
Qed.

Lemma other_found i m (w : W) e :
  calm m w → live m i → spacious 4 w →
  ∃ w' e', wslcompat_walk_proc_self_fd (post_close_visit i (probe_fd (entry_at m i))) false (mkst (pin i m) w e)
           = Ret true (mkst (pin i m) w' e') ∧ tab w' = tab w ∧ kpid w' = kpid w.
Proof.
  intros C Hl [Hr Hf]. set (p := probe_fd (entry_at m i)).
  set (hit := λ fd, negb (fd =? p) &&
    match tab w !! fd with Some z => same_inode (d_stat z) (e_stat (entry_at m i)) | None => false end).
  edestruct (walk_pure (post_close_visit i p) (seek hit) (pin i m) w) with (u := false) (e := e)
    as (l & w2 & e2 & E2 & Ht2 & Hk2 & Hnd & Hin); [|lia|lia|].
  { intros d w3 fd u e3 (Hd & (x & Hx) & _) [z Hz]. assert (d ≠ fd) by congruence.
    unfold post_close_visit, seek, hit. destruct (fd =? p); [by exists e3|].
    unfold bind at 1, sys. cbn [s_world s_mem s_errno negb andb]. rewrite fstat_law, tab_fds, lookup_fmap, Hx.
    rewrite lookup_insert_ne, Hz by done. cbn [fmap option_fmap option_map]. rewrite bind_getm. cbn [s_mem].
    rewrite (pin_same e_stat) by done. destruct (same_inode _ _); by exists e3. }
  exists w2, e2. split; [|done]. rewrite E2. f_equal.
  destruct (calm_holder _ _ C i Hl) as (h & y & Hh & Hsh & [_ Hwh%same_inode_eq]).
  apply (scan_seek hit h); [apply Hin; eauto|]. unfold hit. rewrite Hh. apply andb_true_iff. split.
  - apply negb_true_iff, Z.eqb_neq. intros ->. assert (0 ≤ p) as Hp by (apply (tab_range w); eauto).
    destruct (calm_probe _ _ C i Hl) as [E|(x & Hx & Hxs & _)]; [fold p in E; lia|].
    destruct Hsh as [E|Hsh]; [fold p in E; lia|]. fold p in Hx. congruence.
  - apply same_inode_eq. by destruct Hwh.
Qed.

(** After a close the reference is kept: some descriptor of the wrap still holds the lock. *)
Lemma post_close_keeps i m (w : W) e :
  calm m w → live m i → spacious 4 w →
  ∃ w' e', wslcompat_synth_post_close (Some i) (mkst (pin i m) w e) = Ret tt (mkst m w' e') ∧
    tab w' = tab w ∧ kpid w' = kpid w.
Proof.
  intros C Hl Hsp. destruct (calm_ident _ _ C i Hl) as [Hi Ht].
  destruct (probe_lock_refused i m w e (pin i m) C Hl) as (w1 & e1 & E1 & Ht1 & Hk1).
  assert (calm m w1) as C1 by (destruct C; split; rewrite ?Ht1, ?Hk1; done).
  destruct (other_found i m w1 e1 C1 Hl) as (w2 & e2 & E2 & Ht2 & Hk2); [by unfold spacious; rewrite Ht1|].
  exists w2, e2. split; [|split; congruence].
  cbn [wslcompat_synth_post_close]. rewrite bind_getpid. cbn [s_world].
  unfold wslcompat_self_starttime. rewrite bind_assoc, bind_getpid. cbn [s_world]. rewrite (calm_pid _ _ C).
  assert (wslcompat_self_starttime_pid id (mkst (pin i m) w e) = Ret t (mkst (pin i m) w e)) as E0.
  { apply (identity_cached w). split; [apply rtc_refl|]. split; [apply C|apply (calm_cache _ _ C)]. }
  rewrite (bind_Ret _ _ _ _ _ E0), bind_getm. cbn [s_mem].
  rewrite (pin_same install_pid), (pin_same install_starttime) by done.
  rewrite Hi, Ht, !Z.eqb_refl. cbn [negb orb]. rewrite (bind_Ret _ _ _ _ _ (pinned_load i m w e C Hl)).
  unfold synth_should_release. rewrite bind_assoc, (bind_Ret _ _ _ _ _ E1). cbv beta iota.
  rewrite bind_assoc, (bind_Ret _ _ _ _ _ E2). rewrite bind_ret. cbn [negb]. rewrite bind_ret.
  apply unpin_pin; [apply C|done].
Qed.

(** ** Moving an internal descriptor out of the way *)
Definition move (i : nat) (n : Z) (m : mem) : mem := upd_entry i (set_probe_fd n) m.

Lemma move_entry i n j m :
  entry_at (move i n m) j =
  if decide (i = j ∧ (i < length (synth_table m))%nat) then set_probe_fd n (entry_at m j) else entry_at m j.
Proof.
  unfold move, entry_at, upd_entry. cbn [synth_table set_synth_table].
  rewrite list_lookup_total_alter. case_decide as H; [by destruct H as [<- _]|done].
Qed.

Lemma move_same {A} (g : synth_entry → A) i n j m :
  (∀ x e, g (set_probe_fd x e) = g e) → g (entry_at (move i n m) j) = g (entry_at m j).
Proof. intros Hg. rewrite move_entry. case_decide; [apply Hg|done]. Qed.

Lemma move_live i n j m : live (move i n m) j ↔ live m j.
Proof. unfold live. by rewrite (move_same refcount). Qed.

Lemma move_wraps i n j m s : wraps (move i n m) j s ↔ wraps m j s.
Proof. unfold wraps. by rewrite move_live, (move_same e_stat). Qed.

Lemma move_is_wrap i n m s : is_wrap (move i n m) s ↔ is_wrap m s.
Proof. unfold is_wrap. by setoid_rewrite move_wraps. Qed.

Lemma move_slot i n j m : tty_slot (move i n m) j = tty_slot m j.
Proof. unfold tty_slot. by rewrite (move_same e_userptr). Qed.

Lemma move_real i n j m : real_of (move i n m) j = real_of m j.
Proof. unfold real_of. by rewrite move_slot. Qed.

Lemma move_locked i n j m x : probe_fd (entry_at m i) ≠ -1 → locked m j x → locked (move i n m) j x.
Proof.
  intros Hp Hl. unfold locked in *. rewrite move_entry. case_decide as Hij; [|done]. destruct Hij as [<- _].
  right. by destruct Hl.
Qed.

Lemma move_pin i n m : pin i (move i n m) = move i n (pin i m).
Proof.
  unfold pin at 1. rewrite (move_same refcount) by done. unfold move, pin. by rewrite !upd_entry_compose.
Qed.

Lemma calm_move i n x m (w w' : W) :
  calm m w → live m i → tab w !! probe_fd (entry_at m i) = Some x → tab w !! n = None →
  tab w' = <[n := with_cloexec true x]> (tab w) → kpid w' = kpid w → calm (move i n m) w'.
Proof.
  intros C Hl Hx Hn Ht Hk.
  assert (∀ fd y, tab w !! fd = Some y → tab w' !! fd = Some y) as Hgrow.
  { intros fd y Hy. rewrite Ht, lookup_insert_ne by congruence. done. }
  split.
  - rewrite Hk. apply C.
  - apply (calm_cache _ _ C).
  - apply (calm_dup3 _ _ C).
  - apply (calm_close _ _ C).
  - apply (calm_open _ _ C).
  - apply (calm_openat _ _ C).
  - unfold move. rewrite length_upd_entry. apply C.
  - apply (calm_tty_len _ _ C).
  - intros j k s. rewrite !move_wraps. apply (calm_unique _ _ C).
  - intros j. rewrite move_live. intros Hj. rewrite (move_same install_pid), (move_same install_starttime) by done. by apply C.
  - intros j. rewrite move_live. intros Hj. rewrite move_entry. case_decide as Hij; cbn [probe_fd set_probe_fd].
    + destruct Hij as [<- _]. right. exists (with_cloexec true x). rewrite Ht, lookup_insert_eq.
      split; [done|]. rewrite move_wraps.
      destruct (calm_probe _ _ C i Hl) as [E|(y & Hy & H)]; [|by simplify_eq].
      assert (is_Some (tab w !! (-1))) as Hs by (rewrite <-E; eauto). apply tab_range in Hs. lia.
    + destruct (calm_probe _ _ C j Hj) as [E|(y & Hy & Hys & Hw)]; [by left|right].
      exists y. rewrite move_wraps. eauto.
  - intros j. rewrite move_live. intros Hj. rewrite (move_same e_ops), move_real by done. intros Ho.
    destruct (calm_real _ _ C j Hj Ho) as [|(y & Hy & Hw)]; [by left|right]. exists y. rewrite move_is_wrap. eauto.
  - intros j. rewrite move_live. intros Hj. destruct (calm_holder _ _ C j Hj) as (fd & y & Hy & Hs & Hw).
    exists fd, y. rewrite move_wraps. split; [eauto|]. split; [|done]. apply move_locked; [|done]. intros E.
    assert (is_Some (tab w !! (-1))) as Hs1 by (rewrite <-E; eauto). apply tab_range in Hs1. lia.
  - intros sl Hsl. destruct (calm_registry _ _ C sl Hsl) as [|(y & Hy & Hw)]; [by left|right].
    exists y. rewrite move_is_wrap. eauto.
  - intros j. rewrite move_live, (move_same e_ops), move_slot by done. apply (calm_slot _ _ C).
  - intros j k. rewrite !move_live, !(move_same e_ops), !move_slot by done. apply (calm_slot_inj _ _ C).
  - intros j k. rewrite !move_live, !(move_same e_ops), !move_real by done. apply (calm_real_inj _ _ C).
  - intros j sl. rewrite move_live, (move_same e_ops), move_real by done. apply (calm_real_own _ _ C).
Qed.

Lemma relocate_view_noop v m (w : W) e target :
  starttime_cache m = {| p_starttime := t; p_pid := wrap_u 32 id |} → kpid w = id →
  install_pid (entry_at m (view_entry v)) = id → install_starttime (entry_at m (view_entry v)) = t →
  view_base v m ≠ target →
  wslcompat_view_fd_relocate v target (mkst m w e) = Ret 0 (mkst m w e).
Proof.
  intros ???? Hne. unfold wslcompat_view_fd_relocate.
  rewrite (bind_Ret _ _ _ _ _ (load_base v m w e ltac:(done) ltac:(done) ltac:(done) ltac:(done))).
  by rewrite (proj2 (Z.eqb_neq _ _) Hne).
Qed.

(** The handler's part of the relocation, and the end of the turn of the loop. *)
Lemma relocate_slot_end i m (w : W) e target :
  calm m w → live m i → ¬ (e_ops (entry_at m i) = h_tty ∧ real_of m i = target) →
  (let* o := entry_ops i in
   match op_relocate o with Some f => f i target ;;* ret tt | None => ret tt end ;;*
   wslcompat_synth_unpin i ;;* ret (A:=option unit) None) (mkst (pin i m) w e) = Ret None (mkst m w e).
Proof.
  intros C Hl Hne. unfold entry_ops. rewrite bind_getm. cbn [s_mem].
  rewrite (pin_same e_ops) by done. destruct (calm_ident _ _ C i Hl) as [Hi Ht].
  pose proof (unpin_pin i m w e (calm_len _ _ C) Hl) as Eu.
  destruct (e_ops (entry_at m i)) eqn:Eo; cbn [ops_of lib_handlers null_ops tty_ops mmap_min_addr_ops proc_pid_mem_ops op_relocate].
  1,3,4: by rewrite bind_ret, (bind_Ret _ _ _ _ _ Eu).
  unfold tty_relocate, tty_of. rewrite !bind_assoc, bind_getm, bind_assoc. cbn [s_mem].
  rewrite (bind_Ret _ _ _ (0) (mkst (pin i m) w e)).
  - by rewrite !bind_ret, (bind_Ret _ _ _ _ _ Eu).
  - apply relocate_view_noop; cbn [view_entry view_base];
      rewrite ?(pin_same install_pid), ?(pin_same install_starttime) by done;
      (done || apply (calm_cache _ _ C) || apply (calm_pid _ _ C) || idtac).
    intros E. apply Hne. split; [done|]. rewrite <-E. unfold real_of, tty_slot.
    by rewrite (pin_same e_userptr).
Qed.

Lemma synth_pin_live i m (w : W) e : live m i → synth_pin i (mkst m w e) = Ret true (mkst (pin i m) w e).
Proof.
  intros [_ Hr]. unfold synth_pin. rewrite bind_getm. cbn [s_mem]. by rewrite (proj2 (Z.ltb_lt _ _) Hr).
Qed.

(** Entry [i] keeps its own descriptors off [target]. *)
Definition clear (m : mem) (i : nat) (target : Z) : Prop :=
  live m i → probe_fd (entry_at m i) ≠ target ∧ ¬ (e_ops (entry_at m i) = h_tty ∧ real_of m i = target).

Lemma relocate_slot_noop i m (w : W) e target :
  calm m w → (i < SYNTH_TABLE_SIZE)%nat → clear m i target →
  relocate_slot target i (mkst m w e) = Ret None (mkst m w e).
Proof.
  intros C Hi Hc. destruct (decide (0 < refcount (entry_at m i))) as [Hr|Hr].
  - assert (live m i) as Hl by done. destruct (Hc Hl) as [Hp Hn]. destruct (calm_ident _ _ C i Hl).
    unfold relocate_slot. rewrite (bind_Ret _ _ _ _ _ (synth_pin_live i m w e Hl)). cbv beta iota.
    rewrite (bind_Ret _ _ _ 0 (mkst (pin i m) w e)); [by apply relocate_slot_end|].
    apply relocate_view_noop; cbn [view_entry view_base];
      rewrite ?(pin_same install_pid), ?(pin_same install_starttime), ?(pin_same probe_fd) by done;
      (done || apply (calm_cache _ _ C) || apply (calm_pid _ _ C)).
  - unfold relocate_slot, synth_pin. rewrite bind_assoc, bind_getm. cbn [s_mem].
    by rewrite (proj2 (Z.ltb_ge _ _)) by lia.
Qed.

Lemma relocate_slot_moves i x m (w : W) e :
  calm m w → live m i → let target := probe_fd (entry_at m i) in
  tab w !! target = Some x → ¬ (e_ops (entry_at m i) = h_tty ∧ real_of m i = target) →
  (size (tab w) < room)%nat →
  ∃ n w', relocate_slot target i (mkst m w e) = Ret None (mkst (move i n m) w' e) ∧
    tab w !! n = None ∧ tab w' = <[n := with_cloexec true x]> (tab w) ∧ kpid w' = kpid w.
Proof.
  intros C Hl target Hx Hn Hroom. destruct (calm_ident _ _ C i Hl) as [Hi Ht].
  destruct (tab_dupfd target 3 w x Hx ltac:(lia) Hroom) as (n & w' & Ed & H3 & Hfree & Ht').
  pose proof (kstep_pid _ (k_fcntl target F_DUPFD_CLOEXEC (arg_int 3)) w) as Hk. rewrite Ed in Hk. cbn [snd] in Hk.
  exists n, w'. split; [|done]. pose proof (calm_move i n x m w w' C Hl Hx Hfree Ht' Hk) as C'.
  unfold relocate_slot. rewrite (bind_Ret _ _ _ _ _ (synth_pin_live i m w e Hl)). cbv beta iota.
  rewrite (bind_Ret _ _ _ n (mkst (pin i (move i n m)) w' e)).
  { apply relocate_slot_end; [done|by rewrite move_live|]. by rewrite (move_same e_ops), move_real. }
  unfold wslcompat_view_fd_relocate. change (wslcompat_view_fd_load (v_probe i)) with (synth_probe_fd_load (W:=W) i).
  rewrite (bind_Ret _ _ _ _ _ (pinned_load i m w e C Hl)). fold target. rewrite Z.eqb_refl. cbn [negb].
  unfold bind at 1, sys. cbn [s_world s_mem s_errno]. rewrite Ed.
  unfold wslcompat_view_fd_cas. rewrite bind_assoc, bind_getpid. cbn [s_world].
  rewrite bind_assoc, (bind_Ret _ _ _ t (mkst (pin i m) w' e)).
  2:{ rewrite (calm_pid _ _ C'). apply (identity_cached w'). split; [apply rtc_refl|].
      split; [apply C'|apply (calm_cache _ _ C)]. }
  rewrite bind_assoc, bind_getm. cbn [s_mem view_entry]. unfold synth_is_installer.
  rewrite (pin_same install_pid), (pin_same install_starttime), Hi, Ht, (calm_pid _ _ C'), !Z.eqb_refl by done.
  cbn [andb]. rewrite bind_assoc, bind_getm. cbn [s_mem view_base]. rewrite (pin_same probe_fd) by done.
  fold target. rewrite Z.eqb_refl. rewrite bind_assoc, bind_setm, bind_ret. cbn [s_mem s_world s_errno set_view_base].
  by rewrite move_pin.
Qed.

Lemma for_each_noop {I A} (l : list I) (body : I → prog (st W) (option A)) s :
  (∀ i, i ∈ l → body i s = Ret None s) → for_each l body s = Ret None s.
Proof.
  induction l as [|i l IH]; intros H; [done|]. cbn [for_each].
  rewrite (bind_Ret _ _ _ _ _ (H i (list_elem_of_here _ _))). apply IH. intros j Hj. apply H. by right.
Qed.

Lemma for_each_app {I A} (l1 l2 : list I) (body : I → prog (st W) (option A)) s s' :
  for_each l1 body s = Ret None s' → for_each (l1 ++ l2) body s = for_each l2 body s'.
Proof.
  revert s. induction l1 as [|i l1 IH]; intros s; [by intros [= ->]|]. cbn [for_each app]. unfold bind.
  destruct (body i s) as [[]| |]; [done| |done..]. apply IH.
Qed.

(** No internal descriptor has the number: nothing is moved. *)
Lemma registry_noop m (w : W) e target :
  (∀ sl, registered m sl → slot_value m sl ≠ target) →
  wslcompat_relocate_internal_fd target (mkst m w e) = Ret tt (mkst m w e).
Proof.
  intros H. unfold wslcompat_relocate_internal_fd. rewrite bind_getm. cbn [s_mem].
  rewrite (bind_Ret _ _ _ None (mkst m w e)); [done|]. apply for_each_noop. intros i Hi%elem_of_seq.
  unfold relocate_one. rewrite bind_getm. cbn [s_mem]. destruct (registry m !!! i) as [sl|] eqn:E; [|done].
  rewrite bind_getm. cbn [s_mem]. rewrite (proj2 (Z.eqb_neq _ _)); [done|]. apply H. exists i.
  destruct (Z.ltb_spec (Z.of_nat MAX_INTERNAL_FDS) (registry_count m)); split_and!; (done || lia).
Qed.

Lemma relocate_noop m (w : W) e target :
  calm m w → ¬ internal m target → relocate_internal target (mkst m w e) = Ret tt (mkst m w e).
Proof.
  intros C Hint. unfold relocate_internal, wslcompat_synth_relocate_internal.
  rewrite bind_assoc, (bind_Ret _ _ _ None (mkst m w e)).
  - rewrite bind_ret. apply registry_noop. intros sl Hsl E. apply Hint. right. eauto.
  - apply for_each_noop. intros i Hi%elem_of_seq. apply relocate_slot_noop; [done|lia|].
    intros Hl. split; [intros E|intros [Ho E]]; apply Hint; left; exists i; eauto.
Qed.

(** ** A synthetic descriptor is internal only as the probe of its own entry *)
Section apart.
Variables (m : mem) (w : W) (target : Z) (x : fdesc) (i : nat).
Hypothesis C : calm m w.
Hypothesis Hx : tab w !! target = Some x.
Hypothesis Hi : wraps m i (d_stat x).

Lemma target_range : 0 ≤ target.
Proof. by apply (tab_range w); rewrite Hx. Qed.

Lemma real_apart j : live m j → ¬ (e_ops (entry_at m j) = h_tty ∧ real_of m j = target).
Proof.
  intros Hj [Ho E]. pose proof target_range. destruct (calm_real _ _ C j Hj Ho) as [E1|(y & Hy & Hw)]; [lia|].
  apply Hw. exists i. rewrite E in Hy. by simplify_eq.
Qed.

Lemma registry_apart sl : registered m sl → slot_value m sl ≠ target.
Proof.
  intros Hsl E. pose proof target_range. destruct (calm_registry _ _ C sl Hsl) as [|(y & Hy & Hw)]; [lia|].
  apply Hw. exists i. rewrite E in Hy. by simplify_eq.
Qed.

Lemma probe_apart j : live m j → probe_fd (entry_at m j) = target → j = i.
Proof.
  intros Hj E. pose proof target_range. destruct (calm_probe _ _ C j Hj) as [|(y & Hy & _ & Hw)]; [lia|].
  rewrite E in Hy. simplify_eq. by eapply (calm_unique _ _ C).
Qed.

Lemma internal_apart : internal m target → probe_fd (entry_at m i) = target.
Proof.
  intros [(j & Hj & [E|E])|(sl & Hsl & E)].
  - by rewrite <-(probe_apart j Hj E).
  - by destruct (real_apart j Hj).
  - by destruct (registry_apart sl Hsl).
Qed.
End apart.

(** The probe of entry [i] has the number: it moves, and nothing else does. *)
Lemma relocate_moves i x m (w : W) e :
  calm m w → let target := probe_fd (entry_at m i) in
  tab w !! target = Some x → wraps m i (d_stat x) → (size (tab w) < room)%nat →
  ∃ n w', relocate_internal target (mkst m w e) = Ret tt (mkst (move i n m) w' e) ∧
    tab w !! n = None ∧ tab w' = <[n := with_cloexec true x]> (tab w) ∧ kpid w' = kpid w.
Proof.
  intros C target Hx Hwx Hroom. destruct (Hwx) as [Hl _].
  pose proof (real_apart m w target x i C Hx Hwx) as Hreal.
  pose proof (registry_apart m w target x i C Hx Hwx) as Hreg.
  pose proof (probe_apart m w target x i C Hx Hwx) as Hprobe.
  destruct (relocate_slot_moves i x m w e C Hl Hx (Hreal i Hl) Hroom) as (n & w' & E & Hn & Ht & Hk).
  exists n, w'. split; [|done]. pose proof (calm_move i n x m w w' C Hl Hx Hn Ht Hk) as C'.
  unfold relocate_internal, wslcompat_synth_relocate_internal. rewrite bind_assoc.
  rewrite (bind_Ret _ _ _ None (mkst (move i n m) w' e)); [rewrite bind_ret; by apply registry_noop|].
  destruct Hl as [Hi Hr].
  replace (seq 0 SYNTH_TABLE_SIZE) with (seq 0 i ++ i :: seq (S i) (SYNTH_TABLE_SIZE - S i)).
  2:{ change (i :: seq (S i) (SYNTH_TABLE_SIZE - S i)) with (seq i (S (SYNTH_TABLE_SIZE - S i))).
      rewrite <-(seq_app i _ 0). f_equal. lia. }
  erewrite for_each_app.
  2:{ apply for_each_noop. intros j Hj%elem_of_seq. apply relocate_slot_noop; [done|lia|].
      intros Hlj. split; [|by apply Hreal]. intros Ej%Hprobe; [lia|done]. }
  cbn [for_each]. rewrite (bind_Ret _ _ _ _ _ E). apply for_each_noop.
  intros j Hj%elem_of_seq. apply relocate_slot_noop; [done|lia|]. intros Hlj. rewrite move_live in Hlj.
  rewrite move_entry, decide_False by lia. rewrite move_real. split; [|by apply Hreal].
  intros Ej%Hprobe; [lia|done].
Qed.

(** ** Duplicating and closing *)

(** What the library keeps for itself is open, or has been given up. *)
Lemma internal_open m (w : W) fd : calm m w → internal m fd → fd < 0 ∨ is_Some (tab w !! fd).
Proof.
  intros C [(j & Hj & [<-|[Ho <-]])|(sl & Hsl & <-)].
  - destruct (calm_probe _ _ C j Hj) as [->|(x & -> & _)]; [left; lia|eauto].
  - destruct (calm_real _ _ C j Hj Ho) as [->|(x & -> & _)]; [left; lia|eauto].
  - destruct (calm_registry _ _ C sl Hsl) as [|(x & -> & _)]; eauto.
Qed.

(** Every live entry has a descriptor holding the lock beside [fd]. *)
Definition held_beside (fd : Z) (m : mem) (w : W) : Prop :=
  ∀ i, live m i → ∃ h z, h ≠ fd ∧ tab w !! h = Some z ∧ locked m i z ∧ wraps m i (d_stat z).

(** Changes of the table that leave the internal descriptors alone and an owner of every lock. *)
Lemma calm_retable m (w w' : W) :
  calm m w → kpid w' = kpid w → (∀ fd, internal m fd → tab w' !! fd = tab w !! fd) →
  (∀ i, live m i → ∃ fd x, tab w' !! fd = Some x ∧ locked m i x ∧ wraps m i (d_stat x)) → calm m w'.
Proof.
  intros C Hk Hint Hh. split; try apply C; [by rewrite Hk; apply C|..].
  - intros i Hl. rewrite Hint; [by apply C|]. left. exists i. eauto.
  - intros i Hl Ho. rewrite Hint; [by apply C|]. left. exists i. eauto.
  - done.
  - intros sl Hsl. rewrite Hint; [by apply C|]. right. eauto.
Qed.

(** The library's operation tables have no close and dup notifications. *)
Lemma notify_close_none i (s : st W) : notify op_close (Some i) s = Ret tt s.
Proof. unfold notify, entry_ops. rewrite bind_getm. by destruct (e_ops _). Qed.
Lemma notify_dup_none i (s : st W) : notify op_dup (Some i) s = Ret tt s.
Proof. unfold notify, entry_ops. rewrite bind_getm. by destruct (e_ops _). Qed.

(** What relocating for a descriptor of entry [i] does: nothing, or the probe moves. *)
Definition shifted (i : nat) (fd : Z) (x : fdesc) (m : mem) (T : gmap Z fdesc) (m' : mem)
    (T' : gmap Z fdesc) : Prop :=
  (m' = m ∧ T' = T) ∨
  (∃ n, probe_fd (entry_at m i) = fd ∧ T !! n = None ∧ m' = move i n m ∧ T' = <[n := with_cloexec true x]> T).

Lemma relocate_wrap i fd x m (w : W) e :
  calm m w → tab w !! fd = Some x → wraps m i (d_stat x) → (size (tab w) < room)%nat →
  ∃ m' w', relocate_internal fd (mkst m w e) = Ret tt (mkst m' w' e) ∧ calm m' w' ∧
    ¬ internal m' fd ∧ shifted i fd x m (tab w) m' (tab w') ∧ kpid w' = kpid w.
Proof.
  intros C Hx Hw Hroom. destruct (decide (probe_fd (entry_at m i) = fd)) as [<-|Hne].
  - destruct (relocate_moves i x m w e C Hx Hw Hroom) as (n & w' & E & Hn & Ht & Hk).
    destruct (Hw) as [Hl _]. exists (move i n m), w'. split; [done|].
    split; [by eapply calm_move|]. split; [|split; [right; eauto|done]].
    intros [(j & Hj & [Ej|[Ho Ej]])|(sl & Hsl & Ej)]; [rewrite move_live in Hj..|].
    + rewrite move_entry in Ej. case_decide as Hd; [cbn [probe_fd set_probe_fd] in Ej; congruence|].
      apply (probe_apart m w _ x i C Hx Hw j Hj) in Ej as ->. apply Hd. split; [done|].
      rewrite (calm_len _ _ C). apply Hj.
    + rewrite (move_same e_ops) in Ho by done. rewrite move_real in Ej.
      by apply (real_apart m w _ x i C Hx Hw j Hj).
    + by apply (registry_apart m w _ x i C Hx Hw sl Hsl).
  - assert (¬ internal m fd) as Hint by (intros ?; by apply Hne, (internal_apart m w fd x i)).
    exists m, w. split; [by apply relocate_noop|]. split; [done|]. split; [done|]. split; [by left|done].
Qed.

Lemma pin_wrap i fd x m (w : W) e :
  calm m w → tab w !! fd = Some x → wraps m i (d_stat x) →
  wslcompat_synth_pin_fd fd (mkst m w e) = Ret (Some i) (mkst (pin i m) w e).
Proof.
  intros C Hx Hw. destruct (pin_fd_cases fd x m w e C Hx) as [(j & Hj & E)|[Hn _]].
  - by rewrite (calm_unique _ _ C _ _ _ Hw Hj).
  - destruct Hn. by exists i.
Qed.

(** dup3 over a synthetic descriptor: the entry survives, its probe moves away if need be. *)
Lemma dup3_over_wrap old fd (b : bool) i x y m (w : W) e :
  calm m w → tab w !! fd = Some x → wraps m i (d_stat x) → tab w !! old = Some y → old ≠ fd →
  held_beside fd m w → spacious 5 w →
  ∃ m' w' e' T, dup3 old fd (if b then O_CLOEXEC else 0) (mkst m w e) = Ret (Some fd) (mkst m' w' e') ∧
    calm m' w' ∧ ¬ internal m' fd ∧ shifted i fd x m (tab w) m' T ∧ tab w' = <[fd := with_cloexec b y]> T.
Proof.
  intros C Hx Hw Hy Hne Hheld [Hr Hf].
  destruct (relocate_wrap i fd x m w e C Hx Hw ltac:(lia)) as (m1 & w1 & E1 & C1 & Hint & Hsh & Hk1).
  assert (∀ k z, tab w !! k = Some z → tab w1 !! k = Some z) as Hgrow.
  { destruct Hsh as [[_ ->]|(n & _ & Hn & _ & ->)]; [done|]. intros k z Hz.
    by rewrite lookup_insert_ne by congruence. }
  assert (∀ j s, wraps m1 j s ↔ wraps m j s) as Hw1.
  { destruct Hsh as [[-> _]|(n & _ & _ & -> & _)]; [done|]. intros; apply move_wraps. }
  assert (size (tab w1) ≤ S (size (tab w)))%nat as Hsz.
  { destruct Hsh as [[_ ->]|(n & _ & Hn & _ & ->)]; [lia|]. by rewrite map_size_insert_None. }
  destruct (tab_dup3 old fd b w1 y) as (w2 & E2 & Ht2); [eauto..|done|].
  pose proof (kstep_pid _ (k_dup3 old fd (if b then O_CLOEXEC else 0)) w1) as Hk2. rewrite E2 in Hk2. cbn [snd] in Hk2.
  assert (calm m1 w2) as C2.
  { apply (calm_retable m1 w1); [done..| |].
    - intros k Hki. rewrite Ht2, lookup_insert_ne by congruence. done.
    - intros j Hj. destruct (Hheld j) as (h & z & Hhn & Hz & Hzs & Hzw).
      { destruct Hsh as [[-> _]|(n & _ & _ & -> & _)]; [done|by rewrite move_live in Hj]. }
      exists h, z. rewrite Ht2, lookup_insert_ne, Hw1 by congruence. split; [eauto|]. split; [|done].
      destruct Hsh as [[-> _]|(n & Hp & _ & -> & _)]; [done|]. apply move_locked; [|done].
      assert (0 ≤ fd) by (apply (tab_range w); eauto). lia. }
  destruct (post_close_keeps i m1 w2 e C2) as (w3 & e3 & E3 & Ht3 & Hk3).
  { destruct (proj2 (Hw1 i (d_stat x)) Hw) as [? _]. done. }
  { unfold spacious. rewrite Ht2, map_size_insert_Some by eauto. lia. }
  exists m1, w3, e, (tab w1). split.
  - unfold dup3, wslcompat_passthru. rewrite bind_getm. cbn [s_mem]. rewrite (calm_dup3 _ _ C). cbn [negb].
    unfold dup_common. cbn [andb]. rewrite (bind_Ret _ _ _ _ _ E1). unfold wslcompat_synth_pre_close.
    rewrite (bind_Ret _ _ _ _ _ (pin_wrap i fd x m1 w1 e C1 (Hgrow _ _ Hx) (proj2 (Hw1 _ _) Hw))).
    rewrite (bind_Ret _ _ _ _ _ (notify_dup_none _ _)).
    unfold bind at 1, sys. cbn [s_world s_mem s_errno]. rewrite E2.
    unfold preserve_errno. rewrite !bind_assoc, bind_get_errno. cbn [s_errno].
    by rewrite bind_assoc, (bind_Ret _ _ _ _ _ E3).
  - split; [|split; [done|split; [done|by rewrite Ht3]]].
    apply (calm_retable m1 w2); [done..| |]; rewrite Ht3; [done|]. apply C2.
Qed.

(** dup3 over a descriptor that is neither synthetic nor the library's own. *)
Lemma dup3_over_plain old fd (b : bool) x y m (w : W) e :
  calm m w → tab w !! fd = Some y → ¬ is_wrap m (d_stat y) → ¬ internal m fd →
  tab w !! old = Some x → old ≠ fd →
  ∃ w', dup3 old fd (if b then O_CLOEXEC else 0) (mkst m w e) = Ret (Some fd) (mkst m w' e) ∧
    calm m w' ∧ tab w' = <[fd := with_cloexec b x]> (tab w).
Proof.
  intros C Hy Hnw Hint Hx Hne. destruct (tab_dup3 old fd b w x) as (w1 & E1 & Ht1); [eauto..|done|].
  pose proof (kstep_pid _ (k_dup3 old fd (if b then O_CLOEXEC else 0)) w) as Hk. rewrite E1 in Hk. cbn [snd] in Hk.
  exists w1. split; [|split; [|done]].
  - unfold dup3, wslcompat_passthru. rewrite bind_getm. cbn [s_mem]. rewrite (calm_dup3 _ _ C). cbn [negb].
    unfold dup_common. cbn [andb]. rewrite (bind_Ret _ _ _ _ _ (relocate_noop m w e fd C Hint)).
    unfold wslcompat_synth_pre_close.
    destruct (pin_fd_cases fd y m w e C Hy) as [(j & Hj & _)|[_ E]]; [destruct Hnw; by exists j|].
    rewrite (bind_Ret _ _ _ _ _ E). cbn [notify]. rewrite bind_ret.
    unfold bind at 1, sys. cbn [s_world s_mem s_errno]. rewrite E1. done.
  - apply (calm_retable m w); [done..| |].
    + intros k Hk1. rewrite Ht1, lookup_insert_ne by congruence. done.
    + intros j Hj. destruct (calm_holder _ _ C j Hj) as (h & z & Hz & Hzs & Hzw).
      exists h, z. rewrite Ht1, lookup_insert_ne; [done|]. intros ->. apply Hnw. exists j. by simplify_eq.
Qed.

(** close of one of several descriptors of an entry. *)
Lemma close_wrap i fd x m (w : W) e :
  calm m w → tab w !! fd = Some x → wraps m i (d_stat x) → ¬ internal m fd → held_beside fd m w →
  spacious 4 w →
  ∃ w', close fd (mkst m w e) = Ret (Some tt) (mkst m w' e) ∧ calm m w' ∧ tab w' = delete fd (tab w).
Proof.
  intros C Hx Hw Hint Hheld [Hr Hf]. destruct (tab_close fd w) as (w1 & E1 & Ht1); [eauto|].
  pose proof (kstep_pid _ (k_close fd) w) as Hk. rewrite E1 in Hk. cbn [snd] in Hk.
  assert (calm m w1) as C1.
  { apply (calm_retable m w); [done..| |].
    - intros k Hk1. rewrite Ht1, lookup_delete_ne by congruence. done.
    - intros j Hj. destruct (Hheld j Hj) as (h & z & Hhn & Hz & H). exists h, z.
      by rewrite Ht1, lookup_delete_ne by congruence. }
  destruct (post_close_keeps i m w1 e C1) as (w2 & e2 & E2 & Ht2 & Hk2); [apply Hw| |].
  { pose proof (map_size_delete fd (tab w)) as Hsd. rewrite Hx in Hsd. unfold spacious. rewrite Ht1. lia. }
  exists w2. split; [|split; [|by rewrite Ht2]].
  - unfold close, wslcompat_passthru. rewrite bind_getm. cbn [s_mem]. rewrite (calm_close _ _ C). cbn [negb].
    unfold wslcompat_synth_pre_close. rewrite (bind_Ret _ _ _ _ _ (pin_wrap i fd x m w e C Hx Hw)).
    rewrite (bind_Ret _ _ _ _ _ (notify_close_none _ _)).
    rewrite (bind_Ret _ _ _ _ _ (relocate_noop (pin i m) w e fd (calm_pin i m w C (proj1 Hw))
      (λ H, Hint (proj1 (pin_internal i fd m (proj1 Hw)) H)))).
    unfold bind at 1, sys. cbn [s_world s_mem s_errno]. rewrite E1.
    unfold preserve_errno. rewrite !bind_assoc, bind_get_errno. cbn [s_errno].
    by rewrite bind_assoc, (bind_Ret _ _ _ _ _ E2).
  - apply (calm_retable m w1); [done..| |]; rewrite Ht2; [done|]. apply C1.
Qed.
End calm.
