(* ===== verification/TabKernel.v ===== *)
(** * A kernel with a descriptor table

    An executable kernel with one process that satisfies the interface of FdTable.v, used to run the
    save and restore around an exec. *)

From stdpp Require Import gmap.
From S2P Require Import Prelude CString Kernel State Walk Synth FdTable.

Open Scope Z_scope.

Module TabKernel.
Record world := { k_tab : gmap Z fdesc; k_dirs : gmap Z (list string) }.

Definition open_tab (w : world) : gmap Z fdesc := filter (λ p : Z * fdesc, 0 ≤ p.1 ≤ INT_MAX) (k_tab w).

(** The lowest free number from [mn] on; 256 descriptors can be open. *)
Definition lowest (mn : Z) (w : world) : option Z :=
  snd <$> list_find (λ z, open_tab w !! z = None) (Z.of_nat <$> seq (Z.to_nat mn) 256).

Definition install (d : Z) (x : fdesc) (w : world) : world :=
  {| k_tab := <[d := x]> (k_tab w); k_dirs := delete d (k_dirs w) |}.
Definition set_dir (d : Z) (l : list string) (w : world) : world :=
  {| k_tab := k_tab w; k_dirs := <[d := l]> (k_dirs w) |}.
Definition shut (d : Z) (w : world) : world :=
  {| k_tab := delete d (k_tab w); k_dirs := delete d (k_dirs w) |}.

Definition dir_file : stat := {| st_dev := 3; st_ino := 1; st_mode := 0 |}.
Definition dir (flags : Z) : fdesc := new_desc dir_file flags.

Definition listing (w : world) : list string := "." :: ".." :: (fmt_d <$> (map_to_list (open_tab w)).*1).

(** A lock on another open file of the inode. *)
Definition contended (x : fdesc) (w : world) : bool :=
  negb (d_shared x) &&
  existsb (λ p : Z * fdesc, d_shared p.2 && same_inode (d_stat x) (d_stat p.2)) (map_to_list (open_tab w)).

(** The descriptor that a path below /proc/self/fd names. *)
Definition named (path : string) (w : world) : option fdesc :=
  snd ∘ snd <$> list_find (λ p : Z * fdesc, proc_self_fd p.1 = path) (map_to_list (open_tab w)).

(** An inode that no descriptor has. *)
Definition new_file (w : world) : stat :=
  {| st_dev := 7; st_ino := 1 + foldr (λ p : Z * fdesc, Z.max (st_ino (d_stat p.2))) 0 (map_to_list (open_tab w)); st_mode := 0 |}.

Definition open_as (x : fdesc) (w : world) : (Z + Z) * world :=
  match lowest 0 w with Some d => (inl d, install d x w) | None => (inr EMFILE, w) end.

Definition replace (fd : Z) (x : fdesc) (w : world) : world :=
  {| k_tab := <[fd := x]> (k_tab w); k_dirs := k_dirs w |}.

Definition step {R} (c : call R) (w : world) : (R + Z) * world :=
  match c in call R return (R + Z) * world with
  | k_open path fl _ =>
      if decide (path = "/proc/self/fd") then
        match lowest 0 w with
        | Some d => let w1 := install d (dir fl) w in (inl d, set_dir d (listing w1) w1)
        | None => (inr EMFILE, w)
        end
      else match named path w with
           | Some x => open_as (new_desc (d_stat x) fl) w
           | None => (inr ENOENT, w)
           end
  | k_openat _ _ fl _ =>
      open_as (new_desc (if has_bits fl O_CREAT && has_bits fl O_EXCL then new_file w else dir_file) fl) w
  | k_getrandom _ => (inl "abcdefgh", w)
  | k_unlinkat _ _ _ => (inl tt, w)
  | k_write fd b => (inl (Z.of_nat (String.length b)), w)
  | k_read fd _ =>
      (match open_tab w !! fd with
       | Some x => if d_path x then inr EBADF else inl "x"
       | None => inr EBADF
       end, w)
  | k_ioctl fd _ arg =>
      (match open_tab w !! fd with
       | Some x => if d_path x then inr EBADF else inl (0, arg)
       | None => inr EBADF
       end, w)
  | k_close fd => match open_tab w !! fd with Some _ => (inl tt, shut fd w) | None => (inr EBADF, w) end
  | k_fstat fd => (match open_tab w !! fd with Some x => inl (d_stat x) | None => inr EBADF end, w)
  | k_flock fd op =>
      match open_tab w !! fd with
      | Some x => if has_bits op LOCK_EX then (if contended x w then inr EWOULDBLOCK else inl tt, w)
                  else (inl tt, replace fd (with_shared (has_bits op LOCK_SH) x) w)
      | None => (inr EBADF, w)
      end
  | k_getdents64 fd _ => (inl (default [] (k_dirs w !! fd)), set_dir fd [] w)
  | k_dup3 old new flags =>
      match open_tab w !! old with
      | Some x => if (0 <=? new) && (new <=? INT_MAX) && negb (old =? new)
                  then (inl new, install new (with_cloexec (has_bits flags O_CLOEXEC) x) w) else (inr EINVAL, w)
      | None => (inr EBADF, w)
      end
  | k_fcntl fd cmd (arg_int a) =>
      match open_tab w !! fd with
      | Some x =>
          if cmd =? F_DUPFD_CLOEXEC then
            match lowest a w with
            | Some d => (inl d, install d (with_cloexec true x) w)
            | None => (inr EMFILE, w)
            end
          else if cmd =? F_GETFD then (inl (if d_cloexec x then FD_CLOEXEC else 0), w)
          else if cmd =? F_GETFL then (inl 0, w)
          else if cmd =? F_SETFD then (inl 0, replace fd (with_cloexec (has_bits a FD_CLOEXEC) x) w)
          else (inr EINVAL, w)
      | None => (inr EBADF, w)
      end
  | k_execv _ _ => (inr ENOENT, w)
  | k_system _ => (inl 0, w)
  | _ => (inr ENOSYS, w)
  end.

#[global] Instance kernel : Kernel world := {| kstep := @step; kpid := λ _, 100 |}.
#[global] Instance kernel_pid : KernelPid world.
Proof. done. Qed.

Lemma open_tab_install d x w : 0 ≤ d ≤ INT_MAX → open_tab (install d x w) = <[d := x]> (open_tab w).
Proof. intros Hd. unfold open_tab. simpl. by apply map_filter_insert_True. Qed.

Lemma open_tab_range w d : is_Some (open_tab w !! d) → 0 ≤ d ≤ INT_MAX.
Proof. intros [x Hx]. unfold open_tab in Hx. by apply map_lookup_filter_Some in Hx as [_ ?]. Qed.

Lemma lowest_range mn w d :
  0 ≤ mn ≤ 64 → lowest mn w = Some d → mn ≤ d ≤ INT_MAX ∧ open_tab w !! d = None.
Proof.
  unfold lowest. intros Hmn ([k z] & E & Hz)%fmap_Some. simpl in Hz. subst z.
  apply list_find_Some in E as (Hk & Hn & _). split; [|done].
  rewrite list_lookup_fmap in Hk. apply fmap_Some in Hk as (n & Hs%lookup_seq & ->).
  unfold INT_MAX. lia.
Qed.

(** There is a free number while fewer than 256 are taken. *)
Lemma lowest_exists mn w : 0 ≤ mn → (size (open_tab w) < 256)%nat → is_Some (lowest mn w).
Proof.
  intros Hmn Hsz. unfold lowest. rewrite fmap_is_Some.
  destruct (list_find _ _) eqn:E; [eauto|]. exfalso. apply list_find_None in E. rewrite Forall_forall in E.
  set (l := Z.of_nat <$> seq (Z.to_nat mn) 256) in *.
  assert (NoDup l) as Hnd by (apply NoDup_fmap_2; [intros ? ?; lia|apply NoDup_seq]).
  assert (size (list_to_set (C:=gset Z) l) ≤ size (dom (open_tab w)))%nat as Hle.
  { apply subseteq_size. intros z Hz%elem_of_list_to_set. apply elem_of_dom.
    destruct (open_tab w !! z) eqn:Ez; [eauto|]. by destruct (E z Hz). }
  rewrite size_list_to_set, size_dom in Hle by done. unfold l in Hle. rewrite length_fmap, length_seq in Hle. lia.
Qed.

#[global] Program Instance kernel_proc_fd : KernelProcFd world :=
  {| fds w := d_stat <$> open_tab w; pending w d := default [] (k_dirs w !! d) |}.
Next Obligation. intros w fd. cbv beta. rewrite lookup_fmap, fmap_is_Some. apply open_tab_range. Qed.
Next Obligation.
  intros fd w. cbn [kstep kernel step]. cbv beta. rewrite lookup_fmap. by destruct (open_tab w !! fd).
Qed.
Next Obligation.
  intros fl mo w d w'. cbn [kstep kernel step]. rewrite decide_True by done.
  destruct (lowest 0 w) as [d'|] eqn:El; [|done]. intros [= <- <-].
  apply lowest_range in El as [Hr Hn]; [|lia]. exists (d_stat (dir fl)).
  change (open_tab (set_dir d' ?l ?w1)) with (open_tab w1). rewrite open_tab_install by lia.
  rewrite lookup_fmap, Hn, fmap_insert. split; [done|]. split; [done|]. intros name.
  cbn [k_dirs set_dir]. rewrite lookup_insert_eq. cbn [default]. unfold listing.
  rewrite open_tab_install by lia. unfold Datatypes.id. rewrite !elem_of_cons.
  assert (name ∈ fmt_d <$> (map_to_list (<[d' := dir fl]> (open_tab w))).*1 ↔
    ∃ fd, name = fmt_d fd ∧ is_Some (<[d' := d_stat (dir fl)]> (d_stat <$> open_tab w) !! fd)) as Hl; [|tauto].
  assert (∀ fd, is_Some (<[d' := d_stat (dir fl)]> (d_stat <$> open_tab w) !! fd) ↔ is_Some (<[d' := dir fl]> (open_tab w) !! fd))
    as Hsome by (intros fd; by rewrite <-fmap_insert, lookup_fmap, fmap_is_Some).
  rewrite list_elem_of_fmap. split; intros (fd & -> & H); exists fd; (split; [done|]); [apply Hsome|apply Hsome in H].
  - apply list_elem_of_fmap in H as ([k x] & -> & H%elem_of_map_to_list). eauto.
  - destruct H as [x H]. apply list_elem_of_fmap. exists (fd, x). split; [done|]. by apply elem_of_map_to_list.
Qed.
Next Obligation.
  intros d n w w' r. cbn [kstep kernel step]. intros [= <- <-] _. split; [done|].
  eexists. split; [done|]. cbn [k_dirs set_dir]. rewrite lookup_insert_eq. simpl. by rewrite app_nil_r.
Qed.

Lemma contended_spec fd x y w :
  d_shared x = false → open_tab w !! fd = Some y → d_shared y = true →
  same_inode (d_stat x) (d_stat y) = true → contended x w = true.
Proof.
  intros Hx Hy Hs Hi. unfold contended. rewrite Hx. cbn [negb andb]. apply existsb_exists.
  exists (fd, y). split; [by apply list_elem_of_In, elem_of_map_to_list|]. simpl. by rewrite Hs, Hi.
Qed.

#[global] Program Instance kernel_table : KernelTable world := {| tab := open_tab; room := 256%nat |}.
Next Obligation. done. Qed.
Next Obligation.
  intros fd w [x Hx]. cbn [kstep kernel step]. rewrite Hx. eexists. split; [done|].
  unfold open_tab. simpl. apply map_filter_delete.
Qed.
Next Obligation.
  intros w Hsz. destruct (lowest_exists 0 w) as [d Hd]; [lia|done|].
  destruct (lowest_range 0 w d ltac:(lia) Hd) as [Hr Hn].
  set (fl := Z.lor O_RDONLY (Z.lor O_DIRECTORY O_CLOEXEC)). exists d, (dir fl). eexists. cbn [kstep kernel step]. rewrite Hd. split; [done|]. split; [done|].
  assert (open_tab (set_dir d (listing (install d (dir fl) w)) (install d (dir fl) w)) = <[d := dir fl]> (open_tab w)) as ->
    by (apply open_tab_install; lia).
  split; [done|]. cbn [pending kernel_proc_fd k_dirs set_dir]. rewrite lookup_insert_eq. cbn [default].
  unfold Datatypes.id, listing. rewrite open_tab_install by lia. split.
  - assert (∀ n, n ∈ fmt_d <$> (map_to_list (<[d := dir fl]> (open_tab w))).*1 → name_is_fd n = true) as Hname.
    { intros n (k & -> & Hk)%list_elem_of_fmap. apply name_is_fd_fmt.
      apply list_elem_of_fmap in Hk as ([k' x] & -> & Hk%elem_of_map_to_list). simpl.
      destruct (decide (k' = d)) as [->|]; [lia|]. rewrite lookup_insert_ne in Hk by done.
      destruct (open_tab_range w k'); eauto. }
    constructor; [|constructor].
    + intros [H|H]%elem_of_cons; [done|]. by apply Hname in H.
    + intros H. by apply Hname in H.
    + apply NoDup_fmap_2; [intros ??; apply (inj pretty)|apply NoDup_fst_map_to_list].
  - cbn [length]. rewrite !length_fmap, length_map_to_list, map_size_insert_None by done. lia.
Qed.
Next Obligation. intros d n w _. done. Qed.
Next Obligation. intros fd w x Hx. cbn [kstep kernel step]. by rewrite Hx. Qed.
Next Obligation.
  intros fd mn w x Hx Hmn Hsz. destruct (lowest_exists mn w) as [d Hd]; [lia|done|].
  destruct (lowest_range _ _ _ Hmn Hd) as [Hr Hn].
  exists d. eexists. cbn [kstep kernel step]. rewrite Hx. cbn [Z.eqb]. rewrite Hd. split; [done|].
  split; [lia|]. split; [done|]. apply open_tab_install. lia.
Qed.
Next Obligation.
  intros old new b w x Hx Hnew Hne. apply open_tab_range in Hnew. cbn [kstep kernel step]. rewrite Hx.
  rewrite (proj2 (Z.leb_le 0 new)), (proj2 (Z.leb_le new INT_MAX)), (proj2 (Z.eqb_neq _ _) Hne) by lia.
  eexists. split; [done|]. rewrite open_tab_install by done. by destruct b.
Qed.
Next Obligation.
  intros p fd w x y Hx Hxs Hy Hys Hi. cbn [kstep kernel step]. rewrite Hx.
  change (has_bits (Z.lor LOCK_EX LOCK_NB) LOCK_EX) with true. cbv iota. rewrite (contended_spec fd x y w) by done.
  eexists _, _. split; [done|done].
Qed.
End TabKernel.
