(* ===== verification/Worlds.v ===== *)
(** * What the bookkeeping does to the world outside

    Resolving a descriptor, taking and dropping references and asking a handler for its backing
    descriptor only make bookkeeping calls. A relation between worlds that those calls respect is
    respected by the table's code, whatever it does to memory. *)

From S2P Require Import Prelude CString Kernel State Tunables Override Walk Synth SynthFrames SynthFacts Close Tty Proc Dispatch Handlers.

Open Scope Z_scope.

(** [P] on the worlds of two states. *)
Definition wrel {W} (P : relation W) : relation (st W) := λ s s', P (s_world s) (s_world s').

#[export] Instance wrel_preorder {W} (P : relation W) `{!PreOrder P} : PreOrder (wrel P).
Proof. split; [intros s; unfold wrel; reflexivity | intros a b c H1 H2; unfold wrel in *; by etrans]. Qed.

(** The bookkeeping calls respect [P]. *)
Class Quiet {W} `{!Kernel W} (P : relation W) : Prop :=
  quiet : ∀ A (c : call A) w, bookkeeping c = true → P w (snd (kstep c w)).

Section worlds.
Context {W : Type} `{!Kernel W} {Hfuel : Fuel} (P : relation W) `{!PreOrder P, !Quiet P}.
Local Abbreviation M := (prog (st W)).

Lemma within_setm_w f : within (wrel P) (setm f).
Proof. apply within_setm. intros. unfold wrel. reflexivity. Qed.

Lemma within_set_errno_w e : within (wrel P) (set_errno e).
Proof. apply within_set_errno. intros. unfold wrel. reflexivity. Qed.

#[export] Instance wrel_book : AllowsBook (wrel P).
Proof.
  split; intros; [|apply within_setm_w..]. intros s. unfold sys, wrel.
  pose proof (quiet A c (s_world s) H) as Hq. destruct (kstep c (s_world s)) as [[r|e] w]; exact Hq.
Qed.

#[export] Instance wrel_cow v : AllowsCow (wrel P) v.
Proof. split; intros; apply within_setm_w. Qed.

#[local] Hint Resolve within_setm_w within_set_errno_w within_entry_ops within_probe_load
  within_probe_store within_should_release : within.

Lemma within_tty_load_w t e : within (wrel P) (tty_real_fd_load t e).
Proof. unfold tty_real_fd_load. within_auto. Qed.
#[local] Hint Resolve within_tty_load_w : within.

(** The callbacks of the library's handlers. *)
Lemma within_release_w h f i : op_release (ops_of h) = Some f → within (wrel P) (f i).
Proof. destruct h; intros [= <-]. unfold tty_release, tty_of. within_auto. Qed.

Lemma within_passthru_w h f i k : op_passthru (ops_of h) = Some f → within (wrel P) (f i k).
Proof. destruct h; intros [= <-]. unfold tty_passthru, tty_of. within_auto. Qed.

Lemma within_unpin_w i : within (wrel P) (wslcompat_synth_unpin i).
Proof.
  assert (within (wrel P) (synth_cleanup i)) as Hc.
  { unfold synth_cleanup. intros s. unfold entry_ops. rewrite bind_getm.
    destruct (op_release _) as [f|] eqn:Ef; within_run (wrel P); within_auto.
    by eapply within_release_w. }
  unfold wslcompat_synth_unpin. within_auto.
Qed.
#[local] Hint Resolve within_unpin_w : within.

Lemma within_pin_w i : within (wrel P) (synth_pin i).
Proof. unfold synth_pin. within_auto. Qed.
#[local] Hint Resolve within_pin_w : within.

Lemma within_pin_fd_w fd : within (wrel P) (wslcompat_synth_pin_fd fd).
Proof. unfold wslcompat_synth_pin_fd, synth_pin_lookup, pin_lookup_slot. within_auto. Qed.
#[local] Hint Resolve within_pin_fd_w : within.

Lemma within_autopin_w {A} fd (body : option nat → M A) :
  (∀ e, within (wrel P) (body e)) → within (wrel P) (autopin fd body).
Proof. intros Hb. unfold autopin. within_auto. Qed.

(** A callback of an entry, with the code after it. *)
Lemma within_passthru_bind {B} i kind (k : option Z → M B) :
  (∀ a, within (wrel P) (k a)) →
  within (wrel P) (let* o := entry_ops i in
    let* a := match op_passthru o with Some p => let* r := p i kind in ret (Some r) | None => ret None end in
    k a).
Proof.
  intros Hk s. unfold entry_ops. rewrite bind_getm.
  destruct (op_passthru _) as [p|] eqn:Ep; within_run (wrel P); within_auto; auto.
  by eapply within_passthru_w.
Qed.
End worlds.
#[export] Hint Resolve within_setm_w within_set_errno_w within_unpin_w within_pin_fd_w
  within_tty_load_w : within.
