(* ===== verification/Mmap.v ===== *)
(** * mmap.c and mincore.c: memory mapping

    WSL1 refuses MAP_FIXED_NOREPLACE and MAP_LOCKED. The shim emulates the first by reserving the
    range without MAP_FIXED, which succeeds at the wanted address only when nothing is mapped there,
    and then mapping over the reservation; the second by a call to mlock. *)

From stdpp Require Import gmap.
From S2P Require Import Prelude CString Kernel State Tunables Override Walk Synth SynthFrames SynthFacts Close Tty Proc Dispatch Handlers Worlds.

Open Scope Z_scope.

Definition PROT_NONE : Z := 0.
Definition MAP_PRIVATE : Z := 2.
Definition MAP_FIXED : Z := 16.
Definition MAP_ANONYMOUS : Z := 32.
Definition MAP_LOCKED : Z := 8192.
Definition MAP_FIXED_NOREPLACE : Z := 1048576.
Definition PAGE_SIZE : Z := 4096.
Definition MS_ASYNC : Z := 1.

Section mmap.
Context {W : Type} `{!Kernel W, !Handlers W}.
Local Abbreviation M := (prog (st W)).

(** The result ([None] is MAP_FAILED) and the descriptor, which the helper replaces through its
    pointer argument when it asks a handler for the backing one. *)
Definition mmap_synth_fallback (addr length prot flags fd offset : Z) : M (option Z * Z) :=
  autopin fd (λ synth,
    match synth with
    | None => set_errno EBADF ;;* ret (None, fd)
    | Some i =>
        let* o := entry_ops i in
        match op_mmap o with
        | Some f => let* r := f i addr length prot flags fd offset in ret (r, fd)
        | None =>
            let* p := match op_passthru o with
                      | Some p => let* r := p i SYNTH_OP_IO in ret (Some r)
                      | None => ret None
                      end in
            match p with
            | Some real =>
                if real <? 0 then set_errno ENODEV ;;* ret (None, real)
                else let* r := sys (k_mmap addr length prot flags real offset) in ret (r, real)
            | None => set_errno ENODEV ;;* ret (None, fd)
            end
        end
    end).

(** The call without the unsupported flags and what follows it; [probe] is the reservation. *)
Definition mmap_finish (addr length prot flags origflags fd offset : Z) (probe : option Z) :
    M (option Z) :=
  let* result := sys (k_mmap addr length prot flags fd offset) in
  match result with
  | None =>
      match probe with
      | Some p => preserve_errno (sys (k_munmap p length) ;;* ret None)
      | None => ret None
      end
  | Some r =>
      if has_bits origflags MAP_LOCKED then
        let* l := sys (k_mlock r length) in
        match l with
        | Some _ => ret (Some r)
        | None => sys (k_munmap r length) ;;* fail_with ENOMEM
        end
      else ret (Some r)
  end.

Definition mmap_emulate (addr length prot origflags fd offset : Z) : M (option Z) :=
  let flags := Z.ldiff (Z.ldiff origflags MAP_FIXED_NOREPLACE) MAP_LOCKED in
  if has_bits origflags MAP_FIXED_NOREPLACE then
    if addr =? 0 then fail_with EPERM
    else if has_bits addr (PAGE_SIZE - 1) then fail_with EINVAL
    else
      let* probe := sys (k_mmap addr length PROT_NONE (Z.lor MAP_PRIVATE MAP_ANONYMOUS) (-1) 0) in
      match probe with
      | None => ret None
      | Some p =>
          if negb (p =? addr) then sys (k_munmap p length) ;;* fail_with EEXIST
          else mmap_finish addr length prot (Z.lor flags MAP_FIXED) origflags fd offset (Some p)
      end
  else mmap_finish addr length prot flags origflags fd offset None.

Definition mmap (addr length prot flags fd offset : Z) : M (option Z) :=
  let* result := sys (k_mmap addr length prot flags fd offset) in
  match result with
  | Some r => ret (Some r)
  | None =>
      let* off := wslcompat_passthru "mmap" in
      if (off : bool) then ret None
      else
        let* e := get_errno in
        let* p := (if e =? EBADF then mmap_synth_fallback addr length prot flags fd offset
                   else ret (None, fd)) in
        match p with
        | (Some r, _) => ret (Some r)
        | (None, fd) =>
            let* e := get_errno in
            if negb (e =? EINVAL) && negb (e =? EOPNOTSUPP) then ret None
            else if negb (has_bits flags (Z.lor MAP_FIXED_NOREPLACE MAP_LOCKED)) then ret None
            else mmap_emulate addr length prot flags fd offset
        end
  end.

(** ** mincore.c: the result is the vector filled in. *)
Definition mincore_pages (length : Z) : Z := wrap_u 64 (length + PAGE_SIZE - 1) / PAGE_SIZE.

Definition mincore (addr length : Z) : M (option (list Z)) :=
  let* off := wslcompat_passthru "mincore" in
  if (off : bool) then sys (k_mincore addr length)
  else
    let* r := sys (k_msync addr length MS_ASYNC) in
    match r with
    | None => ret None
    | Some _ => ret (Some (replicate (Z.to_nat (mincore_pages length)) 1))
    end.

Definition mmap64 := mmap.
End mmap.

(** ** Address spaces *)
Definition page_up (length : Z) : Z := (length + PAGE_SIZE - 1) / PAGE_SIZE * PAGE_SIZE.
Definition in_range (a length x : Z) : Prop := a ≤ x < a + page_up length.

#[export] Instance in_range_dec a l x : Decision (in_range a l x).
Proof. unfold in_range. apply _. Qed.

(** What the manual says of the calls, in terms of what is mapped at every address: without
    MAP_FIXED, mmap chooses a range where nothing is mapped, the one asked for or another; only
    the range it returns, or the one MAP_FIXED names, is affected. *)
Class KernelMaps (W : Type) `{!Kernel W} := {
  maps : W → Z → option Z;
  maps_quiet A (c : call A) w x : bookkeeping c = true → maps (snd (kstep c w)) x = maps w x;
  maps_mmap addr length prot flags fd offset w r w' :
    kstep (k_mmap addr length prot flags fd offset) w = (inl r, w') →
    r mod PAGE_SIZE = 0 ∧
    (∀ x, ¬ in_range r length x → maps w' x = maps w x) ∧
    (if has_bits flags MAP_FIXED then r = addr
     else ∀ x, in_range r length x → maps w x = None);
  maps_mmap_fails addr length prot flags fd offset w e w' x :
    kstep (k_mmap addr length prot flags fd offset) w = (inr e, w') →
    maps w' x = maps w x ∨ has_bits flags MAP_FIXED = true ∧ in_range addr length x;
  maps_munmap a length w x :
    a mod PAGE_SIZE = 0 →
    maps (snd (kstep (k_munmap a length) w)) x = (if decide (in_range a length x) then None
                                                  else maps w x);
  maps_mlock a length w x : maps (snd (kstep (k_mlock a length) w)) x = maps w x;
}.

Section maps.
Context {W : Type} `{!Kernel W, !KernelMaps W}.
Local Abbreviation M := (prog (st W)).

Definition same_maps (w w' : W) : Prop := ∀ x, maps w' x = maps w x.

#[local] Instance same_maps_preorder : PreOrder same_maps.
Proof. split; [by intros w x|]. intros a b c H1 H2 x. by rewrite H2, H1. Qed.

#[local] Instance same_maps_quiet : Quiet same_maps.
Proof. intros A c w Hc x. by apply maps_quiet. Qed.

(** What a mapping call may do: nothing when it fails; when it succeeds, only the range it returns
    is affected, and nothing was mapped there. *)
Definition placed (length : Z) (w : W) (res : option Z) (w' : W) : Prop :=
  match res with
  | Some r => (∀ x, ¬ in_range r length x → maps w' x = maps w x) ∧
              (∀ x, in_range r length x → maps w x = None)
  | None => same_maps w w'
  end.

Lemma placed_pre length w w1 res w' :
  same_maps w w1 → placed length w1 res w' → placed length w res w'.
Proof.
  intros H. destruct res as [r|]; simpl; [|by etrans].
  intros [H1 H2]. split; intros x Hx; rewrite <-(H x); auto.
Qed.

Lemma placed_post length w res w1 w' :
  placed length w res w1 → same_maps w1 w' → placed length w res w'.
Proof.
  destruct res as [r|]; simpl; [|by etrans]. intros [H1 H2] H. split; [|done].
  intros x Hx. rewrite H; auto.
Qed.

Lemma mmap_call_placed addr length prot flags fd offset (s s1 : st W) r :
  has_bits flags MAP_FIXED = false →
  sys (k_mmap addr length prot flags fd offset) s = Ret r s1 →
  placed length (s_world s) r (s_world s1).
Proof.
  intros Hf E. apply sys_step in E. destruct r as [r|]; simpl.
  - apply maps_mmap in E as (_ & H1 & H2). by rewrite Hf in H2.
  - destruct E as [e E]. intros x. by destruct (maps_mmap_fails _ _ _ _ _ _ _ _ _ x E) as [|[? _]];
      [|congruence].
Qed.

(** Undoing a mapping of a range where nothing was mapped before. *)
Lemma munmap_undoes r length (w w1 : W) :
  r mod PAGE_SIZE = 0 → placed length w (Some r) w1 →
  same_maps w (snd (kstep (k_munmap r length) w1)).
Proof.
  intros Hr [H1 H2] x. rewrite maps_munmap by done. case_decide; [|auto]. symmetry. auto.
Qed.

Lemma munmap_world r length (s s1 : st W) o :
  sys (k_munmap r length) s = Ret o s1 → s_world s1 = snd (kstep (k_munmap r length) (s_world s)).
Proof.
  intros E. apply sys_step in E. destruct o; [by rewrite E|]. destruct E as [e E]. by rewrite E.
Qed.

Definition ready (addr length flags : Z) (w0 : W) (probe : option Z) (w : W) : Prop :=
  match probe with
  | None => has_bits flags MAP_FIXED = false ∧ same_maps w0 w
  | Some p => p = addr ∧ p mod PAGE_SIZE = 0 ∧ has_bits flags MAP_FIXED = true ∧
              placed length w0 (Some p) w
  end.

Lemma finish_call addr length prot flags fd offset probe w0 (s s1 : st W) r :
  ready addr length flags w0 probe (s_world s) →
  sys (k_mmap addr length prot flags fd offset) s = Ret (Some r) s1 →
  r mod PAGE_SIZE = 0 ∧ placed length w0 (Some r) (s_world s1).
Proof.
  intros Hr E. apply sys_step in E. apply maps_mmap in E as (Ha & H1 & H2). split; [done|].
  destruct probe as [p|]; simpl in Hr.
  - destruct Hr as (-> & _ & Hf & [H3 H4]). rewrite Hf in H2. subst r. split; [|done].
    intros x Hx. rewrite H1 by done. auto.
  - destruct Hr as [Hf Hs]. rewrite Hf in H2.
    eapply (placed_pre _ _ _ (Some r)); [exact Hs|]. by split.
Qed.

Lemma finish_placed addr length prot flags origflags fd offset probe w0 (s s' : st W) res :
  ready addr length flags w0 probe (s_world s) →
  mmap_finish addr length prot flags origflags fd offset probe s = Ret res s' →
  placed length w0 res (s_world s').
Proof.
  intros Hr H. unfold mmap_finish in H. run_inv H. destruct r as [r|].
  - destruct (finish_call _ _ _ _ _ _ _ _ _ _ _ Hr E) as [Ha Hp].
    destruct (has_bits origflags MAP_LOCKED); [|by injection H as <- <-].
    run_inv H. assert (same_maps (s_world s0) (s_world s1)) as Hl.
    { intros x. apply sys_step in E0. rewrite <-(maps_mlock r length (s_world s0) x).
      destruct r0; [by rewrite E0|]. destruct E0 as [e E0]. by rewrite E0. }
    destruct r0; [injection H as <- <-; by eapply placed_post|].
    run_inv H. injection H as <- <-. apply munmap_world in E1. cbn [s_world]. rewrite E1.
    apply munmap_undoes; [done|by eapply placed_post].
  - apply sys_step in E as [e E]. destruct probe as [p|]; simpl in Hr.
    + destruct Hr as (-> & Ha & Hf & [H3 H4]). unfold preserve_errno in H.
      rewrite bind_get_errno in H. run_inv H. run_inv H. run_inv E0. injection E0 as <- <-.
      injection E1 as <- <-. injection H as <- <-. apply munmap_world in E2. cbn [s_world].
      rewrite E2. intros x. rewrite maps_munmap by done. case_decide as Hx; [symmetry; auto|].
      destruct (maps_mmap_fails _ _ _ _ _ _ _ _ _ x E) as [->|[_ Hin]]; [auto|done].
    + destruct Hr as [Hf Hs]. injection H as <- <-. intros x. rewrite <-Hs.
      by destruct (maps_mmap_fails _ _ _ _ _ _ _ _ _ x E) as [|[? _]]; [|congruence].
Qed.

Lemma ldiff_fixed flags :
  has_bits flags MAP_FIXED = false →
  has_bits (Z.ldiff (Z.ldiff flags MAP_FIXED_NOREPLACE) MAP_LOCKED) MAP_FIXED = false.
Proof.
  change MAP_FIXED with (2 ^ 4). rewrite !has_bits_pow2 by lia. intros H.
  by rewrite !Z.ldiff_spec, H.
Qed.

Lemma emulate_placed addr length prot flags fd offset (s s' : st W) res :
  has_bits flags MAP_FIXED = false →
  mmap_emulate addr length prot flags fd offset s = Ret res s' →
  placed length (s_world s) res (s_world s').
Proof.
  intros Hf H. unfold mmap_emulate in H. apply ldiff_fixed in Hf.
  destruct (has_bits flags MAP_FIXED_NOREPLACE).
  - destruct (addr =? 0); [by injection H as <- <-|].
    destruct (has_bits addr (PAGE_SIZE - 1)); [by injection H as <- <-|].
    run_inv H. assert (placed length (s_world s) r (s_world s0)) as Hp
      by (by eapply mmap_call_placed, E).
    destruct r as [p|]; [|by injection H as <- <-].
    apply sys_step in E. apply maps_mmap in E as (Ha & _).
    destruct (p =? addr) eqn:Ep; simpl in H.
    + apply Z.eqb_eq in Ep. subst. eapply finish_placed, H. split; [done|]. split; [done|].
      split; [|done]. change MAP_FIXED with (2 ^ 4). rewrite has_bits_pow2 by lia.
      by rewrite Z.lor_spec, orb_true_r.
    + run_inv H. injection H as <- <-. apply munmap_world in E. cbn [s_world]. rewrite E.
      by apply munmap_undoes.
  - by eapply finish_placed, H.
Qed.

(** The pair that [mmap_synth_fallback] answers. *)
Lemma fallback_placed addr length prot flags fd offset (s s' : st W) res fd' :
  has_bits flags MAP_FIXED = false →
  mmap_synth_fallback addr length prot flags fd offset s = Ret (res, fd') s' →
  placed length (s_world s) res (s_world s').
Proof.
  intros Hf H. unfold mmap_synth_fallback, autopin in H.
  run_inv H. run_inv H. run_inv H. injection H as -> <-.
  apply (within_Ret (wrel same_maps)) in E; [|apply within_pin_fd_w; apply _].
  assert (same_maps (s_world s1) (s_world s2)) as Hu.
  { apply (within_Ret (wrel same_maps)) in E1; [done|]. within_auto. }
  eapply placed_pre; [exact E|]. eapply placed_post; [|exact Hu]. clear E E1 Hu.
  destruct r as [i|]; [|by injection E0 as <- _ <-].
  unfold entry_ops in E0. rewrite bind_getm in E0.
  assert (∀ h, op_mmap (ops_of (W:=W) h) = None) as Hno by (by intros []). rewrite Hno in E0.
  run_inv E0. apply (within_Ret (wrel same_maps)) in E.
  - eapply placed_pre; [exact E|]. destruct r as [real|]; [|by injection E0 as <- _ <-].
    destruct (real <? 0); [by injection E0 as <- _ <-|].
    run_inv E0. injection E0 as <- _ <-. by eapply mmap_call_placed, E1.
  - destruct (op_passthru _) eqn:Ep; within_auto. eapply within_passthru_w, Ep; apply _.
Qed.

(** C15: Without MAP_FIXED, [mmap] never takes memory away from the program, even where it emulates
    MAP_FIXED_NOREPLACE by a mapping with MAP_FIXED: when it fails the address space is as it was,
    reservations and half-made mappings undone; when it succeeds only the range it returns changed,
    and nothing was mapped there before. *)
Theorem mmap_never_replaces addr length prot flags fd offset (s s' : st W) res :
  has_bits flags MAP_FIXED = false →
  mmap addr length prot flags fd offset s = Ret res s' →
  placed length (s_world s) res (s_world s').
Proof.
  intros Hf H. unfold mmap, wslcompat_passthru in H. run_inv H.
  pose proof (mmap_call_placed _ _ _ _ _ _ _ _ _ Hf E) as Hp.
  destruct r as [r|]; [by injection H as <- <-|].
  rewrite bind_getm in H. destruct (negb _); [by injection H as <- <-|].
  rewrite bind_get_errno in H. run_inv H. destruct r as [r fd'].
  assert (placed length (s_world s) r (s_world s1)) as Hp1.
  { destruct (_ =? EBADF); [|by injection E0 as <- _ <-].
    eapply placed_pre; [exact Hp|]. by eapply fallback_placed, E0. }
  destruct r as [r|]; [by injection H as <- <-|].
  rewrite bind_get_errno in H. destruct (negb _ && _); [by injection H as <- <-|].
  destruct (negb _); [by injection H as <- <-|].
  eapply placed_pre; [exact Hp1|]. by eapply emulate_placed, H.
Qed.

(** The mapping over a reservation returns, and where it was asked to. *)
Lemma finish_fixed addr length prot flags origflags fd offset p (s : st W) :
  has_bits flags MAP_FIXED = true →
  ∃ res s', mmap_finish addr length prot flags origflags fd offset (Some p) s = Ret res s' ∧
    ∀ r, res = Some r → r = addr.
Proof.
  intros Hf. unfold mmap_finish, preserve_errno.
  destruct (sys_returns (k_mmap addr length prot flags fd offset) s) as (r & s1 & E).
  rewrite (bind_Ret _ _ _ _ _ E). destruct r as [r|].
  - apply sys_step in E. apply maps_mmap in E as (_ & _ & Hr). rewrite Hf in Hr. subst r.
    destruct (has_bits origflags MAP_LOCKED); [|do 2 eexists; split; [reflexivity|congruence]].
    destruct (sys_returns (k_mlock addr length) s1) as (l & s2 & E2).
    rewrite (bind_Ret _ _ _ _ _ E2). destruct l; [do 2 eexists; split; [reflexivity|congruence]|].
    destruct (sys_returns (k_munmap addr length) s2) as (u & s3 & E3).
    rewrite (bind_Ret _ _ _ _ _ E3). do 2 eexists; split; [reflexivity|congruence].
  - rewrite bind_get_errno. destruct (sys_returns (k_munmap p length) s1) as (u & s3 & E3).
    rewrite bind_assoc, (bind_Ret _ _ _ _ _ E3). do 2 eexists; split; [reflexivity|congruence].
Qed.

(** When the kernel refuses the flag, the shim goes on to the emulation. *)
Lemma mmap_refused addr length prot flags fd offset er w1 (s : st W) :
  has_bits flags MAP_FIXED_NOREPLACE = true →
  wslcompat_enabled (s_mem s) "mmap" = true → er = EINVAL ∨ er = EOPNOTSUPP →
  kstep (k_mmap addr length prot flags fd offset) (s_world s) = (inr er, w1) →
  mmap addr length prot flags fd offset s =
    mmap_emulate addr length prot flags fd offset (mkst (s_mem s) w1 er).
Proof.
  intros Hn Hen Her E1. unfold mmap, wslcompat_passthru, sys at 1. unfold bind at 1.
  rewrite E1, bind_getm. cbn [s_mem]. rewrite Hen. cbn [negb]. rewrite bind_get_errno.
  cbn [s_errno]. assert ((er =? EBADF) = false) as -> by (by destruct Her as [->| ->]).
  rewrite bind_ret, bind_get_errno. cbn [s_errno].
  assert (negb (er =? EINVAL) && negb (er =? EOPNOTSUPP) = false) as ->
    by (by destruct Her as [->| ->]).
  assert (has_bits flags (Z.lor MAP_FIXED_NOREPLACE MAP_LOCKED) = true) as ->; [|done].
  revert Hn. unfold has_bits. rewrite !negb_true_iff, !Z.eqb_neq, Z.land_lor_distr_r.
  intros Hn Hz. apply Hn. by apply Z.lor_eq_0_iff in Hz as [Hz _].
Qed.

(** MAP_FIXED_NOREPLACE on a kernel that refuses the flag: the call returns; an occupied range is
    reported with [EEXIST]; a mapping that is made is made at the very address asked for. *)
Theorem mmap_noreplace_emulated addr length prot flags fd offset er w1 p w2 (s : st W) :
  has_bits flags MAP_FIXED = false → has_bits flags MAP_FIXED_NOREPLACE = true →
  wslcompat_enabled (s_mem s) "mmap" = true → er = EINVAL ∨ er = EOPNOTSUPP →
  addr ≠ 0 → addr mod PAGE_SIZE = 0 →
  kstep (k_mmap addr length prot flags fd offset) (s_world s) = (inr er, w1) →
  kstep (k_mmap addr length PROT_NONE (Z.lor MAP_PRIVATE MAP_ANONYMOUS) (-1) 0) w1 = (inl p, w2) →
  ∃ res s', mmap addr length prot flags fd offset s = Ret res s' ∧
    (∀ r, res = Some r → r = addr) ∧
    ((∃ x, in_range addr length x ∧ maps (s_world s) x ≠ None) → res = None ∧ s_errno s' = EEXIST).
Proof.
  intros Hf Hn Hen Her Ha0 Ha E1 E2. rewrite (mmap_refused _ _ _ _ _ _ _ _ _ Hn Hen Her E1).
  assert (has_bits addr (PAGE_SIZE - 1) = false) as Hal.
  { unfold has_bits. apply negb_false_iff, Z.eqb_eq. change (PAGE_SIZE - 1) with (Z.ones 12).
    by rewrite Z.land_ones by lia. }
  unfold mmap_emulate. rewrite Hn, Hal. apply Z.eqb_neq in Ha0. rewrite Ha0.
  unfold sys at 1. unfold bind at 1. cbn [s_world]. rewrite E2.
  destruct (p =? addr) eqn:Ep; cbn [negb].
  - apply Z.eqb_eq in Ep. subst p.
    edestruct (finish_fixed addr length prot (Z.lor (Z.ldiff (Z.ldiff flags MAP_FIXED_NOREPLACE)
      MAP_LOCKED) MAP_FIXED) flags fd offset addr) as (res & s' & E & Hr).
    { change MAP_FIXED with (2 ^ 4). rewrite has_bits_pow2 by lia. by rewrite Z.lor_spec, orb_true_r. }
    exists res, s'. split; [exact E|]. split; [done|]. intros (x & Hx & Hm). destruct Hm.
    apply maps_mmap in E2 as (_ & _ & Hfree). rewrite <-(Hfree x Hx).
    by destruct (maps_mmap_fails _ _ _ _ _ _ _ _ _ x E1) as [->|[? _]]; [|congruence].
  - destruct (sys_returns (k_munmap p length) (mkst (s_mem s) w2 er)) as (u & s3 & E3).
    cbn [s_mem s_errno] in *. rewrite (bind_Ret _ _ _ _ _ E3). by repeat econstructor.
Qed.
End maps.

(** ** A small address space, for concrete runs

    Pages are numbered; a mapping without MAP_FIXED goes where the hint says when the range is free
    there, else above everything; MAP_FIXED_NOREPLACE and MAP_LOCKED are refused. *)
Module MapKernel.
Record world := { pages : gmap Z Z; next_id : Z }.

Definition npages (length : Z) : Z := (length + PAGE_SIZE - 1) / PAGE_SIZE.

Fixpoint fill (l : list Z) (v : option Z) (m : gmap Z Z) : gmap Z Z :=
  match l with
  | [] => m
  | p :: l' => partial_alter (λ _, v) p (fill l' v m)
  end.

Definition top (m : gmap Z Z) : Z := foldr Z.max 0 (fst <$> map_to_list m) + 1.

Definition free_at (a length : Z) (m : gmap Z Z) : bool :=
  (a mod PAGE_SIZE =? 0) && negb (a =? 0) &&
  forallb (λ p, bool_decide (m !! p = None)) (seqZ (a / PAGE_SIZE) (npages length)).

Definition place (a length : Z) (w : world) : (Z + Z) * world :=
  (inl a, {| pages := fill (seqZ (a / PAGE_SIZE) (npages length)) (Some (next_id w)) (pages w);
             next_id := next_id w + 1 |}).

Definition step {R} (c : call R) (w : world) : (R + Z) * world :=
  match c in call R return (R + Z) * world with
  | k_mmap addr length _ flags _ _ =>
      if has_bits flags MAP_FIXED_NOREPLACE || has_bits flags MAP_LOCKED then (inr EINVAL, w)
      else if has_bits flags MAP_FIXED then
        if addr mod PAGE_SIZE =? 0 then place addr length w else (inr EINVAL, w)
      else if free_at addr length (pages w) then place addr length w
      else place (top (pages w) * PAGE_SIZE) length w
  | k_munmap a length =>
      if a mod PAGE_SIZE =? 0 then
        (inl tt, {| pages := fill (seqZ (a / PAGE_SIZE) (npages length)) None (pages w);
                    next_id := next_id w |})
      else (inr EINVAL, w)
  | _ => (inr ENOSYS, w)
  end.

#[global] Instance kernel : Kernel world := {| kstep := @step; kpid := λ _, 1 |}.

Lemma lookup_fill l v m p : fill l v m !! p = if decide (p ∈ l) then v else m !! p.
Proof.
  induction l as [|q l IH]; cbn [fill]; [by rewrite decide_False by set_solver|].
  destruct (decide (p = q)) as [->|Hne].
  - rewrite lookup_partial_alter_eq. by rewrite decide_True by set_solver.
  - rewrite lookup_partial_alter_ne by done. rewrite IH. repeat case_decide; set_solver.
Qed.

Lemma top_above m p v : m !! p = Some v → p < top m.
Proof.
  intros H%elem_of_map_to_list. unfold top.
  assert (∀ l : list Z, p ∈ l → p ≤ foldr Z.max 0 l) as Hmax.
  { induction l as [|q l IH]; [set_solver|]. simpl. intros [->|Hp]%elem_of_cons; [lia|].
    specialize (IH Hp). lia. }
  assert (p ∈ fst <$> map_to_list m) as Hin by (apply list_elem_of_fmap; by exists (p, v)).
  apply Hmax in Hin. lia.
Qed.

(** Addresses and the pages they are on. *)
Lemma page_of a length x :
  a mod PAGE_SIZE = 0 → in_range a length x ↔ x / PAGE_SIZE ∈ seqZ (a / PAGE_SIZE) (npages length).
Proof.
  intros Ha. rewrite elem_of_seqZ. unfold in_range, page_up. fold (npages length).
  unfold PAGE_SIZE in *. pose proof (Z.div_mod x 4096). pose proof (Z.mod_pos_bound x 4096).
  pose proof (Z.div_mod a 4096). lia.
Qed.

Lemma place_law a length w :
  a mod PAGE_SIZE = 0 → ∀ x, ¬ in_range a length x →
  pages (snd (place a length w)) !! (x / PAGE_SIZE) = pages w !! (x / PAGE_SIZE).
Proof.
  intros Ha x Hx. simpl. rewrite lookup_fill, decide_False; [done|]. by rewrite <-page_of.
Qed.

Lemma free_at_law a length w :
  free_at a length (pages w) = true →
  a mod PAGE_SIZE = 0 ∧ ∀ x, in_range a length x → pages w !! (x / PAGE_SIZE) = None.
Proof.
  unfold free_at. intros [[Ha%Z.eqb_eq _]%andb_true_iff Hall]%andb_true_iff. split; [done|].
  intros x Hx. rewrite page_of in Hx by done. rewrite forallb_forall in Hall.
  apply list_elem_of_In in Hx. apply Hall in Hx. by apply bool_decide_eq_true in Hx.
Qed.

Lemma top_law length w x :
  in_range (top (pages w) * PAGE_SIZE) length x → pages w !! (x / PAGE_SIZE) = None.
Proof.
  intros Hx. rewrite page_of in Hx by (by apply Z.mod_mul). apply elem_of_seqZ in Hx.
  rewrite Z.div_mul in Hx by done.
  destruct (pages w !! _) eqn:E; [|done]. apply top_above in E. lia.
Qed.

#[global] Program Instance kernel_maps : KernelMaps world :=
  {| maps w x := pages w !! (x / PAGE_SIZE) |}.
Next Obligation. by intros A [] w x. Qed.
Next Obligation.
  intros addr length prot flags fd offset w r w'. cbn [kstep kernel step].
  destruct (_ || _); [done|]. destruct (has_bits flags MAP_FIXED).
  - destruct (addr mod PAGE_SIZE =? 0) eqn:Ha; [|done]. apply Z.eqb_eq in Ha.
    intros [= <- <-]. split; [done|]. split; [|done]. intros x. by apply (place_law addr length w).
  - destruct (free_at addr length (pages w)) eqn:Ef; intros [= <- <-].
    + apply free_at_law in Ef as [Ha Hf]. split; [done|]. split; [|done].
      intros x. by apply (place_law addr length w).
    + assert ((top (pages w) * PAGE_SIZE) mod PAGE_SIZE = 0) as Ha by (by apply Z.mod_mul).
      split; [done|]. split; [|apply top_law]. intros x. by apply (place_law _ length w).
Qed.
Next Obligation.
  intros addr length prot flags fd offset w e w' x. cbn [kstep kernel step].
  repeat case_match; intros [= <- <-]; by left.
Qed.
Next Obligation.
  intros a length w x Ha. cbn [kstep kernel step]. rewrite Ha. simpl. rewrite lookup_fill.
  pose proof (page_of a length x Ha). repeat case_decide; naive_solver.
Qed.
Next Obligation. done. Qed.

(** One page is mapped, at 16 pages. *)
Definition w : world := {| pages := {[ 16 := 0 ]}; next_id := 1 |}.
Definition s : st world := mkst init_mem w 0.
Definition flags : Z := Z.lor (Z.lor MAP_PRIVATE MAP_ANONYMOUS) MAP_FIXED_NOREPLACE.
Definition after (addr : Z) : st world :=
  match mmap addr 8192 3 flags (-1) 0 s with Ret _ s' => s' | _ => s end.
End MapKernel.

Lemma mmap_never_replaces_witness :
  placed 8192 MapKernel.w (Some 81920) (s_world (MapKernel.after 81920)) ∧
  placed 8192 MapKernel.w None (s_world (MapKernel.after 61440)).
Proof.
  split.
  - apply (mmap_never_replaces 81920 8192 3 MapKernel.flags (-1) 0 MapKernel.s); by vm_compute.
  - apply (mmap_never_replaces 61440 8192 3 MapKernel.flags (-1) 0 MapKernel.s); by vm_compute.
Defined.

Lemma mmap_noreplace_emulated_witness :
  ∃ s', mmap 61440 8192 3 MapKernel.flags (-1) 0 MapKernel.s = Ret None s' ∧ s_errno s' = EEXIST.
Proof.
  destruct (mmap_noreplace_emulated 61440 8192 3 MapKernel.flags (-1) 0 EINVAL MapKernel.w 69632
    (snd (MapKernel.place 69632 8192 MapKernel.w)) MapKernel.s)
    as (res & s' & E & _ & H); try by vm_compute.
  { by left. }
  destruct H as [-> He]; [|by exists s'].
  exists 65536. split; [by vm_compute|]. by vm_compute.
Defined.
