(* ===== verification/TtyFacts.v ===== *)
(** * Behaviour of the terminal handler *)

From S2P Require Import Prelude CString Kernel State Tunables Override Walk Synth SynthFrames SynthFacts Close Tty Proc Dispatch Handlers.

Open Scope Z_scope.

(** read(2): never more than was asked for. *)
Class KernelRead (W : Type) `{!Kernel W} : Prop :=
  read_bound fd n w b w' : kstep (k_read fd n) w = (inl b, w') → 0 ≤ n → zlen b ≤ n.

Lemma zlen_app a b : zlen (a +:+ b) = zlen a + zlen b.
Proof.
  unfold zlen. rewrite <-Nat2Z.inj_add. f_equal.
  induction a as [|c a IH]; [done|]. change (String c a +:+ b) with (String c (a +:+ b)).
  simpl. by rewrite IH.
Qed.

Lemma zlen_nonneg a : 0 ≤ zlen a.
Proof. unfold zlen. lia. Qed.

Lemma zlen_pos a : a ≠ "" → 0 < zlen a.
Proof. unfold zlen. destruct a; [done|simpl; lia]. Qed.

Section reading.
Context {W : Type} `{!Kernel W, !KernelRead W}.

Lemma poll_in_run fd t (s : st W) : ∃ n s', poll_in fd t s = Ret n s'.
Proof.
  unfold poll_in. run_sys. destruct o as [[n rs]|]; run_simpl; eauto.
Qed.

(** The collecting loop ends within [vmin] rounds: each takes at least one byte. What it returns
    starts with what the buffer held and never overruns the buffer. *)
Lemma tty_collect_run n fd vm count timeout acc (s : st W) :
  zlen acc ≤ count → (Z.to_nat (vm - zlen acc) < n)%nat →
  ∃ b s', tty_collect n fd vm count timeout acc s = Ret (Some b) s' ∧
    zlen acc ≤ zlen b ≤ count.
Proof.
  revert acc s. induction n as [|n IH]; intros acc s Hc Hn; [lia|]. cbn [tty_collect].
  destruct ((zlen acc <? vm) && (zlen acc <? count)) eqn:E; cbn [negb];
    [|by exists acc, s; split; [done|lia]].
  apply andb_true_iff in E as [E1%Z.ltb_lt E2%Z.ltb_lt].
  destruct (poll_in_run fd timeout s) as (p & s1 & Ep). rewrite (bind_Ret _ _ _ _ _ Ep).
  destruct (p <=? 0); [by exists acc, s1; split; [done|lia]|].
  unfold bind at 1, sys. destruct (kstep _ (s_world s1)) as [[b|er] w'] eqn:Ek;
    [|by eexists acc, _; split; [done|lia]].
  destruct (decide (b = "")) as [|Hb]; [by eexists acc, _; split; [done|lia]|].
  apply read_bound in Ek; [|lia]. pose proof (zlen_pos b Hb) as Hp.
  destruct (IH (acc +:+ b) (mkst (s_mem s1) w' (s_errno s1))) as (b' & s' & E & Hb');
    [rewrite zlen_app; lia..|].
  exists b', s'. split; [done|]. rewrite zlen_app in Hb'. lia.
Qed.

Lemma view_load_returns v (s : st W) : ∃ x s', wslcompat_view_fd_load v s = Ret x s' ∧
  ∃ c, s_mem s' = set_starttime_cache c (s_mem s).
Proof.
  unfold wslcompat_view_fd_load. run_simpl.
  destruct (self_starttime_run (s_world s) s (kpid (s_world s))) as (t & s1 & E & _ & Hm);
    [apply rtc_refl|done|].
  rewrite (bind_Ret _ _ _ _ _ E). run_simpl.
  destruct (synth_is_installer _ _ _); run_simpl; [by eauto|].
  destruct (wslcompat_override_get_pid _ _ _); run_simpl; eauto.
Qed.

(** C30: A read from a wrapped terminal always returns, and never more than the caller's buffer holds:
    the loop that waits for VMIN bytes cannot run away. *)
Theorem tty_read_total e count (s : st W) :
  0 ≤ count → 0 ≤ vmin (tty_at (s_mem s) (tty_slot (s_mem s) e)) →
  ∃ r s', tty_read e count s = Ret r s' ∧ ∀ b, r = Some b → zlen b ≤ count.
Proof.
  intros Hc Hv. unfold tty_read, tty_of, tty_real_fd_load, wslcompat_passthru. run_simpl.
  destruct (view_load_returns (v_real e (tty_slot (s_mem s) e)) s) as (fd & s1 & E & c & Hm).
  rewrite (bind_Ret _ _ _ _ _ E). run_simpl.
  assert (∀ s : st W, ∃ r s', sys (k_read fd count) s = Ret r s' ∧ ∀ b, r = Some b → zlen b ≤ count)
    as Hrd.
  { intros s0. unfold sys. destruct (kstep _ (s_world s0)) as [[b|er] w'] eqn:Ek;
      do 2 eexists; (split; [done|]); [|done]. intros b' [= <-]. by eapply read_bound. }
  destruct (negb _); [apply Hrd|]. run_simpl. rewrite Hm. cbn [tty_at tty_table set_starttime_cache].
  change (tty_table (s_mem s) !!! tty_slot (s_mem s) e) with (tty_at (s_mem s) (tty_slot (s_mem s) e)).
  set (ts := tty_at (s_mem s) (tty_slot (s_mem s) e)) in *.
  destruct (negb _ || _); [apply Hrd|].
  destruct (count =? 0); [by do 2 eexists; split; [done|]; intros ? [= <-]|].
  unfold tty_read_raw_wait. destruct (poll_in_run fd (if 0 <? vmin ts then -1 else vtime ts * 100) s1)
    as (p & s2 & Ep). rewrite (bind_Ret _ _ _ _ _ Ep).
  destruct (p <? 0); [by do 2 eexists; split; [done|]|]. destruct (p =? 0); [by do 2 eexists; split; [done|]; intros ? [= <-]|].
  destruct (Hrd s2) as (r & s3 & E3 & Hr). rewrite (bind_Ret _ _ _ _ _ E3).
  destruct r as [b|]; [|by do 2 eexists; split; [done|]]. destruct (_ || _) eqn:Eb; [by do 2 eexists|].
  specialize (Hr b eq_refl). pose proof (zlen_nonneg b).
  destruct (tty_collect_run (S (Z.to_nat (vmin ts))) fd (vmin ts) count
    (if negb (vtime ts =? 0) then vtime ts * 100 else -1) b s3) as (b' & s' & E' & Hb'); [done|lia|].
  do 2 eexists. split; [done|]. intros ? [= <-]. lia.
Qed.

(** On a terminal that is always ready, a non-canonical read returns at least VMIN bytes, or as many
    as the caller has room for. *)
Theorem tty_read_vmin e count (s s' : st W) b :
  let ts := tty_at (s_mem s) (tty_slot (s_mem s) e) in
  (∀ fds t w, ∃ n rs w', kstep (k_poll fds t) w = (inl (n, rs), w') ∧ 0 < n) →
  (∀ fd n w, 0 < n → ∃ x w', kstep (k_read fd n) w = (inl x, w') ∧ x ≠ "") →
  wslcompat_enabled (s_mem s) "ioctl" = true → canon ts = 0 → nonblock ts = 0 →
  0 < count → tty_read e count s = Ret (Some b) s' → Z.min (vmin ts) count ≤ zlen b.
Proof.
  intros ts Hpoll Hread Hen Hcan Hnb Hc.
  assert (∀ fd t (s : st W), ∃ n s', poll_in fd t s = Ret n s' ∧ 0 < n) as Hp.
  { intros fd t s0. unfold poll_in, bind, sys.
    destruct (Hpoll [{| pfd := fd; pevents := POLLIN; prevents := 0 |}] t (s_world s0))
      as (n & rs & w' & -> & Hn). simpl. eauto. }
  assert (∀ n fd vm t acc (s s' : st W) b,
    tty_collect n fd vm count t acc s = Ret (Some b) s' → Z.min vm count ≤ zlen b) as Hcol.
  { clear -Hp Hread. induction n as [|n IH]; intros fd vm t acc s s' b; [done|]. cbn [tty_collect].
    destruct ((zlen acc <? vm) && (zlen acc <? count)) eqn:E; cbn [negb].
    - apply andb_true_iff in E as [_ E2%Z.ltb_lt].
      destruct (Hp fd t s) as (p & s1 & Ep & Hpos). rewrite (bind_Ret _ _ _ _ _ Ep).
      destruct (p <=? 0) eqn:E; [apply Z.leb_le in E; lia|]. unfold bind at 1, sys.
      destruct (Hread fd (count - zlen acc) (s_world s1)) as (x & w' & -> & Hx); [lia|].
      rewrite decide_False by done. apply IH.
    - intros [= <- <-]. apply andb_false_iff in E as [E|E]; apply Z.ltb_ge in E; lia. }
  unfold tty_read, tty_of, tty_real_fd_load, wslcompat_passthru. run_simpl.
  destruct (view_load_returns (v_real e (tty_slot (s_mem s) e)) s) as (fd & s1 & E & c & Hm).
  rewrite (bind_Ret _ _ _ _ _ E). run_simpl. rewrite Hm.
  change (wslcompat_enabled (set_starttime_cache c (s_mem s)) "ioctl")
    with (wslcompat_enabled (s_mem s) "ioctl"). rewrite Hen. cbn [negb]. run_simpl. rewrite Hm.
  change (tty_at (set_starttime_cache c (s_mem s)) (tty_slot (s_mem s) e)) with ts.
  rewrite Hcan, Hnb. cbn [negb Z.eqb orb].
  destruct (count =? 0) eqn:E0; [apply Z.eqb_eq in E0; lia|]. unfold tty_read_raw_wait.
  destruct (Hp fd (if 0 <? vmin ts then -1 else vtime ts * 100) s1) as (p & s2 & Ep & Hpos).
  rewrite (bind_Ret _ _ _ _ _ Ep).
  destruct (p <? 0) eqn:E1; [apply Z.ltb_lt in E1; lia|].
  destruct (p =? 0) eqn:E2; [apply Z.eqb_eq in E2; lia|]. unfold bind at 1, sys.
  destruct (Hread fd count (s_world s2)) as (x & w' & -> & Hx); [done|].
  rewrite bool_decide_false by done. cbn [orb].
  destruct (_ || _ || _) eqn:E3; [|apply Hcol]. intros [= <- <-]. pose proof (zlen_nonneg x).
  apply orb_true_iff in E3 as [[E3|E3]%orb_true_iff|E3];
    [apply Z.eqb_eq in E3|apply Z.leb_le in E3..]; lia.
Qed.
End reading.

(** ** Slots of the terminal table *)
Section slots.
Context {W : Type} `{!Kernel W}.

Lemma tty_at_upd_eq m i f : (i < length (tty_table m))%nat → tty_at (upd_tty i f m) i = f (tty_at m i).
Proof.
  intros Hi. unfold tty_at, upd_tty; simpl. by rewrite list_lookup_total_alter_eq.
Qed.

Lemma upd_tty_compose i f g m : upd_tty i f (upd_tty i g m) = upd_tty i (f ∘ g) m.
Proof. unfold upd_tty. simpl. by rewrite list_alter_alter_eq. Qed.

Lemma tty_alloc_loop n k (s : st W) :
  (∃ i, (k ≤ i < k + n)%nat ∧ claimed (tty_at (s_mem s) i) = 0 ∧
     (∀ j, (k ≤ j < i)%nat → claimed (tty_at (s_mem s) j) ≠ 0) ∧
     for_each (seq k n) tty_alloc_slot s
     = Ret (Some i) (mkst (upd_tty i (set_claimed 1) (s_mem s)) (s_world s) (s_errno s))) ∨
  ((∀ i, (k ≤ i < k + n)%nat → claimed (tty_at (s_mem s) i) ≠ 0) ∧
   for_each (seq k n) tty_alloc_slot s = Ret None s).
Proof.
  revert k. induction n as [|n IH]; intros k; [right; split; [lia|done]|].
  cbn [seq for_each].
  assert (tty_alloc_slot k s = if claimed (tty_at (s_mem s) k) =? 0
    then Ret (Some k) (mkst (upd_tty k (set_claimed 1) (s_mem s)) (s_world s) (s_errno s))
    else Ret None s) as E1 by (unfold tty_alloc_slot; run_simpl; by destruct (_ =? 0)).
  destruct (claimed (tty_at (s_mem s) k) =? 0) eqn:E; [apply Z.eqb_eq in E|apply Z.eqb_neq in E];
    rewrite (bind_Ret _ _ _ _ _ E1).
  - left. exists k. split_and!; [lia|lia|done|lia|done].
  - destruct (IH (S k)) as [(i & Hi & H0 & Hmin & Er)|[Hn Er]].
    + left. exists i. split_and!; [lia|lia|done| |done].
      intros j Hj. destruct (decide (j = k)) as [->|]; [done|]. apply Hmin. lia.
    + right. split; [|done]. intros i Hi. destruct (decide (i = k)) as [->|]; [done|].
      apply Hn. lia.
Qed.

(** Releasing an entry frees its terminal slot: the descriptor is closed and forgotten and the slot
    is available again, with no override left behind. *)
Theorem tty_release_frees e (s s' : st W) :
  let t := tty_slot (s_mem s) e in
  (t < length (tty_table (s_mem s)))%nat →
  tty_release e s = Ret tt s' →
  claimed (tty_at (s_mem s') t) = 0 ∧ real_fd (tty_at (s_mem s') t) = -1 ∧
  Forall (λ o, ov_pid o = 0) (real_overrides (tty_at (s_mem s') t)) ∧
  ∀ t', t' ≠ t → tty_at (s_mem s') t' = tty_at (s_mem s) t'.
Proof.
  intros t Ht. unfold tty_release, tty_of. rewrite bind_getm. fold t. rewrite bind_getm.
  destruct (sys_run (k_close (real_fd (tty_at (s_mem s) t))) s) as (o & s1 & E & Hm & _).
  rewrite (bind_Ret _ _ _ _ _ E). rewrite !bind_setm. cbn [s_mem].
  intros [= <-]. cbn [s_mem]. rewrite !upd_tty_compose, Hm.
  split_and!; [by rewrite tty_at_upd_eq..| |].
  - rewrite tty_at_upd_eq by done. simpl. apply Forall_fmap, Forall_forall. done.
  - intros t' Hne. unfold tty_at, upd_tty. simpl. by rewrite list_lookup_total_alter_ne.
Qed.
End slots.

Section install.
Context {W : Type} `{!Kernel W, !Handlers W} {Hfuel : Fuel}.
Variable open_shim : string → Z → Z → prog (st W) (option Z).

(** When the terminal cannot be duplicated, wrapping it fails and leaves the library's memory as it
    was: the slot taken for it is given back. *)
Theorem tty_install_dup_fails fd ti er w' (s : st W) :
  kstep (k_fcntl fd F_DUPFD_CLOEXEC (arg_int 3)) (s_world s) = (inr er, w') →
  ∃ s', wslcompat_tty_install open_shim fd ti s = Ret (-1) s' ∧ s_mem s' = s_mem s.
Proof.
  intros Hk. unfold wslcompat_tty_install, tty_alloc.
  destruct (tty_alloc_loop TTY_TABLE_SIZE 0 s) as [(i & _ & H0 & _ & E)|[_ E]];
    rewrite (bind_Ret _ _ _ _ _ E); [|by exists s].
  unfold bind at 1, sys. cbn [s_world s_mem s_errno]. rewrite Hk.
  unfold tty_install_fail. cbn [Z.leb Z.compare]. run_simpl. eexists. split; [done|].
  cbn [s_mem]. rewrite upd_tty_compose. unfold upd_tty.
  rewrite alter_id_total; [by destruct (s_mem s)|].
  change (tty_table (s_mem s) !!! i) with (tty_at (s_mem s) i). unfold compose, set_claimed. simpl.
  rewrite <-H0. by destruct (tty_at (s_mem s) i).
Qed.
End install.

(** ** Concrete runs *)
Module TtyDemo.
(** A kernel whose terminal always has one byte ready. *)
Definition step {R} (c : call R) (w : Z) : (R + Z) * Z :=
  match c in call R return (R + Z) * Z with
  | k_poll fds _ => (inl (1, [1]), w)
  | k_read _ n => (inl (if 0 <? n then "x" else ""), w)
  | k_close _ => (inl tt, w)
  | _ => (inr EMFILE, w)
  end.
#[global] Instance kernel : Kernel Z := {| kstep := @step; kpid := λ _, 100 |}.
#[global] Instance kernel_read : KernelRead Z.
Proof.
  intros fd n w b w'. cbn [kstep kernel step]. intros [= <- _] Hn.
  destruct (0 <? n) eqn:E; [apply Z.ltb_lt in E|]; unfold zlen; simpl; lia.
Qed.
#[local] Instance bound : Fuel := 20%nat.

Definition wrap : synth_entry :=
  {| refcount := 1; probe_fd := -1; e_stat := zero_stat; e_ops := h_tty; pos := 0;
     e_userptr := up_tty 0; e_flags := 0; install_pid := 100; install_starttime := 0;
     probe_overrides := replicate 4 free_override |}.
Definition raw : tty_state :=
  {| claimed := 1; canon := 0; nonblock := 0; real_fd := 9;
     real_overrides := replicate 4 free_override; vmin := 3; vtime := 0 |}.
Definition m : mem :=
  set_synth_table (wrap :: replicate 63 free_entry)
    (set_tty_table (raw :: replicate 63 free_tty) init_mem).
Definition s : st Z := mkst m 0 0.
Definition read10 : st Z := match tty_read 0 10 s with Ret _ s' => s' | _ => s end.
Definition released : st Z := match tty_release 0 s with Ret _ s' => s' | _ => s end.
End TtyDemo.
#[local] Existing Instance TtyDemo.bound.

Lemma tty_read_total_witness :
  ∃ r s', tty_read 0 10 TtyDemo.s = Ret r s' ∧ ∀ b, r = Some b → zlen b ≤ 10.
Proof. apply (tty_read_total 0 10 TtyDemo.s); [lia|vm_compute; congruence]. Defined.

Lemma tty_read_vmin_witness :
  tty_read 0 10 TtyDemo.s = Ret (Some "xxx") TtyDemo.read10 ∧ Z.min 3 10 ≤ zlen "xxx".
Proof.
  split; [by vm_compute|].
  apply (tty_read_vmin 0 10 TtyDemo.s TtyDemo.read10 "xxx"); [| |by vm_compute..].
  - intros fds t w. by exists 1, [1], w.
  - intros fd n w Hn. exists "x", w. split; [|done]. cbn [kstep TtyDemo.kernel TtyDemo.step].
    by rewrite (proj2 (Z.ltb_lt 0 n) Hn).
Defined.

Lemma tty_release_frees_witness : claimed (tty_at (s_mem TtyDemo.released) 0) = 0.
Proof.
  refine (proj1 (tty_release_frees 0 TtyDemo.s TtyDemo.released _ _));
    [vm_compute; lia|by vm_compute].
Defined.

Lemma tty_install_dup_fails_witness :
  ∃ s', wslcompat_tty_install (λ p f m, sys (k_open p f m)) 5
          {| c_lflag := 0; c_vmin := 1; c_vtime := 0 |} TtyDemo.s = Ret (-1) s' ∧
        s_mem s' = s_mem TtyDemo.s.
Proof. by apply (tty_install_dup_fails _ 5 _ EMFILE 0 TtyDemo.s). Defined.
