(* ===== verification/TtyMode.v ===== *)
(** * The cached mode of a wrapped terminal

    tty.c keeps ICANON, VMIN and VTIME of every wrapped terminal, so that a read need not ask the
    kernel. The cache is right as long as every change of the mode goes through the ioctl of the
    wrapper. *)

From S2P Require Import Prelude CString Kernel State Tunables Override Walk Synth SynthFrames SynthFacts Tty Dispatch Handlers Worlds TtyFacts.

Open Scope Z_scope.

(** What the terminal driver promises: the mode of the terminal behind a descriptor is what the last
    successful TCSETS, TCSETSW or TCSETSF on it asked for. *)
Definition sets_mode (op : Z) (arg : ioctl_arg) {X} (r : (Z * ioctl_arg) + X) : option termios :=
  match r, arg with
  | inl (0, _), io_termios t => if is_tcsets op then Some t else None
  | _, _ => None
  end.

Class KernelTermios (W : Type) `{!Kernel W} := {
  term : W → Z → termios;
  term_quiet A (c : call A) w fd : bookkeeping c = true → term (snd (kstep c w)) fd = term w fd;
  term_ioctl fd op arg w :
    term (snd (kstep (k_ioctl fd op arg) w)) fd =
      default (term w fd) (sets_mode op arg (fst (kstep (k_ioctl fd op arg) w)));
}.

Section mode.
Context {W : Type} `{!Kernel W, !KernelTermios W}.

Definition mode_of (t : termios) : Z * Z * Z :=
  (if has_bits (c_lflag t) ICANON then 1 else 0, c_vmin t, c_vtime t).
Definition cached (t : tty_state) : Z * Z * Z := (canon t, vmin t, vtime t).

(** Slot [t] caches the mode of the terminal behind [fd]. *)
Definition tracked (t : nat) (fd : Z) (s : st W) : Prop :=
  cached (tty_at (s_mem s) t) = mode_of (term (s_world s) fd).

Definition untouched (fd : Z) : relation (st W) := λ s s',
  tty_table (s_mem s') = tty_table (s_mem s) ∧ term (s_world s') fd = term (s_world s) fd.

#[local] Instance untouched_preorder fd : PreOrder (untouched fd).
Proof. split; [done|]. intros a b c [H1 H2] [H3 H4]. split; congruence. Qed.

#[local] Instance untouched_book fd : AllowsBook (untouched fd).
Proof.
  split; intros; [|by apply within_setm..]. intros s. unfold sys.
  pose proof (term_quiet A c (s_world s) fd H) as Hq.
  destruct (kstep c (s_world s)) as [[r|e] w]; by split.
Qed.

Lemma load_untouched fd t e : within (untouched fd) (tty_real_fd_load t e).
Proof. unfold tty_real_fd_load. apply within_view_load; apply _. Qed.

Lemma cache_termios_run t ti (s : st W) :
  (t < length (tty_table (s_mem s)))%nat →
  ∃ m', cache_termios t ti s = Ret tt (mkst m' (s_world s) (s_errno s)) ∧
    cached (tty_at m' t) = mode_of ti ∧ ∀ j, j ≠ t → tty_at m' j = tty_at (s_mem s) j.
Proof.
  intros Ht. unfold cache_termios, setm, bind, modify. cbn [s_mem s_world s_errno].
  eexists. split; [reflexivity|]. rewrite !upd_tty_compose. split.
  - by rewrite tty_at_upd_eq.
  - intros j Hj. unfold tty_at, upd_tty. cbn. by rewrite list_lookup_total_alter_ne.
Qed.

End mode.

(** ** A concrete terminal: the world is its mode *)
Module TermKernel.
Definition step {R} (c : call R) (w : termios) : (R + Z) * termios :=
  match c in call R return (R + Z) * termios with
  | k_ioctl _ op arg =>
      match arg with
      | io_termios t => if is_tcsets op then (inl (0, arg), t) else (inl (0, io_termios w), w)
      | _ => (inr EINVAL, w)
      end
  | _ => (inr ENOSYS, w)
  end.
#[global] Instance kernel : Kernel termios := {| kstep := @step; kpid := λ _, 100 |}.
#[global] Instance driver : KernelTermios termios.
Proof.
  refine {| term := λ w _, w |}.
  - intros A c w fd Hc. by destruct c.
  - intros fd op arg w. cbn [kstep kernel step]. destruct arg; try done. unfold sets_mode.
    by destruct (is_tcsets op).
Defined.
Definition raw : termios := {| c_lflag := 0; c_vmin := 3; c_vtime := 0 |}.
Definition cooked : termios := {| c_lflag := ICANON; c_vmin := 1; c_vtime := 0 |}.
Definition s0 : st termios := mkst TtyDemo.m raw 0.
Definition loaded : st termios :=
  match tty_real_fd_load 0 0 s0 with Ret _ s => s | _ => s0 end.
Definition s1 : st termios :=
  match tty_ioctl 0 TCSETS (io_termios cooked) s0 with Ret _ s => s | _ => s0 end.
End TermKernel.

