(* ===== verification/Fcntl.v ===== *)
(** * fcntl.c: record locks through flock, and F_GETFL/F_SETFL on synthetic descriptors *)

From stdpp Require Import gmap.
From S2P Require Import Prelude CString Kernel State Tunables Override Walk FdKernel Synth SynthFrames SynthFacts Close Tty Proc Dispatch Handlers.

Open Scope Z_scope.

Definition fcntl_translate_type (type : Z) : Z :=
  if type =? F_RDLCK then LOCK_SH
  else if type =? F_WRLCK then LOCK_EX
  else if type =? F_UNLCK then LOCK_UN
  else -1.

(** The whole-file answer written into the caller's structure. *)
Definition whole_file (type : Z) : flock_t :=
  {| l_type := type; l_whence := SEEK_SET; l_start := 0; l_len := 0; l_pid := -1 |}.

Section fcntl.
Context {W : Type} `{!Kernel W, !Handlers W}.
Local Abbreviation M := (prog (st W)).

Definition flock (fd op : Z) : M bool :=
  let* r := sys (k_flock fd op) in ret (match r with Some _ => true | None => false end).

(** The return value and the structure as it is left. *)
Definition flock_status_query (fd : Z) (fl : flock_t) : M (option Z * flock_t) :=
  let proposed := l_type fl in
  let* test_fd := sys (k_open (proc_self_fd fd) O_RDONLY 0) in
  match test_fd with
  | None => ret (None, fl)
  | Some test_fd =>
      let* ex := flock test_fd (Z.lor LOCK_EX LOCK_NB) in
      let* out :=
        (if (ex : bool) then ret (Some 0, whole_file F_UNLCK)
         else
           let* e := get_errno in
           if negb (e =? EWOULDBLOCK) then ret (None, fl)
           else
             let* sh := flock test_fd (Z.lor LOCK_SH LOCK_NB) in
             if (sh : bool) then
               ret (Some 0, whole_file (if negb (proposed =? F_WRLCK) then F_UNLCK else F_RDLCK))
             else
               let* e := get_errno in
               if negb (e =? EWOULDBLOCK) then ret (None, fl)
               else ret (Some 0, whole_file F_WRLCK)) in
      sys (k_close test_fd) ;;*
      ret out
  end.

Definition fcntl_lock_shim (fd cmd : Z) (fl : flock_t) : M (option Z * flock_t) :=
  let hybrid := {| l_type := l_type fl; l_whence := SEEK_SET; l_start := 0; l_len := 0;
                   l_pid := 0 |} in
  let* passthru := wslcompat_synth_passthru fd SYNTH_OP_IO in
  let fd := if 0 <=? passthru then passthru else fd in
  if (cmd =? F_GETLK) || (cmd =? F_OFD_GETLK) then flock_status_query fd fl
  else
    let operation := fcntl_translate_type (l_type fl) in
    if operation <? 0 then ret (None, fl)
    else
      let operation :=
        if ((cmd =? F_SETLK) || (cmd =? F_OFD_SETLK)) && negb (l_type fl =? F_UNLCK)
        then Z.lor operation LOCK_NB else operation in
      let* ok := flock fd operation in
      if negb ok then ret (None, fl)
      else
        sys (k_fcntl_lock fd F_SETLK hybrid) ;;*
        ret (Some 0, fl).

Definition is_lock_cmd (cmd : Z) : bool :=
  (cmd =? F_GETLK) || (cmd =? F_SETLK) || (cmd =? F_SETLKW) ||
  (cmd =? F_OFD_GETLK) || (cmd =? F_OFD_SETLK) || (cmd =? F_OFD_SETLKW).

(** The next [fcntl] on a descriptor, with the caller's argument. *)
Definition next_fcntl (cmd : Z) (arg : fcntl_arg) (fd : Z) : M (option Z) :=
  match arg with
  | arg_int _ => sys (k_fcntl fd cmd arg)
  | arg_flock fl => let* r := sys (k_fcntl_lock fd cmd fl) in ret (fst <$> r)
  end.

(** For a lock command the argument is a [struct flock], for the others an integer. *)
Definition fcntl (fd cmd : Z) (arg : fcntl_arg) : M (option Z * fcntl_arg) :=
  let* off := wslcompat_passthru "fcntl" in
  if (off : bool) then
    match arg with
    | arg_int _ => let* r := sys (k_fcntl fd cmd arg) in ret (r, arg)
    | arg_flock fl =>
        let* r := sys (k_fcntl_lock fd cmd fl) in
        match r with
        | Some (v, fl') => ret (Some v, arg_flock fl')
        | None => ret (None, arg)
        end
    end
  else
    match is_lock_cmd cmd, arg with
    | true, arg_flock fl =>
        let* (r, fl') := fcntl_lock_shim fd cmd fl in ret (r, arg_flock fl')
    | _, _ =>
        let op := λ o : synth_ops W, (λ f i, f i cmd arg) <$> op_fcntl o in
        let* excl := (if (cmd =? F_GETFL) || (cmd =? F_SETFL)
                      then SYNTH_DISPATCH_EXCL op (next_fcntl cmd arg) fd
                      else ret None) in
        match excl with
        | Some r => ret (r, arg)
        | None =>
            let* r := next_fcntl cmd arg fd in
            match r with
            | Some v => ret (Some v, arg)
            | None =>
                let* e := get_errno in
                if e =? EBADF then
                  let* d := SYNTH_DISPATCH op (next_fcntl cmd arg) fd in
                  match d with Some r' => ret (r', arg) | None => ret (r, arg) end
                else ret (None, arg)
            end
        end
    end.

Definition fcntl64 := fcntl.
End fcntl.

(** ** The query against a model of the lock *)

(** How a file is locked by others. *)
Inductive lock_state := unlocked | read_locked | write_locked.

(** POSIX: does a lock of this type conflict with the locks held? *)
Definition conflicts (proposed : Z) (l : lock_state) : bool :=
  match l with
  | unlocked => false
  | read_locked => proposed =? F_WRLCK
  | write_locked => (proposed =? F_RDLCK) || (proposed =? F_WRLCK)
  end.

(** The lock type that describes what blocks. *)
Definition blocking_type (l : lock_state) : Z :=
  match l with unlocked => F_UNLCK | read_locked => F_RDLCK | write_locked => F_WRLCK end.

(** flock(2), for a fresh open file description [fd] of a file that others keep in state [l] from the
    world [w0] on. *)
Definition flock_answers {W} `{!Kernel W} (fd : Z) (l : lock_state) (w0 : W) : Prop :=
  ∀ w, wreach w0 w →
       fst (kstep (k_flock fd (Z.lor LOCK_EX LOCK_NB)) w)
       = match l with unlocked => inl tt | _ => inr EWOULDBLOCK end ∧
       fst (kstep (k_flock fd (Z.lor LOCK_SH LOCK_NB)) w)
       = match l with write_locked => inr EWOULDBLOCK | _ => inl tt end.

Section getlk.
Context {W : Type} `{!Kernel W, !Handlers W}.

Lemma sys_fst {R} (c : call R) (s : st W) :
  sys c s = match fst (kstep c (s_world s)) with
            | inl r => Ret (Some r) (mkst (s_mem s) (snd (kstep c (s_world s))) (s_errno s))
            | inr e => Ret None (mkst (s_mem s) (snd (kstep c (s_world s))) e)
            end.
Proof. unfold sys. by destruct (kstep c (s_world s)) as [[r|e] w]. Qed.

(** F_GETLK for a read or write lock answers that the lock can be placed exactly when it conflicts
    with none held, and otherwise describes the blocking lock; the whole file is reported, and the
    library's memory is untouched. *)
Theorem getlk_reports_conflict fd fl l test_fd w1 (s : st W) :
  l_type fl = F_RDLCK ∨ l_type fl = F_WRLCK →
  kstep (k_open (proc_self_fd fd) O_RDONLY 0) (s_world s) = (inl test_fd, w1) →
  flock_answers test_fd l w1 →
  ∃ s', flock_status_query fd fl s
        = Ret (Some 0, whole_file (if conflicts (l_type fl) l then blocking_type l else F_UNLCK)) s' ∧
    s_mem s' = s_mem s.
Proof.
  intros Ht Ho Hf. unfold flock_status_query. unfold bind at 1. unfold sys at 1. rewrite Ho.
  unfold flock. rewrite bind_assoc. unfold bind at 1. rewrite sys_fst. cbn [s_world s_mem s_errno].
  rewrite (proj1 (Hf w1 (rtc_refl _ _))).
  destruct l; run_simpl; cbn [negb EWOULDBLOCK Z.eqb Pos.eqb]; rewrite ?bind_assoc.
  - run_sys. simpl. eexists. split; [done|]. simpl in Hm. done.
  - unfold bind at 1. rewrite sys_fst. cbn [s_world s_mem s_errno]. rewrite (proj2 (Hf _ (rtc_once _ _ (ex_intro _ _ (ex_intro _ _ eq_refl))))).
    run_simpl. run_sys. simpl. eexists. split; [|by simpl in Hm].
    destruct Ht as [-> | ->]; done.
  - unfold bind at 1. rewrite sys_fst. cbn [s_world s_mem s_errno]. rewrite (proj2 (Hf _ (rtc_once _ _ (ex_intro _ _ (ex_intro _ _ eq_refl))))).
    run_simpl. cbn [negb EWOULDBLOCK Z.eqb Pos.eqb]. run_simpl. run_sys. simpl.
    eexists. split; [|by simpl in Hm]. destruct Ht as [-> | ->]; done.
Qed.
End getlk.

Section setlk.
Context {W : Type} `{!Kernel W, !Handlers W}.

(** Taking or dropping a lock on a descriptor that is not redirected is one flock call: shared for a
    read lock, exclusive for a write lock, non-blocking for F_SETLK and F_OFD_SETLK. The caller
    sees 0 exactly when flock succeeded, and flock's errno otherwise. *)
Theorem setlk_is_flock fd cmd fl (s s1 : st W) :
  cmd = F_SETLK ∨ cmd = F_SETLKW ∨ cmd = F_OFD_SETLK ∨ cmd = F_OFD_SETLKW →
  l_type fl = F_RDLCK ∨ l_type fl = F_WRLCK ∨ l_type fl = F_UNLCK →
  wslcompat_synth_passthru fd SYNTH_OP_IO s = Ret (-1) s1 →
  let base := if l_type fl =? F_RDLCK then LOCK_SH
              else if l_type fl =? F_WRLCK then LOCK_EX else LOCK_UN in
  let nonblocking := bool_decide ((cmd = F_SETLK ∨ cmd = F_OFD_SETLK) ∧ l_type fl ≠ F_UNLCK) in
  let op := if nonblocking then Z.lor base LOCK_NB else base in
  match kstep (k_flock fd op) (s_world s1) with
  | (inl _, _) => ∃ s', fcntl_lock_shim fd cmd fl s = Ret (Some 0, fl) s'
  | (inr er, w) => fcntl_lock_shim fd cmd fl s = Ret (None, fl) (mkst (s_mem s1) w er)
  end.
Proof.
  intros Hcmd Hty Hp base nb op. unfold fcntl_lock_shim. rewrite (bind_Ret _ _ _ _ _ Hp).
  assert ((cmd =? F_GETLK) || (cmd =? F_OFD_GETLK) = false) as ->
    by (destruct Hcmd as [->|[->|[->| ->]]]; done).
  assert (fcntl_translate_type (l_type fl) = base ∧ (base <? 0) = false) as [-> ->]
    by (unfold base; destruct Hty as [->|[->| ->]]; done).
  cbn [Z.leb Z.compare].
  assert (((cmd =? F_SETLK) || (cmd =? F_OFD_SETLK)) && negb (l_type fl =? F_UNLCK) = nb) as ->.
  { unfold nb. destruct Hcmd as [->|[->|[->| ->]]], Hty as [->|[->| ->]]; by vm_compute. }
  change (if nb then Z.lor base LOCK_NB else base) with op.
  assert (∀ B (k : bool → prog (st W) B), bind (flock fd op) k s1 =
    match kstep (k_flock fd op) (s_world s1) with
    | (inl _, w) => k true (mkst (s_mem s1) w (s_errno s1))
    | (inr er, w) => k false (mkst (s_mem s1) w er)
    end) as Hf.
  { intros B k. unfold flock, bind, sys. by destruct (kstep _ _) as [[]]. }
  rewrite Hf. destruct (kstep (k_flock fd op) (s_world s1)) as [[[]|er] w]; cbn [negb]; [|done].
  run_sys. eauto.
Qed.

(** A lock type other than the three fails with whatever errno the lookup happened to leave: the
    code returns -1 without setting one. *)
Theorem setlk_bad_type fd cmd fl (s s1 : st W) :
  cmd = F_SETLK ∨ cmd = F_SETLKW ∨ cmd = F_OFD_SETLK ∨ cmd = F_OFD_SETLKW →
  l_type fl ≠ F_RDLCK → l_type fl ≠ F_WRLCK → l_type fl ≠ F_UNLCK →
  wslcompat_synth_passthru fd SYNTH_OP_IO s = Ret (-1) s1 →
  fcntl_lock_shim fd cmd fl s = Ret (None, fl) s1.
Proof.
  intros Hcmd H1 H2 H3 Hp. unfold fcntl_lock_shim. rewrite (bind_Ret _ _ _ _ _ Hp).
  assert ((cmd =? F_GETLK) || (cmd =? F_OFD_GETLK) = false) as ->
    by (destruct Hcmd as [->|[->|[->| ->]]]; done).
  unfold fcntl_translate_type. apply Z.eqb_neq in H1, H2, H3. by rewrite H1, H2, H3.
Qed.
End setlk.

(** ** F_SETFL *)
Section setfl.
Context {W : Type} `{!Kernel W, !KernelProcFd W, !Handlers W}.
Local Abbreviation M := (prog (st W)).

(** A scope that only touches errno, on a pinned entry. *)
Lemma autopin_errno {A} fd i (body : option nat → M A) (s : st W) a e :
  (i < length (synth_table (s_mem s)))%nat → 0 < refcount (entry_at (s_mem s) i) →
  wslcompat_synth_pin_fd fd s = Ret (Some i) (pinned i s) →
  body (Some i) (pinned i s) = Ret a (mkst (s_mem (pinned i s)) (s_world s) e) →
  autopin fd body s = Ret a (mkst (s_mem s) (s_world s) e).
Proof.
  intros Hi Hrc Hp Hb. unfold autopin. rewrite (bind_Ret _ _ _ _ _ Hp), (bind_Ret _ _ _ _ _ Hb).
  erewrite bind_Ret by (apply unpin_shared; cbn [s_mem pinned]; rewrite entry_at_upd_eq by done;
    simpl; lia). cbn [s_mem pinned s_world s_errno].
  rewrite entry_at_upd_eq by done. cbn [refcount set_refcount]. rewrite Z.add_simpl_r.
  by rewrite set_refcount_back.
Qed.

(** The entry found by a successful lookup, on a kernel whose fstat reads the descriptor table. *)
Lemma pin_fd_pinned fd i (s s1 : st W) :
  length (synth_table (s_mem s)) = SYNTH_TABLE_SIZE →
  wslcompat_synth_pin_fd fd s = Ret (Some i) s1 →
  (i < length (synth_table (s_mem s)))%nat ∧ 0 < refcount (entry_at (s_mem s) i) ∧ s1 = pinned i s ∧
  ∀ e, wslcompat_synth_pin_fd fd (mkst (s_mem s) (s_world s) e)
       = Ret (Some i) (pinned i (mkst (s_mem s) (s_world s) e)).
Proof.
  intros Hlen. unfold wslcompat_synth_pin_fd, bind, sys. rewrite fstat_law. cbn [s_world].
  destruct (fds (s_world s) !! fd) as [key|] eqn:Ek; [|done]. unfold synth_pin_lookup.
  rewrite pin_lookup_run_from by (cbn [s_mem]; rewrite Hlen; lia). cbn [s_mem].
  destruct (list_find _ _) as [[k j]|] eqn:Ef; [|done]. intros [= <- <-].
  apply list_find_Some in Ef as Ef'. destruct Ef' as (Hk & Hmt & _).
  apply lookup_seq in Hk as [-> Hk].
  apply Is_true_true, andb_true_iff in Hmt as [Hrc%Z.ltb_lt _].
  split; [rewrite Hlen; lia|]. split; [done|]. split; [by destruct s|]. intros e.
  rewrite fstat_law, Ek, pin_lookup_run_from by (cbn [s_mem]; rewrite Hlen; lia). cbn [s_mem].
  by rewrite Ef.
Qed.

(** On a synthetic descriptor with neither an fcntl operation nor a backing descriptor, F_GETFL and
    F_SETFL fail with [EOPNOTSUPP]: the kernel, which would turn the O_PATH descriptor into an
    ordinary one, is not asked, and nothing changes. *)
Theorem setfl_never_reaches_opath fd cmd arg i (s s1 : st W) :
  table_ok (s_mem s) → wslcompat_enabled (s_mem s) "fcntl" = true →
  cmd = F_GETFL ∨ cmd = F_SETFL → wslcompat_synth_pin_fd fd s = Ret (Some i) s1 →
  op_fcntl (ops_of (e_ops (entry_at (s_mem s) i))) = None →
  op_passthru (ops_of (e_ops (entry_at (s_mem s) i))) = None →
  fcntl fd cmd (arg_int arg) s = Ret (None, arg_int arg) (mkst (s_mem s) (s_world s) EOPNOTSUPP).
Proof.
  intros (Hlen & _ & _) Hen Hcmd Hp Hop Hpt. simpl in Hlen.
  destruct (pin_fd_pinned _ _ _ _ Hlen Hp) as (Hi & Hrc & -> & Hagain).
  assert (entry_ops i (pinned i s) = Ret (ops_of (e_ops (entry_at (s_mem s) i))) (pinned i s)) as Heo.
  { unfold entry_ops. rewrite getm_run. unfold pinned at 1. cbn [s_mem].
    by rewrite entry_at_upd_eq. }
  unfold fcntl, wslcompat_passthru. rewrite bind_getm, Hen. cbn [negb].
  assert (is_lock_cmd cmd = false ∧ (cmd =? F_GETFL) || (cmd =? F_SETFL) = true) as [-> ->]
    by (destruct Hcmd as [-> | ->]; done).
  assert (∀ op, (op : synth_ops W → option (nat → M (option Z)))
      (ops_of (e_ops (entry_at (s_mem s) i))) = None →
    SYNTH_DISPATCH op (next_fcntl cmd (arg_int arg)) fd s = Ret None s) as Hd.
  { intros op Ho. unfold SYNTH_DISPATCH. rewrite bind_get_errno.
    rewrite (autopin_errno fd i _ s None (s_errno s)); [by destruct s|done..|].
    rewrite (bind_Ret _ _ _ _ _ Heo), Ho, Hpt. by run_simpl. }
  unfold SYNTH_DISPATCH_EXCL. rewrite !bind_assoc.
  erewrite bind_Ret by (apply Hd; by rewrite Hop).
  erewrite bind_Ret by (apply (autopin_errno fd i _ s (Some None) EOPNOTSUPP); [done..|by run_simpl]).
  by run_simpl.
Qed.
End setfl.

(** ** Concrete runs *)
Lemma shared_wstep (w w' : FdKernel.world) :
  wreach w w' → FdKernel.w_shared w' = FdKernel.w_shared w.
Proof.
  induction 1 as [|w1 w2 w3 (R & c & ->) _ IH]; [done|]. rewrite IH. clear.
  destruct c; cbn [kstep FdKernel.kernel FdKernel.step]; try done;
    unfold FdKernel.do_open, FdKernel.do_dup; repeat case_match; done.
Qed.

Module FcntlDemo.
(** Descriptor 0 is an ordinary file; with [shared], others hold a shared lock on it. *)
Definition s (shared : bool) : st FdKernel.world := mkst init_mem (SynthDemo.w0 shared) 0.
Definition lock (t : Z) : flock_t :=
  {| l_type := t; l_whence := SEEK_SET; l_start := 5; l_len := 10; l_pid := 0 |}.
Definition reopened : FdKernel.world :=
  snd (kstep (k_open (proc_self_fd 0) O_RDONLY 0) (SynthDemo.w0 true)).
End FcntlDemo.

Lemma getlk_reports_conflict_witness :
  ∃ s', flock_status_query 0 (FcntlDemo.lock F_WRLCK) (FcntlDemo.s true)
        = Ret (Some 0, whole_file F_RDLCK) s' ∧ s_mem s' = init_mem.
Proof.
  apply (getlk_reports_conflict 0 (FcntlDemo.lock F_WRLCK) read_locked 1 FcntlDemo.reopened
           (FcntlDemo.s true)); [by right|by vm_compute|].
  intros w Hw. apply shared_wstep in Hw. cbn [kstep FdKernel.kernel FdKernel.step fst].
  by rewrite Hw.
Defined.

Lemma setlk_is_flock_witness :
  ∃ s', fcntl_lock_shim 0 F_SETLK (FcntlDemo.lock F_RDLCK) (FcntlDemo.s true)
        = Ret (Some 0, FcntlDemo.lock F_RDLCK) s'.
Proof.
  assert (wslcompat_synth_passthru 0 SYNTH_OP_IO (FcntlDemo.s true) = Ret (-1) (FcntlDemo.s true))
    as Hp by (by vm_compute).
  exact (setlk_is_flock 0 F_SETLK (FcntlDemo.lock F_RDLCK) (FcntlDemo.s true) (FcntlDemo.s true)
    (or_introl eq_refl) (or_introl eq_refl) Hp).
Defined.

Lemma setlk_bad_type_witness :
  s_errno (FcntlDemo.s false) = 0 ∧
  fcntl_lock_shim 0 F_SETLK (FcntlDemo.lock 9) (FcntlDemo.s false)
  = Ret (None, FcntlDemo.lock 9) (FcntlDemo.s false).
Proof.
  split; [done|].
  apply (setlk_bad_type 0 F_SETLK (FcntlDemo.lock 9) (FcntlDemo.s false) (FcntlDemo.s false));
    [by left|done..|by vm_compute].
Defined.

Lemma setfl_never_reaches_opath_witness :
  fcntl 4 F_SETFL (arg_int O_NONBLOCK) IoDemo.s
  = Ret (None, arg_int O_NONBLOCK) (mkst IoDemo.m (SynthDemo.w0 false) EOPNOTSUPP).
Proof.
  apply (setfl_never_reaches_opath 4 F_SETFL O_NONBLOCK 0 IoDemo.s (pinned 0 IoDemo.s));
    [apply IoDemo.m_ok|by vm_compute|by right|by vm_compute|done|done].
Defined.
