(* ===== verification/Poll.v ===== *)
(** * poll.c, first half: poll and ppoll

    A synthetic descriptor cannot be polled itself. The shim asks the kernel first and, when the
    answer betrays a synthetic descriptor, replaces each by its backing descriptor in the caller's
    array, asks again, and puts the caller's descriptors back. *)

From stdpp Require Import gmap.
From S2P Require Import Prelude CString Kernel State Tunables Override Walk FdKernel Synth SynthFrames SynthFacts Close Tty Proc Dispatch Handlers.

Open Scope Z_scope.

Definition MAX_SWAPS : nat := 64.
#[global] Arguments MAX_SWAPS : simpl never.

Definition POLLOUT : Z := 4.
Definition POLLRDNORM : Z := 64.
Definition POLLWRNORM : Z := 256.

Definition set_pfd (fd : Z) (p : pollfd) : pollfd :=
  {| pfd := fd; pevents := pevents p; prevents := prevents p |}.
Definition set_prevents (r : Z) (p : pollfd) : pollfd :=
  {| pfd := pfd p; pevents := pevents p; prevents := r |}.

#[export] Instance pollfd_inhabited : Inhabited pollfd :=
  populate {| pfd := 0; pevents := 0; prevents := 0 |}.

(** What the kernel writes into the caller's array. *)
Fixpoint set_revents (fds : list pollfd) (rs : list Z) : list pollfd :=
  match fds, rs with
  | p :: fds', r :: rs' => set_prevents r p :: set_revents fds' rs'
  | _, _ => fds
  end.

Inductive poll_variant := POLL_VARIANT | PPOLL_VARIANT.

Record poll_ctx := {
  pc_kind : poll_variant;
  pc_timeout : Z;
  pc_tmo : option timespec;
  pc_sigmask : option Z;
}.

Section poll.
Context {W : Type} `{!Kernel W, !Handlers W}.
Local Abbreviation M := (prog (st W)).

Definition translate_synth_fd (fd : Z) : M Z :=
  let* real := wslcompat_synth_passthru fd SYNTH_OP_POLL in
  ret (if (real <? 0) || (real =? fd) then -1 else real).

(** The array is threaded through; a swap is the index and the synthetic descriptor. *)
Fixpoint swap_in_loop (idx : list nat) (fds : list pollfd) (swaps : list (nat * Z)) :
    M (list pollfd * list (nat * Z)) :=
  match idx with
  | [] => ret (fds, swaps)
  | i :: idx' =>
      let fd := pfd (fds !!! i) in
      let* real := translate_synth_fd fd in
      if real <? 0 then swap_in_loop idx' fds swaps
      else if (MAX_SWAPS <=? length swaps)%nat then swap_in_loop idx' fds swaps
      else swap_in_loop idx' (alter (set_pfd real) i fds) (swaps ++ [(i, fd)])
  end.

Definition poll_swap_in (fds : list pollfd) : M (list pollfd * list (nat * Z)) :=
  swap_in_loop (seq 0 (length fds)) fds [].

Fixpoint poll_swap_out (fds : list pollfd) (swaps : list (nat * Z)) : list pollfd :=
  match swaps with
  | [] => fds
  | (i, fd) :: swaps' => poll_swap_out (alter (set_pfd fd) i fds) swaps'
  end.

Fixpoint poll_canary_fired (fds : list pollfd) : M bool :=
  match fds with
  | [] => ret false
  | p :: fds' =>
      if prevents p =? 0 then poll_canary_fired fds'
      else
        let* real := translate_synth_fd (pfd p) in
        if 0 <=? real then ret true else poll_canary_fired fds'
  end.

(** The return value and the array. *)
Definition kernel_call (c : poll_ctx) (fds : list pollfd) : M (option Z * list pollfd) :=
  let* r := match pc_kind c with
            | POLL_VARIANT => sys (k_poll fds (pc_timeout c))
            | PPOLL_VARIANT => sys (k_ppoll fds (pc_tmo c) (pc_sigmask c))
            end in
  match r with
  | Some (n, rs) => ret (Some n, set_revents fds rs)
  | None => ret (None, fds)
  end.

Definition probe_ctx (c : poll_ctx) : poll_ctx :=
  match pc_kind c with
  | POLL_VARIANT => {| pc_kind := pc_kind c; pc_timeout := 0; pc_tmo := pc_tmo c;
                       pc_sigmask := pc_sigmask c |}
  | PPOLL_VARIANT => {| pc_kind := pc_kind c; pc_timeout := pc_timeout c;
                        pc_tmo := Some {| tv_sec := 0; tv_nsec := 0 |};
                        pc_sigmask := pc_sigmask c |}
  end.

Definition kernel_probe (c : poll_ctx) (fds : list pollfd) : M (option Z * list pollfd) :=
  kernel_call (probe_ctx c) fds.

Definition canary_retry (fds : list pollfd) (fallback : Z) (c : poll_ctx) :
    M (option Z * list pollfd) :=
  let* (fds1, swaps) := poll_swap_in fds in
  if (length swaps =? 0)%nat then ret (Some fallback, fds1)
  else
    let* (r, fds2) := kernel_call c fds1 in
    ret (r, poll_swap_out fds2 swaps).

Fixpoint needs_proactive_swap (fds : list pollfd) : bool :=
  match fds with
  | [] => false
  | p :: fds' =>
      if pfd p <? 0 then needs_proactive_swap fds'
      else if has_bits (pevents p) (Z.lor POLLIN (Z.lor POLLOUT (Z.lor POLLRDNORM POLLWRNORM)))
      then needs_proactive_swap fds'
      else true
  end.

Definition poll_dispatch (fds : list pollfd) (c : poll_ctx) : M (option Z * list pollfd) :=
  let* off := wslcompat_passthru "poll" in
  let* active := (if (off : bool) then ret false else wslcompat_synth_active) in
  if off || negb active then kernel_call c fds
  else
    let* (probe, fds1) := kernel_probe c fds in
    match probe with
    | None => ret (None, fds1)
    | Some result =>
        if needs_proactive_swap fds1 then
          let* (fds2, swaps) := poll_swap_in fds1 in
          let* (r, fds3) := kernel_call c fds2 in
          ret (r, if (0 <? length swaps)%nat then poll_swap_out fds3 swaps else fds3)
        else
          let* (result, fds2) := (if result =? 0 then kernel_call c fds1
                                  else ret (Some result, fds1)) in
          match result with
          | None => ret (None, fds2)
          | Some n =>
              if n <=? 0 then ret (Some n, fds2)
              else
                let* fired := poll_canary_fired fds2 in
                if negb fired then ret (Some n, fds2) else canary_retry fds2 n c
          end
    end.

Definition poll (fds : list pollfd) (timeout : Z) : M (option Z * list pollfd) :=
  poll_dispatch fds {| pc_kind := POLL_VARIANT; pc_timeout := timeout; pc_tmo := None;
                       pc_sigmask := None |}.

Definition ppoll (fds : list pollfd) (tmo : option timespec) (sigmask : option Z) :
    M (option Z * list pollfd) :=
  poll_dispatch fds {| pc_kind := PPOLL_VARIANT; pc_timeout := 0; pc_tmo := tmo;
                       pc_sigmask := sigmask |}.

(** [sizeof (struct pollfd)] is 8. *)
Definition __poll_chk (fds : list pollfd) (timeout fdslen : Z) : M (option Z * list pollfd) :=
  if fdslen / 8 <? Z.of_nat (length fds) then gone else poll fds timeout.

Definition __ppoll_chk (fds : list pollfd) (tmo : option timespec) (sigmask : option Z)
    (fdslen : Z) : M (option Z * list pollfd) :=
  if fdslen / 8 <? Z.of_nat (length fds) then gone else ppoll fds tmo sigmask.
End poll.

(** ** Restoring the caller's array *)

(** What the caller asked for: descriptors and events. *)
Definition requests (fds : list pollfd) : list (Z * Z) := (λ p, (pfd p, pevents p)) <$> fds.

Lemma requests_set_revents fds rs : requests (set_revents fds rs) = requests fds.
Proof.
  revert rs. induction fds as [|p fds IH]; intros [|r rs]; [done..|].
  unfold requests in *. simpl. by rewrite IH.
Qed.

Lemma requests_alter fds i fd :
  requests (alter (set_pfd fd) i fds) = alter (λ q, (fd, q.2)) i (requests fds).
Proof.
  unfold requests. apply list_eq. intros j.
  rewrite list_lookup_fmap, !list_lookup_alter, !list_lookup_fmap.
  case_decide; [subst|done]. by destruct (fds !! j).
Qed.

Lemma swap_out_app fds l l' :
  poll_swap_out fds (l ++ l') = poll_swap_out (poll_swap_out fds l) l'.
Proof. revert fds. induction l as [|[i fd] l IH]; intros fds; [done|]. apply IH. Qed.

Lemma swap_out_alter fds l i fd :
  i ∉ l.*1 → poll_swap_out (alter (set_pfd fd) i fds) l = alter (set_pfd fd) i (poll_swap_out fds l).
Proof.
  revert fds. induction l as [|[j fd'] l IH]; intros fds Hi; [done|]. simpl.
  rewrite <-IH by set_solver. f_equal. apply list_alter_alter_ne. set_solver.
Qed.

Lemma swap_out_requests l fds fds' :
  requests fds = requests fds' → requests (poll_swap_out fds l) = requests (poll_swap_out fds' l).
Proof.
  revert fds fds'. induction l as [|[i fd] l IH]; intros fds fds' H; [done|]. simpl. apply IH.
  by rewrite !requests_alter, H.
Qed.

Section facts.
Context {W : Type} `{!Kernel W, !Handlers W}.

(** From any array the swap list [swaps] turns [cur]'s requests into those of [orig]. *)
Definition undoes (swaps : list (nat * Z)) (cur orig : list pollfd) : Prop :=
  requests (poll_swap_out cur swaps) = requests orig.

Lemma swap_in_loop_undo idx cur swaps orig fds' swaps' (s s' : st W) :
  NoDup idx → (∀ i, i ∈ idx → i ∉ swaps.*1) → (length swaps ≤ MAX_SWAPS)%nat →
  undoes swaps cur orig → swap_in_loop idx cur swaps s = Ret (fds', swaps') s' →
  undoes swaps' fds' orig ∧ (length swaps' ≤ MAX_SWAPS)%nat.
Proof.
  revert cur swaps s. induction idx as [|i idx IH]; intros cur swaps s Hnd Hni Hlen Hu; cbn [swap_in_loop].
  { intros [= <- <- <-]. done. }
  apply NoDup_cons in Hnd as [Hi Hnd]. intros H. run_inv H.
  destruct (r <? 0); [eapply IH; eauto; set_solver|].
  destruct (MAX_SWAPS <=? length swaps)%nat eqn:El; [eapply IH; eauto; set_solver|].
  apply Nat.leb_gt in El. eapply IH, H; [done| |rewrite length_app; simpl; lia|].
  - intros j Hj. rewrite fmap_app. set_solver.
  - assert (i ∉ swaps.*1) as Hi' by (apply Hni; set_solver).
    unfold undoes in *. rewrite swap_out_app. simpl. rewrite <-swap_out_alter by done.
    rewrite <-Hu. apply swap_out_requests. rewrite !requests_alter, list_alter_alter_eq.
    apply list_eq. intros j. rewrite list_lookup_alter. case_decide; [subst|done].
    unfold requests. rewrite !list_lookup_fmap, list_lookup_total_alt. by destruct (cur !! j).
Qed.

(** Swapping in writes no more than the 64 records there is room for, and swapping out restores
    every descriptor, whatever the kernel wrote into the array in between. *)
Lemma poll_swap_undo fds fds' swaps (s s' : st W) :
  poll_swap_in fds s = Ret (fds', swaps) s' →
  (length swaps ≤ MAX_SWAPS)%nat ∧
  ∀ g, requests g = requests fds' → requests (poll_swap_out g swaps) = requests fds.
Proof.
  intros H. apply (swap_in_loop_undo _ _ _ fds) in H as [Hu Hl];
    [|apply NoDup_seq|set_solver|simpl; lia|done].
  split; [done|]. intros g Hg. rewrite (swap_out_requests _ _ _ Hg). done.
Qed.

Lemma kernel_call_requests c fds r fds' (s s' : st W) :
  kernel_call c fds s = Ret (r, fds') s' → requests fds' = requests fds.
Proof.
  unfold kernel_call. intros H. run_inv H. destruct r0 as [[n rs]|]; injection H as <- <- <-; [|done].
  apply requests_set_revents.
Qed.

(** C28: Whatever happens, [poll] and [ppoll] hand the caller's array back with the descriptors and the
    events the caller put there; only the returned events may differ. *)
Theorem poll_restores_requests fds c r fds' (s s' : st W) :
  poll_dispatch fds c s = Ret (r, fds') s' → requests fds' = requests fds.
Proof.
  unfold poll_dispatch. intros H. run_inv H. run_inv H.
  destruct (_ || _); [by eapply kernel_call_requests|].
  run_inv H. destruct r2 as [probe fds1]. apply kernel_call_requests in E1 as H1.
  destruct probe as [n|]; [|by injection H as <- <- <-].
  destruct (needs_proactive_swap fds1).
  - run_inv H. destruct r2 as [fds2 swaps]. run_inv H. destruct r2 as [r2 fds3].
    injection H as <- <- <-. apply poll_swap_undo in E2 as [_ Hu].
    apply kernel_call_requests in E3. destruct (0 <? length swaps)%nat eqn:El.
    + rewrite Hu; done.
    + apply Nat.ltb_ge in El. destruct swaps; [|simpl in El; lia].
      specialize (Hu fds3 E3). simpl in Hu. congruence.
  - run_inv H. destruct r2 as [result fds2].
    assert (requests fds2 = requests fds) as H2.
    { destruct (n =? 0); [apply kernel_call_requests in E2; congruence|].
      by injection E2 as <- <- <-. }
    destruct result as [n'|]; [|by injection H as <- <- <-].
    destruct (n' <=? 0); [by injection H as <- <- <-|]. run_inv H.
    destruct (negb _); [by injection H as <- <- <-|].
    unfold canary_retry in H. run_inv H. destruct r3 as [fds3 swaps].
    apply poll_swap_undo in E4 as [_ Hu].
    destruct (length swaps =? 0)%nat eqn:El.
    + injection H as <- <- <-. apply Nat.eqb_eq in El. destruct swaps; [|done].
      specialize (Hu fds3 eq_refl). simpl in Hu. congruence.
    + run_inv H. destruct r3 as [r3 fds4]. injection H as <- <- <-.
      apply kernel_call_requests in E4. rewrite Hu; done.
Qed.

(** With a translation [tr] that the state [I] supports, and no more synthetic descriptors than
    there are records, the kernel is asked about the backing descriptor of every synthetic one and
    about all others unchanged. *)
Theorem poll_swap_in_translates (tr : Z → Z) (I : st W → Prop) (fds : list pollfd) (s : st W) :
  (∀ fd s, I s → ∃ s', translate_synth_fd fd s = Ret (tr fd) s' ∧ I s') →
  I s → (length (filter (λ p, 0 ≤ tr (pfd p))%Z fds) ≤ MAX_SWAPS)%nat →
  ∃ swaps s', poll_swap_in fds s =
    Ret ((λ p, if tr (pfd p) <? 0 then p else set_pfd (tr (pfd p)) p) <$> fds, swaps) s' ∧ I s'.
Proof.
  intros Htr. unfold poll_swap_in.
  assert (∀ todo pre swaps (s : st W), I s →
    (length swaps + length (filter (λ p, 0 ≤ tr (pfd p))%Z todo) ≤ MAX_SWAPS)%nat →
    ∃ swaps' s', swap_in_loop (seq (length pre) (length todo)) (pre ++ todo) swaps s =
      Ret (pre ++ ((λ p, if tr (pfd p) <? 0 then p else set_pfd (tr (pfd p)) p) <$> todo), swaps') s'
      ∧ I s') as H.
  { induction todo as [|p todo IH]; intros pre swaps s0 HI Hlen; [by eauto|].
    cbn [length seq swap_in_loop]. rewrite list_lookup_total_middle by done.
    destruct (Htr (pfd p) s0 HI) as (s1 & E & HI1). rewrite (bind_Ret _ _ _ _ _ E).
    rewrite filter_cons in Hlen. rewrite fmap_cons.
    assert (∀ q, pre ++ q :: todo = (pre ++ [q]) ++ todo) as Hcons by (intros; by rewrite <-app_assoc).
    assert (∀ q : pollfd, S (length pre) = length (pre ++ [q])) as Hl
      by (intros; rewrite length_app; simpl; lia).
    destruct (tr (pfd p) <? 0) eqn:Et; [apply Z.ltb_lt in Et|apply Z.ltb_ge in Et].
    - rewrite decide_False in Hlen by lia. rewrite (Hcons p), (Hl p).
      destruct (IH (pre ++ [p]) swaps s1 HI1 Hlen) as (sw & s' & E' & HI').
      exists sw, s'. rewrite E', <-app_assoc. done.
    - rewrite decide_True in Hlen by done. simpl in Hlen.
      destruct (MAX_SWAPS <=? length swaps)%nat eqn:El; [apply Nat.leb_le in El; lia|].
      rewrite alter_app_r_alt by lia. rewrite Nat.sub_diag. simpl.
      rewrite (Hcons (set_pfd (tr (pfd p)) p)), (Hl (set_pfd (tr (pfd p)) p)).
      destruct (IH (pre ++ [set_pfd (tr (pfd p)) p]) (swaps ++ [(length pre, pfd p)]) s1 HI1)
        as (sw & s' & E' & HI'); [rewrite length_app; simpl; lia|].
      exists sw, s'. rewrite E', <-app_assoc. done. }
  intros HI Hlen. destruct (H fds [] [] s HI Hlen) as (sw & s' & E & HI'). eauto.
Qed.
End facts.

(** ** Concrete runs *)
Module PollDemo.
Import FdKernel.

(** Every synthetic descriptor is backed by descriptor 0. *)
#[export] Instance handlers : Handlers world := λ _,
  {| op_read := None; op_write := None; op_pread := None; op_pwrite := None; op_readv := None;
     op_writev := None; op_preadv := None; op_pwritev := None; op_lseek := None; op_mmap := None;
     op_ioctl := None; op_fcntl := None; op_fsync := None; op_fdatasync := None;
     op_ftruncate := None; op_fchmod := None; op_fchown := None; op_fallocate := None;
     op_fgetxattr := None; op_fsetxattr := None; op_flistxattr := None; op_fremovexattr := None;
     op_close := None; op_dup := None; op_release := None;
     op_passthru := Some (λ _ _, ret 0); op_relocate := None; op_describe := None |}.

Definition w : world :=
  {| w_pid := 100; w_dirs := ∅; w_text := {[0 := "input"]}; w_files := []; w_shared := false;
     w_fds := {[0 := {| st_dev := 3; st_ino := 9; st_mode := 0 |}; 4 := SynthDemo.file 50]};
     w_next := 60 |}.
Definition s (e : Z) : st world := mkst IoDemo.m w e.

(** Descriptor 4 is synthetic. *)
Definition tr (fd : Z) : Z := if fd =? 4 then 0 else -1.
Definition request : list pollfd :=
  [{| pfd := 4; pevents := POLLIN; prevents := 0 |}; {| pfd := 7; pevents := POLLIN; prevents := 0 |}].
Definition holds (s : st world) : Prop := s_mem s = IoDemo.m ∧ s_world s = w.

Lemma tr_ok fd (s : st world) :
  holds s → ∃ s', translate_synth_fd fd s = Ret (tr fd) s' ∧ holds s'.
Proof.
  destruct s as [m' w' e]. intros [Hm Hw]. cbn [s_mem s_world] in Hm, Hw. subst m' w'.
  destruct (decide (fd = 4)) as [->|H4]; [by eexists; vm_compute|].
  destruct (decide (fd = 0)) as [->|H0]; [by eexists; vm_compute|].
  assert (tr fd = -1) as -> by (unfold tr; by rewrite (proj2 (Z.eqb_neq fd 4) H4)).
  exists (mkst IoDemo.m w EBADF). split; [|done].
  unfold translate_synth_fd, wslcompat_synth_passthru, autopin, wslcompat_synth_pin_fd.
  rewrite !bind_assoc. unfold bind at 1, sys. rewrite fstat_law.
  assert (open_fds w !! fd = None) as Hn; [|cbn [s_world fds kernel_proc_fd]; by rewrite Hn].
  unfold open_fds. apply map_lookup_filter_None. left. cbn [w w_fds].
  by rewrite lookup_insert_ne, lookup_singleton_ne.
Qed.
End PollDemo.
Import PollDemo.

Lemma poll_restores_requests_witness :
  ∃ r fds' s', poll_dispatch PollDemo.request
    {| pc_kind := POLL_VARIANT; pc_timeout := -1; pc_tmo := None; pc_sigmask := None |}
    (PollDemo.s 0) = Ret (r, fds') s' ∧ requests fds' = requests PollDemo.request.
Proof.
  destruct (poll_dispatch PollDemo.request
    {| pc_kind := POLL_VARIANT; pc_timeout := -1; pc_tmo := None; pc_sigmask := None |}
    (PollDemo.s 0)) as [[r fds'] s'|?|] eqn:E; [|by vm_compute in E..].
  exists r, fds', s'. split; [done|]. exact (poll_restores_requests _ _ _ _ _ _ E).
Defined.

Lemma poll_swap_in_translates_witness :
  ∃ swaps s', poll_swap_in PollDemo.request (PollDemo.s 0) =
    Ret ([{| pfd := 0; pevents := POLLIN; prevents := 0 |};
          {| pfd := 7; pevents := POLLIN; prevents := 0 |}], swaps) s'.
Proof.
  destruct (poll_swap_in_translates PollDemo.tr PollDemo.holds PollDemo.request (PollDemo.s 0))
    as (swaps & s' & E & _); [apply PollDemo.tr_ok|done|vm_compute; lia|eauto].
Defined.
