(* ===== verification/Select.v ===== *)
(** * poll.c, second half: select and pselect *)

From stdpp Require Import gmap.
From S2P Require Import Prelude CString Kernel State Tunables Override Walk FdKernel Synth SynthFrames SynthFacts Close Tty Proc Dispatch Handlers Poll.

Open Scope Z_scope.

Definition FD_SETSIZE : Z := 1024.

(** The index [d] of the loops over the three sets. *)
Inductive dir := d_read | d_write | d_except.

Definition get_set (d : dir) (s : fdsets) : option Z :=
  match d with d_read => rset s | d_write => wset s | d_except => eset s end.
Definition map_sets (f : dir → option Z → option Z) (s : fdsets) : fdsets :=
  {| rset := f d_read (rset s); wset := f d_write (wset s); eset := f d_except (eset s) |}.

Definition FD_ISSET (fd : Z) (set : Z) : bool := Z.testbit set fd.
Definition FD_SET (fd : Z) (set : option Z) : option Z := (λ z, Z.setbit z fd) <$> set.
Definition FD_CLR (fd : Z) (set : option Z) : option Z := (λ z, Z.clearbit z fd) <$> set.

Definition sel_watched (set : option Z) (fd : Z) : bool :=
  match set with Some z => FD_ISSET fd z | None => false end.

Record sel_swap := { synth_fd : Z; real_of : Z; s_in : dir → bool; r_in : dir → bool }.

Inductive sel_variant := SELECT_VARIANT | PSELECT_VARIANT.
Record sel_ctx := {
  sc_kind : sel_variant;
  sc_tv : option timeval;
  sc_tmo : option timespec;
  sc_sigmask : option Z;
}.

(** The descriptors the loops look at: [fd < nfds && fd < FD_SETSIZE]. *)
Definition fd_range (nfds : Z) : list Z := Z.of_nat <$> seq 0 (Z.to_nat (Z.min nfds FD_SETSIZE)).

Section select.
Context {W : Type} `{!Kernel W, !Handlers W}.
Local Abbreviation M := (prog (st W)).

Definition watched_any (sets : fdsets) (fd : Z) : bool :=
  sel_watched (rset sets) fd || sel_watched (wset sets) fd || sel_watched (eset sets) fd.

Definition swap_of (fd real : Z) (sets : fdsets) : sel_swap :=
  {| synth_fd := fd; real_of := real;
     s_in := λ d, sel_watched (get_set d sets) fd;
     r_in := λ d, sel_watched (get_set d sets) real |}.

Definition substitute (fd real : Z) (sets : fdsets) : fdsets :=
  map_sets (λ _ set, if sel_watched set fd then FD_SET real (FD_CLR fd set) else set) sets.

Fixpoint sel_swap_loop (l : list Z) (sets : fdsets) (swaps : list sel_swap) (new_nfds : Z) :
    M (fdsets * list sel_swap * Z) :=
  match l with
  | [] => ret (sets, swaps, new_nfds)
  | fd :: l' =>
      if negb (watched_any sets fd) then sel_swap_loop l' sets swaps new_nfds
      else
        let* real := translate_synth_fd fd in
        if real <? 0 then sel_swap_loop l' sets swaps new_nfds
        else if FD_SETSIZE <=? real then sel_swap_loop l' sets swaps new_nfds
        else if (MAX_SWAPS <=? length swaps)%nat then sel_swap_loop l' sets swaps new_nfds
        else
          sel_swap_loop l' (substitute fd real sets) (swaps ++ [swap_of fd real sets])
            (if new_nfds <? real + 1 then real + 1 else new_nfds)
  end.

Definition sel_swap_in (nfds : Z) (sets : fdsets) : M (fdsets * list sel_swap * Z) :=
  sel_swap_loop (fd_range nfds) sets [] nfds.

(** Pass 1: mirror the readiness of the backing descriptor. *)
Definition mirror (sets : fdsets) (sw : sel_swap) : fdsets :=
  map_sets (λ d set, if s_in sw d && sel_watched set (real_of sw)
                     then FD_SET (synth_fd sw) set else set) sets.

(** Pass 2: clear the backing descriptor unless the caller watched it too. *)
Definition unadd (sets : fdsets) (sw : sel_swap) : fdsets :=
  map_sets (λ d set, if s_in sw d && negb (r_in sw d) then FD_CLR (real_of sw) set else set) sets.

Definition sel_unwind (sets : fdsets) (swaps : list sel_swap) : fdsets :=
  foldl unadd (foldl mirror sets swaps) swaps.

Definition count_if (b : bool) : Z := if b then 1 else 0.

Definition sel_recount (nfds : Z) (sets : fdsets) : Z :=
  foldr (λ fd n, count_if (sel_watched (rset sets) fd) + count_if (sel_watched (wset sets) fd) +
                 count_if (sel_watched (eset sets) fd) + n) 0 (fd_range nfds).

(** The return value, the sets, and the timeout of select as the kernel leaves them. *)
Definition sel_kernel_call (c : sel_ctx) (nfds : Z) (sets : fdsets) :
    M (option Z * fdsets * option timeval) :=
  match sc_kind c with
  | SELECT_VARIANT =>
      let* r := sys (k_select nfds sets (sc_tv c)) in
      match r with
      | Some (n, sets', tv') => ret (Some n, sets', tv')
      | None => ret (None, sets, sc_tv c)
      end
  | PSELECT_VARIANT =>
      let* r := sys (k_pselect nfds sets (sc_tmo c) (sc_sigmask c)) in
      match r with
      | Some (n, sets') => ret (Some n, sets', sc_tv c)
      | None => ret (None, sets, sc_tv c)
      end
  end.

Definition sel_dispatch (nfds : Z) (sets : fdsets) (c : sel_ctx) :
    M (option Z * fdsets * option timeval) :=
  let* (rv, sets0, tv0) := sel_kernel_call c nfds sets in
  let* e := get_errno in
  if (match rv with Some _ => true | None => false end) || negb (e =? EPERM)
  then ret (rv, sets0, tv0)
  else
    let* off := wslcompat_passthru "select" in
    if (off : bool) then ret (rv, sets0, tv0)
    else
      let* (sets1, swaps, eff_nfds) := preserve_errno (sel_swap_in nfds sets0) in
      if (length swaps =? 0)%nat then ret (rv, sets1, tv0)
      else
        let* (rv, sets2, tv) := sel_kernel_call c eff_nfds sets1 in
        match rv with
        | Some n =>
            if 0 <? n then
              let k_low := sel_recount eff_nfds sets2 in
              let k_high := n - k_low in
              let sets3 := sel_unwind sets2 swaps in
              ret (Some (k_high + sel_recount nfds sets3), sets3, tv)
            else ret (rv, sel_unwind sets2 swaps, tv)
        | None => ret (rv, sel_unwind sets2 swaps, tv)
        end.

Definition select (nfds : Z) (sets : fdsets) (tv : option timeval) :
    M (option Z * fdsets * option timeval) :=
  sel_dispatch nfds sets {| sc_kind := SELECT_VARIANT; sc_tv := tv; sc_tmo := None;
                            sc_sigmask := None |}.

Definition pselect (nfds : Z) (sets : fdsets) (tmo : option timespec) (sigmask : option Z) :
    M (option Z * fdsets * option timeval) :=
  sel_dispatch nfds sets {| sc_kind := PSELECT_VARIANT; sc_tv := None; sc_tmo := tmo;
                            sc_sigmask := sigmask |}.
End select.

(** ** One direction, as sets of descriptors

    The bits of one set, and what the swap and the unwinding do to them, for a translation [tr] of
    the synthetic descriptors [L]. *)
Section bits.
Variable tr : Z → Z.

(** One substitution. *)
Definition swap1 (a : Z) (f : Z → bool) : Z → bool :=
  if f a then (λ x, if decide (x = tr a) then true else if decide (x = a) then false else f x)
  else f.

(** All of them, with what was recorded for each: was it watched, was its backing watched. *)
Fixpoint bswap (L : list Z) (f : Z → bool) : list (Z * bool * bool) * (Z → bool) :=
  match L with
  | [] => ([], f)
  | a :: L' => let (rs, f') := bswap L' (swap1 a f) in ((a, f a, f (tr a)) :: rs, f')
  end.

Definition mirror1 (g : Z → bool) (r : Z * bool * bool) : Z → bool :=
  let '(a, si, _) := r in
  if si && g (tr a) then (λ x, if decide (x = a) then true else g x) else g.

Definition unadd1 (g : Z → bool) (r : Z * bool * bool) : Z → bool :=
  let '(a, si, ri) := r in
  if si && negb ri then (λ x, if decide (x = tr a) then false else g x) else g.

(** Some watched descriptor of [L] is backed by [x]. *)
Definition backs (L : list Z) (f : Z → bool) (x : Z) : bool :=
  existsb (λ a, f a && bool_decide (tr a = x)) L.

(** No descriptor of [L] backs another, and none is listed twice. *)
Definition unchained (L : list Z) : Prop := NoDup L ∧ ∀ a b, a ∈ L → b ∈ L → tr a ≠ b.

Lemma unchained_cons a L :
  unchained (a :: L) → a ∉ L ∧ tr a ≠ a ∧ unchained L ∧ ∀ b, b ∈ L → tr b ≠ a ∧ tr a ≠ b ∧ b ≠ a.
Proof.
  intros [Hnd Hc]. apply NoDup_cons in Hnd as [Ha Hnd].
  split_and!; [done|apply Hc; left|split; [done|]; intros; apply Hc; by right|].
  intros b Hb. split_and!; [apply Hc; [by right|left]|apply Hc; [left|by right]|congruence].
Qed.

Lemma swap1_other a f x : x ≠ a → x ≠ tr a → swap1 a f x = f x.
Proof. intros H1 H2. unfold swap1. destruct (f a); [|done]. by rewrite !decide_False. Qed.

Lemma swap1_backs a L f x :
  unchained (a :: L) → backs L (swap1 a f) x = backs L f x.
Proof.
  intros (_ & _ & _ & Hb)%unchained_cons. unfold backs.
  assert (∀ M, (∀ b, b ∈ M → b ∈ L) →
    existsb (λ b, swap1 a f b && bool_decide (tr b = x)) M
    = existsb (λ b, f b && bool_decide (tr b = x)) M) as H; [|by apply H].
  induction M as [|b M IH]; intros HM; [done|]. simpl.
  assert (b ∈ L) as Hin by (apply HM; left). destruct (Hb b Hin) as (? & ? & ?).
  rewrite swap1_other by congruence. rewrite IH; [done|]. intros; apply HM; by right.
Qed.

(** The set the kernel is given. *)
Lemma bswap_end L f x :
  unchained L →
  (bswap L f).2 x = if decide (x ∈ L) then false else f x || backs L f x.
Proof.
  revert f. induction L as [|a L IH]; intros f Hu.
  { rewrite decide_False by set_solver. simpl. by rewrite orb_false_r. }
  pose proof (unchained_cons _ _ Hu) as (Ha & Hta & Hu' & Hb).
  cbn [bswap]. destruct (bswap L (swap1 a f)) as [rs f'] eqn:E. cbn [snd].
  specialize (IH (swap1 a f) Hu'). rewrite E in IH. cbn [snd] in IH. rewrite IH.
  rewrite swap1_backs by done.
  destruct (decide (x ∈ L)) as [Hx|Hx]; [by rewrite decide_True by (by right)|].
  cbn [backs existsb]. destruct (decide (x = a)) as [->|Hne].
  - rewrite decide_True by left. assert (backs L f a = false) as ->.
    { apply not_true_is_false. unfold backs. intros (b & Hin & Hh)%existsb_exists.
      apply list_elem_of_In in Hin. apply andb_true_iff in Hh as [_ Hh%bool_decide_eq_true].
      by destruct (Hb b Hin). }
    rewrite orb_false_r. unfold swap1. destruct (f a) eqn:Ef; [|done].
    by rewrite decide_False, decide_True.
  - rewrite decide_False by set_solver. unfold swap1. destruct (f a) eqn:Ef; cbn [andb].
    + destruct (decide (x = tr a)) as [->|Hne'].
      * rewrite bool_decide_true by done. by rewrite !orb_true_r.
      * rewrite decide_False, bool_decide_false by done. done.
    + done.
Qed.

Lemma pass1_bits L f g x :
  unchained L →
  foldl mirror1 g (bswap L f).1 x = g x || (bool_decide (x ∈ L) && f x && g (tr x)).
Proof.
  revert f g. induction L as [|a L IH]; intros f g Hu.
  { cbn [bswap fst foldl]. rewrite bool_decide_false by set_solver. by rewrite orb_false_r. }
  pose proof (unchained_cons _ _ Hu) as (Ha & Hta & Hu' & Hb).
  cbn [bswap]. destruct (bswap L (swap1 a f)) as [rs f'] eqn:E. cbn [fst foldl].
  specialize (IH (swap1 a f) (mirror1 g (a, f a, f (tr a))) Hu'). rewrite E in IH.
  cbn [fst] in IH. rewrite IH.
  destruct (decide (x ∈ L)) as [Hx|Hx].
  - destruct (Hb x Hx) as (? & ? & ?). rewrite !bool_decide_true by (done || by right).
    rewrite swap1_other by congruence. unfold mirror1. destruct (f a && g (tr a)); [|done].
    by rewrite !decide_False.
  - rewrite (bool_decide_false (x ∈ L)) by done. cbn [andb]. rewrite orb_false_r. unfold mirror1.
    destruct (decide (x = a)) as [->|Hne].
    + rewrite bool_decide_true by left. cbn [andb]. destruct (f a && g (tr a)) eqn:Efg.
      * rewrite decide_True by done. by rewrite orb_true_r.
      * by rewrite orb_false_r.
    + rewrite bool_decide_false by set_solver. cbn [andb]. rewrite orb_false_r.
      destruct (f a && g (tr a)); [by rewrite decide_False|done].
Qed.

Lemma pass2_bits L f g x :
  unchained L →
  foldl unadd1 g (bswap L f).1 x = g x && (f x || negb (backs L f x)).
Proof.
  revert f g. induction L as [|a L IH]; intros f g Hu.
  { simpl. by rewrite orb_true_r, andb_true_r. }
  pose proof (unchained_cons _ _ Hu) as (Ha & Hta & Hu' & Hb).
  cbn [bswap]. destruct (bswap L (swap1 a f)) as [rs f'] eqn:E. cbn [fst foldl].
  specialize (IH (swap1 a f) (unadd1 g (a, f a, f (tr a))) Hu'). rewrite E in IH.
  cbn [fst] in IH. rewrite IH, swap1_backs by done. cbn [backs existsb]. fold (backs L f x).
  unfold unadd1, swap1. destruct (f a) eqn:Ef; cbn [andb]; [|done].
  destruct (decide (x = tr a)) as [->|Hne].
  - rewrite bool_decide_true by done. cbn [orb negb]. rewrite andb_true_r, orb_false_r.
    destruct (f (tr a)); cbn [negb]; [by rewrite andb_true_r|].
    rewrite decide_True by done. by rewrite andb_false_r.
  - rewrite bool_decide_false by congruence. cbn [orb].
    assert (∀ b : bool, (if b then (λ y, if decide (y = tr a) then false else g y) else g) x = g x)
      as Hg by (intros []; [by rewrite decide_False|done]).
    rewrite Hg. destruct (decide (x = a)) as [->|Hne']; [|done].
    assert (backs L f a = false) as ->.
    { apply not_true_is_false. unfold backs. intros (b & Hin & Hh)%existsb_exists.
      apply list_elem_of_In in Hin. apply andb_true_iff in Hh as [_ Hh%bool_decide_eq_true].
      by destruct (Hb b Hin). }
    by rewrite !orb_true_r.
Qed.

(** Both passes: a descriptor is reported exactly when the caller watched it and the kernel
    reported the one that stood for it. *)
Lemma unwind_bits L f g x :
  unchained L → (∀ y, g y = true → (bswap L f).2 y = true) →
  foldl unadd1 (foldl mirror1 g (bswap L f).1) (bswap L f).1 x
  = f x && g (if decide (x ∈ L) then tr x else x).
Proof.
  intros Hu Hsub. rewrite pass2_bits, pass1_bits by done. specialize (Hsub x).
  rewrite bswap_end in Hsub by done. destruct (decide (x ∈ L)) as [Hx|Hx].
  - rewrite bool_decide_true by done.
    assert (backs L f x = false) as ->.
    { apply not_true_is_false. unfold backs. intros (b & Hin & Hh)%existsb_exists.
      apply list_elem_of_In in Hin. apply andb_true_iff in Hh as [_ Hh%bool_decide_eq_true].
      by destruct (proj2 Hu b x Hin Hx). }
    rewrite orb_true_r, andb_true_r. destruct (g x); [by discriminate Hsub|]. done.
  - rewrite bool_decide_false by done. cbn [andb]. rewrite orb_false_r.
    destruct (g x), (f x), (backs L f x); try done. by discriminate Hsub.
Qed.
End bits.

(** Sets with the same bits. *)
Definition same_bits : relation (Z → bool) := pointwise_relation Z eq.

#[export] Instance swap1_proper tr a : Proper (same_bits ==> same_bits) (swap1 tr a).
Proof.
  intros f g H x. unfold swap1. rewrite (H a). destruct (g a); [|apply H].
  by repeat case_decide.
Qed.

#[export] Instance mirror1_proper tr : Proper (same_bits ==> eq ==> same_bits) (mirror1 tr).
Proof.
  intros f g H ? [[a si] ri] -> x. unfold mirror1. rewrite (H (tr a)).
  destruct (si && _); [by case_decide|apply H].
Qed.

#[export] Instance unadd1_proper tr : Proper (same_bits ==> eq ==> same_bits) (unadd1 tr).
Proof.
  intros f g H ? [[a si] ri] -> x. unfold unadd1. destruct (si && _); [by case_decide|apply H].
Qed.

Lemma bswap_proper tr L f g :
  same_bits f g → (bswap tr L f).1 = (bswap tr L g).1 ∧ same_bits (bswap tr L f).2 (bswap tr L g).2.
Proof.
  revert f g. induction L as [|a L IH]; intros f g H; [done|]. cbn [bswap].
  destruct (IH (swap1 tr a f) (swap1 tr a g)) as [H1 H2]; [by rewrite H|].
  destruct (bswap tr L (swap1 tr a f)), (bswap tr L (swap1 tr a g)). simpl in *. subst.
  by rewrite (H a), (H (tr a)).
Qed.

(** ** The code, one direction at a time *)
Definition bit (d : dir) (sets : fdsets) : Z → bool := sel_watched (get_set d sets).
Definition record_of (d : dir) (sw : sel_swap) : Z * bool * bool := (synth_fd sw, s_in sw d, r_in sw d).

Lemma get_map_sets d f sets : get_set d (map_sets f sets) = f d (get_set d sets).
Proof. by destruct d. Qed.

Lemma watched_set set fd x :
  0 ≤ fd → sel_watched (FD_SET fd set) x
           = match set with Some _ => if decide (x = fd) then true else sel_watched set x
             | None => false end.
Proof.
  intros H. destruct set as [z|]; [|done]. simpl. unfold FD_ISSET. rewrite Z.setbit_eqb by done.
  case_decide as E; [subst; by rewrite Z.eqb_refl|].
  by rewrite (proj2 (Z.eqb_neq fd x)) by congruence.
Qed.

Lemma watched_clr set fd x :
  sel_watched (FD_CLR fd set) x = if decide (x = fd) then false else sel_watched set x.
Proof.
  destruct set as [z|]; simpl; [|by case_decide]. unfold FD_ISSET. rewrite Z.clearbit_eqb.
  case_decide as E; [subst; by rewrite Z.eqb_refl, andb_false_r|].
  rewrite (proj2 (Z.eqb_neq fd x)) by congruence. by rewrite andb_true_r.
Qed.

Section link.
Variable tr : Z → Z.

Lemma bit_substitute d sets a :
  0 ≤ tr a → same_bits (bit d (substitute a (tr a) sets)) (swap1 tr a (bit d sets)).
Proof.
  intros Hr x. unfold bit, substitute, swap1. rewrite get_map_sets.
  destruct (sel_watched (get_set d sets) a) eqn:E; [|done].
  destruct (get_set d sets) as [z|] eqn:Es; [|done].
  rewrite watched_set by done. rewrite watched_clr. simpl. by repeat case_decide.
Qed.

Lemma bit_mirror d sets sw :
  0 ≤ synth_fd sw → real_of sw = tr (synth_fd sw) →
  same_bits (bit d (mirror sets sw)) (mirror1 tr (bit d sets) (record_of d sw)).
Proof.
  intros Hs Hr x. unfold bit, mirror, mirror1, record_of. rewrite get_map_sets, Hr.
  destruct (s_in sw d); cbn [andb]; [|done].
  destruct (sel_watched (get_set d sets) (tr (synth_fd sw))) eqn:E; [|done].
  rewrite watched_set by done. by destruct (get_set d sets).
Qed.

Lemma bit_unadd d sets sw :
  real_of sw = tr (synth_fd sw) →
  same_bits (bit d (unadd sets sw)) (unadd1 tr (bit d sets) (record_of d sw)).
Proof.
  intros Hr x. unfold bit, unadd, unadd1, record_of. rewrite get_map_sets, Hr.
  destruct (s_in sw d && negb (r_in sw d)); [|done]. by rewrite watched_clr.
Qed.

Lemma bit_unwind d swaps sets :
  Forall (λ sw, 0 ≤ synth_fd sw ∧ real_of sw = tr (synth_fd sw)) swaps →
  same_bits (bit d (sel_unwind sets swaps))
    (foldl (unadd1 tr) (foldl (mirror1 tr) (bit d sets) (record_of d <$> swaps))
       (record_of d <$> swaps)).
Proof.
  intros Hf. unfold sel_unwind.
  assert (∀ l s g, Forall (λ sw, 0 ≤ synth_fd sw ∧ real_of sw = tr (synth_fd sw)) l →
    same_bits (bit d s) g →
    same_bits (bit d (foldl mirror s l)) (foldl (mirror1 tr) g (record_of d <$> l))) as H1.
  { induction l as [|sw l IH]; intros s g Hl Hg; [done|]. apply Forall_cons in Hl as [[H1 H2] Hl].
    cbn [foldl fmap list_fmap]. apply IH; [done|]. intros x. rewrite (bit_mirror d s sw H1 H2 x).
    by apply mirror1_proper. }
  assert (∀ l s g, Forall (λ sw, 0 ≤ synth_fd sw ∧ real_of sw = tr (synth_fd sw)) l →
    same_bits (bit d s) g →
    same_bits (bit d (foldl unadd s l)) (foldl (unadd1 tr) g (record_of d <$> l))) as H2.
  { induction l as [|sw l IH]; intros s g Hl Hg; [done|]. apply Forall_cons in Hl as [[H2 H3] Hl].
    cbn [foldl fmap list_fmap]. apply IH; [done|]. intros x. rewrite (bit_unadd d s sw H3 x).
    by apply unadd1_proper. }
  apply H2; [done|]. by apply H1.
Qed.
End link.

Section facts.
Context {W : Type} `{!Kernel W, !Handlers W}.
(** A translation the states of [I] support, in which no backing descriptor is synthetic itself. *)
Variables (tr : Z → Z) (I : st W → Prop).
Hypothesis tr_run : ∀ fd s, I s → ∃ s', translate_synth_fd fd s = Ret (tr fd) s' ∧ I s'.
Hypothesis tr_flat : ∀ fd, 0 ≤ tr fd → tr (tr fd) < 0.

(** The descriptors that get swapped. *)
Definition swappable (sets : fdsets) (fd : Z) : Prop :=
  watched_any sets fd = true ∧ 0 ≤ tr fd < FD_SETSIZE.
#[local] Instance swappable_dec sets fd : Decision (swappable sets fd).
Proof. unfold swappable. apply _. Defined.

Definition swapped (sets : fdsets) (l : list Z) : list Z := filter (swappable sets) l.

Lemma watched_substitute sets a b :
  0 ≤ tr a → b ≠ a → 0 ≤ tr b → watched_any (substitute a (tr a) sets) b = watched_any sets b.
Proof.
  intros Ha Hne Hb. assert (b ≠ tr a) as Hne' by (intros ->; specialize (tr_flat a Ha); lia).
  unfold watched_any.
  assert (∀ d, sel_watched (get_set d (substitute a (tr a) sets)) b = sel_watched (get_set d sets) b)
    as H.
  { intros d. etrans; [apply (bit_substitute tr d sets a Ha b)|]. by apply swap1_other. }
  specialize (H d_read) as H1. specialize (H d_write) as H2. specialize (H d_except) as H3.
  cbn [get_set] in *. by rewrite H1, H2, H3.
Qed.

Lemma swapped_substitute sets a l :
  0 ≤ tr a → a ∉ l → swapped (substitute a (tr a) sets) l = swapped sets l.
Proof.
  intros Ha Hl. unfold swapped. apply list_filter_iff_in. intros b Hb. unfold swappable.
  assert (b ≠ a) by (intros ->; done).
  split; intros [H1 H2]; (split; [|done]); by rewrite watched_substitute in * by (done || lia).
Qed.

Lemma swapped_unchained sets l : NoDup l → unchained tr (swapped sets l).
Proof.
  intros Hnd. split; [by apply NoDup_filter|]. intros a b (Ha & _)%list_elem_of_filter
    (Hb & _)%list_elem_of_filter <-. destruct Ha as [_ Ha], Hb as [_ Hb].
  specialize (tr_flat a). lia.
Qed.

Lemma sel_swap_loop_run l sets swaps n s :
  I s → NoDup l → Forall (Z.le 0) l →
  (length swaps + length (swapped sets l) ≤ MAX_SWAPS)%nat →
  ∃ sets' news n' s', sel_swap_loop l sets swaps n s = Ret (sets', swaps ++ news, n') s' ∧ I s' ∧
    Forall (λ sw, 0 ≤ synth_fd sw ∧ real_of sw = tr (synth_fd sw)) news ∧
    ∀ d, record_of d <$> news = (bswap tr (swapped sets l) (bit d sets)).1 ∧
         same_bits (bit d sets') (bswap tr (swapped sets l) (bit d sets)).2.
Proof.
  revert sets swaps n s. induction l as [|a l IH]; intros sets swaps n s HI Hnd Hpos Hlen.
  { exists sets, [], n, s. by rewrite app_nil_r. }
  apply NoDup_cons in Hnd as [Ha Hnd]. apply Forall_cons in Hpos as [Ha0 Hpos].
  cbn [sel_swap_loop]. unfold swapped in *. rewrite filter_cons in Hlen. rewrite filter_cons.
  assert (∀ s1 : st W, I s1 → ¬ swappable sets a →
    ∃ sets' news n' s', sel_swap_loop l sets swaps n s1 = Ret (sets', swaps ++ news, n') s' ∧ I s' ∧
    Forall (λ sw, 0 ≤ synth_fd sw ∧ real_of sw = tr (synth_fd sw)) news ∧
    ∀ d, record_of d <$> news = (bswap tr (if decide (swappable sets a) then
             a :: filter (swappable sets) l else filter (swappable sets) l) (bit d sets)).1 ∧
         same_bits (bit d sets') (bswap tr (if decide (swappable sets a) then
             a :: filter (swappable sets) l else filter (swappable sets) l) (bit d sets)).2) as Hskip.
  { intros s1 HI1 Hns. rewrite decide_False in Hlen |- * by done. by apply IH. }
  destruct (watched_any sets a) eqn:Ew; cbn [negb];
    [|apply Hskip; [done|]; intros [H _]; congruence].
  destruct (tr_run a s HI) as (s1 & E & HI1). rewrite (bind_Ret _ _ _ _ _ E).
  destruct (tr a <? 0) eqn:E0; [apply Z.ltb_lt in E0|apply Z.ltb_ge in E0].
  { apply Hskip; [done|]. intros [_ H]. lia. }
  destruct (FD_SETSIZE <=? tr a) eqn:E1; [apply Z.leb_le in E1|apply Z.leb_gt in E1].
  { apply Hskip; [done|]. intros [_ H]. lia. }
  rewrite decide_True in Hlen |- * by (split; [done|lia]). cbn [length] in Hlen.
  destruct (MAX_SWAPS <=? length swaps)%nat eqn:E2; [apply Nat.leb_le in E2; lia|].
  pose proof (swapped_substitute sets a l E0 Ha) as Hsub. unfold swapped in Hsub.
  destruct (IH (substitute a (tr a) sets) (swaps ++ [swap_of a (tr a) sets])
    (if n <? tr a + 1 then tr a + 1 else n) s1 HI1 Hnd Hpos) as (sets' & news & n' & s' & Er & HI' & Hf & Hd).
  { rewrite Hsub, length_app. simpl. lia. }
  rewrite Hsub in Hd. exists sets', (swap_of a (tr a) sets :: news), n', s'.
  split; [by rewrite Er, <-app_assoc|]. split; [done|]. split; [by apply Forall_cons|].
  intros d. destruct (Hd d) as [Hr Hb].
  destruct (bswap_proper tr (filter (swappable sets) l) _ _ (bit_substitute tr d sets a E0)) as [P1 P2].
  cbn [bswap fmap list_fmap]. destruct (bswap tr _ (swap1 tr a (bit d sets))) as [rs f'].
  cbn [fst snd] in *. split; [|by etrans]. unfold record_of at 1. cbn. f_equal. congruence.
Qed.

Lemma fd_range_ok nfds : NoDup (fd_range nfds) ∧ Forall (Z.le 0) (fd_range nfds).
Proof.
  unfold fd_range. split.
  - apply NoDup_fmap; [intros ???; lia|apply NoDup_seq].
  - apply Forall_fmap, Forall_forall. intros. simpl. lia.
Qed.

Lemma sel_swap_in_unwind nfds sets s :
  I s → (length (swapped sets (fd_range nfds)) ≤ MAX_SWAPS)%nat →
  ∃ sets1 swaps eff s1, sel_swap_in nfds sets s = Ret (sets1, swaps, eff) s1 ∧
    (∀ d, same_bits (bit d sets1) (bswap tr (swapped sets (fd_range nfds)) (bit d sets)).2) ∧
    ∀ out, (∀ d x, bit d out x = true → bit d sets1 x = true) →
      ∀ d x, bit d (sel_unwind out swaps) x =
             bit d sets x && bit d out (if decide (x ∈ swapped sets (fd_range nfds)) then tr x else x).
Proof.
  intros HI Hlen. destruct (fd_range_ok nfds) as [Hnd Hpos].
  destruct (sel_swap_loop_run (fd_range nfds) sets [] nfds s HI Hnd Hpos Hlen)
    as (sets1 & news & n' & s1 & E & _ & Hf & Hd).
  exists sets1, news, n', s1. split; [done|]. split; [intros d; apply Hd|].
  intros out Hout d x. destruct (Hd d) as [Hr Hb].
  rewrite (bit_unwind tr d news out Hf x), Hr. apply unwind_bits.
  - by apply swapped_unchained.
  - intros y Hy. rewrite <-(Hb y). by apply Hout.
Qed.

(** C14: After a successful retry, a descriptor is reported ready exactly when the caller watched it and
    the kernel reported the descriptor that stood for it: its backing for a synthetic one, itself
    for any other. No descriptor the caller did not watch is reported. *)
Theorem select_reports nfds sets s :
  I s → (length (swapped sets (fd_range nfds)) ≤ MAX_SWAPS)%nat →
  ∃ sets1 swaps eff s1, sel_swap_in nfds sets s = Ret (sets1, swaps, eff) s1 ∧
    ∀ out, (∀ d x, bit d out x = true → bit d sets1 x = true) →
      ∀ d x, bit d (sel_unwind out swaps) x =
             bit d sets x && bit d out (if decide (x ∈ swapped sets (fd_range nfds)) then tr x else x).
Proof.
  intros HI Hlen. destruct (sel_swap_in_unwind nfds sets s HI Hlen) as (? & ? & ? & ? & ? & _ & ?).
  eauto 10.
Qed.

(** Unwinding what the kernel left untouched gives the caller's sets back. *)
Lemma unwind_untouched nfds sets s sets1 swaps eff s1 :
  I s → (length (swapped sets (fd_range nfds)) ≤ MAX_SWAPS)%nat →
  sel_swap_in nfds sets s = Ret (sets1, swaps, eff) s1 →
  ∀ d, same_bits (bit d (sel_unwind sets1 swaps)) (bit d sets).
Proof.
  intros HI Hlen E d x.
  destruct (sel_swap_in_unwind nfds sets s HI Hlen) as (? & ? & ? & ? & E' & Hb & Hu).
  rewrite E in E'. injection E' as <- <- <- <-. rewrite Hu by done.
  destruct (fd_range_ok nfds) as [Hnd _]. rewrite (Hb d _).
  rewrite bswap_end by (by apply swapped_unchained).
  destruct (bit d sets x) eqn:Ex; [|done]. cbn [andb].
  destruct (decide (x ∈ swapped sets (fd_range nfds))) as [Hx|Hx].
  - pose proof Hx as [[_ Hr] _]%list_elem_of_filter. rewrite decide_False.
    + apply orb_true_iff. right. apply existsb_exists. exists x.
      split; [by apply list_elem_of_In|]. rewrite Ex. by rewrite bool_decide_true.
    + intros [[_ H] _]%list_elem_of_filter. specialize (tr_flat x). lia.
  - rewrite decide_False by done. by rewrite Ex.
Qed.

(** The kernel's select leaves such a state. *)
Hypothesis I_select : ∀ nfds sets tv s o s', sys (k_select nfds sets tv) s = Ret o s' → I s → I s'.
Hypothesis I_pselect : ∀ nfds sets tmo sm s o s',
  sys (k_pselect nfds sets tmo sm) s = Ret o s' → I s → I s'.

Lemma sel_kernel_call_run c nfds sets (s s' : st W) rv sets' tv :
  sel_kernel_call c nfds sets s = Ret (rv, sets', tv) s' → I s →
  I s' ∧ (rv = None → sets' = sets).
Proof.
  unfold sel_kernel_call. intros H HI. destruct (sc_kind c); run_inv H;
    (split; [|destruct r as [[[??]?]|] || destruct r as [[??]|]; by injection H as <- <- <- <-]);
    destruct r as [[[??]?]|] || destruct r as [[??]|]; injection H as <- <- <- <-; eauto.
Qed.

(** When select or pselect fails, for whatever reason and at whatever stage, the caller's sets hold
    what the caller put there. *)
Theorem select_error_restores nfds sets c (s s' : st W) sets' tv :
  I s → (length (swapped sets (fd_range nfds)) ≤ MAX_SWAPS)%nat →
  sel_dispatch nfds sets c s = Ret (None, sets', tv) s' →
  ∀ d, same_bits (bit d sets') (bit d sets).
Proof.
  intros HI Hlen H d. unfold sel_dispatch in H. run_inv H. destruct r as [[rv sets0] tv0].
  destruct (sel_kernel_call_run _ _ _ _ _ _ _ _ E HI) as [HI0 Hs0].
  rewrite bind_get_errno in H. destruct rv as [n|]; [done|]. rewrite Hs0 in * by done.
  cbn [orb] in H. destruct (negb _); [by injection H as <- <- <-|].
  unfold wslcompat_passthru in H. rewrite bind_getm in H.
  destruct (negb _); [by injection H as <- <- <-|].
  run_inv H. destruct r as [[sets1 swaps] eff]. unfold preserve_errno in E0.
  rewrite bind_get_errno in E0. run_inv E0. rewrite bind_set_errno in E0.
  injection E0 as -> <-. pose proof (unwind_untouched _ _ _ _ _ _ _ HI0 Hlen E1 d) as Hun.
  destruct (length swaps =? 0)%nat eqn:El.
  - injection H as <- <- <-. apply Nat.eqb_eq in El. destruct swaps; [|done]. apply Hun.
  - run_inv H. destruct r as [[rv2 sets2] tv2]. destruct rv2 as [n|].
    + destruct (0 <? n); by injection H.
    + injection H as <- <- <-. assert (sets2 = sets1) as ->; [|done].
      unfold sel_kernel_call in E0. destruct (sc_kind c); run_inv E0;
        repeat case_match; first [discriminate E0 | by injection E0 as <- _ _].
Qed.
End facts.

(** ** Concrete runs *)
Module SelectDemo.
Import FdKernel PollDemo.

Lemma tr_flat fd : 0 ≤ tr fd → tr (tr fd) < 0.
Proof. unfold tr. destruct (fd =? 4); simpl; lia. Qed.

(** The caller watches the synthetic descriptor 4 for input; with [bad], also 9, which is closed. *)
Definition sets (bad : bool) : fdsets :=
  {| rset := Some (Z.setbit (if bad then Z.setbit 0 9 else 0) 4); wset := None; eset := Some 0 |}.
Definition ctx : sel_ctx :=
  {| sc_kind := SELECT_VARIANT; sc_tv := None; sc_tmo := None; sc_sigmask := None |}.

Definition failed : st world :=
  match sel_dispatch 10 (sets true) ctx (PollDemo.s 0) with Ret _ s' => s' | _ => PollDemo.s 0 end.

Lemma holds_select nfds sets tv (s : st world) o s' :
  sys (k_select nfds sets tv) s = Ret o s' → holds s → holds s'.
Proof.
  unfold sys. cbn [kstep kernel step]. destruct (do_select _ _ _) as [[]|]; by intros [= <- <-].
Qed.

Lemma holds_pselect nfds sets tmo sm (s : st world) o s' :
  sys (k_pselect nfds sets tmo sm) s = Ret o s' → holds s → holds s'.
Proof.
  unfold sys. cbn [kstep kernel step]. destruct (do_select _ _ _); by intros [= <- <-].
Qed.
End SelectDemo.
Import PollDemo.

Lemma select_reports_witness :
  ∃ sets1 swaps eff s1,
    sel_swap_in 10 (SelectDemo.sets false) (PollDemo.s 0) = Ret (sets1, swaps, eff) s1 ∧
    bit d_read (sel_unwind {| rset := Some 1; wset := None; eset := Some 0 |} swaps) 4 = true ∧
    bit d_read (sel_unwind {| rset := Some 1; wset := None; eset := Some 0 |} swaps) 0 = false.
Proof.
  destruct (select_reports PollDemo.tr PollDemo.holds PollDemo.tr_ok SelectDemo.tr_flat 10
    (SelectDemo.sets false) (PollDemo.s 0)) as (sets1 & swaps & eff & s1 & E & Hu);
    [done|vm_compute; lia|].
  exists sets1, swaps, eff, s1. split; [done|].
  assert (∀ d x, bit d {| rset := Some 1; wset := None; eset := Some 0 |} x = true →
                 bit d sets1 x = true) as Hsub.
  { vm_compute in E. injection E as <- _ _ _. by intros []. }
  specialize (Hu _ Hsub). split; rewrite Hu; by vm_compute.
Defined.

Lemma select_error_restores_witness :
  ∃ sets' tv, sel_dispatch 10 (SelectDemo.sets true) SelectDemo.ctx (PollDemo.s 0)
              = Ret (None, sets', tv) SelectDemo.failed ∧
    s_errno SelectDemo.failed = EBADF ∧
    ∀ d, same_bits (bit d sets') (bit d (SelectDemo.sets true)).
Proof.
  assert (∃ sets' tv, sel_dispatch 10 (SelectDemo.sets true) SelectDemo.ctx (PollDemo.s 0)
    = Ret (None, sets', tv) SelectDemo.failed) as (sets' & tv & E)
    by (do 2 eexists; by vm_compute).
  exists sets', tv. split; [done|]. split; [by vm_compute|].
  apply (select_error_restores PollDemo.tr PollDemo.holds PollDemo.tr_ok SelectDemo.tr_flat
    SelectDemo.holds_select SelectDemo.holds_pselect 10 (SelectDemo.sets true) SelectDemo.ctx
    (PollDemo.s 0) SelectDemo.failed sets' tv); [done|vm_compute; lia|done].
Defined.
