(* ===== verification/Open.v ===== *)
(** * open.c: open and openat

    [openat] redirects some /proc paths to synthetic files, and those are made by opening a temporary
    file through [open] again: the recursion is one level deep. *)

From stdpp Require Import gmap.
From S2P Require Import Prelude CString Kernel State Tunables Override Walk FdKernel Synth SynthFrames SynthFacts Close Tty Proc Dispatch Handlers.

Open Scope Z_scope.

Definition AT_FDCWD : Z := -100.
Definition CLOCK_REALTIME : Z := 0.
Definition XATTR_CREATE : Z := 1.
Definition BTIME_XATTR : string := "user.wslcompat.btime".

(** [(flags & O_TMPFILE) == O_TMPFILE]. *)
Definition is_tmpfile (flags : Z) : bool := Z.land flags O_TMPFILE =? O_TMPFILE.

(** The mode is read from the variable arguments only for these flags, and is 0 otherwise. *)
Definition takes_mode (flags : Z) : bool := has_bits flags O_CREAT || is_tmpfile flags.
Definition mode_arg (flags mode : Z) : Z := if takes_mode flags then mode else 0.

(** ["%09ld"] of a number of nanoseconds, and ["%016llx"] of eight random bytes. *)
Fixpoint zero_pad (n : nat) (s : string) : string :=
  match n with O => s | S n' => String "0" (zero_pad n' s) end.
Definition fmt_09d (z : Z) : string := zero_pad (9 - String.length (fmt_d z)) (fmt_d z).

Definition hex_digit (n : nat) : Ascii.ascii :=
  Ascii.ascii_of_nat (if (n <? 10)%nat then 48 + n else 87 + n)%nat.

(** The bytes of the random number, most significant first. *)
Fixpoint fmt_hex (b : string) : string :=
  match b with
  | EmptyString => EmptyString
  | String c b' => let n := Ascii.nat_of_ascii c in
                   fmt_hex b' +:+ String (hex_digit (n / 16)) (String (hex_digit (n mod 16)) "")
  end.

(** fnmatch with FNM_PATHNAME, for patterns made of literal characters and stars: a star matches
    any string without a slash. *)
Fixpoint fnmatch (p : string) : string → bool :=
  match p with
  | EmptyString => λ s, match s with EmptyString => true | _ => false end
  | String c p' =>
      if decide (c = "*"%char) then
        fix star (s : string) : bool :=
          fnmatch p' s ||
          match s with
          | EmptyString => false
          | String d s' => if decide (d = "/"%char) then false else star s'
          end
      else λ s, match s with
                | String d s' => if decide (c = d) then fnmatch p' s' else false
                | EmptyString => false
                end
  end.

(** The two handlers of the dispatch table. *)
Inductive open_handler := handle_mmap_min_addr | handle_proc_pid_mem.

Definition dispatch : list (string * open_handler) :=
  [("/proc/sys/vm/mmap_min_addr", handle_mmap_min_addr);
   ("/proc/*/mem", handle_proc_pid_mem);
   ("/proc/*/task/*/mem", handle_proc_pid_mem)].

(** What is written to the attribute: ["%lld.%09ld"] into a buffer of 32 bytes. *)
Definition btime_text (ts : timespec) : string :=
  snprintf_s 32 (fmt_d (tv_sec ts) +:+ "." +:+ fmt_09d (tv_nsec ts)).

Section open.
Context {W : Type} `{!Kernel W} {Hfuel : Fuel}.
Local Abbreviation M := (prog (st W)).

Definition record_btime_now (fd : Z) : M unit :=
  let* ts := sys (k_clock_gettime CLOCK_REALTIME true) in
  match ts with
  | None => ret tt
  | Some ts =>
      sys (k_fsetxattr fd BTIME_XATTR (btime_text ts) XATTR_CREATE) ;;*
      ret tt
  end.

Definition tmp_name (r : string) : string := ".wslcompat." +:+ fmt_hex r.

Definition handle_tmpfile_at (dirfd : Z) (path : string) (flags mode : Z) : M (option Z) :=
  let oflags := Z.lor (Z.lor (Z.ldiff flags O_TMPFILE) O_CREAT) O_EXCL in
  let* realdir := sys (k_openat dirfd path (Z.lor O_PATH (Z.lor O_DIRECTORY O_CLOEXEC)) 0) in
  match realdir with
  | None => ret None
  | Some realdir =>
      let* r := sys (k_getrandom 8) in
      let* fd :=
        match r with
        | Some r =>
            if (String.length r =? 8)%nat then
              let* fd := sys (k_openat realdir (tmp_name r) oflags mode) in
              match fd with
              | Some fd => record_btime_now fd ;;*
                           sys (k_unlinkat realdir (tmp_name r) 0) ;;*
                           ret (Some fd)
              | None => ret None
              end
            else ret None
        | None => ret None
        end in
      sys (k_close realdir) ;;*
      ret fd
  end.

(** [redirect] walks the dispatch table: [None] when no handler claims the path, [Some fd] with the
    handler's result otherwise. *)
Definition openat_with (redirect : Z → string → Z → Z → M (option (option Z)))
    (dirfd : Z) (pathname : string) (flags mode : Z) : M (option Z) :=
  let mode := mode_arg flags mode in
  let* off := wslcompat_passthru "openat" in
  if (off : bool) then sys (k_openat dirfd pathname flags mode)
  else if is_tmpfile flags && negb (has_bits flags O_PATH)
  then handle_tmpfile_at dirfd pathname flags mode
  else
    let* r := redirect dirfd pathname flags mode in
    match r with
    | Some fd => ret fd
    | None =>
        if negb (has_bits flags O_CREAT) || has_bits flags O_PATH
        then sys (k_openat dirfd pathname flags mode)
        else
          let* fd := sys (k_openat dirfd pathname (Z.lor flags O_EXCL) mode) in
          match fd with
          | Some fd => record_btime_now fd ;;* ret (Some fd)
          | None =>
              let* e := get_errno in
              if negb (e =? EEXIST) || has_bits flags O_EXCL then ret None
              else sys (k_openat dirfd pathname flags mode)
          end
    end.

Definition open_with (redirect : Z → string → Z → Z → M (option (option Z)))
    (pathname : string) (flags mode : Z) : M (option Z) :=
  let mode := mode_arg flags mode in
  let* off := wslcompat_passthru "open" in
  if (off : bool) then sys (k_open pathname flags mode)
  else openat_with redirect AT_FDCWD pathname flags mode.

(** One handler, with the [open] that [wslcompat_synth_open] calls. *)
Definition run_handler (open_shim : string → Z → Z → M (option Z)) (h : open_handler)
    (dirfd : Z) (pathname : string) (flags mode : Z) : M (option (option Z)) :=
  match h with
  | handle_mmap_min_addr =>
      let* fd := wslcompat_synth_open open_shim flags h_mmap_min_addr up_null in ret (Some fd)
  | handle_proc_pid_mem =>
      let* pid := proc_parse_pid (strdrop 6 pathname) in
      if pid <=? 0 then ret None
      else let* fd := wslcompat_synth_open open_shim flags h_proc_pid_mem (up_pid pid) in
           ret (Some fd)
  end.

Definition match_redirects_table (open_shim : string → Z → Z → M (option Z))
    (dirfd : Z) (pathname : string) (flags mode : Z) : M (option (option Z)) :=
  let* on := getm (λ m, wslcompat_tunable_bool (options m) "redirect" true) in
  if negb on then ret None
  else
    for_each dispatch (λ '(pattern, h),
      if fnmatch pattern pathname then run_handler open_shim h dirfd pathname flags mode
      else ret None).

(** The recursion, unrolled: the inner [open] is never asked for a redirected path
    ([open_unrolled] below). *)
Definition open_inner : string → Z → Z → M (option Z) := open_with (λ _ _ _ _, nofuel).
Definition openat : Z → string → Z → Z → M (option Z) :=
  openat_with (match_redirects_table open_inner).
Definition open : string → Z → Z → M (option Z) := open_with (match_redirects_table open_inner).

Definition __open_2 (pathname : string) (flags : Z) : M (option Z) :=
  if takes_mode flags then gone else open pathname flags 0.
Definition __openat_2 (dirfd : Z) (pathname : string) (flags : Z) : M (option Z) :=
  if takes_mode flags then gone else openat dirfd pathname flags 0.

Definition creat (pathname : string) (mode : Z) : M (option Z) :=
  open pathname (Z.lor O_CREAT (Z.lor O_WRONLY O_TRUNC)) mode.

(** The large-file names are aliases. *)
Definition __open64_2 := __open_2.
Definition __openat64_2 := __openat_2.
Definition open64 := open.
Definition openat64 := openat.
Definition creat64 := creat.
End open.

(** ** The recursion *)
Section knot.
Context {W : Type} `{!Kernel W} {Hfuel : Fuel}.
Local Abbreviation M := (prog (st W)).

Lemma synth_open_ext (f g : string → Z → Z → M (option Z)) flags ops up s :
  (∀ s, f "/tmp" (Z.lor O_RDWR (Z.lor O_TMPFILE O_CLOEXEC)) 384 s
        = g "/tmp" (Z.lor O_RDWR (Z.lor O_TMPFILE O_CLOEXEC)) 384 s) →
  wslcompat_synth_open f flags ops up s = wslcompat_synth_open g flags ops up s.
Proof. intros H. unfold wslcompat_synth_open. by apply bind_ext. Qed.

(** The inner [open] asks for a temporary file, which is never redirected. *)
Lemma open_tmp_redirect r r' (s : st W) :
  open_with r "/tmp" (Z.lor O_RDWR (Z.lor O_TMPFILE O_CLOEXEC)) 384 s
  = open_with r' "/tmp" (Z.lor O_RDWR (Z.lor O_TMPFILE O_CLOEXEC)) 384 s.
Proof.
  unfold open_with. apply bind_ext; [done|]. intros [] s1; [done|]. unfold openat_with.
  by apply bind_ext.
Qed.

Lemma redirects_ext (f g : string → Z → Z → M (option Z)) dirfd path flags mode s :
  (∀ s, f "/tmp" (Z.lor O_RDWR (Z.lor O_TMPFILE O_CLOEXEC)) 384 s
        = g "/tmp" (Z.lor O_RDWR (Z.lor O_TMPFILE O_CLOEXEC)) 384 s) →
  match_redirects_table f dirfd path flags mode s = match_redirects_table g dirfd path flags mode s.
Proof.
  intros H. unfold match_redirects_table. apply bind_ext; [done|]. intros [] s1; [|done].
  apply for_each_ext. intros [pat h] s2. destruct (fnmatch pat path); [|done].
  destruct h; cbn [run_handler].
  - apply bind_ext; [by apply synth_open_ext|done].
  - apply bind_ext; [done|]. intros pid s3. destruct (pid <=? 0); [done|].
    apply bind_ext; [by apply synth_open_ext|done].
Qed.

Lemma openat_with_ext r r' dirfd path flags mode (s : st W) :
  (∀ d p f m s, r d p f m s = r' d p f m s) →
  openat_with r dirfd path flags mode s = openat_with r' dirfd path flags mode s.
Proof.
  intros H. unfold openat_with. apply bind_ext; [done|]. intros [] s1; [done|].
  destruct (_ && _); [done|]. by apply bind_ext.
Qed.

(** [open] is what the source writes: its redirected files are made with [open] itself. The
    definition unrolls the recursion once, and that is enough for every call. *)
Theorem open_unrolled path flags mode (s : st W) :
  open path flags mode s = open_with (match_redirects_table open) path flags mode s ∧
  ∀ dirfd, openat dirfd path flags mode s
           = openat_with (match_redirects_table open) dirfd path flags mode s.
Proof.
  assert (∀ d p f m (s : st W),
    match_redirects_table open_inner d p f m s = match_redirects_table open d p f m s) as Hr.
  { intros. apply redirects_ext. intros. apply open_tmp_redirect. }
  split; [|intros; by apply openat_with_ext].
  unfold open at 1, open_with. apply bind_ext; [done|]. intros [] s1; [done|].
  by apply openat_with_ext.
Qed.
End knot.

(** ** Patterns *)

(** What a pattern matches. *)
Inductive matches : string → string → Prop :=
| m_nil : matches "" ""
| m_lit c p s : c ≠ "*"%char → matches p s → matches (String c p) (String c s)
| m_star p x s : Forall (λ c, c ≠ "/"%char) (String.list_ascii_of_string x) → matches p s →
    matches (String "*" p) (x +:+ s).

(** The matcher finds exactly the matches. *)
Theorem fnmatch_correct p s : fnmatch p s = true ↔ matches p s.
Proof.
  revert s. induction p as [|c p IH]; intros s.
  { destruct s; split; try done; [by constructor|by inversion 1]. }
  cbn [fnmatch]. destruct (decide (c = "*"%char)) as [->|Hc].
  - split.
    + induction s as [|d s IHs]; cbn.
      * rewrite orb_false_r. intros H%IH. by apply (m_star p "" "").
      * intros [H%IH|H]%orb_true_iff; [by apply (m_star p "" (String d s))|].
        destruct (decide (d = "/"%char)) as [|Hd]; [done|].
        specialize (IHs H). inversion IHs as [|? ? ? Hne|p' x s' Hx Hm]; subst; [done|].
        apply (m_star p (String d x) s'); [|done]. by constructor.
    + inversion 1 as [|? ? ? Hne|p' x s' Hx Hm]; subst; [done|].
      clear H. induction x as [|d x IHx].
      * change ("" +:+ s') with s'. apply IH in Hm. destruct s' as [|d s']; cbn; by rewrite Hm.
      * cbn in Hx. apply Forall_cons in Hx as [Hd Hx].
        change (String d x +:+ s') with (String d (x +:+ s')). cbn.
        rewrite (decide_False (P := d = "/"%char)) by done.
        rewrite IHx by done. apply orb_true_r.
  - destruct s as [|d s]; [split; [done|by inversion 1]|].
    destruct (decide (c = d)) as [->|Hne].
    + rewrite IH. split; [by constructor|]. by inversion 1.
    + split; [done|]. by inversion 1.
Qed.
