(* ===== verification/WrapOpen.v ===== *)
(** * Making a synthetic descriptor, seen at the descriptor table

    [wslcompat_synth_open] with the [open] of open.c, against the interface of the table extended by
    what open(2), flock(2) and the calls that leave descriptors alone are documented to do: it fails
    and leaves table and memory as they were, or it adds the descriptor, its probe and its entry. *)

From stdpp Require Import gmap.
From S2P Require Import Prelude CString Kernel State Tunables Override Walk Internal Synth SynthFrames SynthFacts Close Tty Proc Dispatch Handlers FdTable Open.

Open Scope Z_scope.

(** No descriptor is of this inode. *)
Definition fresh (s : stat) (T : gmap Z fdesc) : Prop :=
  ∀ k y, T !! k = Some y → same_inode (d_stat y) s = false.

Definition opened (flags : Z) (T : gmap Z fdesc) (r : Z + Z) (T' : gmap Z fdesc) : Prop :=
  match r with
  | inl d => T !! d = None ∧ ∃ s, T' = <[d := new_desc s flags]> T
  | inr _ => T' = T
  end.

(** The lock of the open file description of [fd] changes; so it does for its duplicates, which have
    its inode. *)
Definition relocked (fd : Z) (b : bool) (T T' : gmap Z fdesc) : Prop :=
  ∀ x, T !! fd = Some x → T' !! fd = Some (with_shared b x) ∧
    ∀ k, k ≠ fd → T' !! k = T !! k ∨
      ∃ y, T !! k = Some y ∧ same_inode (d_stat x) (d_stat y) = true ∧ T' !! k = Some (with_shared b y).

(** The calls that open, close and duplicate nothing. *)
Definition neutral {A} (c : call A) : bool :=
  match c with
  | k_fstat _ | k_read _ _ | k_write _ _ | k_getrandom _ | k_clock_gettime _ _ | k_fsetxattr _ _ _ _
  | k_unlinkat _ _ _ | k_ttyname_r _ _ | k_ioctl _ _ _ | k_poll _ _ | k_process_vm_read _ _ _ => true
  | k_fcntl _ cmd _ => (cmd =? F_GETFL) || (cmd =? F_GETFD)
  | _ => false
  end.

Class KernelOpens (W : Type) `{!Kernel W, !KernelProcFd W, !KernelTable W} : Prop := {
  open_law path fl mo w r w' : kstep (k_open path fl mo) w = (r, w') → opened fl (tab w) r (tab w');
  openat_law dir path fl mo w r w' : kstep (k_openat dir path fl mo) w = (r, w') → opened fl (tab w) r (tab w');
  (** /proc/self/fd/N is the file behind N *)
  reopen_law fd fl mo w d w' x :
    kstep (k_open (proc_self_fd fd) fl mo) w = (inl d, w') → tab w !! fd = Some x →
    tab w' !! d = Some (new_desc (d_stat x) fl);
  (** with O_CREAT and O_EXCL the file is new *)
  creat_law dir path fl mo w d w' x :
    kstep (k_openat dir path fl mo) w = (inl d, w') → has_bits fl O_CREAT = true → has_bits fl O_EXCL = true →
    tab w' !! d = Some x → fresh (d_stat x) (tab w);
  lock_law fd w r w' :
    kstep (k_flock fd (Z.lor LOCK_SH LOCK_NB)) w = (r, w') →
    match r with inl _ => relocked fd true (tab w) (tab w') | inr _ => tab w' = tab w end;
  unlock_law fd w r w' :
    kstep (k_flock fd LOCK_UN) w = (r, w') →
    match r with inl _ => relocked fd false (tab w) (tab w') | inr _ => tab w' = tab w end;
  exlock_law fd w x :
    tab w !! fd = Some x → d_shared x = false → tab (snd (kstep (k_flock fd (Z.lor LOCK_EX LOCK_NB)) w)) = tab w;
  (** of a number that is not open *)
  close_bad_law fd w : tab w !! fd = None → tab (snd (kstep (k_close fd) w)) = tab w;
  neutral_law A (c : call A) w : neutral c = true → tab (snd (kstep c w)) = tab w;
}.

Section facts.
Context {W : Type} `{!Kernel W, !KernelProcFd W, !KernelTable W, !KernelPid W, !KernelOpens W} {Hfuel : Fuel}.
Variables id t : Z.
Local Abbreviation calm := (calm id t).

Lemma bind_sys {A B} (c : call A) (k : option A → prog (st W) B) m w e :
  bind (sys c) k (mkst m w e) =
  match kstep c w with
  | (inl a, w') => k (Some a) (mkst m w' e)
  | (inr er, w') => k None (mkst m w' er)
  end.
Proof. unfold bind, sys. simpl. by destruct (kstep c w) as [[a|er] w']. Qed.

Lemma kstep_pid_eq {A} (c : call A) (w w' : W) r : kstep c w = (r, w') → kpid w' = kpid w.
Proof. intros E. pose proof (kstep_pid _ c w) as H. by rewrite E in H. Qed.

Lemma neutral_step {A} (c : call A) (w w' : W) r :
  kstep c w = (r, w') → neutral c = true → tab w' = tab w ∧ kpid w' = kpid w.
Proof.
  intros E Hn. split; [|by eapply kstep_pid_eq]. pose proof (neutral_law _ c w Hn) as H. by rewrite E in H.
Qed.

(** Two worlds with the same table, for the same process. *)
Definition alike (w w' : W) : Prop := tab w' = tab w ∧ kpid w' = kpid w.

Lemma calm_alike m (w w' : W) : calm m w → alike w w' → calm m w'.
Proof. intros C [Ht Hk]. apply (calm_retable _ _ m w); rewrite ?Ht; [done..|apply C]. Qed.

#[export] Instance alike_equiv : Equivalence alike.
Proof. unfold alike. split; [intros w|intros w w' []|intros w1 w2 w3 [] []]; split; congruence. Qed.

Lemma bind_sys_neutral {A B} (c : call A) (k : option A → prog (st W) B) m w e (P : outcome (st W) B → Prop) :
  neutral c = true →
  (∀ r w' e', alike w w' → P (k r (mkst m w' e'))) → P (bind (sys c) k (mkst m w e)).
Proof.
  intros Hn H. rewrite bind_sys. destruct (kstep c w) as [[a|er] w'] eqn:E;
    destruct (neutral_step _ _ _ _ E Hn) as [Ht Hk]; by apply H.
Qed.

(** ** The temporary file *)
Lemma record_btime_run fd m (w : W) e :
  ∃ w' e', record_btime_now fd (mkst m w e) = Ret tt (mkst m w' e') ∧ alike w w'.
Proof.
  unfold record_btime_now. apply bind_sys_neutral; [done|]. intros [ts|] w1 e1 H1; [|by exists w1, e1].
  apply bind_sys_neutral; [done|]. intros r w2 e2 H2. exists w2, e2. split; [done|by etrans].
Qed.

Definition tmp_flags : Z := Z.lor O_RDWR (Z.lor O_TMPFILE O_CLOEXEC).

(** A new file under a new number, or nothing. *)
Definition creates (T : gmap Z fdesc) (r : option Z) (T' : gmap Z fdesc) : Prop :=
  match r with
  | None => T' = T
  | Some d => T !! d = None ∧ ∃ x, T' = <[d := x]> T ∧ fresh (d_stat x) T
  end.

Lemma tmp_open_run m (w : W) e :
  wslcompat_enabled m "open" = true → wslcompat_enabled m "openat" = true →
  ∃ r w' e', open_inner "/tmp" tmp_flags 384 (mkst m w e) = Ret r (mkst m w' e') ∧
    creates (tab w) r (tab w') ∧ kpid w' = kpid w.
Proof.
  intros Ho Hoa. unfold open_inner, open_with, openat_with, wslcompat_passthru. rewrite bind_getm. cbn [s_mem].
  rewrite Ho. cbn [negb]. rewrite bind_getm. cbn [s_mem]. rewrite Hoa. cbn [negb].
  change (is_tmpfile tmp_flags && negb (has_bits tmp_flags O_PATH)) with true. cbv iota.
  unfold handle_tmpfile_at. rewrite bind_sys.
  destruct (kstep _ w) as [[d|er] w1] eqn:E1; pose proof (openat_law _ _ _ _ _ _ _ E1) as H1;
    pose proof (kstep_pid_eq _ _ _ _ E1) as K1; cbn [opened] in H1; [|by exists None, w1, er].
  destruct H1 as [Hd [sd T1]].
  assert (∀ r w2 e2, creates (tab w1) r (tab w2) → kpid w2 = kpid w →
    ∃ r' w' e', (sys (k_close d) ;;* ret r) (mkst m w2 e2) = Ret r' (mkst m w' e') ∧
      creates (tab w) r' (tab w') ∧ kpid w' = kpid w) as Hclose.
  { intros r w2 e2 Hc K2. assert (is_Some (tab w1 !! d)) as Hsd by (rewrite T1, lookup_insert_eq; eauto).
    destruct (tab_close d w2) as (w3 & E3 & T3).
    { destruct r as [b|]; cbn in Hc; [|by rewrite Hc]. destruct Hc as [Hb [x [-> _]]].
      destruct (decide (d = b)) as [->|]; [rewrite Hb in Hsd; by destruct Hsd|]. by rewrite lookup_insert_ne. }
    pose proof (kstep_pid_eq _ _ _ _ E3) as K3. exists r, w3, e2. rewrite bind_sys, E3. split; [done|].
    split; [|congruence]. rewrite T3. destruct r as [b|]; cbn in Hc |- *.
    - destruct Hc as [Hb [x [-> Hx]]]. rewrite T1 in Hb, Hx |- *. destruct (decide (d = b)) as [->|Hne].
      { by rewrite lookup_insert_eq in Hb. }
      rewrite lookup_insert_ne in Hb by done. split; [done|]. exists x. split.
      + rewrite delete_insert_ne, delete_insert_id by done. done.
      + intros k y Hk. apply (Hx k). rewrite lookup_insert_ne; congruence.
    - rewrite Hc, T1. by apply delete_insert_id. }
  apply bind_sys_neutral; [done|]. intros r w2 e2 [T2 K2].
  destruct r as [r|]; [|rewrite bind_ret; apply Hclose; [done|congruence]].
  destruct (_ =? 8)%nat; [|rewrite bind_ret; apply Hclose; [done|congruence]].
  rewrite bind_assoc, bind_sys.
  destruct (kstep _ w2) as [[b|er] w3] eqn:E3; pose proof (openat_law _ _ _ _ _ _ _ E3) as H3;
    pose proof (kstep_pid_eq _ _ _ _ E3) as K3; cbn [opened] in H3;
    [|rewrite bind_ret; apply Hclose; cbn; congruence].
  destruct H3 as [Hb [sb T3]]. rewrite bind_assoc.
  destruct (record_btime_run b m w3 e2) as (w4 & e4 & E4 & T4 & K4). rewrite (bind_Ret _ _ _ _ _ E4).
  rewrite bind_assoc. apply bind_sys_neutral; [done|]. intros u w5 e5 [T5 K5]. rewrite bind_ret.
  apply Hclose; [|congruence]. cbn. rewrite <-T2. split; [done|]. eexists. split; [by rewrite T5, T4, T3|].
  intros k y Hk. eapply creat_law; [exact E3|done..| |done]. by rewrite T3, lookup_insert_eq.
Qed.

(** ** The probe *)

(** The lock on [fd], which was [x], may have changed; nothing else, files of another inode. *)
Definition touched (fd : Z) (x : fdesc) (b : bool) (T T' : gmap Z fdesc) : Prop :=
  T' !! fd = Some (with_shared b x) ∧
  ∀ k, k ≠ fd → T' !! k = T !! k ∨
    ∃ y b', T !! k = Some y ∧ same_inode (d_stat x) (d_stat y) = true ∧ T' !! k = Some (with_shared b' y).

Lemma touched_none fd x T : T !! fd = Some x → touched fd x (d_shared x) T T.
Proof. intros Hx. split; [by destruct x|]. intros k _. by left. Qed.

Lemma relocked_touched fd x b T T' : T !! fd = Some x → relocked fd b T T' → touched fd x b T T'.
Proof.
  intros Hx H. destruct (H x Hx) as [H1 H2]. split; [done|]. intros k Hk.
  destruct (H2 k Hk) as [|(y & ?)]; [by left|right; exists y, b; tauto].
Qed.

Lemma touched_trans fd x b b' T T1 T2 :
  touched fd x b T T1 → touched fd (with_shared b x) b' T1 T2 → touched fd x b' T T2.
Proof.
  intros [H1 K1] [H2 K2]. split; [done|]. intros k Hk.
  destruct (K1 k Hk) as [E1|(y & b1 & Hy & Hs & E1)], (K2 k Hk) as [E2|(z & b2 & Hz & Hs2 & E2)].
  - left. congruence.
  - right. exists z, b2. by rewrite <-E1.
  - right. exists y, b1. split; [done|]. split; [done|]. congruence.
  - right. exists y, b2. split; [done|]. split; [done|]. rewrite E2. by simplify_eq.
Qed.

Lemma touched_None fd x b T T' k : touched fd x b T T' → T' !! k = None → T !! k = None.
Proof.
  intros [H1 H2] E. destruct (decide (k = fd)) as [->|Hk]; [congruence|].
  destruct (H2 k Hk) as [|(y & b' & _ & _ & E')]; congruence.
Qed.

Definition probe_flags : Z := Z.lor O_RDONLY O_CLOEXEC.

(** Without a probe the lock is held or not; with one it is. *)
Lemma install_probe_run fd x m (w : W) e :
  tab w !! fd = Some x →
  ∃ p b w' e' T, synth_install_probe fd (mkst m w e) = Ret p (mkst m w' e') ∧ kpid w' = kpid w ∧
    touched fd x b (tab w) T ∧
    (p = -1 ∧ tab w' = T ∨
     b = true ∧ T !! p = None ∧ tab w' = <[p := new_desc (d_stat x) probe_flags]> T).
Proof.
  intros Hx. unfold synth_install_probe. rewrite bind_sys.
  destruct (kstep _ w) as [[[]|er] w1] eqn:E1; pose proof (lock_law _ _ _ _ E1) as H1; cbn beta iota in H1;
    pose proof (kstep_pid_eq _ _ _ _ E1) as K1.
  2:{ exists (-1), (d_shared x), w1, er, (tab w). split; [done|]. split; [done|].
      split; [by apply touched_none|by left]. }
  apply (relocked_touched _ x) in H1; [|done]. rewrite bind_sys.
  destruct (kstep _ w1) as [[p|er] w2] eqn:E2; pose proof (open_law _ _ _ _ _ _ E2) as H2; cbn [opened] in H2;
    pose proof (kstep_pid_eq _ _ _ _ E2) as K2.
  - exists p, true, w2, e, (tab w1). split; [done|]. split; [congruence|]. split; [done|]. right.
    destruct H2 as [Hp [s Ts]]. split; [done|]. split; [done|].
    pose proof (reopen_law _ _ _ _ _ _ _ E2 (proj1 H1)) as H3. rewrite Ts, lookup_insert_eq in H3.
    injection H3 as ->. done.
  - rewrite bind_sys. destruct H1 as [Hx1 H1]. rewrite <-H2 in Hx1.
    destruct (kstep _ w2) as [[[]|er'] w3] eqn:E3; pose proof (unlock_law _ _ _ _ E3) as H3; cbn beta iota in H3;
      pose proof (kstep_pid_eq _ _ _ _ E3) as K3.
    + exists (-1), false, w3, er, (tab w3). split; [done|]. split; [congruence|]. split; [|by left].
      apply (relocked_touched _ _ _ _ _ Hx1) in H3. rewrite H2 in H3, Hx1.
      eapply touched_trans; [|exact H3]. by split.
    + rewrite H2 in Hx1. exists (-1), true, w3, er', (tab w1). split; [done|]. split; [congruence|].
      split; [by split|]. left. split; [done|]. congruence.
Qed.

(** ** Registration *)

(** A sweep frees nothing: every live entry is held. *)
Lemma gc_slot_noop i m (w : W) e :
  calm m w → (i < SYNTH_TABLE_SIZE)%nat → spacious 4 w →
  ∃ w' e', table_gc_slot i (mkst m w e) = Ret None (mkst m w' e') ∧ alike w w'.
Proof.
  intros C Hi Hsp. unfold table_gc_slot. destruct (decide (0 < refcount (entry_at m i))) as [Hr|Hr].
  - assert (live m i) as Hl by done. rewrite (bind_Ret _ _ _ _ _ (synth_pin_live i m w e Hl)). cbv beta iota.
    destruct (post_close_keeps _ _ i m w e C Hl Hsp) as (w1 & e1 & E1 & T1 & K1).
    rewrite (bind_Ret _ _ _ _ _ E1), bind_getm. cbn [s_mem].
    rewrite (proj2 (Z.eqb_neq _ _)) by lia. exists w1, e1. done.
  - exists w, e. split; [|done]. unfold synth_pin. rewrite bind_assoc, bind_getm. cbn [s_mem].
    by rewrite (proj2 (Z.ltb_ge _ _)) by lia.
Qed.

Lemma spacious_alike n (w w' : W) : alike w w' → spacious n w → spacious n w'.
Proof. intros [Ht _]. unfold spacious. by rewrite Ht. Qed.

Lemma gc_noop m (w : W) e :
  calm m w → spacious 4 w →
  ∃ w' e', synth_table_gc (mkst m w e) = Ret false (mkst m w' e') ∧ alike w w'.
Proof.
  intros C Hsp. unfold synth_table_gc.
  assert (∀ l w1 e1, (∀ i, i ∈ l → (i < SYNTH_TABLE_SIZE)%nat) → alike w w1 →
    ∃ w' e', for_each l table_gc_slot (mkst m w1 e1) = Ret None (mkst m w' e') ∧ alike w w') as H.
  { induction l as [|i l IH]; intros w1 e1 Hl Ha; [by exists w1, e1|]. cbn [for_each].
    destruct (gc_slot_noop i m w1 e1) as (w2 & e2 & E2 & A2);
      [by eapply calm_alike|apply Hl; left|by eapply spacious_alike|].
    rewrite (bind_Ret _ _ _ _ _ E2). apply IH; [intros j Hj; apply Hl; by right|by etrans]. }
  destruct (H (seq 0 SYNTH_TABLE_SIZE) w e) as (w' & e' & E & Ha); [|done|].
  { intros i Hi%elem_of_seq. lia. }
  exists w', e'. by rewrite (bind_Ret _ _ _ _ _ E).
Qed.

(** The memory with [x] in entry [i]. *)
Definition enrol (i : nat) (x : synth_entry) (m : mem) : mem :=
  set_synth_live_entries (wrap_u 32 (synth_live_entries m + 1)) (upd_entry i (λ _, x) m).

Lemma starttime_hot m (w : W) e :
  kpid w = id → starttime_cache m = {| p_starttime := t; p_pid := wrap_u 32 id |} →
  wslcompat_self_starttime_pid id (mkst m w e) = Ret t (mkst m w e).
Proof. intros Hp Hc. apply (identity_cached w). split; [apply rtc_refl|done]. Qed.

Lemma register_slot_cached key ops probe up flags i m (w : W) e :
  is_free m i → calm m w →
  ∃ slots, register_slot key ops probe up flags i (mkst m w e) =
    Ret (Some i) (mkst (enrol i (published key ops probe up flags id t slots) m) w e).
Proof.
  intros Hf C. unfold register_slot. run_simpl. rewrite Hf. cbn [negb Z.eqb].
  rewrite !bind_setm, bind_getpid. cbn [s_mem s_world s_errno]. rewrite bind_setm. cbn [s_mem s_world s_errno].
  unfold wslcompat_self_starttime. run_simpl. rewrite (calm_pid _ _ _ _ C).
  erewrite bind_Ret by (apply starttime_hot; [apply C|apply (calm_cache _ _ _ _ C)]).
  run_simpl. rewrite !upd_entry_live, !upd_entry_compose. exists (probe_overrides (entry_at m i)).
  do 2 f_equal. unfold enrol. f_equal. unfold upd_entry. f_equal. apply list_eq. intros j.
  destruct (decide (i = j)) as [<-|Hij]; [|by rewrite !list_lookup_alter_ne].
  rewrite !list_lookup_alter_eq. unfold entry_at. rewrite list_lookup_total_alt. by destruct (_ !! i).
Qed.

Lemma register_run key ops probe up flags m (w : W) e :
  calm m w → spacious 4 w →
  (∃ i w' slots, synth_register key ops probe up flags (mkst m w e) =
     Ret (Some i) (mkst (enrol i (published key ops probe up flags id t slots) m) w' e) ∧
     (i < SYNTH_TABLE_SIZE)%nat ∧ is_free m i ∧ alike w w') ∨
  (∃ w' e', synth_register key ops probe up flags (mkst m w e) = Ret None (mkst m w' e') ∧ alike w w').
Proof.
  intros C Hsp. unfold synth_register. cbn [synth_register_n].
  destruct (register_loop_run key ops probe up flags SYNTH_TABLE_SIZE 0 (mkst m w e))
    as [(i & s' & Hi & Hf & _ & E & E1)|[_ E]].
  - left. rewrite (bind_Ret _ _ _ _ _ E). exists i.
    destruct (register_slot_cached key ops probe up flags i m w e Hf C) as [slots E'].
    rewrite E' in E1. injection E1 as <-. exists w, slots. split; [done|]. split; [lia|]. by split.
  - right. rewrite (bind_Ret _ _ _ _ _ E). destruct (gc_noop m w e C Hsp) as (w1 & e1 & E1 & A1).
    rewrite (bind_Ret _ _ _ _ _ E1). by exists w1, e1.
Qed.

(** ** The new entry among the others *)
Section enrolled.
Variables (m : mem) (i : nat) (key : stat) (ops : handler) (p : Z) (up : userptr) (fl : Z) (slots : list synth_override).
Hypothesis Hlen : length (synth_table m) = SYNTH_TABLE_SIZE.
Hypothesis Hi : (i < SYNTH_TABLE_SIZE)%nat.
Hypothesis Hfree : is_free m i.
Let m' := enrol i (published key ops p up fl id t slots) m.

Lemma enrol_eq : entry_at m' i = published key ops p up fl id t slots.
Proof. unfold m', enrol. change (entry_at ?x i) with (entry_at (upd_entry i (λ _, published key ops p up fl id t slots) m) i). by rewrite entry_at_upd_eq by lia. Qed.

Lemma enrol_ne j : j ≠ i → entry_at m' j = entry_at m j.
Proof. intros Hj. unfold m', enrol. rewrite <-(entry_at_upd_ne m i j (λ _, published key ops p up fl id t slots)) by done. done. Qed.

Lemma enrol_was_dead j : live m j → j ≠ i.
Proof. intros [_ Hr] ->. unfold is_free in Hfree. lia. Qed.

Lemma enrol_live j : live m' j ↔ j = i ∨ live m j.
Proof.
  destruct (decide (j = i)) as [->|Hj].
  - split; [by left|]. intros _. split; [done|]. by rewrite enrol_eq.
  - unfold live. rewrite enrol_ne by done. tauto.
Qed.

Lemma enrol_wraps j s : wraps m' j s ↔ j = i ∧ same_inode key s = true ∨ wraps m j s.
Proof.
  unfold wraps. rewrite enrol_live. destruct (decide (j = i)) as [->|Hj].
  - rewrite enrol_eq. cbn [e_stat published]. split; [|intros [[_ H]|[H _]]; [by auto|by apply enrol_was_dead in H]].
    intros [_ H]. by left.
  - rewrite enrol_ne by done. tauto.
Qed.

Lemma enrol_slot_ne j : j ≠ i → tty_slot m' j = tty_slot m j.
Proof. intros Hj. unfold tty_slot. by rewrite enrol_ne. Qed.

Lemma enrol_slot_eq k : up = up_tty k → tty_slot m' i = k.
Proof. intros Hu. unfold tty_slot. rewrite enrol_eq. cbn [e_userptr published]. by rewrite Hu. Qed.

Lemma enrol_internal fd :
  internal m' fd ↔ internal m fd ∨ fd = p ∨ ops = h_tty ∧ fd = real_of m' i.
Proof.
  assert (∀ j, live m j → real_of m' j = real_of m j) as Hreal.
  { intros j Hj. unfold real_of. by rewrite enrol_slot_ne by (by apply enrol_was_dead). }
  split.
  - intros [(j & [->|Hj]%enrol_live & H)|H]; [|left; left; exists j; split; [done|]|left; by right].
    + rewrite enrol_eq in H. cbn [probe_fd e_ops published] in H. destruct H as [->|[? <-]]; auto.
    + by rewrite enrol_ne, Hreal in H by (by (done || apply enrol_was_dead)).
  - intros [[(j & Hj & H)|H]|H]; [left; exists j|by right|left; exists i].
    + split; [apply enrol_live; by right|]. by rewrite enrol_ne, Hreal by (by (done || apply enrol_was_dead)).
    + split; [apply enrol_live; by left|]. rewrite enrol_eq. cbn [probe_fd e_ops published].
      destruct H as [->|[? ->]]; auto.
Qed.

(** What a terminal handler needs of the slot it is given. *)
Definition slot_ready (w : W) : Prop :=
  ops = h_tty → ∃ k, up = up_tty k ∧ (k < length (tty_table m))%nat ∧ claimed (tty_at m k) ≠ 0 ∧
    (∀ j, live m j → e_ops (entry_at m j) = h_tty → tty_slot m j ≠ k) ∧
    (real_fd (tty_at m k) = -1 ∨ ¬ internal m (real_fd (tty_at m k)) ∧
       ∃ x, tab w !! real_fd (tty_at m k) = Some x ∧ ¬ is_wrap m (d_stat x)).

Section enrolled_calm.
Variables (w w' : W).
Hypothesis C : calm m w.
Hypothesis Hfr : fresh key (tab w).
Hypothesis Hsub : tab w ⊆ tab w'.
Hypothesis Hslot : slot_ready w.

Lemma enrol_grow k y : tab w !! k = Some y → tab w' !! k = Some y.
Proof. intros Hy. by apply (lookup_weaken (tab w)). Qed.
#[local] Hint Resolve enrol_grow : core.

Lemma enrol_not_key k y : tab w !! k = Some y → same_inode key (d_stat y) = true → False.
Proof.
  intros Hy [E1 E2]%same_inode_eq. pose proof (Hfr k y Hy) as Hn.
  assert (same_inode (d_stat y) key = true) as E by (by apply same_inode_eq). congruence.
Qed.

Lemma enrol_key_unwrapped s : same_inode key s = true → ¬ is_wrap m s.
Proof.
  intros Hs (j & Hj & Hw). destruct (calm_holder _ _ _ _ C j Hj) as (h & y & Hh & _ & _ & Hy).
  apply (enrol_not_key h y Hh). apply same_inode_eq in Hs as [], Hw as [], Hy as []. apply same_inode_eq. split; congruence.
Qed.

Lemma enrol_unwrapped k y : tab w !! k = Some y → ¬ is_wrap m (d_stat y) → ¬ is_wrap m' (d_stat y).
Proof. intros Hy Hn (j & [[_ E]|Hj]%enrol_wraps); [by eapply enrol_not_key|]. apply Hn. by exists j. Qed.
#[local] Hint Resolve enrol_unwrapped : core.

Lemma enrol_unique j k s : wraps m' j s → wraps m' k s → j = k.
Proof.
  intros [[-> Hj]|Hj]%enrol_wraps [[-> Hk]|Hk]%enrol_wraps; [done|..].
  - by destruct (enrol_key_unwrapped s Hj); exists k.
  - by destruct (enrol_key_unwrapped s Hk); exists j.
  - by eapply (calm_unique _ _ _ _ C).
Qed.

Lemma enrol_probe j :
  (p = -1 ∨ ∃ x, tab w' !! p = Some x ∧ d_shared x = false ∧ d_stat x = key) →
  live m' j → probe_fd (entry_at m' j) = -1 ∨
    ∃ x, tab w' !! probe_fd (entry_at m' j) = Some x ∧ d_shared x = false ∧ wraps m' j (d_stat x).
Proof.
  intros Hp [->|Hj]%enrol_live.
  - rewrite enrol_eq. cbn [probe_fd published]. destruct Hp as [|(y & Hy & Hys & Ey)]; [by left|right].
    exists y. split; [done|]. split; [done|]. apply enrol_wraps. left. rewrite Ey. split; [done|]. by apply same_inode_eq.
  - rewrite enrol_ne by (by apply enrol_was_dead).
    destruct (calm_probe _ _ _ _ C j Hj) as [|(y & Hy & Hys & Hw)]; [by left|right]. exists y.
    split; [eauto|]. split; [done|]. apply enrol_wraps. by right.
Qed.

Lemma enrol_real j :
  live m' j → e_ops (entry_at m' j) = h_tty → real_of m' j = -1 ∨
    ∃ x, tab w' !! real_of m' j = Some x ∧ ¬ is_wrap m' (d_stat x).
Proof.
  intros [->|Hj]%enrol_live.
  - rewrite enrol_eq. cbn [e_ops published]. intros Ho. destruct (Hslot Ho) as (k & Hu & _ & _ & _ & Hreal).
    unfold real_of. rewrite (enrol_slot_eq k Hu). change (tty_at m' k) with (tty_at m k).
    destruct Hreal as [|[_ (y & Hy & Hn)]]; [by left|right]. exists y. eauto.
  - assert (j ≠ i) as Hji by (by apply enrol_was_dead). unfold real_of. rewrite enrol_slot_ne, enrol_ne by done.
    intros Ho. change (tty_at m' ?k) with (tty_at m k).
    destruct (calm_real _ _ _ _ C j Hj Ho) as [|(y & Hy & Hn)]; [by left|right]. exists y. eauto.
Qed.

Lemma enrol_holder j :
  (∃ fd x, tab w' !! fd = Some x ∧ d_stat x = key ∧ (p = -1 ∨ d_shared x = true)) →
  live m' j → ∃ fd x, tab w' !! fd = Some x ∧ locked m' j x ∧ wraps m' j (d_stat x).
Proof.
  intros (fd & x & Hx & Hxs & Hxl) [->|Hj]%enrol_live.
  - exists fd, x. split; [done|]. unfold locked. rewrite enrol_eq. split; [done|].
    apply enrol_wraps. left. rewrite Hxs. split; [done|]. by apply same_inode_eq.
  - destruct (calm_holder _ _ _ _ C j Hj) as (h & y & Hh & Hl & Hw). exists h, y. split; [eauto|].
    unfold locked. rewrite enrol_ne by (by apply enrol_was_dead). split; [done|]. apply enrol_wraps. by right.
Qed.

(** The new entry and an old one differ in slot and in terminal. *)
Lemma enrol_apart k :
  ops = h_tty → live m k → e_ops (entry_at m k) = h_tty →
  tty_slot m' i ≠ tty_slot m k ∧ (real_of m' i = real_of m k → real_of m' i < 0).
Proof.
  intros Ho Hk Hok. destruct (Hslot Ho) as (n & Hu & _ & _ & Hn & Hreal).
  unfold real_of at 1 3. rewrite (enrol_slot_eq n Hu). change (tty_at m' n) with (tty_at m n). split.
  - intros E. by destruct (Hn k Hk Hok).
  - intros E. destruct Hreal as [|[Hint _]]; [lia|]. destruct Hint. left. exists k. auto.
Qed.

Lemma enrol_slot j :
  live m' j → e_ops (entry_at m' j) = h_tty →
  (tty_slot m' j < length (tty_table m'))%nat ∧ claimed (tty_at m' (tty_slot m' j)) ≠ 0.
Proof.
  intros [->|Hj]%enrol_live.
  - rewrite enrol_eq. cbn [e_ops published]. intros Ho. destruct (Hslot Ho) as (k & Hu & Hk1 & Hk2 & _).
    by rewrite (enrol_slot_eq k Hu).
  - rewrite enrol_slot_ne, enrol_ne by (by apply enrol_was_dead). by apply (calm_slot _ _ _ _ C).
Qed.

Lemma enrol_injective j k :
  live m' j → live m' k → e_ops (entry_at m' j) = h_tty → e_ops (entry_at m' k) = h_tty →
  tty_slot m' j = tty_slot m' k ∨ real_of m' j = real_of m' k ∧ 0 ≤ real_of m' j → j = k.
Proof.
  assert (∀ x, live m x → real_of m' x = real_of m x) as Hr.
  { intros x Hx. unfold real_of. by rewrite enrol_slot_ne by (by apply enrol_was_dead). }
  intros [->|Hj]%enrol_live [->|Hk]%enrol_live; [done|..].
  - rewrite enrol_eq, (enrol_ne k), (enrol_slot_ne k), (Hr k) by (by (done || apply enrol_was_dead)).
    cbn [e_ops published]. intros Ho Hok. destruct (enrol_apart k Ho Hk Hok) as [H1 H2]. intros [|[E]]; [done|]. lia.
  - rewrite enrol_eq, (enrol_ne j), (enrol_slot_ne j), (Hr j) by (by (done || apply enrol_was_dead)).
    cbn [e_ops published]. intros Hoj Ho. destruct (enrol_apart j Ho Hj Hoj) as [H1 H2]. intros [|[E]]; [done|]. lia.
  - rewrite !enrol_ne, !enrol_slot_ne, !Hr by (by (done || apply enrol_was_dead)).
    intros Ho1 Ho2 [|[]]; [by apply (calm_slot_inj _ _ _ _ C)|by apply (calm_real_inj _ _ _ _ C)].
Qed.

Lemma enrol_real_own j sl :
  live m' j → e_ops (entry_at m' j) = h_tty → registered m' sl → real_of m' j = slot_value m' sl → real_of m' j < 0.
Proof.
  intros [->|Hj]%enrol_live; unfold real_of.
  - rewrite enrol_eq. cbn [e_ops published]. intros Ho Hsl E. destruct (Hslot Ho) as (n & Hu & _ & _ & _ & Hreal).
    rewrite (enrol_slot_eq n Hu) in E |- *. change (tty_at m' ?x) with (tty_at m x) in E |- *.
    destruct Hreal as [|[Hint _]]; [lia|]. destruct Hint. right. by exists sl.
  - rewrite enrol_ne, enrol_slot_ne by (by apply enrol_was_dead). by apply (calm_real_own _ _ _ _ C).
Qed.

Lemma calm_enrol :
  kpid w' = kpid w →
  (∃ fd x, tab w' !! fd = Some x ∧ d_stat x = key ∧ (p = -1 ∨ d_shared x = true)) →
  (p = -1 ∨ ∃ x, tab w' !! p = Some x ∧ d_shared x = false ∧ d_stat x = key) →
  calm m' w'.
Proof.
  intros Hk Hh Hp. split.
  - rewrite Hk. apply C.
  - apply (calm_cache _ _ _ _ C).
  - apply (calm_dup3 _ _ _ _ C).
  - apply (calm_close _ _ _ _ C).
  - apply (calm_open _ _ _ _ C).
  - apply (calm_openat _ _ _ _ C).
  - unfold m', enrol. change (length (synth_table (upd_entry i (λ _, published key ops p up fl id t slots) m)) = SYNTH_TABLE_SIZE).
    by rewrite length_upd_entry.
  - apply (calm_tty_len _ _ _ _ C).
  - apply enrol_unique.
  - intros j [->|Hj]%enrol_live; [by rewrite enrol_eq|]. rewrite enrol_ne by (by apply enrol_was_dead). by apply C.
  - intros j. by apply enrol_probe.
  - apply enrol_real.
  - intros j. by apply enrol_holder.
  - intros sl Hsl. destruct (calm_registry _ _ _ _ C sl Hsl) as [|(y & Hy & Hn)]; [by left|right]. exists y. eauto.
  - apply enrol_slot.
  - intros j k Hj Hk1 Hoj Hok E. apply enrol_injective; auto.
  - intros j k Hj Hk1 Hoj Hok E Hpos. apply enrol_injective; auto.
  - apply enrol_real_own.
Qed.
End enrolled_calm.
End enrolled.

(** ** Tables that grow and shrink back *)
Lemma calm_grow m (w w' : W) : calm m w → tab w ⊆ tab w' → kpid w' = kpid w → calm m w'.
Proof.
  intros C Hsub Hk. apply (calm_retable _ _ m w); [done..| |].
  - intros fd Hint. destruct (internal_open _ _ m w fd C Hint) as [Hneg|[x Hx]].
    + assert (∀ w1 : W, tab w1 !! fd = None) as Hn; [|by rewrite !Hn]. intros w1.
      destruct (tab w1 !! fd) eqn:E; [|done]. assert (is_Some (tab w1 !! fd)) as Hr%tab_range by eauto. lia.
    + rewrite Hx. by apply (lookup_weaken (tab w)).
  - intros i Hl. destruct (calm_holder _ _ _ _ C i Hl) as (h & y & Hh & H). exists h, y.
    split; [by apply (lookup_weaken (tab w))|done].
Qed.

(** [T'] is [T] with more under the numbers of [l], which [T] does not use. *)
Definition extends (T : gmap Z fdesc) (l : list Z) (T' : gmap Z fdesc) : Prop :=
  (∀ k, k ∉ l → T' !! k = T !! k) ∧ ∀ k, k ∈ l → T !! k = None.

Lemma extends_delete T k l T' : extends T (k :: l) T' → extends T l (delete k T').
Proof.
  intros [H1 H2]. split; [|intros j Hj; apply H2; by right]. intros j Hj.
  destruct (decide (j = k)) as [->|Hne]; [rewrite lookup_delete_eq; symmetry; apply H2; by left|].
  rewrite lookup_delete_ne by done. apply H1. by intros [->|?]%elem_of_cons.
Qed.

Lemma extends_nil T T' : extends T [] T' → T' = T.
Proof. intros [H _]. apply map_eq. intros k. apply H. by intros ?%elem_of_nil. Qed.

Lemma extends_subseteq T l T' : extends T l T' → T ⊆ T'.
Proof.
  intros [H1 H2]. apply map_subseteq_spec. intros k x Hx. rewrite H1; [done|]. intros Hk%H2. congruence.
Qed.

Lemma tab_none (w : W) : tab w !! (-1) = None.
Proof. destruct (tab w !! (-1)) eqn:E; [|done]. assert (is_Some (tab w !! (-1))) as Hr%tab_range by eauto. lia. Qed.

Lemma close_if_run k m (w : W) e :
  k = -1 ∨ is_Some (tab w !! k) →
  ∃ w', close_if k (mkst m w e) = Ret tt (mkst m w' e) ∧ tab w' = delete k (tab w) ∧ kpid w' = kpid w.
Proof.
  intros Hk. unfold close_if. destruct (Z.eqb_spec k (-1)) as [->|Hne].
  - exists w. by rewrite delete_id by apply tab_none.
  - destruct Hk as [|Hk]; [done|]. destruct (tab_close k w Hk) as (w1 & E1 & T1). cbn [negb].
    rewrite bind_sys, E1. exists w1. split; [done|]. split; [done|]. by eapply kstep_pid_eq.
Qed.

(** The failure exit gives back what was opened. *)
Lemma open_fail_run T p path back m (w : W) e :
  extends T [p; path; back] (tab w) →
  (p = -1 ∨ is_Some (tab w !! p) ∧ p ≠ path ∧ p ≠ back) →
  (path = -1 ∨ is_Some (tab w !! path) ∧ path ≠ back) → (back = -1 ∨ is_Some (tab w !! back)) →
  ∃ w', synth_open_fail p path back (mkst m w e) = Ret None (mkst m w' e) ∧ tab w' = T ∧ kpid w' = kpid w.
Proof.
  intros He Hp Hpath Hback. unfold synth_open_fail.
  assert (∀ k, is_Some (tab w !! k) → k ≠ -1) as Hpos by (intros k Hk%tab_range; lia).
  destruct (close_if_run p m w e) as (w1 & E1 & T1 & K1); [tauto|]. rewrite (bind_Ret _ _ _ _ _ E1).
  destruct (close_if_run path m w1 e) as (w2 & E2 & T2 & K2).
  { destruct Hpath as [|[Hpath _]]; [by left|right]. specialize (Hpos _ Hpath).
    rewrite T1, lookup_delete_ne; [done|]. naive_solver. }
  rewrite (bind_Ret _ _ _ _ _ E2). destruct (close_if_run back m w2 e) as (w3 & E3 & T3 & K3).
  { destruct Hback as [|Hback]; [by left|right]. specialize (Hpos _ Hback).
    rewrite T2, T1, !lookup_delete_ne; [done|naive_solver..]. }
  rewrite (bind_Ret _ _ _ _ _ E3). exists w3. split; [done|]. split; [|congruence].
  rewrite T3, T2, T1. by apply extends_nil, extends_delete, extends_delete, extends_delete.
Qed.

(** ** Opening *)
Lemma describe_run i m (w : W) e f :
  install_pid (entry_at m i) = id → install_starttime (entry_at m i) = t →
  kpid w = id → starttime_cache m = {| p_starttime := t; p_pid := wrap_u 32 id |} →
  op_describe (ops_of (e_ops (entry_at m i))) = Some f →
  ∃ l w' e', f i (mkst m w e) = Ret l (mkst m w' e') ∧ alike w w'.
Proof.
  intros Hi Ht Hk Hc. destruct (e_ops (entry_at m i)); cbn; intros [= <-].
  - unfold tty_describe, tty_of, tty_real_fd_load. rewrite bind_getm. cbn [s_mem].
    erewrite bind_Ret by (apply (load_base id t); [exact Hc|exact Hk|exact Hi|exact Ht]).
    destruct (_ <? 0); [by eexists _, w, e|]. apply bind_sys_neutral; [done|].
    intros [nm|] w1 e1 Ha; by eexists _, w1, e1.
  - by eexists _, w, e.
  - by eexists _, w, e.
Qed.

(** What [wslcompat_synth_open] adds: the descriptor, the probe if it could be had, an entry. *)
Definition wrap_desc (s : stat) (fl : Z) (b : bool) : fdesc :=
  {| d_stat := s; d_cloexec := has_bits fl O_CLOEXEC; d_shared := b; d_path := true |}.

Definition with_probe (p : Z) (s : stat) (T : gmap Z fdesc) : gmap Z fdesc :=
  if p =? -1 then T else <[p := new_desc s probe_flags]> T.

Lemma path_flags_path fl : has_bits (Z.lor O_PATH (Z.land fl O_CLOEXEC)) O_PATH = true.
Proof. change O_PATH with (2 ^ 21). rewrite has_bits_pow2, Z.lor_spec, Z.pow2_bits_true by lia. done. Qed.

Lemma path_flags_cloexec fl : has_bits (Z.lor O_PATH (Z.land fl O_CLOEXEC)) O_CLOEXEC = has_bits fl O_CLOEXEC.
Proof.
  change O_CLOEXEC with (2 ^ 19). rewrite !has_bits_pow2 by lia. rewrite Z.lor_spec, Z.land_spec.
  rewrite (Z.pow2_bits_true 19) by lia. by destruct (Z.testbit fl 19).
Qed.

(** The three descriptors before registration, over the table [T] of before. *)
Record staged (T : gmap Z fdesc) (back path p : Z) (s : stat) (fl : Z) (b : bool) (T' : gmap Z fdesc) : Prop := {
  stg_ext : extends T [p; path; back] T';
  stg_path : T' !! path = Some (wrap_desc s fl b);
  stg_back : is_Some (T' !! back);
  stg_ne : path ≠ back;
  stg_probe : p = -1 ∨ b = true ∧ T' !! p = Some (new_desc s probe_flags) ∧ p ≠ path ∧ p ≠ back;
  stg_fresh : fresh s T;
}.

Lemma stage_probe T back path xb fl m (w : W) e :
  let x := new_desc (d_stat xb) (Z.lor O_PATH (Z.land fl O_CLOEXEC)) in
  tab w = <[path := x]> (<[back := xb]> T) → T !! back = None → T !! path = None → path ≠ back →
  T !! (-1) = None → fresh (d_stat xb) T →
  ∃ p b w' e', synth_install_probe path (mkst m w e) = Ret p (mkst m w' e') ∧ kpid w' = kpid w ∧
    staged T back path p (d_stat xb) fl b (tab w').
Proof.
  intros x Tw Hback Hpath Hne Hneg Hfr.
  destruct (install_probe_run path x m w e) as (p & b & w1 & e1 & T1 & E1 & K1 & [Hx Hk] & Hp).
  { by rewrite Tw, lookup_insert_eq. }
  exists p, b, w1, e1. split; [done|]. split; [done|].
  assert (∀ k, k ≠ path → k ≠ back → T1 !! k = T !! k) as Hrest.
  { intros k Hk1 Hk2. trans (tab w !! k); [|by rewrite Tw, !lookup_insert_ne by done].
    destruct (Hk k Hk1) as [|(y & b' & Hy & Hs & _)]; [done|].
    rewrite Tw, !lookup_insert_ne in Hy by done. pose proof (Hfr k y Hy) as Hn.
    rewrite (proj2 (same_inode_eq _ _)) in Hn; [done|]. apply same_inode_eq in Hs as []. done. }
  assert (is_Some (T1 !! back)) as Hb1.
  { destruct (Hk back) as [->|(y & b' & _ & _ & ->)]; [done| |eauto].
    rewrite Tw, lookup_insert_ne, lookup_insert_eq by done. eauto. }
  assert (with_shared b x = wrap_desc (d_stat xb) fl b) as Ex.
  { unfold wrap_desc, x, new_desc, with_shared. cbn. by rewrite path_flags_cloexec, path_flags_path. }
  rewrite Ex in Hx. destruct Hp as [[-> ->]|(Hb & Hp1 & ->)].
  - split; [|done..|by left|done]. split; [intros k Hk1; apply Hrest; set_solver|].
    intros k [->|[->|[->|?%elem_of_nil]%elem_of_cons]%elem_of_cons]%elem_of_cons; done.
  - assert (p ≠ path) as Hpp by congruence.
    assert (p ≠ back) as Hpb by (intros ->; rewrite Hp1 in Hb1; by destruct Hb1).
    split; [| by rewrite lookup_insert_ne | by rewrite lookup_insert_ne | done | | done].
    + split; [intros k Hk1; rewrite lookup_insert_ne by set_solver; apply Hrest; set_solver|].
      intros k [->|[->|[->|?%elem_of_nil]%elem_of_cons]%elem_of_cons]%elem_of_cons; [|done..].
      by rewrite <-Hrest.
    + right. by rewrite lookup_insert_eq.
Qed.

(** Without the temporary file's own descriptor. *)
Lemma staged_final T back path p s fl b T' :
  staged T back path p s fl b T' → T !! (-1) = None → T' !! (-1) = None →
  delete back T' = with_probe p s (<[path := wrap_desc s fl b]> T) ∧
  T !! path = None ∧ (p = -1 ∨ b = true ∧ T !! p = None ∧ p ≠ path).
Proof.
  intros [[H1 H2] Hpath Hback Hne Hp _] Hneg Hneg'.
  split; [|split; [apply H2; set_solver|destruct Hp as [|(?&?&?&?)]; [by left|right];
    split; [done|]; split; [apply H2; set_solver|done]]].
  apply map_eq. intros k. unfold with_probe.
  destruct (decide (k = back)) as [->|Hkb].
  { rewrite lookup_delete_eq. symmetry. assert (T !! back = None) as Hb by (apply H2; set_solver).
    destruct (Z.eqb_spec p (-1)); [by rewrite lookup_insert_ne|].
    destruct Hp as [|(_ & _ & _ & Hpb)]; [done|]. by rewrite !lookup_insert_ne. }
  rewrite lookup_delete_ne by done. destruct (Z.eqb_spec p (-1)) as [->|Hp1].
  - destruct (decide (k = path)) as [->|Hkp]; [by rewrite lookup_insert_eq|].
    rewrite lookup_insert_ne by done. destruct (decide (k = -1)) as [->|]; [congruence|apply H1; set_solver].
  - destruct Hp as [|(_ & Hp2 & Hpp & _)]; [done|].
    destruct (decide (k = p)) as [->|Hkp]; [by rewrite lookup_insert_eq|]. rewrite lookup_insert_ne by done.
    destruct (decide (k = path)) as [->|Hkp2]; [by rewrite lookup_insert_eq|]. rewrite lookup_insert_ne by done.
    apply H1. set_solver.
Qed.

(** The descriptors are prepared, or everything is as it was. *)
Lemma prepare_run fl (k : Z → Z → stat → Z → prog (st W) (option Z)) m (w : W) e
    (P : outcome (st W) (option Z) → Prop) :
  calm m w →
  (∀ w' e', alike w w' → P (Ret None (mkst m w' e'))) →
  (∀ back path p s b w' e', kpid w' = kpid w → staged (tab w) back path p s fl b (tab w') →
     P (k back path s p (mkst m w' e'))) →
  P ((let* back := open_inner "/tmp" tmp_flags 384 in
      match back with
      | None => synth_open_fail (-1) (-1) (-1)
      | Some back =>
          let* path := sys (k_open (proc_self_fd back) (Z.lor O_PATH (Z.land fl O_CLOEXEC)) 0) in
          match path with
          | None => synth_open_fail (-1) (-1) back
          | Some path =>
              let* s := sys (k_fstat path) in
              match s with
              | None => synth_open_fail (-1) path back
              | Some s => let* probe := synth_install_probe path in k back path s probe
              end
          end
      end) (mkst m w e)).
Proof.
  intros C Hfail Hok. pose proof (tab_none w) as Hneg.
  destruct (tmp_open_run m w e (calm_open _ _ _ _ C) (calm_openat _ _ _ _ C)) as (back & w1 & e1 & E1 & H1 & K1).
  rewrite (bind_Ret _ _ _ _ _ E1). destruct back as [back|]; cbn [creates] in H1; [|by apply Hfail].
  destruct H1 as [Hb [xb [T1 Hfr]]]. rewrite bind_sys.
  destruct (kstep _ w1) as [[path|er] w2] eqn:E2; pose proof (open_law _ _ _ _ _ _ E2) as H2; cbn [opened] in H2;
    pose proof (kstep_pid_eq _ _ _ _ E2) as K2.
  2:{ destruct (open_fail_run (tab w) (-1) (-1) back m w2 er) as (w3 & E3 & T3 & K3); [|by left|by left|..].
      - rewrite H2, T1. split; [intros j Hj; apply lookup_insert_ne; set_solver|]. set_solver.
      - right. rewrite H2, T1, lookup_insert_eq. eauto.
      - rewrite E3. apply Hfail. split; congruence. }
  destruct H2 as [Hpath [sp T2]].
  assert (tab w1 !! back = Some xb) as Hxb by (by rewrite T1, lookup_insert_eq).
  pose proof (reopen_law _ _ _ _ _ _ _ E2 Hxb) as H3. rewrite T2, lookup_insert_eq in H3. injection H3 as ->.
  rewrite bind_sys, fstat_law, tab_fds, lookup_fmap, T2, lookup_insert_eq. cbn [fmap option_fmap option_map d_stat new_desc].
  rewrite T1 in Hpath, T2. assert (path ≠ back) as Hne by (intros ->; by rewrite lookup_insert_eq in Hpath).
  rewrite lookup_insert_ne in Hpath by done.
  destruct (stage_probe (tab w) back path xb fl m w2 e1) as (p & b & w3 & e3 & E3 & K3 & Hst); [done..|].
  rewrite (bind_Ret _ _ _ _ _ E3). apply (Hok _ _ _ _ b); [congruence|done].
Qed.

Lemma staged_size T back path p s fl b T' :
  staged T back path p s fl b T' → T !! (-1) = None → T' !! (-1) = None → (size T' ≤ size T + 3)%nat.
Proof.
  intros Hs H1 H2. destruct (staged_final _ _ _ _ _ _ _ _ Hs H1 H2) as (E & Hpath & Hp).
  pose proof (map_size_delete back T') as Hd. rewrite E in Hd. destruct (stg_back _ _ _ _ _ _ _ _ Hs) as [x Hx].
  rewrite Hx in Hd. assert (size (<[path := wrap_desc s fl b]> T) = S (size T)) as Hz by (by rewrite map_size_insert_None).
  unfold with_probe in Hd. destruct (Z.eqb_spec p (-1)); [lia|].
  rewrite map_size_insert in Hd. destruct (_ !! p) in Hd; cbn in Hd; lia.
Qed.

Lemma with_probe_facts T fd p s fl b :
  T !! fd = None → (p = -1 ∨ b = true ∧ T !! p = None ∧ p ≠ fd) →
  let T' := with_probe p s (<[fd := wrap_desc s fl b]> T) in
  T ⊆ T' ∧ T' !! fd = Some (wrap_desc s fl b) ∧ (p = -1 ∨ T' !! p = Some (new_desc s probe_flags)).
Proof.
  intros Hfd Hp. unfold with_probe. destruct (Z.eqb_spec p (-1)) as [->|Hne].
  - split; [by apply insert_subseteq|]. rewrite lookup_insert_eq. auto.
  - destruct Hp as [|(_ & Hp & Hpf)]; [done|]. split.
    + trans (<[fd := wrap_desc s fl b]> T); apply insert_subseteq; [done|]. by rewrite lookup_insert_ne.
    + rewrite lookup_insert_eq, lookup_insert_ne, lookup_insert_eq by done. auto.
Qed.

Lemma calm_enrolled_final m i key ops p up fl slots fd b (w w' : W) :
  calm m w → (i < SYNTH_TABLE_SIZE)%nat → is_free m i → fresh key (tab w) → kpid w' = kpid w →
  slot_ready m ops up w → tab w !! fd = None → (p = -1 ∨ b = true ∧ tab w !! p = None ∧ p ≠ fd) →
  tab w' = with_probe p key (<[fd := wrap_desc key fl b]> (tab w)) →
  calm (enrol i (published key ops p up fl id t slots) m) w'.
Proof.
  intros C Hi Hf Hfr Hk Hs Hfd Hp Ht.
  destruct (with_probe_facts (tab w) fd p key fl b Hfd Hp) as (Hsub & Hlk & Hpr). rewrite <-Ht in Hsub, Hlk, Hpr.
  apply (calm_enrol m i key ops p up fl slots (calm_len _ _ _ _ C) Hi Hf w); try done.
  - exists fd, (wrap_desc key fl b). split; [done|]. split; [done|]. destruct Hp as [|[-> _]]; [by left|by right].
  - destruct Hpr as [|Hpr]; [by left|right]. by eexists.
Qed.

(** A success: [fd] and the probe are new, entry [i] describes them. *)
Record sopened (fl : Z) (ops : handler) (up : userptr) (m : mem) (T : gmap Z fdesc)
    (fd : Z) (i : nat) (s : stat) (p : Z) (b : bool) (slots : list synth_override) (m' : mem) (T' : gmap Z fdesc) : Prop := {
  so_mem : m' = enrol i (published s ops p up fl id t slots) m;
  so_slot : (i < SYNTH_TABLE_SIZE)%nat;
  so_free : is_free m i;
  so_fresh : fresh s T;
  so_tab : T' = with_probe p s (<[fd := wrap_desc s fl b]> T);
  so_new : T !! fd = None;
  so_probe : p = -1 ∨ b = true ∧ T !! p = None ∧ p ≠ fd;
}.

Section after_open.
Variables (fl : Z) (ops : handler) (up : userptr) (m : mem) (w : W).
Variables (fd : Z) (i : nat) (s : stat) (p : Z) (b : bool) (slots : list synth_override) (m' : mem) (w' : W).
Hypothesis C : calm m w.
Hypothesis O : sopened fl ops up m (tab w) fd i s p b slots m' (tab w').

Lemma so_facts : tab w ⊆ tab w' ∧ tab w' !! fd = Some (wrap_desc s fl b) ∧
  (p = -1 ∨ tab w' !! p = Some (new_desc s probe_flags)).
Proof. rewrite (so_tab _ _ _ _ _ _ _ _ _ _ _ _ _ O). apply with_probe_facts; apply O. Qed.

Lemma so_entry : entry_at m' i = published s ops p up fl id t slots.
Proof. destruct O as [-> ? ? ? ? ? ?]. apply enrol_eq; [apply C|done]. Qed.

Lemma so_iff j u : wraps m' j u ↔ j = i ∧ same_inode s u = true ∨ wraps m j u.
Proof. destruct O as [-> ? ? ? ? ? ?]. apply enrol_wraps; [apply C|done..]. Qed.

Lemma so_wraps : wraps m' i s.
Proof. apply so_iff. left. split; [done|]. by apply same_inode_eq. Qed.

Lemma so_locked : locked m' i (wrap_desc s fl b).
Proof. unfold locked. rewrite so_entry. destruct (so_probe _ _ _ _ _ _ _ _ _ _ _ _ _ O) as [|[-> _]]; [by left|by right]. Qed.

Lemma so_plain k y : tab w !! k = Some y → ¬ is_wrap m (d_stat y) → ¬ is_wrap m' (d_stat y).
Proof.
  intros Hy Hn [j [[_ E]|Hj]%so_iff]; [|apply Hn; by exists j].
  pose proof (so_fresh _ _ _ _ _ _ _ _ _ _ _ _ _ O k y Hy) as Hf. apply same_inode_eq in E as [].
  rewrite (proj2 (same_inode_eq _ _)) in Hf; done.
Qed.

Lemma so_internal n : internal m' n ↔ internal m n ∨ n = p ∨ ops = h_tty ∧ n = real_of m' i.
Proof. destruct O as [-> ? ? ? ? ? ?]. apply enrol_internal; [apply C|done..]. Qed.

Lemma so_probe_range : p = -1 ∨ 0 ≤ p.
Proof. destruct so_facts as (_ & _ & [|Hp]); [by left|right]. by apply (tab_range w'); rewrite Hp. Qed.

(** The new descriptor is the application's. *)
Lemma so_own : (ops = h_tty → real_of m' i ≠ fd) → ¬ internal m' fd.
Proof.
  intros Hr. destruct so_facts as (_ & Hfd & _). assert (0 ≤ fd) by (by apply (tab_range w'); rewrite Hfd).
  rewrite so_internal. intros [Hi|[->|[Ho E]]]; [|destruct (so_probe _ _ _ _ _ _ _ _ _ _ _ _ _ O) as [|(_ & _ & ?)]; [lia|done]|by destruct (Hr Ho)].
  destruct (internal_open _ _ m w fd C Hi) as [|[y Hy]]; [lia|]. pose proof (so_new _ _ _ _ _ _ _ _ _ _ _ _ _ O). congruence.
Qed.

(** A descriptor of before that was not the library's is not now. *)
Lemma so_foreign n : is_Some (tab w !! n) → ¬ internal m n → (ops = h_tty → real_of m' i ≠ n) → ¬ internal m' n.
Proof.
  intros [y Hy] Hn Hr. assert (0 ≤ n) by (by apply (tab_range w); rewrite Hy).
  rewrite so_internal. intros [Hi|[->|[Ho E]]]; [done| |by destruct (Hr Ho)].
  destruct (so_probe _ _ _ _ _ _ _ _ _ _ _ _ _ O) as [|(_ & ? & _)]; [lia|congruence].
Qed.

Lemma so_size : (size (tab w') ≤ size (tab w) + 2)%nat.
Proof.
  destruct O as [_ _ _ _ Ht Hn _]. rewrite Ht. unfold with_probe.
  assert (size (<[fd := wrap_desc s fl b]> (tab w)) = S (size (tab w))) as Hz by (by rewrite map_size_insert_None).
  destruct (p =? -1); [lia|]. rewrite map_size_insert. destruct (_ !! p); cbn; lia.
Qed.
End after_open.

(** The whole of [wslcompat_synth_open]. *)
Lemma synth_open_run fl ops up m (w : W) e :
  calm m w → spacious 7 w → slot_ready m ops up w →
  (∃ w' e', wslcompat_synth_open open_inner fl ops up (mkst m w e) = Ret None (mkst m w' e') ∧ alike w w') ∨
  (∃ fd i s p b slots m' w' e',
     wslcompat_synth_open open_inner fl ops up (mkst m w e) = Ret (Some fd) (mkst m' w' e') ∧
     kpid w' = kpid w ∧ calm m' w' ∧ sopened fl ops up m (tab w) fd i s p b slots m' (tab w')).
Proof.
  intros C [Hr Hf] Hslot. unfold wslcompat_synth_open.
  apply (prepare_run fl); [done|by left; eauto|]. intros back path p s b w1 e1 K1 Hst.
  pose proof (tab_none w) as Hneg. pose proof (tab_none w1) as Hneg1.
  assert (tab w ⊆ tab w1) as Hsub by (eapply extends_subseteq, Hst).
  assert (calm m w1) as C1 by (by eapply calm_grow).
  assert (spacious 4 w1) as Hsp1.
  { pose proof (staged_size _ _ _ _ _ _ _ _ Hst Hneg Hneg1). unfold spacious. lia. }
  destruct (register_run s ops p up fl m w1 e1 C1 Hsp1) as [(i & w2 & slots & E2 & Hi & Hfree & [T2 K2])|(w2 & e2 & E2 & [T2 K2])];
    rewrite (bind_Ret _ _ _ _ _ E2).
  2:{ left. rewrite bind_set_errno. cbn [s_mem s_world]. destruct Hst as [He Hpath Hback Hne Hp _].
      rewrite <-T2 in He, Hpath, Hback, Hp. destruct (open_fail_run (tab w) p path back m w2 ENFILE) as (w3 & E3 & T3 & K3);
        [done| |eauto..|].
      - destruct Hp as [|(_ & Hp & ? & ?)]; [by left|right; eauto].
      - exists w3, ENFILE. split; [done|]. split; congruence. }
  right. destruct (staged_final _ _ _ _ _ _ _ _ Hst Hneg Hneg1) as (Tf & Hpath & Hp).
  pose proof (calm_len _ _ _ _ C) as Hlen. pose proof (enrol_eq m i s ops p up fl slots Hlen Hi) as Hent.
  set (m' := enrol i (published s ops p up fl id t slots) m) in *.
  unfold entry_ops. rewrite bind_getm. cbn [s_mem].
  assert (∃ l w3 e3, (match op_describe (ops_of (e_ops (entry_at m' i))) with
     | Some f => let* l := f i in ret (snprintf_s 128 l) | None => ret "no description" end) (mkst m' w2 e1)
     = Ret l (mkst m' w3 e3) ∧ alike w2 w3) as (l & w3 & e3 & E3 & T3 & K3).
  { destruct (op_describe _) as [f|] eqn:Ef; [|by eexists _, w2, e1].
    destruct (describe_run i m' w2 e1 f) as (l & w3 & e3 & E3 & A3); [by rewrite Hent..| | |done|].
    - rewrite K2, K1. apply C.
    - apply (calm_cache _ _ _ _ C).
    - rewrite (bind_Ret _ _ _ _ _ E3). by eexists _, w3, e3. }
  rewrite (bind_Ret _ _ _ _ _ E3). apply bind_sys_neutral; [done|]. intros r w4 e4 [T4 K4].
  destruct (tab_close back w4) as (w5 & E5 & T5); [rewrite T4, T3, T2; apply Hst|].
  pose proof (kstep_pid_eq _ _ _ _ E5) as K5. rewrite bind_sys, E5.
  rewrite T4, T3, T2, Tf in T5. exists path, i, s, p, b, slots, m', w5, e4. split; [done|]. split; [congruence|].
  split; [|split; try done; apply Hst].
  apply (calm_enrolled_final m i s ops p up fl slots path b w); try done; [apply Hst|congruence].
Qed.

End facts.
