(* ===== verification/WrapTty.v ===== *)
(** * Wrapping a terminal, seen at the descriptor table

    [wslcompat_tty_install] as a change of the descriptor table: the number that was the terminal
    becomes the synthetic descriptor, the terminal lives on under a hidden number, or nothing has
    changed. *)

From stdpp Require Import gmap.
From S2P Require Import Prelude CString Kernel State Tunables Override Walk Internal Synth SynthFrames SynthFacts Close Tty Proc Dispatch Handlers FdTable TtyFacts Open WrapOpen.

Open Scope Z_scope.

Lemma tty_at_upd_ne m k n f : n ≠ k → tty_at (upd_tty k f m) n = tty_at m n.
Proof.
  intros Hn. unfold tty_at, upd_tty. cbn [tty_table set_tty_table]. rewrite list_lookup_total_alter.
  rewrite decide_False; [done|]. by intros [-> _].
Qed.

(** No live entry uses slot [k]. *)
Definition slot_idle (m : mem) (k : nat) : Prop :=
  ∀ j, live m j → e_ops (entry_at m j) = h_tty → tty_slot m j ≠ k.

Lemma real_of_upd m k f j : tty_slot m j ≠ k → real_of (upd_tty k f m) j = real_of m j.
Proof. intros H. unfold real_of. change (tty_slot (upd_tty k f m) j) with (tty_slot m j). by rewrite tty_at_upd_ne. Qed.

Lemma internal_upd_tty m k f fd : slot_idle m k → internal (upd_tty k f m) fd ↔ internal m fd.
Proof.
  intros Hs. unfold internal. change (registered (upd_tty k f m)) with (registered m).
  change (slot_value (upd_tty k f m)) with (slot_value m). change (live (upd_tty k f m)) with (live m).
  change (entry_at (upd_tty k f m)) with (entry_at m). apply or_iff_compat_r.
  split; intros (j & Hj & [E|[Ho E]]); exists j; (split; [done|]); [by left|right|by left|right];
    (split; [done|]); [rewrite real_of_upd in E by (by apply Hs)|rewrite real_of_upd by (by apply Hs)]; done.
Qed.

Section tty.
Context {W : Type} `{!Kernel W, !KernelProcFd W, !KernelTable W, !KernelPid W, !KernelOpens W} {Hfuel : Fuel}.
Variables id t : Z.
Local Abbreviation calm := (calm id t).

Lemma calm_upd_tty m k f (w : W) : slot_idle m k → calm m w → calm (upd_tty k f m) w.
Proof.
  intros Hs C. pose proof (λ j Hj Ho, real_of_upd m k f j (Hs j Hj Ho)) as Hr.
  assert (length (tty_table (upd_tty k f m)) = length (tty_table m)) as Hl by apply length_alter.
  destruct C as [? ? ? ? ? ? ? Hlen ? ? ? Hreal ? ? Hslot ? Hinj Hown]. split; try done.
  - by rewrite Hl.
  - intros j Hj Ho. rewrite Hr by done. by apply Hreal.
  - intros j Hj Ho. rewrite Hl. change (tty_slot (upd_tty k f m) j) with (tty_slot m j).
    rewrite tty_at_upd_ne by (by apply Hs). by apply Hslot.
  - intros i j Hi Hj Hoi Hoj. rewrite !Hr by done. by apply Hinj.
  - intros i sl Hi Ho. rewrite Hr by done. by apply Hown.
Qed.

Lemma slot_idle_free m k (w : W) : calm m w → claimed (tty_at m k) = 0 → slot_idle m k.
Proof. intros C Hc j Hj Ho <-. by destruct (calm_slot _ _ _ _ C j Hj Ho). Qed.

(** The lowest free slot is claimed. *)
Lemma tty_alloc_run m (w : W) e :
  (∃ k, (k < TTY_TABLE_SIZE)%nat ∧ claimed (tty_at m k) = 0 ∧
     tty_alloc (mkst m w e) = Ret (Some k) (mkst (upd_tty k (set_claimed 1) m) w e)) ∨
  tty_alloc (mkst m w e) = Ret None (mkst m w e).
Proof.
  unfold tty_alloc. assert (∀ i, i ∈ seq 0 TTY_TABLE_SIZE → (i < TTY_TABLE_SIZE)%nat) as Hr by (intros i Hi%elem_of_seq; lia).
  revert Hr. induction (seq 0 TTY_TABLE_SIZE) as [|i l IH]; intros Hr; [by right|]. cbn [for_each].
  unfold tty_alloc_slot at 1 3. rewrite bind_assoc, bind_getm. cbn [s_mem].
  destruct (Z.eqb_spec (claimed (tty_at m i)) 0) as [Hc|Hc].
  - left. exists i. split; [apply Hr; by left|done].
  - rewrite bind_ret. apply IH. intros j Hj. apply Hr. by right.
Qed.

(** The slot as the installation leaves it. *)
Definition wrapped_tty (real : Z) (ti : termios) (nb : Z) (s : tty_state) : tty_state :=
  {| claimed := 1; canon := if has_bits (c_lflag ti) ICANON then 1 else 0; nonblock := nb; real_fd := real;
     real_overrides := wslcompat_override_init (real_overrides s); vmin := c_vmin ti; vtime := c_vtime ti |}.

(** The [open] of the library makes the temporary file as the inner one does. *)
Lemma synth_open_outer fl ops up (s : st W) :
  wslcompat_synth_open open fl ops up s = wslcompat_synth_open open_inner fl ops up s.
Proof. apply synth_open_ext. intros. apply open_tmp_redirect. Qed.

(** The failure exit of the installation. *)
Lemma install_fail_run k real m (w : W) e :
  real = -1 ∨ is_Some (tab w !! real) →
  ∃ w', tty_install_fail k real (-1) (mkst m w e) = Ret (-1) (mkst (upd_tty k (set_claimed 0) m) w' e) ∧
    tab w' = delete real (tab w) ∧ kpid w' = kpid w.
Proof.
  intros Hr. unfold tty_install_fail. change (0 <=? -1) with false. cbv iota. destruct Hr as [->|Hr].
  - exists w. by rewrite delete_id by apply tab_none.
  - apply tab_range in Hr as Hpos. rewrite (proj2 (Z.leb_le _ _)) by lia.
    destruct (tab_close real w Hr) as (w1 & E1 & T1). exists w1. split; [|split; [done|by eapply kstep_pid_eq]].
    rewrite !bind_assoc, bind_sys, E1. done.
Qed.

(** The last steps: the new descriptor takes the number of the terminal. *)
Lemma install_swap fail i fd synth x y (b : bool) m (w : W) e :
  calm m w → tab w !! fd = Some x → ¬ is_wrap m (d_stat x) → ¬ internal m fd → tab w !! synth = Some y →
  wraps m i (d_stat y) → locked m i y → ¬ internal m synth → spacious 4 w →
  ∃ w', (let* d := dup3 synth fd (if b then O_CLOEXEC else 0) in
         match d with
         | None => fail
         | Some _ => close synth ;;* ret 0
         end) (mkst m w e) = Ret 0 (mkst m w' e) ∧
    calm m w' ∧ tab w' = <[fd := with_cloexec b y]> (delete synth (tab w)).
Proof.
  intros C Hx Hnw Hint Hy Hw Hl Hints [Hr Hf].
  assert (synth ≠ fd) as Hne by (intros ->; apply Hnw; exists i; by simplify_eq).
  destruct (dup3_over_plain _ _ synth fd b y x m w e C Hx Hnw Hint Hy Hne) as (w1 & E1 & C1 & T1).
  rewrite (bind_Ret _ _ _ _ _ E1).
  destruct (close_wrap _ _ i synth y m w1 e C1) as (w2 & E2 & C2 & T2); [|done|done|..].
  - by rewrite T1, lookup_insert_ne by done.
  - intros j Hj. destruct (decide (j = i)) as [->|Hji].
    + exists fd, (with_cloexec b y). rewrite T1, lookup_insert_eq. done.
    + destruct (calm_holder _ _ _ _ C j Hj) as (h & z & Hh & Hzl & Hzw). exists h, z.
      assert (h ≠ synth) by (intros ->; simplify_eq; apply Hji; by eapply (calm_unique _ _ _ _ C)).
      assert (h ≠ fd) by (intros ->; simplify_eq; apply Hnw; by exists j).
      by rewrite T1, lookup_insert_ne.
  - unfold spacious. rewrite T1, map_size_insert_Some by eauto. lia.
  - rewrite (bind_Ret _ _ _ _ _ E2). exists w2. split; [done|]. split; [done|].
    by rewrite T2, T1, delete_insert_ne by done.
Qed.

Lemma fill_slot_run {B} k real ti nb (K : prog (st W) B) m (w : W) e :
  (setm (upd_tty k (set_real_fd real)) ;;*
   setm (upd_tty k (λ s, set_real_overrides (wslcompat_override_init (real_overrides s)) s)) ;;*
   cache_termios k ti ;;* setm (upd_tty k (set_nonblock nb)) ;;* K) (mkst (upd_tty k (set_claimed 1) m) w e)
  = K (mkst (upd_tty k (wrapped_tty real ti nb) m) w e).
Proof.
  unfold cache_termios. do 7 (rewrite ?bind_assoc, ?bind_setm; cbn [s_mem s_world s_errno]).
  by rewrite !upd_tty_compose.
Qed.

(** The terminal has a hidden duplicate and a slot. *)
Lemma hidden_ready x k real ti nb m (w w' : W) :
  let m' := upd_tty k (wrapped_tty real ti nb) m in
  calm m w → ¬ is_wrap m (d_stat x) → (k < TTY_TABLE_SIZE)%nat → claimed (tty_at m k) = 0 →
  tab w !! real = None → 0 ≤ real → tab w' = <[real := with_cloexec true x]> (tab w) → kpid w' = kpid w →
  calm m' w' ∧ slot_ready m' h_tty (up_tty k) w'.
Proof.
  intros m' C Hnw Hk Hc Hreal Hpos T1 K1. pose proof (slot_idle_free m k w C Hc) as Hidle.
  assert (k < length (tty_table m))%nat as Hlen by (by rewrite (calm_tty_len _ _ _ _ C)).
  assert (tab w ⊆ tab w') as Hsub by (rewrite T1; by apply insert_subseteq).
  split; [apply calm_upd_tty; [done|by eapply calm_grow]|]. intros _. exists k. split; [done|].
  unfold m'. rewrite tty_at_upd_eq by done. cbn [claimed real_fd wrapped_tty].
  split; [unfold upd_tty; cbn [tty_table set_tty_table]; by rewrite length_alter|].
  split; [done|]. split; [done|]. right. split.
  - rewrite internal_upd_tty by done. intros Hi.
    destruct (internal_open _ _ m w real C Hi) as [|[z Hz]]; [lia|congruence].
  - exists (with_cloexec true x). by rewrite T1, lookup_insert_eq.
Qed.

Lemma with_probe_fresh p s T k : k ≠ p → with_probe p s T !! k = T !! k.
Proof. intros Hk. unfold with_probe. destruct (p =? -1); [done|]. by rewrite lookup_insert_ne. Qed.

Lemma with_probe_delete p s k T : k ≠ p → delete k (with_probe p s T) = with_probe p s (delete k T).
Proof. intros Hk. unfold with_probe. destruct (p =? -1); [done|]. by rewrite delete_insert_ne. Qed.

(** What a successful installation over [fd], which was [x], leaves. *)
Definition tty_installed (fd : Z) (x : fdesc) (ti : termios) (m : mem) (T : gmap Z fdesc) (m' : mem) (T' : gmap Z fdesc) : Prop :=
  ∃ i k real p s b nb slots,
    m' = enrol i (published s h_tty p (up_tty k) O_CLOEXEC id t slots) (upd_tty k (wrapped_tty real ti nb) m) ∧
    (i < SYNTH_TABLE_SIZE)%nat ∧ is_free m i ∧ (k < TTY_TABLE_SIZE)%nat ∧ claimed (tty_at m k) = 0 ∧
    fresh s T ∧ T !! real = None ∧ 0 ≤ real ∧ (p = -1 ∨ b = true ∧ T !! p = None ∧ 0 ≤ p ∧ p ≠ real) ∧
    T' = <[fd := with_cloexec (d_cloexec x) (wrap_desc s O_CLOEXEC b)]>
           (with_probe p s (<[real := with_cloexec true x]> T)).

Lemma installed_intro fd x ti k real nb m T synth i s p b slots m' T1 T2 T' :
  T1 = <[real := with_cloexec true x]> T → T !! real = None → 0 ≤ real → (k < TTY_TABLE_SIZE)%nat →
  claimed (tty_at m k) = 0 → (p = -1 ∨ 0 ≤ p) →
  sopened id t O_CLOEXEC h_tty (up_tty k) (upd_tty k (wrapped_tty real ti nb) m) T1 synth i s p b slots m' T2 →
  T' = <[fd := with_cloexec (d_cloexec x) (wrap_desc s O_CLOEXEC b)]> (delete synth T2) →
  tty_installed fd x ti m T m' T'.
Proof.
  intros HT1 Hreal Hpos Hk Hc Hpr O HT'. destruct O as [Hm Hi Hf Hfr HT2 Hn Hp].
  exists i, k, real, p, s, b, nb, slots. split; [done|]. split; [done|]. split; [done|]. split; [done|].
  split; [done|]. split.
  { intros n y Hy. apply (Hfr n y). rewrite HT1, lookup_insert_ne; congruence. }
  split; [done|]. split; [done|]. split.
  { destruct Hp as [->|(Hb & Hp & Hps)]; [by left|]. destruct Hpr as [|Hpr]; [by left|right].
    assert (p ≠ real) by (intros ->; by rewrite HT1, lookup_insert_eq in Hp).
    rewrite HT1, lookup_insert_ne in Hp by done. done. }
  rewrite HT', HT2. f_equal. assert (p = -1 ∨ synth ≠ p) as [->|Hne] by (destruct Hp as [|(_ & _ & ?)]; auto).
  - unfold with_probe. cbn. by rewrite delete_insert_id, HT1.
  - by rewrite with_probe_delete, delete_insert_id, HT1.
Qed.

(** Only a slot that no live entry uses may differ, and it is still free. *)
Definition idle_change (m m' : mem) : Prop :=
  m' = m ∨ ∃ k f, slot_idle m k ∧ claimed (tty_at m k) = 0 ∧ m' = upd_tty k (set_claimed 0 ∘ f) m.

Lemma idle_claimed m m' k : idle_change m m' → claimed (tty_at m' k) = claimed (tty_at m k).
Proof.
  intros [->|(n & f & _ & Hc & ->)]; [done|]. destruct (decide (k = n)) as [->|Hne]; [|by rewrite tty_at_upd_ne].
  destruct (decide (n < length (tty_table m))%nat) as [Hl|Hl]; [by rewrite tty_at_upd_eq, Hc|].
  unfold tty_at, upd_tty. cbn [tty_table set_tty_table]. rewrite list_lookup_total_alter, decide_False; [done|]. by intros [_ ?].
Qed.

(** From the synthetic descriptor on. *)
Lemma install_finish fd x ti k real nb m (w w1 : W) e :
  let m1 := upd_tty k (wrapped_tty real ti nb) m in
  calm m w → tab w !! fd = Some x → ¬ is_wrap m (d_stat x) → ¬ internal m fd → spacious 8 w →
  (k < TTY_TABLE_SIZE)%nat → claimed (tty_at m k) = 0 → tab w !! real = None → 0 ≤ real →
  tab w1 = <[real := with_cloexec true x]> (tab w) → kpid w1 = kpid w →
  let run := (let* synth := wslcompat_synth_open open_inner O_CLOEXEC h_tty (up_tty k) in
    match synth with
    | None => tty_install_fail k real (-1)
    | Some synth =>
        let* d := dup3 synth fd (if d_cloexec x then O_CLOEXEC else 0) in
        match d with
        | None => tty_install_fail k real synth
        | Some _ => close synth ;;* ret 0
        end
    end) (mkst m1 w1 e) in
  (∃ f w' e', run = Ret (-1) (mkst (upd_tty k (set_claimed 0 ∘ f) m) w' e') ∧ alike w w') ∨
  (∃ m' w' e', run = Ret 0 (mkst m' w' e') ∧ calm m' w' ∧ tty_installed fd x ti m (tab w) m' (tab w')).
Proof.
  intros m1 C Hx Hnw Hint [Hr Hf] Hk Hc Hreal Hpos T1 K1 run.
  destruct (hidden_ready x k real ti nb m w w1 C Hnw Hk Hc Hreal Hpos T1 K1) as [C1 Hs]. fold m1 in C1, Hs.
  assert (size (tab w1) = S (size (tab w))) as Hsz by (by rewrite T1, map_size_insert_None).
  assert (spacious 7 w1) as Hsp1 by (unfold spacious; lia).
  unfold run. destruct (synth_open_run id t O_CLOEXEC h_tty (up_tty k) m1 w1 e C1 Hsp1 Hs)
    as [(w2 & e2 & E2 & T2 & K2)|(synth & i & s & p & b & slots & m2 & w2 & e2 & E2 & K2 & C2 & O)];
    rewrite (bind_Ret _ _ _ _ _ E2); clear run E2.
  { left. destruct (install_fail_run k real m1 w2 e2) as (w3 & E3 & T3 & K3).
    - right. rewrite T2, T1, lookup_insert_eq. eauto.
    - unfold m1 in E3. rewrite upd_tty_compose in E3. exists (wrapped_tty real ti nb), w3, e2.
      split; [done|]. split; [|congruence]. rewrite T3, T2, T1. by apply delete_insert_id. }
  right. assert (tab w1 !! fd = Some x) as Hx1 by (rewrite T1, lookup_insert_ne; congruence).
  assert (tab w1 !! real = Some (with_cloexec true x)) as Hreal1 by (by rewrite T1, lookup_insert_eq).
  destruct (so_facts _ _ _ _ _ _ _ _ _ _ _ _ _ _ _ O) as (Hsub & Hlk & _).
  assert (real_of m2 i = real) as Hro.
  { unfold real_of, tty_slot. rewrite (so_entry _ _ _ _ _ _ _ _ _ _ _ _ _ _ _ C1 O). cbn [e_userptr published].
    rewrite (so_mem _ _ _ _ _ _ _ _ _ _ _ _ _ _ _ O). change (tty_at (enrol _ _ m1) k) with (tty_at m1 k).
    unfold m1. rewrite tty_at_upd_eq; [done|]. by rewrite (calm_tty_len _ _ _ _ C). }
  edestruct (install_swap (tty_install_fail k real synth) i fd synth x (wrap_desc s O_CLOEXEC b) (d_cloexec x) m2 w2 e2 C2)
    as (w3 & E3 & C3 & T3).
  - by apply (lookup_weaken (tab w1)).
  - by eapply (so_plain _ _ _ _ _ _ _ _ _ _ _ _ _ _ _ C1 O).
  - eapply (so_foreign _ _ _ _ _ _ _ _ _ _ _ _ _ _ _ C1 O); [eauto| |congruence].
    unfold m1. rewrite internal_upd_tty; [done|by eapply slot_idle_free].
  - done.
  - by eapply (so_wraps _ _ _ _ _ _ _ _ _ _ _ _ _ _ _ C1 O).
  - by eapply (so_locked _ _ _ _ _ _ _ _ _ _ _ _ _ _ _ C1 O).
  - eapply (so_own _ _ _ _ _ _ _ _ _ _ _ _ _ _ _ C1 O). intros _ E. pose proof (so_new _ _ _ _ _ _ _ _ _ _ _ _ _ _ _ O). congruence.
  - pose proof (so_size _ _ _ _ _ _ _ _ _ _ _ _ _ _ _ O). unfold spacious. lia.
  - eexists _, w3, e2. split; [exact E3|]. split; [done|].
    by eapply installed_intro; [..|exact O|]; try done; eapply (so_probe_range _ _ _ _ _ _ _ _ _ _ _ _ _ _ _ O).
Qed.

(** [wslcompat_tty_install] takes the number over, or leaves every descriptor and every entry as it was. *)
Lemma tty_install_run fd x ti m (w : W) e :
  calm m w → tab w !! fd = Some x → ¬ is_wrap m (d_stat x) → ¬ internal m fd → spacious 8 w →
  (∃ m' w' e', wslcompat_tty_install open fd ti (mkst m w e) = Ret (-1) (mkst m' w' e') ∧
     idle_change m m' ∧ alike w w') ∨
  (∃ m' w' e', wslcompat_tty_install open fd ti (mkst m w e) = Ret 0 (mkst m' w' e') ∧
     calm m' w' ∧ tty_installed fd x ti m (tab w) m' (tab w')).
Proof.
  intros C Hx Hnw Hint Hsp. destruct (Hsp) as [Hr Hf]. unfold wslcompat_tty_install.
  destruct (tty_alloc_run m w e) as [(k & Hk & Hc & E0)|E0]; rewrite (bind_Ret _ _ _ _ _ E0);
    [|left; exists m, w, e; split; [done|]; split; [by left|done]].
  pose proof (slot_idle_free m k w C Hc) as Hidle.
  destruct (tab_dupfd fd 3 w x Hx ltac:(lia) ltac:(lia)) as (real & w1 & E1 & Hge & Hreal & T1).
  pose proof (kstep_pid_eq _ _ _ _ E1) as K1. rewrite bind_sys, E1.
  apply bind_sys_neutral; [done|]. intros [flags|] w2 e2 [T2 K2].
  2:{ left. destruct (install_fail_run k real (upd_tty k (set_claimed 1) m) w2 e2) as (w3 & E3 & T3 & K3).
      - right. rewrite T2, T1, lookup_insert_eq. eauto.
      - rewrite upd_tty_compose in E3. do 3 eexists. split; [exact E3|]. split; [right; eauto|].
        split; [|congruence]. rewrite T3, T2, T1. by apply delete_insert_id. }
  assert (tab w2 !! fd = Some x) as Hx2 by (rewrite T2, T1, lookup_insert_ne; congruence).
  rewrite bind_sys, (tab_getfd _ _ _ Hx2), fill_slot_run.
  assert (has_bits (if d_cloexec x then FD_CLOEXEC else 0) FD_CLOEXEC = d_cloexec x) as -> by (by destruct (d_cloexec x)).
  rewrite (bind_ext _ (wslcompat_synth_open open_inner O_CLOEXEC h_tty (up_tty k)) _ _ _ (synth_open_outer _ _ _ _) (λ _ _, eq_refl)).
  destruct (install_finish fd x ti k real (if has_bits flags O_NONBLOCK then 1 else 0) m w w2 e2)
    as [(f & w' & e' & E & A)|H]; try done; [lia|congruence|congruence| |by right].
  left. eexists _, w', e'. split; [exact E|]. split; [right; eauto|done].
Qed.
End tty.
