(* ===== verification/WrapClose.v ===== *)
(** * The end of a synthetic descriptor, seen at the descriptor table

    When the last descriptor of an entry goes, by close or under dup3, the probe and the hidden
    terminal are closed, the slot and the entry are free again. *)

From stdpp Require Import gmap.
From S2P Require Import Prelude CString Kernel State Tunables Override Walk Internal Synth SynthFrames SynthFacts Close Tty Proc Dispatch Handlers FdTable TtyFacts Open WrapOpen WrapTty.

Open Scope Z_scope.

(** A terminal's slot after its release. *)
Definition freed_tty (s : tty_state) : tty_state :=
  set_claimed 0 (set_real_overrides (wslcompat_override_init (real_overrides s)) (set_real_fd (-1) s)).

Definition released (i : nat) (m : mem) : mem :=
  if decide (e_ops (entry_at m i) = h_tty) then upd_tty (tty_slot m i) freed_tty m else m.

(** The memory without entry [i]. *)
Definition retire (i : nat) (m : mem) : mem :=
  set_synth_live_entries (wrap_u 32 (synth_live_entries m - 1))
    (upd_entry i (λ e, set_refcount 0 (set_probe_fd (-1) e)) (released i m)).

(** The hidden descriptor of entry [i], if it has one. *)
Definition hidden (m : mem) (i : nat) : Z :=
  if decide (e_ops (entry_at m i) = h_tty) then real_of m i else -1.

Section release.
Context {W : Type} `{!Kernel W, !KernelProcFd W, !KernelTable W, !KernelPid W, !KernelOpens W} {Hfuel : Fuel}.
Variables id t : Z.
Local Abbreviation calm := (calm id t).

(** The process is the one that installed entry [i], and its start time is known. *)
Definition own (i : nat) (m : mem) (w : W) : Prop :=
  kpid w = id ∧ starttime_cache m = {| p_starttime := t; p_pid := wrap_u 32 id |} ∧
  install_pid (entry_at m i) = id ∧ install_starttime (entry_at m i) = t.

Lemma own_load v m (w : W) e :
  own (view_entry v) m w → wslcompat_view_fd_load v (mkst m w e) = Ret (view_base v m) (mkst m w e).
Proof. intros (Hk & Hc & Hi & Ht). by apply (load_base id t). Qed.

Lemma own_store v x m (w : W) e :
  own (view_entry v) m w → wslcompat_view_fd_store v x (mkst m w e) = Ret tt (mkst (set_view_base v x m) w e).
Proof.
  intros (Hk & Hc & Hi & Ht). unfold wslcompat_view_fd_store. rewrite bind_getpid. cbn [s_world]. rewrite Hk.
  rewrite (bind_Ret _ _ _ _ _ (starttime_hot id t m w e Hk Hc)), bind_getm. cbn [s_mem].
  unfold synth_is_installer. by rewrite Hi, Ht, !Z.eqb_refl.
Qed.

Lemma own_identity i m (w : W) e {B} (k : Z → Z → prog (st W) B) :
  own i m w → (let* self := getpid in let* self_st := wslcompat_self_starttime in k self self_st) (mkst m w e) = k id t (mkst m w e).
Proof.
  intros (Hk & Hc & _ & _). rewrite bind_getpid. cbn [s_world]. unfold wslcompat_self_starttime.
  rewrite bind_assoc, bind_getpid. cbn [s_world]. rewrite Hk.
  by rewrite (bind_Ret _ _ _ _ _ (starttime_hot id t m w e Hk Hc)).
Qed.

(** A close of a number that is open or not; the answer is not looked at. *)
Lemma close_any_run fd m (w : W) e :
  ∃ o w' e', sys (k_close fd) (mkst m w e) = Ret o (mkst m w' e') ∧ tab w' = delete fd (tab w) ∧ kpid w' = kpid w.
Proof.
  unfold sys. cbn [s_world s_mem s_errno]. destruct (tab w !! fd) as [x|] eqn:Hx.
  - destruct (tab_close fd w) as (w1 & E1 & T1); [eauto|]. rewrite E1. eexists _, w1, e.
    split; [done|]. split; [done|by eapply kstep_pid_eq].
  - pose proof (close_bad_law fd w Hx) as Ht. destruct (kstep (k_close fd) w) as [[[]|er] w1] eqn:E1;
      pose proof (kstep_pid_eq _ _ _ _ E1) as K1; cbn in Ht; (eexists _, w1, _; split; [done|]);
      (split; [by rewrite delete_id|done]).
Qed.

Lemma scan_seek_none hit l u : (∀ h, h ∈ l → hit h = false) → scan (seek hit) l u = u.
Proof.
  induction l as [|fd l IH]; intros H; [done|]. cbn [scan]. unfold seek at 1.
  rewrite (H fd) by left. apply IH. intros h Hh. apply H. by right.
Qed.

(** No descriptor but the probe [p] is of entry [i]. *)
Definition alone (i : nat) (p : Z) (m : mem) (w : W) : Prop :=
  ∀ fd y, tab w !! fd = Some y → same_inode (d_stat y) (e_stat (entry_at m i)) = true → fd = p.

(** The lock is granted, or nothing is found. *)
Lemma should_release_alone i p m (w : W) e :
  (p = -1 ∨ ∃ x, tab w !! p = Some x ∧ d_shared x = false) → alone i p m w → spacious 4 w →
  ∃ w' e', synth_should_release i p (mkst m w e) = Ret true (mkst m w' e') ∧ alike w w'.
Proof.
  intros Hp Hal [Hr Hf]. unfold synth_should_release.
  assert (∃ dead w1 e1, (if p =? -1 then ret false
                else let* r := sys (k_flock p (Z.lor LOCK_EX LOCK_NB)) in
                     ret (match r with Some _ => true | None => false end)) (mkst m w e)
     = Ret dead (mkst m w1 e1) ∧ alike w w1) as (dead & w1 & e1 & E1 & T1 & K1).
  { destruct (Z.eqb_spec p (-1)); [by exists false, w, e|]. destruct Hp as [|(x & Hx & Hs)]; [done|].
    pose proof (exlock_law p w x Hx Hs) as Ht. rewrite bind_sys.
    destruct (kstep _ w) as [[a|er] w1] eqn:E; pose proof (kstep_pid_eq _ _ _ _ E) as K; cbn in Ht;
      [by exists true, w1, e|by exists false, w1, er]. }
  rewrite (bind_Ret _ _ _ _ _ E1). destruct dead; [by exists w1, e1|]. cbv iota.
  set (hit := λ fd, negb (fd =? p) &&
    match tab w1 !! fd with Some z => same_inode (d_stat z) (e_stat (entry_at m i)) | None => false end).
  edestruct (walk_pure (post_close_visit i p) (seek hit) m w1) with (u := false) (e := e1)
    as (l & w2 & e2 & E2 & Ht2 & Hk2 & Hnd & Hin); [|rewrite T1; lia|rewrite T1; lia|].
  { intros d w3 fd u e3 (Hd & (x & Hx) & _) [z Hz]. assert (d ≠ fd) by congruence.
    unfold post_close_visit, seek, hit. destruct (fd =? p); [by exists e3|].
    rewrite bind_sys, fstat_law, tab_fds, lookup_fmap, Hx, lookup_insert_ne, Hz by done.
    cbn [fmap option_fmap option_map negb andb]. rewrite bind_getm. cbn [s_mem].
    destruct (same_inode _ _); by exists e3. }
  rewrite (bind_Ret _ _ _ _ _ E2), scan_seek_none; [exists w2, e2; split; [done|]; split; congruence|].
  intros h _. unfold hit. destruct (Z.eqb_spec h p) as [|Hne]; [done|]. cbn [negb andb].
  destruct (tab w1 !! h) as [z|] eqn:Hz; [|done]. destruct (same_inode _ _) eqn:Es; [|done].
  rewrite T1 in Hz. by destruct (Hne (Hal h z Hz Es)).
Qed.

(** The clean-up, the count being -1. *)
Lemma cleanup_retires i m (w : W) e :
  own i m w → (i < length (synth_table m))%nat →
  ∃ w' e', synth_cleanup i (mkst m w e) = Ret tt (mkst (retire i m) w' e') ∧
    tab w' = delete (probe_fd (entry_at m i)) (delete (hidden m i) (tab w)) ∧ kpid w' = kpid w.
Proof.
  intros Ho Hi. unfold synth_cleanup, entry_ops. rewrite bind_getm. cbn [s_mem].
  assert (∃ w1 e1, (match op_release (ops_of (e_ops (entry_at m i))) with Some f => f i | None => ret tt end) (mkst m w e)
     = Ret tt (mkst (released i m) w1 e1) ∧ tab w1 = delete (hidden m i) (tab w) ∧ kpid w1 = kpid w)
    as (w1 & e1 & E1 & T1 & K1).
  { unfold hidden, released. destruct (e_ops (entry_at m i)) eqn:Eo; cbn [ops_of lib_handlers null_ops tty_ops mmap_min_addr_ops proc_pid_mem_ops op_release decide].
    1,3,4: exists w, e; rewrite delete_id by apply tab_none; done.
    unfold tty_release, tty_of. rewrite !bind_getm. cbn [s_mem].
    destruct (close_any_run (real_of m i) m w e) as (o & w1 & e1 & E1 & T1 & K1). exists w1, e1. split; [|done].
    unfold real_of in E1. rewrite (bind_Ret _ _ _ _ _ E1). run_simpl. by rewrite !upd_tty_compose. }
  rewrite (bind_Ret _ _ _ _ _ E1).
  assert (∀ j, entry_at (released i m) j = entry_at m j) as He by (intros j; unfold released; by case_decide).
  assert (own i (released i m) w1) as Ho1.
  { destruct Ho as (? & ? & ? & ?). split; [congruence|]. rewrite He. split; [|done]. unfold released. by case_decide. }
  unfold synth_probe_fd_load. rewrite (bind_Ret _ _ _ _ _ (own_load (v_probe i) _ _ _ Ho1)). cbn [view_base]. rewrite He.
  assert (∃ w2 e2, (if negb (probe_fd (entry_at m i) =? -1) then sys (k_close (probe_fd (entry_at m i))) ;;* ret tt else ret tt)
     (mkst (released i m) w1 e1) = Ret tt (mkst (released i m) w2 e2) ∧
     tab w2 = delete (probe_fd (entry_at m i)) (tab w1) ∧ kpid w2 = kpid w1) as (w2 & e2 & E2 & T2 & K2).
  { destruct (Z.eqb_spec (probe_fd (entry_at m i)) (-1)) as [->|].
    - exists w1, e1. by rewrite delete_id by apply tab_none.
    - destruct (close_any_run (probe_fd (entry_at m i)) (released i m) w1 e1) as (o & w2 & e2 & E2 & H2).
      cbn [negb]. rewrite (bind_Ret _ _ _ _ _ E2). by exists w2, e2. }
  rewrite (bind_Ret _ _ _ _ _ E2).
  assert (own i (released i m) w2) as Ho2 by (destruct Ho1 as (? & ? & ? & ?); split_and!; congruence).
  unfold synth_probe_fd_store. rewrite (bind_Ret _ _ _ _ _ (own_store (v_probe i) _ _ _ _ Ho2)). run_simpl.
  cbn [set_view_base]. rewrite upd_entry_compose. exists w2, e2. split; [|split; [by rewrite T2, T1|congruence]].
  unfold retire. do 3 f_equal. unfold released. by case_decide.
Qed.

Lemma refcount_same {A} (g : synth_entry → A) i j c m :
  (∀ x e, g (set_refcount x e) = g e) → g (entry_at (upd_entry i (set_refcount c) m) j) = g (entry_at m j).
Proof.
  intros Hg. unfold entry_at, upd_entry. cbn [synth_table set_synth_table]. rewrite list_lookup_total_alter.
  case_decide as H; [|done]. destruct H as [<- _]. apply Hg.
Qed.

Lemma retire_refcount i c m : retire i (upd_entry i (set_refcount c) m) = retire i m.
Proof.
  unfold retire, released, tty_slot. rewrite !(refcount_same e_ops), !(refcount_same e_userptr) by done.
  case_decide; unfold upd_tty, upd_entry; cbn; by rewrite list_alter_alter_eq.
Qed.

Lemma own_refcount i j c m (w : W) : own j m w → own j (upd_entry i (set_refcount c) m) w.
Proof.
  intros (Hk & Hc & Hi & Ht). split; [done|]. split; [done|].
  by rewrite (refcount_same install_pid), (refcount_same install_starttime).
Qed.

(** The last two references go, the one of the table and the one of the caller. *)
Lemma unpin_last i m (w : W) e :
  own i m w → (i < length (synth_table m))%nat → refcount (entry_at m i) = 1 →
  ∃ w' e', wslcompat_synth_unpin i (mkst m w e) = Ret tt (mkst (retire i m) w' e') ∧
    tab w' = delete (probe_fd (entry_at m i)) (delete (hidden m i) (tab w)) ∧ kpid w' = kpid w.
Proof.
  intros Ho Hi Hrc. unfold wslcompat_synth_unpin. rewrite bind_getm. cbn [s_mem]. rewrite Hrc. cbn [Z.ltb Z.compare Z.eqb].
  rewrite bind_setm. cbn [s_mem s_world s_errno Z.eqb].
  destruct (cleanup_retires i (upd_entry i (set_refcount (-1)) m) w e) as (w1 & e1 & E1 & T1 & K1);
    [by apply own_refcount|by rewrite length_upd_entry|].
  exists w1, e1. rewrite retire_refcount in E1. split; [done|]. split; [|done]. rewrite T1.
  rewrite (refcount_same probe_fd) by done. unfold hidden, real_of, tty_slot.
  rewrite (refcount_same e_ops), (refcount_same e_userptr) by done. done.
Qed.

Lemma post_close_releases i m (w : W) e :
  own i m w → length (synth_table m) = SYNTH_TABLE_SIZE → (i < SYNTH_TABLE_SIZE)%nat →
  refcount (entry_at m i) = 1 → let p := probe_fd (entry_at m i) in
  (p = -1 ∨ ∃ x, tab w !! p = Some x ∧ d_shared x = false) → alone i p m w → spacious 4 w →
  ∃ w' e', wslcompat_synth_post_close (Some i) (mkst (pin i m) w e) = Ret tt (mkst (retire i m) w' e') ∧
    tab w' = delete p (delete (hidden m i) (tab w)) ∧ kpid w' = kpid w.
Proof.
  intros Ho Hlen Hi Hrc p Hp Hal Hsp. cbn [wslcompat_synth_post_close].
  assert (own i (pin i m) w) as Hop by (by apply own_refcount).
  rewrite (own_identity i _ _ _ _ Hop), bind_getm. cbn [s_mem]. destruct Hop as (Hk & Hc & Hpid & Hst).
  rewrite Hpid, Hst, !Z.eqb_refl. cbn [negb orb]. unfold synth_probe_fd_load.
  rewrite (bind_Ret _ _ _ _ _ (own_load (v_probe i) _ _ _ (conj Hk (conj Hc (conj Hpid Hst))))). cbn [view_base].
  rewrite (pin_same probe_fd) by done. fold p.
  destruct (should_release_alone i p (pin i m) w e) as (w1 & e1 & E1 & T1 & K1); [done| |done|].
  { unfold alone. by rewrite (pin_same e_stat). }
  rewrite (bind_Ret _ _ _ _ _ E1). cbv iota.
  rewrite (bind_Ret _ _ _ _ _ (unpin_pin i m w1 e1 Hlen ltac:(split; [done|lia]))).
  destruct (unpin_last i m w1 e1) as (w2 & e2 & E2 & T2 & K2); [|lia|done|].
  { destruct Ho as (? & ? & ? & ?). split_and!; congruence. }
  exists w2, e2. split; [done|]. split; [by rewrite T2, T1|congruence].
Qed.

(** ** The other entries *)
Section retired.
Variables (i : nat) (m : mem) (w : W).
Hypothesis C : calm m w.
Hypothesis Hl : live m i.

Lemma retire_ne j : j ≠ i → entry_at (retire i m) j = entry_at m j.
Proof.
  intros Hj. unfold retire. set (m1 := released i m).
  change (entry_at (upd_entry i (λ e, set_refcount 0 (set_probe_fd (-1) e)) m1) j = entry_at m j).
  rewrite entry_at_upd_ne by done. unfold m1, released. by case_decide.
Qed.

Lemma retire_dead : ¬ live (retire i m) i.
Proof.
  intros [_ Hr]. unfold retire in Hr. set (m1 := released i m) in Hr.
  change (0 < refcount (entry_at (upd_entry i (λ e, set_refcount 0 (set_probe_fd (-1) e)) m1) i)) in Hr.
  rewrite entry_at_upd_eq in Hr; [cbn in Hr; lia|]. unfold m1, released. destruct Hl.
  case_decide; cbn [synth_table upd_tty set_tty_table]; rewrite (calm_len _ _ _ _ C); done.
Qed.

Lemma retire_live j : live (retire i m) j ↔ j ≠ i ∧ live m j.
Proof.
  destruct (decide (j = i)) as [->|Hj]; [split; [by intros ?%retire_dead|by intros []]|].
  unfold live. rewrite retire_ne by done. tauto.
Qed.

Lemma retire_wraps j s : wraps (retire i m) j s ↔ j ≠ i ∧ wraps m j s.
Proof.
  unfold wraps. rewrite retire_live. destruct (decide (j = i)) as [->|Hj]; [tauto|]. rewrite retire_ne by done. tauto.
Qed.

Lemma retire_slot j : j ≠ i → tty_slot (retire i m) j = tty_slot m j.
Proof. intros Hj. unfold tty_slot. by rewrite retire_ne. Qed.

Lemma retire_tty j : live m j → e_ops (entry_at m j) = h_tty → j ≠ i → tty_at (retire i m) (tty_slot m j) = tty_at m (tty_slot m j).
Proof.
  intros Hj Ho Hne. unfold retire. change (tty_at (released i m) (tty_slot m j) = tty_at m (tty_slot m j)).
  unfold released. case_decide as Hoi; [|done]. rewrite tty_at_upd_ne; [done|]. intros E.
  by apply Hne, (calm_slot_inj _ _ _ _ C).
Qed.

Lemma retire_real j : live m j → e_ops (entry_at m j) = h_tty → j ≠ i → real_of (retire i m) j = real_of m j.
Proof. intros Hj Ho Hne. unfold real_of. by rewrite retire_slot, retire_tty. Qed.

Lemma retire_registered sl : registered (retire i m) sl ↔ registered m sl.
Proof. unfold retire, released. by case_decide. Qed.
Lemma retire_value sl : slot_value (retire i m) sl = slot_value m sl.
Proof. unfold retire, released. by case_decide. Qed.

Lemma hidden_real : 0 ≤ hidden m i → e_ops (entry_at m i) = h_tty ∧ hidden m i = real_of m i.
Proof. unfold hidden. by case_decide; [|lia]. Qed.

Lemma probe_is_wrap n x : 0 ≤ n → tab w !! n = Some x → n = probe_fd (entry_at m i) → wraps m i (d_stat x).
Proof.
  intros Hn Hx E. destruct (calm_probe _ _ _ _ C i Hl) as [|(y & Hy & _ & Hw)]; [lia|]. rewrite <-E in Hy. by simplify_eq.
Qed.

Lemma hidden_is_plain n x : 0 ≤ n → tab w !! n = Some x → n = hidden m i → ¬ is_wrap m (d_stat x).
Proof.
  intros Hn Hx E. destruct (hidden_real ltac:(lia)) as [Ho Er].
  destruct (calm_real _ _ _ _ C i Hl Ho) as [|(y & Hy & Hw)]; [lia|]. rewrite <-Er, <-E in Hy. by simplify_eq.
Qed.

(** What stays internal is neither the probe nor the terminal of the entry. *)
Lemma retire_internal_ne n :
  0 ≤ n → internal (retire i m) n → internal m n ∧ n ≠ probe_fd (entry_at m i) ∧ n ≠ hidden m i.
Proof.
  intros Hn [(j & [Hji Hj]%retire_live & Hi)|(sl & Hsl%retire_registered & Hv)].
  - rewrite retire_ne in Hi by done. destruct Hi as [E|[Ho E]].
    + split; [left; exists j; auto|].
      destruct (calm_probe _ _ _ _ C j Hj) as [|(x & Hx & _ & Hw)]; [lia|]. rewrite E in Hx. split; intros En.
      * by apply Hji, (calm_unique _ _ _ _ C j i (d_stat x)), (probe_is_wrap n).
      * apply (hidden_is_plain n x Hn Hx En). by exists j.
    + rewrite retire_real in E by done. split; [left; exists j; auto|].
      destruct (calm_real _ _ _ _ C j Hj Ho) as [|(x & Hx & Hnw)]; [lia|]. rewrite E in Hx. split; intros En.
      * apply Hnw. exists i. by apply (probe_is_wrap n).
      * destruct (hidden_real ltac:(lia)) as [Hoi Er]. apply Hji, (calm_real_inj _ _ _ _ C); [done..|congruence|lia].
  - rewrite retire_value in Hv. split; [right; eauto|].
    destruct (calm_registry _ _ _ _ C sl Hsl) as [|(x & Hx & Hnw)]; [lia|]. rewrite Hv in Hx. split; intros En.
    + apply Hnw. exists i. by apply (probe_is_wrap n).
    + destruct (hidden_real ltac:(lia)) as [Hoi Er].
      pose proof (calm_real_own _ _ _ _ C i sl Hl Hoi Hsl ltac:(congruence)). lia.
Qed.

Lemma retire_internal n :
  0 ≤ n → internal (retire i m) n ↔ internal m n ∧ n ≠ probe_fd (entry_at m i) ∧ n ≠ hidden m i.
Proof.
  intros Hn. split; [by apply retire_internal_ne|].
  intros [[(j & Hj & Hi)|(sl & Hsl & Hv)] [Hp Hh]].
  - destruct (decide (j = i)) as [->|Hji].
    { unfold hidden in Hh. destruct Hi as [E|[Ho E]]; [congruence|]. rewrite decide_True in Hh by done. congruence. }
    left. exists j. rewrite retire_live, retire_ne by done. split; [done|].
    destruct Hi as [|[Ho E]]; [by left|right]. by rewrite retire_real.
  - right. exists sl. by rewrite retire_registered, retire_value.
Qed.

Lemma calm_retire (w' : W) :
  kpid w' = kpid w → (∀ n, 0 ≤ n → internal (retire i m) n → tab w' !! n = tab w !! n) →
  (∀ j, j ≠ i → live m j → ∃ fd x, tab w' !! fd = Some x ∧ locked m j x ∧ wraps m j (d_stat x)) →
  calm (retire i m) w'.
Proof.
  intros Hk Hint Hh.
  assert (∀ n, 0 ≤ n → (∃ j, live (retire i m) j ∧ (probe_fd (entry_at (retire i m) j) = n ∨
    e_ops (entry_at (retire i m) j) = h_tty ∧ real_of (retire i m) j = n)) → tab w' !! n = tab w !! n) as Hint1.
  { intros n Hn H. apply Hint; [done|]. by left. }
  assert (∀ s, is_wrap (retire i m) s → is_wrap m s) as Hwr by (intros s [j [_ Hj]%retire_wraps]; by exists j).
  assert (length (tty_table (retire i m)) = length (tty_table m)) as Htl.
  { unfold retire, released. case_decide; [|done]. apply length_alter. }
  assert (options (retire i m) = options m ∧ env_disabled (retire i m) = env_disabled m ∧
    starttime_cache (retire i m) = starttime_cache m) as (Hopt & Henv & Hca) by (unfold retire, released; by case_decide).
  assert (∀ n, wslcompat_enabled (retire i m) n = wslcompat_enabled m n) as Hen
    by (intros n; unfold wslcompat_enabled; by rewrite Hopt, Henv).
  destruct C as [Hpid Hc H1 H2 H3 H4 Hlen Htlen Huniq Hid Hpr Hre _ Hrg Hsl Hsi Hri Hro].
  split; rewrite ?Hen, ?Hca, ?Htl, ?Hk; try done.
  - unfold retire. rewrite <-Hlen. etrans; [apply length_upd_entry|]. unfold released. by case_decide.
  - intros j k s [_ Hj]%retire_wraps [_ Hk1]%retire_wraps. by eapply Huniq.
  - intros j [Hji Hj]%retire_live. rewrite retire_ne by done. by apply Hid.
  - intros j Hj. destruct (proj1 (retire_live j) Hj) as [Hji Hj0]. rewrite retire_ne by done.
    destruct (Hpr j Hj0) as [|(x & Hx & Hs & Hw)]; [by left|right]. exists x.
    rewrite Hint1; [|apply (tab_range w); eauto|exists j; rewrite retire_ne by done; auto].
    split; [done|]. split; [done|]. by apply retire_wraps.
  - intros j Hj. destruct (proj1 (retire_live j) Hj) as [Hji Hj0]. rewrite retire_ne by done. intros Ho.
    rewrite retire_real by done. destruct (Hre j Hj0 Ho) as [|(x & Hx & Hw)]; [by left|right]. exists x.
    rewrite Hint1; [|apply (tab_range w); eauto|exists j; rewrite retire_ne, retire_real by done; auto].
    split; [done|]. by intros ?%Hwr.
  - intros j [Hji Hj]%retire_live. destruct (Hh j Hji Hj) as (fd & x & Hx & Hlk & Hw). exists fd, x.
    split; [done|]. unfold locked. rewrite retire_ne by done. split; [done|]. by apply retire_wraps.
  - intros sl Hs%retire_registered. rewrite retire_value. destruct (Hrg sl Hs) as [|(x & Hx & Hw)]; [by left|right].
    exists x. rewrite Hint; [by split; [|intros ?%Hwr]|apply (tab_range w); eauto|].
    right. exists sl. by rewrite retire_registered, retire_value.
  - intros j [Hji Hj]%retire_live. rewrite retire_ne, retire_slot by done. intros Ho. rewrite retire_tty by done. by apply Hsl.
  - intros j k [Hji Hj]%retire_live [Hki Hk1]%retire_live. rewrite !retire_ne, !retire_slot by done. by apply Hsi.
  - intros j k [Hji Hj]%retire_live [Hki Hk1]%retire_live. rewrite !retire_ne by done. intros Hoj Hok.
    rewrite !retire_real by done. by apply Hri.
  - intros j sl [Hji Hj]%retire_live. rewrite retire_ne, retire_registered, retire_value by done. intros Ho.
    rewrite retire_real by done. by apply Hro.
Qed.
End retired.

(** ** Closing and duplicating over the last descriptor *)

(** [fd] is the last descriptor of entry [i], the probe aside. *)
Definition last_of (i : nat) (fd : Z) (m : mem) (w : W) : Prop :=
  ∀ h y, tab w !! h = Some y → wraps m i (d_stat y) → h = fd ∨ h = probe_fd (entry_at m i).

(** [fd] no longer stands for entry [i] in [w1]. *)
Lemma post_close_last i fd x m (w w1 : W) e :
  calm m w → tab w !! fd = Some x → wraps m i (d_stat x) → ¬ internal m fd → refcount (entry_at m i) = 1 →
  last_of i fd m w → spacious 4 w1 → kpid w1 = kpid w → (∀ k, k ≠ fd → tab w1 !! k = tab w !! k) →
  (∀ y, tab w1 !! fd = Some y → ¬ wraps m i (d_stat y)) →
  ∃ w' e', wslcompat_synth_post_close (Some i) (mkst (pin i m) w1 e) = Ret tt (mkst (retire i m) w' e') ∧
    calm (retire i m) w' ∧ tab w' = delete (probe_fd (entry_at m i)) (delete (hidden m i) (tab w1)).
Proof.
  intros C Hx Hw Hint Hrc Hlast Hsp K1 Hrest Hgone. destruct (Hw) as [Hl _].
  destruct (calm_ident _ _ _ _ C i Hl) as [Hpid Hst].
  assert (0 ≤ fd) as Hfd by (apply (tab_range w); eauto).
  destruct (post_close_releases i m w1 e) as (w2 & e2 & E2 & T2 & K2); [..|done| | |done|].
  - split_and!; [rewrite K1; apply C|apply (calm_cache _ _ _ _ C)|done..].
  - apply C.
  - apply Hl.
  - destruct (calm_probe _ _ _ _ C i Hl) as [|(y & Hy & Hs & _)]; [by left|right]. exists y.
    rewrite Hrest; [done|]. intros E. apply Hint. left. exists i. auto.
  - intros h y Hy Hi. assert (wraps m i (d_stat y)) as Hwy.
    { split; [done|]. apply same_inode_eq in Hi as []. by apply same_inode_eq. }
    destruct (decide (h = fd)) as [->|Hne]; [by destruct (Hgone y Hy)|].
    rewrite Hrest in Hy by done. by destruct (Hlast h y Hy Hwy).
  - exists w2, e2. split; [done|]. split; [|done]. apply (calm_retire i m w C Hl); [congruence|..].
    + intros n Hn Hin. apply (retire_internal i m w C Hl n Hn) in Hin as (Hi & Hp & Hh).
      rewrite T2, !lookup_delete_ne by done. apply Hrest. congruence.
    + intros j Hji Hj. destruct (calm_holder _ _ _ _ C j Hj) as (h & y & Hh & Hlk & Hwj). exists h, y.
      assert (0 ≤ h) as Hpos by (apply (tab_range w); eauto).
      rewrite T2, !lookup_delete_ne, Hrest; [done|..].
      * intros ->. simplify_eq. by apply Hji, (calm_unique _ _ _ _ C _ _ (d_stat x)).
      * intros E. apply (hidden_is_plain i m w C Hl h y Hpos Hh (eq_sym E)). by exists j.
      * intros E. by apply Hji, (calm_unique _ _ _ _ C _ _ (d_stat y)), (probe_is_wrap i m w C Hl h).
Qed.

Lemma close_last i fd x m (w : W) e :
  calm m w → tab w !! fd = Some x → wraps m i (d_stat x) → ¬ internal m fd → refcount (entry_at m i) = 1 →
  last_of i fd m w → spacious 4 w →
  ∃ w', close fd (mkst m w e) = Ret (Some tt) (mkst (retire i m) w' e) ∧ calm (retire i m) w' ∧
    tab w' = delete (probe_fd (entry_at m i)) (delete (hidden m i) (delete fd (tab w))).
Proof.
  intros C Hx Hw Hint Hrc Hlast [Hr Hf]. destruct (tab_close fd w) as (w1 & E1 & T1); [eauto|].
  pose proof (kstep_pid_eq _ _ _ _ E1) as K1.
  destruct (post_close_last i fd x m w w1 e C Hx Hw Hint Hrc Hlast) as (w2 & e2 & E2 & C2 & T2); [|done|..].
  { unfold spacious. rewrite T1, map_size_delete_Some by eauto. lia. }
  { intros k Hk. by rewrite T1, lookup_delete_ne. }
  { intros y. by rewrite T1, lookup_delete_eq. }
  exists w2. split; [|split; [done|by rewrite T2, T1]].
  unfold close, wslcompat_passthru. rewrite bind_getm. cbn [s_mem]. rewrite (calm_close _ _ _ _ C). cbn [negb].
  unfold wslcompat_synth_pre_close. rewrite (bind_Ret _ _ _ _ _ (pin_wrap _ _ i fd x m w e C Hx Hw)).
  rewrite (bind_Ret _ _ _ _ _ (notify_close_none _ _)).
  rewrite (bind_Ret _ _ _ _ _ (relocate_noop _ _ (pin i m) w e fd (calm_pin _ _ i m w C (proj1 Hw))
    (λ H, Hint (proj1 (pin_internal i fd m (proj1 Hw)) H)))).
  rewrite bind_sys, E1. unfold preserve_errno. rewrite !bind_assoc, bind_get_errno. cbn [s_errno].
  by rewrite bind_assoc, (bind_Ret _ _ _ _ _ E2).
Qed.

Lemma dup3_last old fd (b : bool) i x y m (w : W) e :
  calm m w → tab w !! fd = Some x → wraps m i (d_stat x) → ¬ internal m fd → refcount (entry_at m i) = 1 →
  last_of i fd m w → tab w !! old = Some y → ¬ wraps m i (d_stat y) → spacious 4 w →
  ∃ w', dup3 old fd (if b then O_CLOEXEC else 0) (mkst m w e) = Ret (Some fd) (mkst (retire i m) w' e) ∧
    calm (retire i m) w' ∧
    tab w' = delete (probe_fd (entry_at m i)) (delete (hidden m i) (<[fd := with_cloexec b y]> (tab w))).
Proof.
  intros C Hx Hw Hint Hrc Hlast Hy Hnw [Hr Hf].
  assert (old ≠ fd) as Hne by (intros ->; by simplify_eq).
  destruct (tab_dup3 old fd b w y) as (w1 & E1 & T1); [eauto..|done|].
  pose proof (kstep_pid_eq _ _ _ _ E1) as K1.
  destruct (post_close_last i fd x m w w1 e C Hx Hw Hint Hrc Hlast) as (w2 & e2 & E2 & C2 & T2); [|done|..].
  { unfold spacious. rewrite T1, map_size_insert_Some by eauto. lia. }
  { intros k Hk. by rewrite T1, lookup_insert_ne. }
  { intros z. rewrite T1, lookup_insert_eq. by intros [= <-]. }
  exists w2. split; [|split; [done|by rewrite T2, T1]].
  unfold dup3, wslcompat_passthru. rewrite bind_getm. cbn [s_mem]. rewrite (calm_dup3 _ _ _ _ C). cbn [negb].
  unfold dup_common. cbn [andb]. rewrite (bind_Ret _ _ _ _ _ (relocate_noop _ _ m w e fd C Hint)).
  unfold wslcompat_synth_pre_close. rewrite (bind_Ret _ _ _ _ _ (pin_wrap _ _ i fd x m w e C Hx Hw)).
  rewrite (bind_Ret _ _ _ _ _ (notify_dup_none _ _)).
  rewrite bind_sys, E1. unfold preserve_errno. rewrite !bind_assoc, bind_get_errno. cbn [s_errno].
  by rewrite bind_assoc, (bind_Ret _ _ _ _ _ E2).
Qed.

Lemma close_plain fd x m (w : W) e :
  calm m w → tab w !! fd = Some x → ¬ is_wrap m (d_stat x) → ¬ internal m fd →
  ∃ w', close fd (mkst m w e) = Ret (Some tt) (mkst m w' e) ∧ calm m w' ∧ tab w' = delete fd (tab w).
Proof.
  intros C Hx Hnw Hint. destruct (tab_close fd w) as (w1 & E1 & T1); [eauto|].
  pose proof (kstep_pid_eq _ _ _ _ E1) as K1. exists w1. split; [|split; [|done]].
  - unfold close, wslcompat_passthru. rewrite bind_getm. cbn [s_mem]. rewrite (calm_close _ _ _ _ C). cbn [negb].
    unfold wslcompat_synth_pre_close.
    destruct (pin_fd_cases _ _ fd x m w e C Hx) as [(j & Hj & _)|[_ E]]; [destruct Hnw; by exists j|].
    rewrite (bind_Ret _ _ _ _ _ E). cbn [notify]. rewrite bind_ret.
    rewrite (bind_Ret _ _ _ _ _ (relocate_noop _ _ m w e fd C Hint)). by rewrite bind_sys, E1.
  - apply (calm_retable _ _ m w); [done..| |].
    + intros k Hk. rewrite T1, lookup_delete_ne by congruence. done.
    + intros j Hj. destruct (calm_holder _ _ _ _ C j Hj) as (h & z & Hz & H & Hzw).
      exists h, z. rewrite T1, lookup_delete_ne; [done|]. intros ->. apply Hnw. exists j. by simplify_eq.
Qed.
End release.
