(* ===== verification/Elf.v ===== *)
(** * ELF images: tools/elfclamp.c and the header checks of execve.c

    A file is the list of its bytes. [elf_needs_fixup] reads the headers with pread; [elfclamp]
    works on a shared mapping of the file and rewrites the alignments in place. An access outside
    the mapping is [None]. *)

From S2P Require Import Prelude CString Kernel State.

Open Scope Z_scope.

(** ** Little-endian loads and stores *)
Fixpoint le_get (l : list Z) : Z :=
  match l with
  | [] => 0
  | b :: l' => b + 256 * le_get l'
  end.

Fixpoint le_put (n : nat) (z : Z) : list Z :=
  match n with
  | O => []
  | S n' => z mod 256 :: le_put n' (z / 256)
  end.

Definition zlength (l : list Z) : Z := Z.of_nat (length l).

Definition in_bounds (mem : list Z) (off : Z) (n : nat) : bool :=
  (0 <=? off) && (off + Z.of_nat n <=? zlength mem).

Definition load (mem : list Z) (off : Z) (n : nat) : option Z :=
  if in_bounds mem off n then Some (le_get (take n (drop (Z.to_nat off) mem))) else None.

Definition store (mem : list Z) (off : Z) (n : nat) (z : Z) : option (list Z) :=
  if in_bounds mem off n then
    Some (take (Z.to_nat off) mem ++ le_put n z ++ drop (Z.to_nat off + n) mem)
  else None.

Definition byte (z : Z) : Prop := 0 ≤ z < 256.

(** ** Layout of [Elf64_Ehdr] and [Elf64_Phdr] *)
Definition sizeof_Ehdr : Z := 64.
Definition sizeof_Phdr : Z := 56.
Definition off_class : Z := 4.
Definition off_phoff : Z := 32.
Definition off_phentsize : Z := 54.
Definition off_phnum : Z := 56.
Definition off_p_type : Z := 0.
Definition off_p_align : Z := 48.

Definition ELFMAG : list Z := [127; 69; 76; 70].
Definition ELFCLASS64 : Z := 2.
Definition PT_LOAD : Z := 1.
Definition PT_INTERP : Z := 3.

(** ** elfclamp

    [phdr[i].field], through a pointer computed with 64-bit wrap-around. *)
Definition phdr_at (phoff i field : Z) : Z := wrap_s 64 (phoff + i * sizeof_Phdr + field).

(** The first loop: the alignment to use and the number of PT_LOAD headers. *)
Fixpoint min_loop (n : nat) (i : Z) (mem : list Z) (phoff min_align load_count : Z) :
    option (Z * Z) :=
  match n with
  | O => Some (min_align, load_count)
  | S n' =>
      phnum ← load mem off_phnum 2;
      if i <? phnum then
        type ← load mem (phdr_at phoff i off_p_type) 4;
        if negb (type =? PT_LOAD) then min_loop n' (i + 1) mem phoff min_align load_count
        else
          align ← load mem (phdr_at phoff i off_p_align) 8;
          min_loop n' (i + 1) mem phoff
            (if (min_align =? 0) || (align <? min_align) then align else min_align)
            (load_count + 1)
      else Some (min_align, load_count)
  end.

(** The second loop: the mapping and the number of headers changed. *)
Fixpoint unify_loop (n : nat) (i : Z) (mem : list Z) (phoff min_align changed : Z) :
    option (list Z * Z) :=
  match n with
  | O => Some (mem, changed)
  | S n' =>
      phnum ← load mem off_phnum 2;
      if i <? phnum then
        type ← load mem (phdr_at phoff i off_p_type) 4;
        if negb (type =? PT_LOAD) then unify_loop n' (i + 1) mem phoff min_align changed
        else
          align ← load mem (phdr_at phoff i off_p_align) 8;
          if align =? min_align then unify_loop n' (i + 1) mem phoff min_align changed
          else
            mem' ← store mem (phdr_at phoff i off_p_align) 8 min_align;
            unify_loop n' (i + 1) mem' phoff min_align (changed + 1)
      else Some (mem, changed)
  end.

(** [e_phnum] is a 16-bit field: no loop goes past this many headers. *)
Definition phnum_bound : nat := Z.to_nat 65536.

(** What [main] does with the mapping, and the status it exits with. *)
Inductive clamp_verdict :=
| too_small | not_elf | not_elf64 | no_phdrs | bad_phentsize | out_of_bounds | no_load
| unified (changed : Z).

Definition elfclamp (mem : list Z) : option (clamp_verdict * list Z) :=
  if zlength mem <? sizeof_Ehdr then Some (too_small, mem)
  else if negb (bool_decide (take 4 mem = ELFMAG)) then Some (not_elf, mem)
  else
    class ← load mem off_class 1;
    if negb (class =? ELFCLASS64) then Some (not_elf64, mem)
    else
      phoff ← load mem off_phoff 8;
      phnum ← load mem off_phnum 2;
      if (phoff =? 0) || (phnum =? 0) then Some (no_phdrs, mem)
      else
        phentsize ← load mem off_phentsize 2;
        if negb (phentsize =? sizeof_Phdr) then Some (bad_phentsize, mem)
        else if zlength mem <? wrap_u 64 (phoff + phnum * phentsize) then Some (out_of_bounds, mem)
        else
          r ← min_loop phnum_bound 0 mem phoff 0 0;
          let '(min_align, load_count) := r in
          if load_count =? 0 then Some (no_load, mem)
          else
            u ← unify_loop phnum_bound 0 mem phoff min_align 0;
            let '(mem', changed) := u in
            Some (unified changed, mem').

(** The exit status: every check after the mapping is made exits with success. *)
Definition clamp_status (v : clamp_verdict) : Z := match v with too_small => 1 | _ => 0 end.

(** ** Loads and stores *)
Lemma length_le_put n z : length (le_put n z) = n.
Proof. revert z. induction n as [|n IH]; intros z; simpl; [done|]. by rewrite IH. Qed.

Lemma le_get_put n z : 0 ≤ z < 256 ^ Z.of_nat n → le_get (le_put n z) = z.
Proof.
  revert z. induction n as [|n IH]; intros z; [simpl; lia|].
  rewrite Nat2Z.inj_succ, Z.pow_succ_r by lia. intros Hz. cbn [le_put le_get].
  rewrite IH; [pose proof (Z.div_mod z 256); lia|].
  split; [apply Z.div_pos; lia|]. apply Z.div_lt_upper_bound; lia.
Qed.

Lemma le_put_bytes n z : Forall byte (le_put n z).
Proof.
  revert z. induction n as [|n IH]; intros z; cbn [le_put]; constructor; [|apply IH].
  unfold byte. pose proof (Z.mod_pos_bound z 256). lia.
Qed.

Lemma le_get_bound l : Forall byte l → 0 ≤ le_get l < 256 ^ Z.of_nat (length l).
Proof.
  induction 1 as [|b l Hb _ IH]; [simpl; lia|]. cbn [length le_get].
  rewrite Nat2Z.inj_succ, Z.pow_succ_r by lia. unfold byte in Hb. lia.
Qed.

Lemma in_bounds_true mem off n : in_bounds mem off n = true ↔ 0 ≤ off ∧ off + Z.of_nat n ≤ zlength mem.
Proof. unfold in_bounds. rewrite andb_true_iff, !Z.leb_le. done. Qed.

Lemma load_bound mem off n z :
  Forall byte mem → load mem off n = Some z → 0 ≤ z < 256 ^ Z.of_nat n.
Proof.
  intros Hb. unfold load. destruct (in_bounds mem off n) eqn:E; [|done]. intros [= <-].
  apply in_bounds_true in E. unfold zlength in E.
  assert (Forall byte (take n (drop (Z.to_nat off) mem))) as Hf by (by apply Forall_take, Forall_drop).
  apply le_get_bound in Hf. rewrite length_take, length_drop, Nat.min_l in Hf by lia. done.
Qed.

Lemma load_in_bounds mem off n :
  0 ≤ off → off + Z.of_nat n ≤ zlength mem → ∃ z, load mem off n = Some z.
Proof.
  intros H1 H2. unfold load. assert (in_bounds mem off n = true) as -> by (by apply in_bounds_true).
  eauto.
Qed.

(** A load only looks at its own bytes. *)
Lemma load_ext mem mem' off n :
  length mem' = length mem →
  (∀ k, off ≤ Z.of_nat k < off + Z.of_nat n → mem' !! k = mem !! k) →
  load mem' off n = load mem off n.
Proof.
  intros Hl Hk. unfold load, in_bounds, zlength. rewrite Hl.
  destruct ((0 <=? off) && _) eqn:E; [|done]. apply andb_true_iff in E as [E%Z.leb_le _].
  do 2 f_equal. apply list_eq. intros j. destruct (decide (j < n)%nat) as [Hj|Hj].
  - rewrite !lookup_take_lt, !lookup_drop by done. apply Hk. lia.
  - by rewrite !lookup_take_ge by lia.
Qed.

Lemma store_lookup mem mem' off n z k :
  store mem off n z = Some mem' → ¬ (off ≤ Z.of_nat k < off + Z.of_nat n) → mem' !! k = mem !! k.
Proof.
  unfold store. destruct (in_bounds mem off n) eqn:E; [|done]. intros [= <-] Hk.
  apply in_bounds_true in E as [E1 E2]. unfold zlength in E2.
  assert (length (take (Z.to_nat off) mem) = Z.to_nat off) as Hl by (rewrite length_take; lia).
  destruct (decide (Z.of_nat k < off)) as [Hlt|Hge].
  - rewrite lookup_app_l by lia. by rewrite lookup_take_lt by lia.
  - rewrite lookup_app_r, Hl by lia. rewrite lookup_app_r; rewrite length_le_put; [|lia].
    rewrite lookup_drop. f_equal. lia.
Qed.

Lemma store_length mem mem' off n z : store mem off n z = Some mem' → length mem' = length mem.
Proof.
  unfold store. destruct (in_bounds mem off n) eqn:E; [|done]. intros [= <-].
  apply in_bounds_true in E as [E1 E2]. unfold zlength in E2.
  rewrite !length_app, length_le_put, length_take, length_drop. lia.
Qed.

Lemma store_bytes mem mem' off n z : Forall byte mem → store mem off n z = Some mem' → Forall byte mem'.
Proof.
  intros Hb. unfold store. destruct (in_bounds _ _ _); [|done]. intros [= <-].
  apply Forall_app; split; [by apply Forall_take|].
  apply Forall_app; split; [apply le_put_bytes|by apply Forall_drop].
Qed.

Lemma load_store mem mem' off n z :
  store mem off n z = Some mem' → 0 ≤ z < 256 ^ Z.of_nat n → load mem' off n = Some z.
Proof.
  intros Hs Hz. pose proof (store_length _ _ _ _ _ Hs) as Hl. revert Hs.
  unfold store, load, in_bounds, zlength. rewrite Hl.
  destruct ((0 <=? off) && _) eqn:E; [|done].
  apply andb_true_iff in E as [E1%Z.leb_le E2%Z.leb_le]. intros [= <-]. f_equal.
  rewrite drop_app_length' by (rewrite length_take; lia).
  rewrite take_app_length' by (by rewrite length_le_put). by apply le_get_put.
Qed.

(** ** A file whose program headers follow its header and are inside it *)
Record wf (mem : list Z) (phoff phnum : Z) : Prop := {
  wf_bytes : Forall byte mem;
  wf_phnum : load mem off_phnum 2 = Some phnum;
  wf_phoff : sizeof_Ehdr ≤ phoff;
  wf_end : phoff + phnum * sizeof_Phdr ≤ zlength mem;
  wf_size : zlength mem < 2 ^ 63;
}.

Definition p_type (mem : list Z) (phoff i : Z) : option Z := load mem (phoff + i * sizeof_Phdr) 4.
Definition p_align (mem : list Z) (phoff i : Z) : option Z := load mem (phoff + i * sizeof_Phdr + 48) 8.

(** The bytes of the alignment of PT_LOAD headers from the [i]th on. *)
Definition align_bytes (mem : list Z) (phoff phnum i k : Z) : Prop :=
  ∃ j, i ≤ j < phnum ∧ p_type mem phoff j = Some PT_LOAD ∧
       phoff + j * sizeof_Phdr + 48 ≤ k < phoff + j * sizeof_Phdr + 56.

(** [mem'] is [mem] with the PT_LOAD headers from the [i]th on aligned to [a]. *)
Record clamped (phoff phnum i a : Z) (mem mem' : list Z) : Prop := {
  cl_length : length mem' = length mem;
  cl_bytes : Forall byte mem';
  cl_frame k : ¬ align_bytes mem phoff phnum i (Z.of_nat k) → mem' !! k = mem !! k;
  cl_align j : i ≤ j < phnum → p_type mem phoff j = Some PT_LOAD → p_align mem' phoff j = Some a;
}.

Section clamp.
Context (phoff phnum : Z).

Lemma wf_phnum_range mem : wf mem phoff phnum → 0 ≤ phnum < 65536.
Proof. intros [Hb Hn _ _ _]. by apply load_bound in Hn. Qed.

Lemma phdr_at_id mem i field :
  wf mem phoff phnum → 0 ≤ i < phnum → 0 ≤ field ≤ 48 →
  phdr_at phoff i field = phoff + i * sizeof_Phdr + field.
Proof.
  intros [_ _ H1 H2 H3] Hi Hf. apply wrap_s_id; [lia|].
  unfold in_s, sizeof_Phdr, sizeof_Ehdr in *. change (2 ^ (64 - 1)) with (2 ^ 63). nia.
Qed.

Lemma phdr_loads mem i :
  wf mem phoff phnum → 0 ≤ i < phnum →
  ∃ t a, p_type mem phoff i = Some t ∧ p_align mem phoff i = Some a ∧ 0 ≤ a < 2 ^ 64.
Proof.
  intros [Hb _ H1 H2 _] Hi. unfold p_type, p_align, sizeof_Ehdr, sizeof_Phdr in *.
  destruct (load_in_bounds mem (phoff + i * 56) 4) as [t Ht]; [nia..|].
  destruct (load_in_bounds mem (phoff + i * 56 + 48) 8) as [a Ha]; [nia..|].
  exists t, a. split; [done|]. split; [done|]. by apply load_bound in Ha.
Qed.

(** Bytes outside the alignments determine the types and the alignments of other headers. *)
Lemma type_frame mem mem' j :
  length mem' = length mem →
  (∀ k, (∀ x, 0 ≤ x < phnum → ¬ (phoff + x * sizeof_Phdr + 48 ≤ Z.of_nat k < phoff + x * sizeof_Phdr + 56)) →
        mem' !! k = mem !! k) →
  0 ≤ j < phnum → p_type mem' phoff j = p_type mem phoff j.
Proof.
  intros Hl Hk Hj. apply load_ext; [done|]. intros k Hr. apply Hk. unfold sizeof_Phdr in *. nia.
Qed.

Lemma store_align mem mem' i a :
  wf mem phoff phnum → 0 ≤ i < phnum →
  store mem (phoff + i * sizeof_Phdr + 48) 8 a = Some mem' →
  wf mem' phoff phnum ∧ length mem' = length mem ∧
  (∀ j, 0 ≤ j < phnum → p_type mem' phoff j = p_type mem phoff j).
Proof.
  intros [Hb Hn H1 H2 H3] Hi Hs. pose proof (store_length _ _ _ _ _ Hs) as Hl.
  split; [|split; [done|]].
  - split; try done; [by eapply store_bytes| |unfold zlength in *; by rewrite Hl..].
    rewrite <-Hn. apply load_ext; [done|]. intros k Hk. eapply store_lookup; [done|].
    unfold sizeof_Ehdr, sizeof_Phdr, off_phnum in *. nia.
  - intros j Hj. apply type_frame; [done| |done]. intros k Hk. eapply store_lookup; [done|].
    specialize (Hk i Hi). unfold sizeof_Phdr in *. lia.
Qed.

Lemma align_bytes_ext mem mem' i k :
  0 ≤ i → (∀ j, 0 ≤ j < phnum → p_type mem' phoff j = p_type mem phoff j) →
  align_bytes mem' phoff phnum i k → align_bytes mem phoff phnum i k.
Proof. intros Hi Ht (j & Hj & HT & Hk). exists j. rewrite <-Ht by lia. done. Qed.

Lemma align_bytes_mono mem i k :
  align_bytes mem phoff phnum (i + 1) k → align_bytes mem phoff phnum i k.
Proof. intros (j & Hj & HT & Hk). exists j. split; [lia|done]. Qed.

(** The alignment of header [i] is not among those of later headers. *)
Lemma align_keeps mem mem' i a :
  clamped phoff phnum (i + 1) a mem mem' → p_align mem' phoff i = p_align mem phoff i.
Proof.
  intros [Hl _ Hf _]. apply load_ext; [done|]. intros k Hk. apply Hf.
  intros (j & Hj & _ & Hjk). unfold sizeof_Phdr in *. nia.
Qed.

Lemma unify_loop_spec n i mem a changed :
  wf mem phoff phnum → 0 ≤ i → phnum ≤ i + Z.of_nat n → 0 ≤ a < 2 ^ 64 →
  ∃ mem' c, unify_loop n i mem phoff a changed = Some (mem', c) ∧ clamped phoff phnum i a mem mem'.
Proof.
  revert i mem changed. induction n as [|n IH]; intros i mem changed Hwf Hi Hn Ha.
  { do 2 eexists. split; [done|]. split; [done|by destruct Hwf|done|intros; lia]. }
  cbn [unify_loop]. rewrite (wf_phnum _ _ _ Hwf). cbn [mbind option_bind].
  destruct (i <? phnum) eqn:Hlt; [apply Z.ltb_lt in Hlt|apply Z.ltb_ge in Hlt].
  2: { do 2 eexists. split; [done|]. split; [done|by destruct Hwf|done|intros; lia]. }
  destruct (phdr_loads mem i Hwf ltac:(lia)) as (t & al & Ht & Hal & Hr).
  unfold off_p_type, off_p_align. rewrite !(phdr_at_id mem) by (done || lia).
  rewrite Z.add_0_r. unfold p_type in Ht. rewrite Ht. cbn [mbind option_bind].
  destruct (t =? PT_LOAD) eqn:HT; cbn [negb].
  - apply Z.eqb_eq in HT. subst t. unfold p_align in Hal. rewrite Hal. cbn [mbind option_bind].
    destruct (al =? a) eqn:He.
    + apply Z.eqb_eq in He. subst al.
      destruct (IH (i + 1) mem changed) as (mem' & c & E & Hc); [done|lia..|].
      exists mem', c. split; [done|]. pose proof (align_keeps _ _ _ _ Hc) as Hk.
      destruct Hc as [Hl Hb Hf Hcl]. split; [done..| |].
      * intros k Hk'. apply Hf. intros H. by apply Hk', align_bytes_mono.
      * intros j Hj HTj. destruct (decide (j = i)) as [->|]; [by rewrite Hk|apply Hcl; [lia|done]].
    + assert (∃ mem1, store mem (phoff + i * sizeof_Phdr + 48) 8 a = Some mem1) as [mem1 Hs].
      { revert Hal. unfold load, store. destruct (in_bounds _ _ _); [eauto|done]. }
      rewrite Hs. cbn [mbind option_bind].
      destruct (store_align _ _ _ _ Hwf (conj Hi Hlt) Hs) as (Hwf1 & Hl1 & Ht1).
      destruct (IH (i + 1) mem1 (changed + 1)) as (mem' & c & E & Hc); [done|lia..|].
      exists mem', c. split; [done|]. pose proof (align_keeps _ _ _ _ Hc) as Hk.
      destruct Hc as [Hl Hb Hf Hcl]. split; [congruence|done| |].
      * intros k Hk'. rewrite Hf.
        -- eapply store_lookup; [exact Hs|]. intros Hin. apply Hk'. exists i. split; [lia|].
           split; [exact Ht|]. lia.
        -- intros H. apply Hk', align_bytes_mono. eapply (align_bytes_ext _ mem1); [lia|done|done].
      * intros j Hj HTj. destruct (decide (j = i)) as [->|].
        -- rewrite Hk. by eapply load_store.
        -- apply Hcl; [lia|]. rewrite Ht1 by lia. done.
  - apply Z.eqb_neq in HT. destruct (IH (i + 1) mem changed) as (mem' & c & E & Hc); [done|lia..|].
    exists mem', c. split; [done|]. destruct Hc as [Hl Hb Hf Hcl]. split; [done..| |].
    + intros k Hk'. apply Hf. intros H. by apply Hk', align_bytes_mono.
    + intros j Hj HTj. apply Hcl; [|done]. destruct (decide (j = i)) as [->|]; [|lia].
      unfold p_type in HTj. congruence.
Qed.
End clamp.

(** ** The alignments of the PT_LOAD headers, in order *)
Definition load_align (mem : list Z) (phoff i : Z) : option Z :=
  match p_type mem phoff i with
  | Some t => if t =? PT_LOAD then p_align mem phoff i else None
  | None => None
  end.

Definition load_aligns (mem : list Z) (phoff phnum i : Z) : list Z :=
  omap (load_align mem phoff) (seqZ i (phnum - i)).

Definition pick (m a : Z) : Z := if (m =? 0) || (a <? m) then a else m.

Lemma elem_of_load_aligns mem phoff phnum i a :
  a ∈ load_aligns mem phoff phnum i ↔
  ∃ j, i ≤ j < phnum ∧ p_type mem phoff j = Some PT_LOAD ∧ p_align mem phoff j = Some a.
Proof.
  unfold load_aligns. rewrite list_elem_of_omap. setoid_rewrite elem_of_seqZ. unfold load_align.
  split; intros (j & Hj & H); exists j.
  - split; [lia|]. destruct (p_type mem phoff j) as [t|]; [|done].
    destruct (t =? PT_LOAD) eqn:E; [|done]. apply Z.eqb_eq in E. by subst.
  - destruct H as [-> Ha]. split; [lia|done].
Qed.

Lemma load_aligns_cons mem phoff phnum i :
  i < phnum → load_aligns mem phoff phnum i =
    match load_align mem phoff i with
    | Some a => a :: load_aligns mem phoff phnum (i + 1)
    | None => load_aligns mem phoff phnum (i + 1)
    end.
Proof.
  intros Hi. unfold load_aligns. rewrite seqZ_cons by lia. simpl.
  replace (Z.pred (phnum - i)) with (phnum - (i + 1)) by lia.
  replace (Z.succ i) with (i + 1) by lia. by destruct (load_align mem phoff i).
Qed.

Lemma min_loop_spec phoff phnum n i mem m count :
  wf mem phoff phnum → 0 ≤ i → phnum ≤ i + Z.of_nat n →
  min_loop n i mem phoff m count =
    Some (foldl pick m (load_aligns mem phoff phnum i),
          count + zlength (load_aligns mem phoff phnum i)).
Proof.
  revert i m count. induction n as [|n IH]; intros i m count Hwf Hi Hn.
  { unfold load_aligns. rewrite seqZ_nil by lia. simpl. by rewrite Z.add_0_r. }
  cbn [min_loop]. rewrite (wf_phnum _ _ _ Hwf). cbn [mbind option_bind].
  destruct (i <? phnum) eqn:Hlt; [apply Z.ltb_lt in Hlt|apply Z.ltb_ge in Hlt].
  2: { unfold load_aligns. rewrite seqZ_nil by lia. simpl. by rewrite Z.add_0_r. }
  destruct (phdr_loads _ _ mem i Hwf (conj Hi Hlt)) as (t & al & Ht & Hal & _).
  rewrite load_aligns_cons by done. unfold load_align. rewrite Ht, Hal.
  unfold off_p_type, off_p_align. rewrite !(phdr_at_id phoff phnum mem) by (done || lia).
  rewrite Z.add_0_r. unfold p_type in Ht. unfold p_align in Hal. rewrite Ht. cbn [mbind option_bind].
  destruct (t =? PT_LOAD); cbn [negb]; [|rewrite IH by (done || lia); done].
  rewrite Hal. cbn [mbind option_bind]. rewrite IH by (done || lia). do 2 f_equal.
  unfold zlength. cbn [length]. lia.
Qed.

(** The alignment the first loop settles on is the least, when none is zero. *)
Lemma pick_least l m :
  0 < m → Forall (λ a, 0 < a) l →
  foldl pick m l ≤ m ∧ (foldl pick m l = m ∨ foldl pick m l ∈ l) ∧
  Forall (λ a, foldl pick m l ≤ a) l.
Proof.
  revert m. induction l as [|a l IH]; intros m Hm Hl; cbn [foldl]; [split; [lia|by auto]|].
  apply Forall_cons in Hl as [Ha Hl].
  assert (pick m a = Z.min m a) as -> by (unfold pick; destruct (Z.eqb_spec m 0), (Z.ltb_spec a m); simpl; lia).
  destruct (IH (Z.min m a)) as (H1 & H2 & H3); [lia|done|].
  split; [lia|]. split; [|constructor; [lia|done]].
  destruct H2 as [H2|H2]; [|right; by right]. rewrite H2.
  destruct (Z.min_spec m a) as [[_ ->]|[_ ->]]; [by left|right; by left].
Qed.

Lemma pick_start l : l ≠ [] → Forall (λ a, 0 < a) l →
  foldl pick 0 l ∈ l ∧ Forall (λ a, foldl pick 0 l ≤ a) l.
Proof.
  destruct l as [|a l]; [done|]. intros _ Hl. cbn [foldl]. apply Forall_cons in Hl as [Ha Hl].
  change (pick 0 a) with a. destruct (pick_least l a) as (H1 & H2 & H3); [done..|].
  split; [destruct H2 as [->|]; [by left|by right]|]. by constructor.
Qed.

Lemma pick_range l m B : 0 ≤ m < B → Forall (λ a, 0 ≤ a < B) l → 0 ≤ foldl pick m l < B.
Proof.
  revert m. induction l as [|a l IH]; intros m Hm Hl; [done|]. apply Forall_cons in Hl as [Ha Hl].
  cbn [foldl]. apply IH; [|done]. unfold pick. by destruct (_ || _).
Qed.

(** ** elfclamp makes the alignments uniform *)
Record elf64 (mem : list Z) (phoff phnum : Z) : Prop := {
  elf_wf : wf mem phoff phnum;
  elf_magic : take 4 mem = ELFMAG;
  elf_class : load mem off_class 1 = Some ELFCLASS64;
  elf_phoff : load mem off_phoff 8 = Some phoff;
  elf_phentsize : load mem off_phentsize 2 = Some sizeof_Phdr;
  elf_some : phnum ≠ 0;
}.

Lemma elf64_aligns mem phoff phnum :
  Forall byte mem → Forall (λ a, 0 ≤ a < 2 ^ 64) (load_aligns mem phoff phnum 0).
Proof.
  intros Hb. apply Forall_forall. intros a Ha%elem_of_load_aligns.
  destruct Ha as (j & _ & _ & Ha). by apply load_bound in Ha.
Qed.

Lemma elfclamp_run mem phoff phnum :
  elf64 mem phoff phnum → load_aligns mem phoff phnum 0 ≠ [] →
  ∃ changed mem', elfclamp mem = Some (unified changed, mem') ∧
    clamped phoff phnum 0 (foldl pick 0 (load_aligns mem phoff phnum 0)) mem mem'.
Proof.
  intros [Hwf Hmag Hcl Hoff Hent Hne] Hld. pose proof (wf_phnum_range _ _ _ Hwf) as Hn.
  pose proof Hwf as [Hb Hnum H1 H2 H3].
  pose proof (elf64_aligns mem phoff phnum Hb) as Hpos.
  set (l := load_aligns mem phoff phnum 0) in *.
  destruct (unify_loop_spec phoff phnum phnum_bound 0 mem (foldl pick 0 l) 0)
    as (mem' & c & E & Hc); [done|lia|unfold phnum_bound; lia|by apply pick_range|].
  exists c, mem'. split; [|done].
  unfold elfclamp. unfold sizeof_Ehdr, sizeof_Phdr in *.
  assert ((zlength mem <? 64) = false) as -> by (apply Z.ltb_ge; lia).
  rewrite bool_decide_true by done. cbn [negb]. rewrite Hcl, Hoff, Hnum, Hent.
  cbn [mbind option_bind]. rewrite Z.eqb_refl. cbn [negb].
  assert ((phoff =? 0) || (phnum =? 0) = false) as ->.
  { apply orb_false_iff. rewrite !Z.eqb_neq. lia. }
  rewrite Z.eqb_refl. cbn [negb].
  rewrite wrap_u_id by (unfold in_u; lia).
  assert ((zlength mem <? phoff + phnum * 56) = false) as -> by (apply Z.ltb_ge; lia).
  rewrite (min_loop_spec phoff phnum) by (done || lia || (unfold phnum_bound; lia)).
  fold l. cbn [mbind option_bind]. assert ((0 + zlength l =? 0) = false) as ->.
  { apply Z.eqb_neq. unfold zlength. destruct l; [done|]. simpl. lia. }
  rewrite E. done.
Qed.


(** ** What exec minds: alignments that differ

    The running alignment and the verdict, as [elf_needs_fixup] keeps them. *)
Definition mix (st : Z * bool) (a : Z) : Z * bool :=
  let align := if fst st =? 0 then a else fst st in (align, snd st || negb (a =? align)).

Definition mixed_aligns (l : list Z) : bool := snd (foldl mix (0, false) l).

Lemma mixed_from l al b :
  al ≠ 0 → snd (foldl mix (al, b) l) = true ↔ b = true ∨ ∃ a, a ∈ l ∧ a ≠ al.
Proof.
  intros Hal. revert b. induction l as [|a l IH]; intros b; cbn [foldl].
  { simpl. split; [by left|]. intros [H|(a & Ha & _)]; [done|set_solver]. }
  unfold mix at 2. cbn [fst snd]. apply Z.eqb_neq in Hal as Hal'. rewrite Hal', IH.
  rewrite orb_true_iff, negb_true_iff, Z.eqb_neq. setoid_rewrite elem_of_cons. naive_solver.
Qed.

(** When no alignment is zero, the verdict is that two of them differ. *)
Lemma mixed_aligns_spec l : 0 ∉ l → mixed_aligns l = true ↔ ∃ a b, a ∈ l ∧ b ∈ l ∧ a ≠ b.
Proof.
  intros Hz. unfold mixed_aligns. destruct l as [|a l]; [split; [done|set_solver]|].
  cbn [foldl]. change (mix (0, false) a) with (a, false || negb (a =? a)).
  rewrite Z.eqb_refl. cbn [negb orb]. rewrite mixed_from by set_solver.
  split; [intros [|(b & Hb & Hne)]; [done|exists b, a; set_solver]|].
  intros (b & c & Hb & Hc & Hne). right.
  destruct (decide (b = a)) as [->|]; [exists c; set_solver|exists b; set_solver].
Qed.

Lemma mixed_uniform l a : Forall (λ b, b = a) l → mixed_aligns l = false.
Proof.
  assert (∀ al b, al = 0 ∨ al = a → Forall (λ b, b = a) l → snd (foldl mix (al, b) l) = b) as H.
  { induction l as [|c l IH]; intros al b Hal Hl; [done|]. apply Forall_cons in Hl as [-> Hl].
    cbn [foldl]. unfold mix at 2. cbn [fst snd].
    assert ((if al =? 0 then a else al) = a) as ->.
    { destruct Hal as [->| ->]; [done|]. by destruct (a =? 0) eqn:E; [apply Z.eqb_eq in E|]. }
    rewrite Z.eqb_refl, orb_false_r. apply IH; auto. }
  intros Hl. apply H; [by left|done].
Qed.

(** After [elfclamp] the alignments are uniform. *)
Lemma clamped_aligns phoff phnum a mem mem' :
  wf mem phoff phnum → clamped phoff phnum 0 a mem mem' →
  Forall (λ b, b = a) (load_aligns mem' phoff phnum 0).
Proof.
  intros Hwf [Hl _ Hf Ha]. apply Forall_forall. intros b Hb%elem_of_load_aligns.
  destruct Hb as (j & Hj & HT & Hb). rewrite (type_frame phoff phnum mem mem') in HT; try done.
  - rewrite Ha in Hb by done. by injection Hb.
  - intros k Hk. apply Hf. intros (x & Hx & _ & Hxk). by apply (Hk x).
Qed.

Lemma clamped_elf64 phoff phnum a mem mem' :
  elf64 mem phoff phnum → clamped phoff phnum 0 a mem mem' → elf64 mem' phoff phnum.
Proof.
  intros [[Hb Hn H1 H2 H3] Hmag Hcl Hoff Hent Hne] [Hl Hb' Hf _].
  assert (∀ k, Z.of_nat k < 64 → mem' !! k = mem !! k) as Hk.
  { intros k Hk. apply Hf. intros (j & Hj & _ & Hjk). unfold sizeof_Ehdr, sizeof_Phdr in *. nia. }
  assert (∀ off n, off + Z.of_nat n ≤ 64 → load mem' off n = load mem off n) as Hld.
  { intros off n Hon. apply load_ext; [done|]. intros k Hk'. apply Hk. lia. }
  split; [split|..]; rewrite ?Hld; try done.
  - unfold zlength in *. by rewrite Hl.
  - unfold zlength in *. by rewrite Hl.
  - rewrite <-Hmag. apply list_eq. intros k. destruct (decide (k < 4)%nat).
    + rewrite !lookup_take_lt by done. apply Hk. lia.
    + by rewrite !lookup_take_ge by lia.
Qed.

(** ** Concrete images *)
Module ElfDemo.
Definition phdr (h : Z * Z) : list Z := le_put 4 (fst h) ++ replicate 44 0 ++ le_put 8 (snd h).
Definition image (phoff : Z) (hs : list (Z * Z)) : list Z :=
  ELFMAG ++ [ELFCLASS64] ++ replicate 27 0 ++ le_put 8 phoff ++ replicate 14 0 ++
  le_put 2 sizeof_Phdr ++ le_put 2 (Z.of_nat (length hs)) ++ replicate 6 0 ++ mjoin (phdr <$> hs).

(** An interpreter and two segments of different alignments. *)
Definition mixed : list Z := image 64 [(PT_INTERP, 1); (PT_LOAD, 2097152); (PT_LOAD, 4096)].

Lemma mixed_elf : elf64 mixed 64 3.
Proof.
  split; [|done..]. split; try done.
  apply (bool_decide_unpack _). by vm_compute.
Qed.
End ElfDemo.


(** The bounds check adds without regard to overflow: a file of 64 bytes whose program headers are
    said to lie 56 bytes below the end of the address space passes it, and the tool reads before
    the start of its mapping. *)
Theorem elfclamp_wraps :
  ∃ mem, Forall byte mem ∧ zlength mem = sizeof_Ehdr ∧ elfclamp mem = None.
Proof.
  exists (take 64 (ElfDemo.image (2 ^ 64 - 56) [(PT_LOAD, 4096)])).
  split; [|by vm_compute]. apply (bool_decide_unpack _). by vm_compute.
Qed.

(** A PT_LOAD header with alignment zero makes the tool forget the alignments before it: here it
    raises a segment aligned to 4096 bytes to the 2 MiB of the last one. *)
Theorem elfclamp_zero_forgets :
  ∃ mem mem', load_aligns mem 64 3 0 = [4096; 0; 2097152] ∧
    elfclamp mem = Some (unified 2, mem') ∧ load_aligns mem' 64 3 0 = [2097152; 2097152; 2097152].
Proof.
  exists (ElfDemo.image 64 [(PT_LOAD, 4096); (PT_LOAD, 0); (PT_LOAD, 2097152)]).
  eexists. split; [by vm_compute|]. split; [vm_compute; reflexivity|by vm_compute].
Qed.
