(* ===== verification/ElfMain.v ===== *)
(** * tools/elfclamp.c: the tool around the rewriting of the headers

    The command line, the file, its mapping, and what is given back. *)

From stdpp Require Import gmap.
From S2P Require Import Prelude Kernel Elf.

Open Scope Z_scope.

Definition EXIT_SUCCESS : Z := 0.
Definition EXIT_FAILURE : Z := 1.

(** The calls of the tool, and the bytes a shared mapping shows. [None] is -1 or MAP_FAILED. *)
Class ToolSystem (W : Type) := {
  t_open : string → W → option Z * W;
  t_fstat_size : Z → W → option Z * W;
  t_mmap : Z → Z → W → option Z * W;
  t_bytes : Z → W → list Z;
  t_store : Z → list Z → W → W;
  t_msync : Z → Z → W → W;
  t_munmap : Z → Z → W → W;
  t_close : Z → W → W;
}.

Section main.
Context {W : Type} `{!ToolSystem W}.

(** The exit status, or [None] when the process dies of an access outside the mapping. *)
Definition main (argv : list string) (w : W) : option Z * W :=
  match argv with
  | [_; file] =>
      match t_open file w with
      | (None, w) => (Some EXIT_FAILURE, w)
      | (Some fd, w) =>
          match t_fstat_size fd w with
          | (None, w) => (Some EXIT_FAILURE, t_close fd w)
          | (Some size, w) =>
              if size <? sizeof_Ehdr then (Some EXIT_FAILURE, t_close fd w)
              else
                match t_mmap size fd w with
                | (None, w) => (Some EXIT_FAILURE, t_close fd w)
                | (Some mem, w) =>
                    match elfclamp (t_bytes mem w) with
                    | None => (None, w)
                    | Some (v, bytes) =>
                        let w := t_store mem bytes w in
                        let w := match v with
                                 | unified changed => if 0 <? changed then t_msync mem size w else w
                                 | _ => w
                                 end in
                        (Some EXIT_SUCCESS, t_close fd (t_munmap mem size w))
                    end
                end
          end
      end
  | _ => (Some EXIT_FAILURE, w)
  end.
End main.

(** ** Files, descriptors and mappings *)
Module ToolWorld.
Record world := mkw {
  files : gmap string (list Z);
  fds : gmap Z string;
  maps : gmap Z string;
  next : Z;
}.

Definition content (p : string) (w : world) : list Z := default [] (files w !! p).

#[global] Instance system : ToolSystem world := {
  t_open p w := match files w !! p with
                | Some _ => (Some (next w), mkw (files w) (<[next w := p]> (fds w)) (maps w) (next w))
                | None => (None, w)
                end;
  t_fstat_size fd w := match fds w !! fd with
                       | Some p => (Some (zlength (content p w)), w)
                       | None => (None, w)
                       end;
  t_mmap _ fd w := match fds w !! fd with
                   | Some p => (Some (next w), mkw (files w) (fds w) (<[next w := p]> (maps w)) (next w))
                   | None => (None, w)
                   end;
  t_bytes mem w := default [] (p ← maps w !! mem; files w !! p);
  t_store mem b w := match maps w !! mem with
                     | Some p => mkw (<[p := b]> (files w)) (fds w) (maps w) (next w)
                     | None => w
                     end;
  t_msync _ _ w := w;
  t_munmap mem _ w := mkw (files w) (fds w) (delete mem (maps w)) (next w);
  t_close fd w := mkw (files w) (delete fd (fds w)) (maps w) (next w);
}.
End ToolWorld.
Import ToolWorld.

(** The tool rewrites the file it is given as [elfclamp] says and leaves every other file, every descriptor
    and every mapping as they were. It reports success for every file long enough to be looked at, whether
    or not it was an ELF file. *)
Theorem main_rewrites prog p b b' v w :
  files w !! p = Some b → fds w !! next w = None → maps w !! next w = None → sizeof_Ehdr ≤ zlength b →
  elfclamp b = Some (v, b') →
  main [prog; p] w = (Some EXIT_SUCCESS, mkw (<[p := b']> (files w)) (fds w) (maps w) (next w)).
Proof.
  intros Hp Hf Hm Hl He. unfold main. cbn. rewrite Hp. cbn. rewrite lookup_insert_eq. unfold content. cbn. rewrite Hp. cbn.
  rewrite (proj2 (Z.ltb_ge _ _)) by done. rewrite lookup_insert_eq. cbn. rewrite lookup_insert_eq. cbn. rewrite Hp. cbn.
  rewrite He.
  assert (delete (next w) (<[next w := p]> (maps w)) = maps w ∧ delete (next w) (<[next w := p]> (fds w)) = fds w) as [E1 E2].
  { by rewrite !delete_insert_id. }
  destruct v; cbn; rewrite ?E1, ?E2; try done. case (0 <? changed); cbn; by rewrite E1, E2.
Qed.

(** A file too short for a header, or none at all, is reported and nothing is changed. *)
Theorem main_refuses prog p w :
  fds w !! next w = None →
  match files w !! p with Some b => zlength b < sizeof_Ehdr | None => True end →
  main [prog; p] w = (Some EXIT_FAILURE, w).
Proof.
  intros Hf Hb. unfold main. cbn. destruct (files w !! p) as [b|] eqn:Hp; [|done]. cbn. rewrite lookup_insert_eq.
  unfold content. cbn. rewrite Hp. cbn. rewrite (proj2 (Z.ltb_lt _ _)) by done. rewrite delete_insert_id by done.
  by destruct w.
Qed.

Lemma main_rewrites_witness :
  ∃ b' v, elfclamp ElfDemo.mixed = Some (v, b') ∧
    main ["elfclamp"; "a.out"] (mkw {[ "a.out" := ElfDemo.mixed ]} ∅ ∅ 3) =
    (Some 0, mkw (<["a.out" := b']> {[ "a.out" := ElfDemo.mixed ]}) ∅ ∅ 3).
Proof.
  destruct (elfclamp ElfDemo.mixed) as [[v b']|] eqn:E; [|by vm_compute in E]. exists b', v. split; [done|].
  apply (main_rewrites "elfclamp" "a.out" ElfDemo.mixed b' v); [done|done|done|by vm_compute|exact E].
Defined.
