(* ===== verification/Dirent.v ===== *)
(** * utils.c: the directory entries in the buffer

    The walk over /proc/self/fd as the code does it, on the bytes that getdents64 has left in the
    buffer, and that it visits what the walk over the list of names visits. *)

From stdpp Require Import gmap.
From S2P Require Import Prelude CString Kernel State Walk FdKernel Synth SynthFrames SynthFacts Elf.

Open Scope Z_scope.

(** ** Layout of [struct linux_dirent64] *)
Definition off_d_reclen : Z := 16.
Definition off_d_type : Z := 18.
Definition off_d_name : Z := 19.

Record linux_dirent64 := { d_ino : Z; d_off : Z; d_type : Z; d_name : string }.

Definition string_of_bytes (l : list Z) : string :=
  String.string_of_list_ascii ((λ z, Ascii.ascii_of_nat (Z.to_nat z)) <$> l).
Definition bytes_of_string (s : string) : list Z := chr <$> String.list_ascii_of_string s.

(** The C string at [off]: the bytes up to a NUL, which is in the buffer or the access is outside. *)
Fixpoint until_nul (l : list Z) : option (list Z) :=
  match l with
  | [] => None
  | b :: l' => if b =? 0 then Some [] else (b ::.) <$> until_nul l'
  end.

Definition c_string (buf : list Z) (off : Z) : option string :=
  if (0 <=? off) then string_of_bytes <$> until_nul (drop (Z.to_nat off) buf) else None.

Section walk.
Context {W : Type} `{!Kernel W} {U : Type}.
Local Abbreviation M := (prog (st W)).
Variable visit : Z → U → M (bool * U).

(** The inner loop, over the [n] bytes that getdents64 has filled; an access outside the buffer is the end
    of the process. *)
Fixpoint walk_bytes (rounds : nat) (buf : list Z) (n off dirfd : Z) (u : U) : M (bool * U) :=
  match rounds with
  | O => nofuel
  | S rounds' =>
      if negb (off <? n) then ret (false, u)
      else
        match load buf (off + off_d_reclen) 2, load buf (off + off_d_name) 1 with
        | Some reclen, Some c =>
            if (c <? 48) || (57 <? c) then walk_bytes rounds' buf n (off + reclen) dirfd u
            else
              match c_string buf (off + off_d_name) with
              | None => gone
              | Some name =>
                  let fd := atoi name in
                  if fd =? dirfd then walk_bytes rounds' buf n (off + reclen) dirfd u
                  else
                    let* (stop, u') := visit fd u in
                    if (stop : bool) then ret (true, u')
                    else walk_bytes rounds' buf n (off + reclen) dirfd u'
              end
        | _, _ => gone
        end
  end.
End walk.

(** ** What getdents64 writes *)

(** The length of a record: header, name and NUL, rounded up to a multiple of eight. *)
Definition reclen (e : linux_dirent64) : Z := (off_d_name + zlen (d_name e) + 1 + 7) / 8 * 8.

Definition encode (e : linux_dirent64) : list Z :=
  le_put 8 (d_ino e) ++ le_put 8 (d_off e) ++ le_put 2 (reclen e) ++ [d_type e] ++ bytes_of_string (d_name e) ++ [0] ++
  replicate (Z.to_nat (reclen e - (off_d_name + zlen (d_name e) + 1))) 0.

(** A name has no NUL and at most 255 bytes. *)
Definition name_ok (e : linux_dirent64) : Prop :=
  Forall (λ c, c ≠ Ascii.Ascii false false false false false false false false) (String.list_ascii_of_string (d_name e)) ∧
  zlen (d_name e) ≤ 255.

Lemma reclen_range e : off_d_name + zlen (d_name e) + 1 ≤ reclen e ≤ off_d_name + zlen (d_name e) + 8.
Proof.
  unfold reclen. set (x := off_d_name + zlen (d_name e) + 1).
  pose proof (Z.div_mod (x + 7) 8). pose proof (Z.mod_pos_bound (x + 7) 8). lia.
Qed.

Lemma length_bytes s : zlength (bytes_of_string s) = zlen s.
Proof.
  unfold zlength, bytes_of_string, zlen. rewrite length_fmap. f_equal. induction s as [|c s IH]; [done|]. cbn. by rewrite IH.
Qed.

Lemma length_encode e : zlength (encode e) = reclen e.
Proof.
  pose proof (reclen_range e). unfold encode, zlength. rewrite !length_app, !length_le_put, length_replicate. cbn [length].
  pose proof (length_bytes (d_name e)) as Hb. unfold zlength in Hb. unfold off_d_name in *. lia.
Qed.

Lemma string_of_bytes_of s : string_of_bytes (bytes_of_string s) = s.
Proof.
  unfold string_of_bytes, bytes_of_string. induction s as [|c s IH]; [done|]. cbn. rewrite IH.
  unfold chr. by rewrite Nat2Z.id, Ascii.ascii_nat_embedding.
Qed.

(** A load from the part of a buffer. *)
Lemma load_part pre x post off n :
  0 ≤ off → off + Z.of_nat n ≤ zlength x → load (pre ++ x ++ post) (zlength pre + off) n = load x off n.
Proof.
  intros H1 H2. unfold load. unfold zlength in *.
  rewrite (proj2 (in_bounds_true _ _ _)) by (unfold zlength; rewrite !length_app; lia).
  rewrite (proj2 (in_bounds_true _ _ _)) by (unfold zlength; lia). f_equal.
  rewrite Z2Nat.inj_add by lia. rewrite Nat2Z.id, <-drop_drop, drop_app_length.
  rewrite drop_app_le by lia. rewrite take_app_le; [done|]. rewrite length_drop. lia.
Qed.

(** A field of a record. *)
Lemma encode_reclen e : zlen (d_name e) ≤ 255 → load (encode e) off_d_reclen 2 = Some (reclen e).
Proof.
  intros Hl. pose proof (reclen_range e) as Hr. unfold encode.
  rewrite (app_assoc (le_put 8 (d_ino e))).
  assert (zlength (le_put 8 (d_ino e) ++ le_put 8 (d_off e)) = off_d_reclen) as Hz
    by (unfold zlength; by rewrite length_app, !length_le_put).
  rewrite <-Hz, <-(Z.add_0_r (zlength _)), load_part; [|lia|unfold zlength; rewrite length_le_put; lia].
  unfold load. rewrite (proj2 (in_bounds_true _ _ _)) by (unfold zlength; rewrite length_le_put; lia).
  change (Z.to_nat 0) with O. rewrite drop_0, take_ge, le_get_put; [done| |by rewrite length_le_put].
  unfold off_d_name in Hr. pose proof (Zle_0_nat (String.length (d_name e))). unfold zlen in *. lia.
Qed.

(** The name and its NUL, with what comes before and after. *)
Lemma encode_name e : ∃ pre post, encode e = pre ++ bytes_of_string (d_name e) ++ 0 :: post ∧ zlength pre = off_d_name.
Proof.
  exists (le_put 8 (d_ino e) ++ le_put 8 (d_off e) ++ le_put 2 (reclen e) ++ [d_type e]). eexists. split.
  - unfold encode. rewrite <-!(assoc_L (++)). do 5 f_equal.
  - unfold zlength. by rewrite !length_app, !length_le_put.
Qed.

Lemma chr_range c : 0 ≤ chr c < 256.
Proof. unfold chr. pose proof (Ascii.nat_ascii_bounded c). lia. Qed.

Lemma until_nul_name s post :
  Forall (λ c, c ≠ Ascii.Ascii false false false false false false false false) (String.list_ascii_of_string s) →
  until_nul (bytes_of_string s ++ 0 :: post) = Some (bytes_of_string s).
Proof.
  unfold bytes_of_string. induction s as [|c s IH]; [done|]. cbn. intros [Hc Hs]%Forall_cons.
  destruct (Z.eqb_spec (chr c) 0) as [E|]; [|by rewrite IH].
  destruct Hc. unfold chr in E. rewrite <-(Ascii.ascii_nat_embedding c). by replace (Ascii.nat_of_ascii c) with O by lia.
Qed.

Lemma c_string_name pre s post rest :
  Forall (λ c, c ≠ Ascii.Ascii false false false false false false false false) (String.list_ascii_of_string s) →
  c_string (pre ++ (bytes_of_string s ++ 0 :: post) ++ rest) (zlength pre) = Some s.
Proof.
  intros Hs. unfold c_string, zlength. rewrite (proj2 (Z.leb_le _ _)) by lia. rewrite Nat2Z.id, drop_app_length.
  rewrite <-(assoc_L (++)). cbn [app]. rewrite until_nul_name by done. cbn. by rewrite string_of_bytes_of.
Qed.

(** The test of the first character is that of the model with names. *)
Lemma first_char pre s post rest :
  load (pre ++ (bytes_of_string s ++ 0 :: post) ++ rest) (zlength pre) 1 =
  Some (match s with EmptyString => 0 | String c _ => chr c end).
Proof.
  rewrite <-(Z.add_0_r (zlength pre)), load_part; [|lia|unfold zlength; rewrite length_app; cbn; lia].
  unfold load. rewrite (proj2 (in_bounds_true _ _ _)) by (unfold zlength; rewrite length_app; cbn; lia).
  change (Z.to_nat 0) with O. rewrite drop_0. destruct s as [|c s]; cbn; [done|]. by rewrite Z.add_0_r.
Qed.

Lemma name_test s :
  (match s with EmptyString => 0 | String c _ => chr c end <? 48) || (57 <? match s with EmptyString => 0 | String c _ => chr c end)
  = negb (name_is_fd s).
Proof. destruct s as [|c s]; cbn [name_is_fd]; [done|]. destruct (Z.ltb_spec (chr c) 48), (Z.ltb_spec 57 (chr c)), (Z.leb_spec 48 (chr c)), (Z.leb_spec (chr c) 57); cbn; (done || lia). Qed.

Section refinement.
Context {W : Type} `{!Kernel W} {U : Type}.
Variable visit : Z → U → prog (st W) (bool * U).

Lemma walk_bytes_from es pre post dirfd u (s : st W) :
  Forall name_ok es → let body := concat (encode <$> es) in
  walk_bytes visit (S (length es)) (pre ++ body ++ post) (zlength pre + zlength body) (zlength pre) dirfd u s
  = walk_batch visit dirfd (d_name <$> es) u s.
Proof.
  intros Hok. revert pre u s. induction Hok as [|e es [Hn Hl] Hok IH]; intros pre u s body.
  { cbn. by rewrite Z.add_0_r, Z.ltb_irrefl. }
  pose proof (reclen_range e) as Hr. pose proof (length_encode e) as Hlen. unfold off_d_name in Hr.
  assert (0 ≤ zlen (d_name e)) as Hpos by (unfold zlen; lia).
  unfold body. cbn [fmap list_fmap concat length]. set (rest := concat (encode <$> es)) in *.
  assert (∀ u s, walk_bytes visit (S (length es)) (pre ++ (encode e ++ rest) ++ post)
    (zlength pre + zlength (encode e ++ rest)) (zlength pre + reclen e) dirfd u s
    = walk_batch visit dirfd (d_name <$> es) u s) as Hstep.
  { intros u' s'. specialize (IH (pre ++ encode e) u' s'). fold rest in IH. cbv zeta in IH.
    rewrite <-IH. unfold zlength in *. rewrite !length_app. rewrite <-!(assoc_L (++)). f_equal; lia. }
  cbn [walk_bytes walk_batch]. rewrite (proj2 (Z.ltb_lt _ _)) by (unfold zlength in *; rewrite length_app; lia). cbn [negb].
  set (buf := pre ++ (encode e ++ rest) ++ post) in *.
  assert (load buf (zlength pre + off_d_reclen) 2 = Some (reclen e)) as ->.
  { unfold buf. rewrite <-(assoc_L (++) (encode e)), load_part; [by apply encode_reclen|done|].
    rewrite Hlen. unfold off_d_reclen. lia. }
  destruct (encode_name e) as (p1 & q & Henc & Hp1).
  assert (buf = (pre ++ p1) ++ (bytes_of_string (d_name e) ++ 0 :: q) ++ rest ++ post) as Hbuf.
  { unfold buf. rewrite Henc. by rewrite <-!(assoc_L (++)). }
  assert (zlength pre + off_d_name = zlength (pre ++ p1)) as Hoff.
  { rewrite <-Hp1. unfold zlength. rewrite length_app. lia. }
  rewrite Hoff, Hbuf, first_char, name_test, <-Hbuf. destruct (name_is_fd (d_name e)); cbn [negb]; [|by apply Hstep].
  rewrite Hbuf, c_string_name, <-Hbuf by done. destruct (_ =? dirfd); [by apply Hstep|].
  apply bind_ext; [done|]. intros [[] u'] s'; [done|by apply Hstep].
Qed.

(** C39: On what getdents64 writes, the walk over the bytes of the buffer stays inside it, ends, and visits what
    the walk over the names visits. *)
Theorem walk_bytes_refines es dirfd u (s : st W) :
  Forall name_ok es → let buf := concat (encode <$> es) in
  walk_bytes visit (S (length es)) buf (zlength buf) 0 dirfd u s = walk_batch visit dirfd (d_name <$> es) u s.
Proof.
  intros Hok buf. pose proof (walk_bytes_from es [] [] dirfd u s Hok) as H. cbv zeta in H.
  cbn [app] in H. rewrite app_nil_r in H. exact H.
Qed.
End refinement.

(** ** A buffer, concretely *)
Module DirentDemo.
Import FdKernel.
Definition entry (name : string) : linux_dirent64 := {| d_ino := 7; d_off := 1; d_type := 10; d_name := name |}.
Definition es : list linux_dirent64 := entry <$> ["."; ".."; "0"; "3"; "12"].
Definition collect (fd : Z) (u : list Z) : prog (st world) (bool * list Z) := ret (false, fd :: u).
Definition s : st world := mkst init_mem (SynthDemo.w0 false) 0.
End DirentDemo.

Lemma walk_bytes_refines_witness :
  let buf := concat (encode <$> DirentDemo.es) in
  walk_bytes DirentDemo.collect 6 buf (zlength buf) 0 3 [] DirentDemo.s = Ret (false, [12; 0]) DirentDemo.s.
Proof.
  refine (eq_trans (walk_bytes_refines DirentDemo.collect DirentDemo.es 3 [] DirentDemo.s _) _); [|by vm_compute].
  repeat (constructor; [split; [by repeat constructor|by vm_compute]|]). constructor.
Defined.
