(* ===== verification/Preexec.v ===== *)
(** * synth.c, third part: descriptors across exec

    The table of synthetic descriptors does not survive an exec. Before one, every descriptor that
    has a backing is replaced by its backing and the synthetic one is parked on a high number; after
    a failed exec, and in the parent of a spawn, the parked ones are put back. *)

From stdpp Require Import gmap.
From S2P Require Import Prelude CString Kernel State Tunables Override Walk FdKernel Internal Synth SynthFrames SynthFacts Close.

Open Scope Z_scope.

Definition SYNTH_PREEXEC_MAX : nat := 64.
Arguments SYNTH_PREEXEC_MAX : simpl never.

(** An element of [struct synth_preexec_state]; the state is the list of its first [count]. *)
Record preexec_slot := { user_fd : Z; saved_fd : Z; orig_cloexec : bool }.

Section preexec.
Context {W : Type} `{!Kernel W, !Handlers W} {Hfuel : Fuel}.
Local Abbreviation M := (prog (st W)).

(** [struct preexec_candidates] is the list of descriptors collected so far. *)
Definition preexec_collect_visit (fd : Z) (c : list Z) : M (bool * list Z) :=
  if (SYNTH_PREEXEC_MAX <=? length c)%nat then ret (true, c)
  else
    let* e := wslcompat_synth_pin_fd fd in
    match e with
    | None => ret (false, c)
    | Some i => wslcompat_synth_unpin i ;;* ret (false, c ++ [fd])
    end.

Definition preexec_save_one (fd : Z) (slots : list preexec_slot) : M (list preexec_slot) :=
  let* e := wslcompat_synth_pin_fd fd in
  match e with
  | None => ret slots
  | Some i =>
      let* o := entry_ops i in
      let* real := match op_passthru o with
                   | Some f => f i SYNTH_OP_PREEXEC
                   | None => ret (-1)
                   end in
      wslcompat_synth_unpin i ;;*
      if real <? 0 then ret slots
      else
        let* fdflags := sys (k_fcntl fd F_GETFD (arg_int 0)) in
        let cloexec := match fdflags with
                       | Some f => (0 <=? f) && has_bits f FD_CLOEXEC
                       | None => false
                       end in
        let* saved := sys (k_fcntl fd F_DUPFD_CLOEXEC (arg_int (Z.of_nat SYNTH_TABLE_SIZE))) in
        match saved with
        | None => ret slots
        | Some saved =>
            let* d := dup3 real fd (if cloexec then O_CLOEXEC else 0) in
            match d with
            | None => sys (k_close saved) ;;* ret slots
            | Some _ =>
                ret (slots ++ [{| user_fd := fd; saved_fd := saved; orig_cloexec := cloexec |}])
            end
        end
  end.

Fixpoint preexec_save_loop (c : list Z) (slots : list preexec_slot) : M (list preexec_slot) :=
  match c with
  | [] => ret slots
  | fd :: c' =>
      if (SYNTH_PREEXEC_MAX <=? length slots)%nat then ret slots
      else
        let* slots := preexec_save_one fd slots in
        preexec_save_loop c' slots
  end.

Definition wslcompat_synth_preexec_save (slots : list preexec_slot) : M (list preexec_slot) :=
  let* c := wslcompat_walk_proc_self_fd preexec_collect_visit [] in
  preexec_save_loop c slots.

Definition preexec_restore_one (sl : preexec_slot) : M (option unit) :=
  dup3 (saved_fd sl) (user_fd sl) (if orig_cloexec sl then O_CLOEXEC else 0) ;;*
  close (saved_fd sl) ;;*
  ret None.

(** The state is empty afterwards. *)
Definition wslcompat_synth_preexec_restore (slots : list preexec_slot) : M (list preexec_slot) :=
  for_each slots preexec_restore_one ;;* ret [].
End preexec.

(** ** Frames and bounds *)
Section facts.
Context {W : Type} `{!Kernel W, !Handlers W, !HandlersOk W} {Hfuel : Fuel}.
Local Abbreviation M := (prog (st W)).

Lemma within_preexec_save slots : within (@tbreach W) (wslcompat_synth_preexec_save slots).
Proof.
  assert (∀ fd sl, within (@tbreach W) (preexec_save_one fd sl)) as Hone.
  { intros fd sl. unfold preexec_save_one. apply within_bind; [apply _|apply within_pin_fd|].
    intros [i|]; [|by within_auto].
    apply within_entry_bind; [apply _|apply within_passthru_cb|]. intros real.
    within_auto; auto using within_unpin, within_dup3. }
  unfold wslcompat_synth_preexec_save. apply within_bind; [apply _| |].
  - apply within_walk; [apply _|apply allows_book|].
    intros. unfold preexec_collect_visit. within_auto; auto using within_pin_fd, within_unpin.
  - intros c. revert slots. induction c as [|fd c IH]; intros slots; simpl; within_auto; auto.
Qed.

Lemma within_preexec_restore slots : within (@tbreach W) (wslcompat_synth_preexec_restore slots).
Proof.
  unfold wslcompat_synth_preexec_restore, preexec_restore_one.
  within_auto; auto using within_dup3, within_close.
Qed.

Lemma preexec_save_one_grows fd sl (s s' : st W) sl' :
  preexec_save_one fd sl s = Ret sl' s' →
  sl' = sl ∨ ∃ x, sl' = sl ++ [x] ∧ user_fd x = fd.
Proof.
  unfold preexec_save_one. intros H. run_inv H. destruct r as [i|]; [|injection H as <- _; by left].
  do 3 run_inv H. destruct (r0 <? 0); [injection H as <- _; by left|].
  do 2 run_inv H. destruct r3 as [saved|]; [|injection H as <- _; by left].
  run_inv H. destruct r3; [injection H as <- _; right; by eexists|].
  run_inv H. injection H as <- _. by left.
Qed.

(** The arrays on the caller's stack are never overrun: however many synthetic descriptors the
    process has, at most [SYNTH_PREEXEC_MAX] are saved. *)
Lemma preexec_save_bounded sl (s s' : st W) sl' :
  (length sl ≤ SYNTH_PREEXEC_MAX)%nat → wslcompat_synth_preexec_save sl s = Ret sl' s' →
  (length sl' ≤ SYNTH_PREEXEC_MAX)%nat.
Proof.
  unfold wslcompat_synth_preexec_save. intros Hl H. run_inv H. clear E.
  revert sl s0 Hl H. induction r as [|fd c IH]; intros sl s0 Hl H; cbn [preexec_save_loop] in H.
  { by injection H as <- _. }
  destruct (_ <=? _)%nat eqn:Hle in H; [by injection H as <- _|]. apply Nat.leb_gt in Hle.
  run_inv H. eapply IH, H. destruct (preexec_save_one_grows _ _ _ _ _ E) as [->|(x & -> & _)]; [done|].
  rewrite length_app. simpl. lia.
Qed.
End facts.
