(* ===== verification/Execve.v ===== *)
(** * execve.c and execveat.c

    The exec family: synthetic descriptors are swapped for their backing around every attempt, and
    an ELF file that WSL1 refuses because of its alignments is run through the dynamic loader. *)

From stdpp Require Import gmap.
From S2P Require Import Prelude CString Kernel State Tunables Override Walk FdKernel Internal Synth SynthFrames SynthFacts Close Tty Dispatch Handlers Fcntl Open Elf Preexec.

Open Scope Z_scope.

Definition MAX_NEW_ARGV : nat := 1024.
Definition PTINTERP_DEFAULT : string := "/lib64/ld-linux-x86-64.so.2".
Definition S_ISUID : Z := 2048.
Definition S_ISGID : Z := 1024.
Definition S_IFLNK : Z := 40960.
Definition AT_EMPTY_PATH : Z := 4096.
Arguments MAX_NEW_ARGV : simpl never.
Arguments PATH_MAX : simpl never.

(** ** Building the argument vector

    An array of [MAX_NEW_ARGV] pointers, all null at first, and the position to write next. *)
Definition argv_array : Type := list (option string) * nat.
Definition argv_push (a : argv_array) (v : option string) : argv_array :=
  (<[snd a := v]> (fst a), S (snd a)).

(** [for (size_t i = 0; argv[i];) new_argv[pos++] = argv[++i];], with [argv + i] as a list; the
    terminating null pointer is copied too. [None] is the overflow exit. *)
Fixpoint copy_args (argv : list string) (a : argv_array) : option argv_array :=
  match argv with
  | [] => Some a
  | _ :: rest =>
      let a := argv_push a (head rest) in
      if (MAX_NEW_ARGV <=? snd a)%nat then None else copy_args rest a
  end.

Definition new_argv (interp pathname : string) (use_argv0 : bool) (argv : list string) :
    option argv_array :=
  let a := argv_push (replicate MAX_NEW_ARGV None, O) (Some interp) in
  let a := if use_argv0
           then argv_push (argv_push a (Some "--argv0")) (Some (default pathname (head argv)))
           else a in
  copy_args argv (argv_push a (Some pathname)).

(** The strings a null-terminated array holds. *)
Fixpoint c_args (l : list (option string)) : list string :=
  match l with
  | Some s :: l' => s :: c_args l'
  | _ => []
  end.

(** ** Variadic entry points

    What is left of a [va_list]: strings, null pointers, and the environment of [execle]. *)
Inductive vararg := va_str (s : string) | va_null | va_envp (e : list string).

(** The loop of [va_collect_argv] with room for [n] more pointers: the strings collected and the
    rest of the arguments; [None] when it reads something that is not a string pointer. *)
Fixpoint va_collect (n : nat) (ap : list vararg) : option (list string * list vararg) :=
  match n with
  | O => Some ([], ap)
  | S n' =>
      match ap with
      | va_str s :: ap' => r ← va_collect n' ap'; Some (s :: fst r, snd r)
      | va_null :: ap' => Some ([], ap')
      | _ => None
      end
  end.

Definition va_collect_argv (ap : list vararg) (arg0 : string) (cap : nat) :
    option (list string * list vararg) :=
  r ← va_collect (cap - 2) ap; Some (arg0 :: fst r, snd r).

Section execve.
Context {W : Type} `{!Kernel W, !Handlers W} {Hfuel : Fuel}.
Local Abbreviation M := (prog (st W)).

(** [strverscmp (gnu_get_libc_version (), "2.33") >= 0], for the C library the process runs on. *)
Variable libc_has_argv0 : bool.

(** An exec that returns has failed. *)
Definition exec (c : call unit) : M unit :=
  let* r := sys c in
  match r with Some _ => gone | None => ret tt end.

Definition bytes_of (s : string) : list Z := chr <$> String.list_ascii_of_string s.

(** The loop over the program headers; [None] is a short read. *)
Fixpoint fixup_loop (n : nat) (i fd phoff : Z) (st : Z * bool) (dynamic : bool) :
    M (option (bool * bool)) :=
  match n with
  | O => ret (Some (snd st, dynamic))
  | S n' =>
      let* r := pread fd sizeof_Phdr (wrap_s 64 (phoff + i * sizeof_Phdr)) in
      match r with
      | None => ret None
      | Some b =>
          let ph := bytes_of b in
          if negb (zlength ph =? sizeof_Phdr) then ret None
          else
            let type := le_get (take 4 ph) in
            let align := le_get (take 8 (drop 48 ph)) in
            fixup_loop n' (i + 1) fd phoff (if type =? PT_LOAD then mix st align else st)
              (dynamic || (type =? PT_INTERP))
      end
  end.

Definition elf_needs_fixup (fd : Z) : M bool :=
  let* r := pread fd sizeof_Ehdr 0 in
  match r with
  | None => ret false
  | Some b =>
      let eh := bytes_of b in
      if negb (zlength eh =? sizeof_Ehdr) then ret false
      else if negb (bool_decide (take 4 eh = ELFMAG)) then ret false
      else if negb (le_get (take 1 (drop 4 eh)) =? ELFCLASS64) then ret false
      else
        let phnum := le_get (take 2 (drop 56 eh)) in
        let phentsize := le_get (take 2 (drop 54 eh)) in
        if (phnum =? 0) || negb (phentsize =? sizeof_Phdr) then ret false
        else
          let* v := fixup_loop (Z.to_nat phnum) 0 fd (le_get (take 8 (drop 32 eh))) (0, false) false in
          match v with
          | None => ret false
          | Some (mixed, dynamic) => ret (mixed && dynamic)
          end
  end.

(** The [fail] label of [execve]. *)
Definition execve_fail (fd : option Z) (px : list preexec_slot) (saved_errno : Z) :
    M (option unit) :=
  match fd with Some fd => close fd ;;* ret tt | None => ret tt end ;;*
  wslcompat_synth_preexec_restore px ;;*
  fail_with saved_errno.

(** The second attempt, through the dynamic loader. *)
Definition execve_interp (fd : Z) (pathname : string) (argv envp : option (list string))
    (px : list preexec_slot) : M (option unit) :=
  let argv := default [] argv in
  let* opts := getm options in
  let interp := default PTINTERP_DEFAULT (wslcompat_tunable_str opts "ptinterp" (Some PTINTERP_DEFAULT)) in
  let use_argv0 := libc_has_argv0 && wslcompat_tunable_bool opts "argv0" true in
  match new_argv interp pathname use_argv0 argv with
  | None => execve_fail (Some fd) px E2BIG
  | Some (a, _) =>
      exec (k_execve interp (Some (c_args a)) envp) ;;*
      let* e := get_errno in
      execve_fail (Some fd) px e
  end.

Definition execve (pathname : string) (argv envp : option (list string)) : M (option unit) :=
  let* off := wslcompat_passthru "execve" in
  if (off : bool) then exec (k_execve pathname argv envp) ;;* ret None
  else
    let* px := wslcompat_synth_preexec_save [] in
    exec (k_execve pathname argv envp) ;;*
    let* saved_errno := get_errno in
    if negb (saved_errno =? ENOEXEC) then execve_fail None px saved_errno
    else
      let* fd := open pathname (Z.lor O_RDONLY O_CLOEXEC) 0 in
      match fd with
      | None => execve_fail None px saved_errno
      | Some fd =>
          let* st := fstat fd in
          match st with
          | None => execve_fail (Some fd) px saved_errno
          | Some st =>
              if has_bits (st_mode st) (Z.lor S_ISUID S_ISGID)
              then execve_fail (Some fd) px saved_errno
              else
                let* fix_it := elf_needs_fixup fd in
                if (fix_it : bool) then execve_interp fd pathname argv envp px
                else execve_fail (Some fd) px saved_errno
          end
      end.

(** [EXEC_REPLACE_SHIM]. *)
Definition EXEC_REPLACE_SHIM (name : string) (c : call unit) : M (option unit) :=
  let* off := wslcompat_passthru name in
  if (off : bool) then exec c ;;* ret None
  else
    let* px := wslcompat_synth_preexec_save [] in
    exec c ;;*
    preserve_errno (wslcompat_synth_preexec_restore px) ;;*
    ret None.

Definition fexecve (fd : Z) (argv envp : option (list string)) : M (option unit) :=
  EXEC_REPLACE_SHIM "fexecve" (k_fexecve fd argv envp).
Definition execv (path : string) (argv : option (list string)) : M (option unit) :=
  EXEC_REPLACE_SHIM "execv" (k_execv path argv).
Definition execvp (file : string) (argv : option (list string)) : M (option unit) :=
  EXEC_REPLACE_SHIM "execvp" (k_execvp file argv).
Definition execvpe (file : string) (argv envp : option (list string)) : M (option unit) :=
  EXEC_REPLACE_SHIM "execvpe" (k_execvpe file argv envp).

(** The variadic forms; [None] when the call reads an argument of the wrong kind. *)
Definition execl (path arg0 : string) (ap : list vararg) : option (M (option unit)) :=
  r ← va_collect_argv ap arg0 MAX_NEW_ARGV; Some (execv path (Some (fst r))).
Definition execlp (file arg0 : string) (ap : list vararg) : option (M (option unit)) :=
  r ← va_collect_argv ap arg0 MAX_NEW_ARGV; Some (execvp file (Some (fst r))).
Definition execle (path arg0 : string) (ap : list vararg) : option (M (option unit)) :=
  r ← va_collect_argv ap arg0 MAX_NEW_ARGV;
  match snd r with
  | va_envp e :: _ => Some (execve path (Some (fst r)) (Some e))
  | va_null :: _ => Some (execve path (Some (fst r)) None)
  | _ => None
  end.

(** The fork-and-exec wrappers: the parent's descriptors are swapped around the call. *)
Definition around_spawn {A} (name : string) (m : M A) : M A :=
  let* off := wslcompat_passthru name in
  if (off : bool) then m
  else
    let* px := wslcompat_synth_preexec_save [] in
    let* r := m in
    preserve_errno (wslcompat_synth_preexec_restore px) ;;*
    ret r.

Definition system (cmd : option string) : M (option Z) := around_spawn "system" (sys (k_system cmd)).
Definition popen (cmd mode : string) : M (option Z) := around_spawn "popen" (sys (k_popen cmd mode)).

(** posix_spawn answers with an error number, and does not preserve errno. *)
Definition around_posix_spawn {A} (name : string) (m : M A) : M A :=
  let* off := wslcompat_passthru name in
  if (off : bool) then m
  else
    let* px := wslcompat_synth_preexec_save [] in
    let* r := m in
    wslcompat_synth_preexec_restore px ;;*
    ret r.

Definition posix_spawn (path : string) (argv envp : option (list string)) : M (option (Z * Z)) :=
  around_posix_spawn "posix_spawn" (sys (k_posix_spawn path argv envp)).
Definition posix_spawnp (file : string) (argv envp : option (list string)) : M (option (Z * Z)) :=
  around_posix_spawn "posix_spawnp" (sys (k_posix_spawnp file argv envp)).

(** ** execveat.c *)
Definition execveat_path (dirfd : Z) (pathname : string) : string :=
  match pathname with
  | "" => proc_self_fd dirfd
  | String c _ =>
      if bool_decide (c = "/"%char) then pathname
      else if dirfd =? AT_FDCWD then pathname
      else proc_self_fd dirfd +:+ "/" +:+ pathname
  end.

Definition is_relative (pathname : string) : bool :=
  match pathname with
  | String c _ => negb (bool_decide (c = "/"%char))
  | "" => true
  end.

Definition execveat (dirfd : Z) (pathname : option string) (argv envp : option (list string))
    (flags : Z) : M (option unit) :=
  let* off := wslcompat_passthru "execveat" in
  if (off : bool) then exec (k_execveat dirfd pathname argv envp flags) ;;* ret None
  else if has_bits flags (Z.lnot (Z.lor AT_EMPTY_PATH AT_SYMLINK_NOFOLLOW)) then fail_with EINVAL
  else
    match pathname with
    | None => fail_with EFAULT
    | Some path =>
        if bool_decide (path = "") && negb (has_bits flags AT_EMPTY_PATH) then fail_with ENOENT
        else
          let* bad := (if negb (dirfd =? AT_FDCWD) && is_relative path then
                         let* r := fcntl dirfd F_GETFD (arg_int 0) in
                         ret (match fst r with None => true | Some _ => false end)
                       else ret false) in
          if (bad : bool) then ret None
          else
            let* link := (if has_bits flags AT_SYMLINK_NOFOLLOW then
                            let* r := sys (k_fstatat dirfd path AT_SYMLINK_NOFOLLOW) in
                            ret (match r with
                                 | Some st => Z.land (st_mode st) S_IFMT =? S_IFLNK
                                 | None => false
                                 end)
                          else ret false) in
            if (link : bool) then fail_with ELOOP
            else
              let buf := execveat_path dirfd path in
              if (PATH_MAX <=? String.length buf)%nat then fail_with ENAMETOOLONG
              else execve buf argv envp
    end.
End execve.

(** ** The argument vector *)
Section argv.

(** The array holding [xs] and null pointers after them. *)
Definition arr (xs : list string) : list (option string) :=
  (Some <$> xs) ++ replicate (MAX_NEW_ARGV - length xs) None.

Lemma c_args_arr xs : c_args (arr xs) = xs.
Proof.
  unfold arr. generalize (MAX_NEW_ARGV - length xs)%nat. intros n.
  induction xs as [|x xs IH]; [by destruct n|]. cbn. f_equal. exact IH.
Qed.

Lemma push_some xs v :
  (length xs < MAX_NEW_ARGV)%nat →
  argv_push (arr xs, length xs) (Some v) = (arr (xs ++ [v]), length (xs ++ [v])).
Proof.
  intros Hl. unfold argv_push, arr. cbn [fst snd]. rewrite length_app, Nat.add_1_r. f_equal.
  rewrite insert_app_r_alt by (by rewrite length_fmap). rewrite length_fmap, Nat.sub_diag.
  replace (MAX_NEW_ARGV - length xs)%nat with (S (MAX_NEW_ARGV - S (length xs))) by lia.
  rewrite fmap_app, <-app_assoc. done.
Qed.

Lemma push_none xs :
  (length xs < MAX_NEW_ARGV)%nat → argv_push (arr xs, length xs) None = (arr xs, S (length xs)).
Proof.
  intros Hl. unfold argv_push, arr. cbn [fst snd]. f_equal.
  rewrite insert_app_r_alt by (by rewrite length_fmap). rewrite length_fmap, Nat.sub_diag.
  by replace (MAX_NEW_ARGV - length xs)%nat with (S (MAX_NEW_ARGV - S (length xs))) by lia.
Qed.

Lemma copy_args_spec argv xs :
  (length xs < MAX_NEW_ARGV)%nat →
  copy_args argv (arr xs, length xs) =
    if (length xs + length argv <? MAX_NEW_ARGV)%nat
    then Some (arr (xs ++ tail argv), length xs + length argv)%nat else None.
Proof.
  revert xs. induction argv as [|x argv IH]; intros xs Hl; cbn [copy_args].
  { rewrite Nat.add_0_r. apply Nat.ltb_lt in Hl. rewrite Hl. simpl. by rewrite app_nil_r. }
  destruct argv as [|y argv].
  - cbn [head]. rewrite push_none by done. cbn [snd length tail].
    rewrite app_nil_r, Nat.add_1_r. destruct (_ <=? _)%nat eqn:E.
    + apply Nat.leb_le in E. by replace (S (length xs) <? MAX_NEW_ARGV)%nat with false
        by (symmetry; apply Nat.ltb_ge; lia).
    + apply Nat.leb_gt in E. by replace (S (length xs) <? MAX_NEW_ARGV)%nat with true
        by (symmetry; by apply Nat.ltb_lt).
  - cbn [head]. rewrite push_some by done. cbn [snd]. destruct (_ <=? _)%nat eqn:E.
    + apply Nat.leb_le in E. rewrite length_app in E. cbn [length] in *.
      by replace (length xs + S (S (length argv)) <? MAX_NEW_ARGV)%nat with false
        by (symmetry; apply Nat.ltb_ge; lia).
    + apply Nat.leb_gt in E. rewrite IH by done. rewrite length_app. cbn [length tail].
      rewrite <-app_assoc. cbn [app].
      by replace (length xs + 1 + S (length argv))%nat with (length xs + S (S (length argv)))%nat by lia.
Qed.
End argv.

(** The vector handed to the loader: the loader, optionally the name the program is to see, the
    program, and the caller's arguments from the second on; refused exactly when it does not fit
    the array with its terminator. *)
Theorem new_argv_spec interp pathname (use_argv0 : bool) argv :
  let pre : list string := [interp] ++ (if use_argv0 then ["--argv0"; default pathname (head argv)] else []) ++
             [pathname] in
  match new_argv interp pathname use_argv0 argv with
  | Some (a, _) => (length pre + length argv < MAX_NEW_ARGV)%nat ∧ c_args a = pre ++ tail argv
  | None => (MAX_NEW_ARGV ≤ length pre + length argv)%nat
  end.
Proof.
  intros pre. assert (copy_args argv (arr pre, length pre) = new_argv interp pathname use_argv0 argv)
    as <-.
  { unfold new_argv, pre. by destruct use_argv0. }
  rewrite copy_args_spec by (unfold pre; destruct use_argv0; simpl; unfold MAX_NEW_ARGV; lia).
  destruct (_ <? _)%nat eqn:E; [apply Nat.ltb_lt in E|by apply Nat.ltb_ge in E].
  split; [done|apply c_args_arr].
Qed.

(** ** The ELF decision, against the contents of the file *)
Section decision.
Context {W : Type} `{!Kernel W, !Handlers W}.

(** In the world [w] descriptor [fd] reads the bytes [content]; reading changes nothing. *)
Definition reads (fd : Z) (content : list Z) (w : W) : Prop :=
  ∀ n off, 0 ≤ n → 0 ≤ off →
    ∃ b, kstep (k_pread fd n off) w = (inl b, w) ∧
         bytes_of b = take (Z.to_nat n) (drop (Z.to_nat off) content).

Lemma pread_reads fd content n off (s : st W) :
  reads fd content (s_world s) → 0 ≤ n → 0 ≤ off →
  ∃ b, pread fd n off s = Ret (Some b) s ∧
       bytes_of b = take (Z.to_nat n) (drop (Z.to_nat off) content).
Proof.
  intros Hr Hn Ho. destruct (Hr n off Hn Ho) as (b & E & Hb). exists b.
  split; [|done]. unfold pread, SYNTH_SHIM_E, sys at 1. unfold bind at 1. rewrite E.
  by destruct s.
Qed.

Definition has_interp (mem : list Z) (phoff phnum i : Z) : bool :=
  existsb (λ j, bool_decide (p_type mem phoff j = Some PT_INTERP)) (seqZ i (phnum - i)).

Lemma has_interp_cons mem phoff phnum i :
  i < phnum → has_interp mem phoff phnum i =
    bool_decide (p_type mem phoff i = Some PT_INTERP) || has_interp mem phoff phnum (i + 1).
Proof.
  intros Hi. unfold has_interp. rewrite seqZ_cons by lia. cbn [existsb]. do 3 f_equal; lia.
Qed.

(** The fields of a header read as a block of bytes. *)
Lemma field_of mem off k n len :
  0 ≤ off → 0 ≤ k → (Z.to_nat k + n ≤ len)%nat → off + Z.of_nat len ≤ zlength mem →
  load mem (off + k) n = Some (le_get (take n (drop (Z.to_nat k) (take len (drop (Z.to_nat off) mem))))).
Proof.
  intros Ho Hk Hn Hl. unfold load.
  assert (in_bounds mem (off + k) n = true) as -> by (apply in_bounds_true; lia).
  do 2 f_equal. rewrite (take_drop_commute (take len _)), take_take, Nat.min_l by lia.
  rewrite <-take_drop_commute, drop_drop. do 2 f_equal. lia.
Qed.

Context (fd : Z) (content : list Z) (phoff phnum : Z) (s : State.st W).
Hypothesis Hread : reads fd content (s_world s).
Hypothesis Helf : elf64 content phoff phnum.

Lemma fixup_loop_spec n i st dynamic :
  0 ≤ i → phnum = i + Z.of_nat n →
  fixup_loop n i fd phoff st dynamic s =
    Ret (Some (snd (foldl mix st (load_aligns content phoff phnum i)),
               dynamic || has_interp content phoff phnum i)) s.
Proof using All.
  pose proof (elf_wf _ _ _ Helf) as Hwf. pose proof Hwf as [_ _ H1 H2 H3].
  revert i st dynamic. induction n as [|n IH]; intros i st dynamic Hi Hn; cbn [fixup_loop].
  { unfold load_aligns, has_interp. rewrite seqZ_nil by lia. simpl. by rewrite orb_false_r. }
  assert (0 ≤ i < phnum) as Hip by lia.
  assert (wrap_s 64 (phoff + i * sizeof_Phdr) = phoff + i * sizeof_Phdr) as ->.
  { pose proof (phdr_at_id phoff phnum content i 0 Hwf Hip ltac:(lia)) as E.
    unfold phdr_at in E. by rewrite !Z.add_0_r in E. }
  unfold sizeof_Ehdr, sizeof_Phdr in *.
  destruct (pread_reads fd content 56 (phoff + i * 56) s Hread) as (b & E & Hb); [lia..|].
  rewrite (bind_Ret _ _ _ _ _ E), Hb.
  assert (zlength (take (Z.to_nat 56) (drop (Z.to_nat (phoff + i * 56)) content)) = 56) as ->.
  { unfold zlength in *. rewrite length_take, length_drop. lia. }
  rewrite Z.eqb_refl. cbn [negb].
  pose proof (field_of content (phoff + i * 56) 0 4 56) as Ht. rewrite Z.add_0_r in Ht.
  specialize (Ht ltac:(lia) ltac:(lia) ltac:(simpl; lia) ltac:(lia)).
  pose proof (field_of content (phoff + i * 56) 48 8 56) as Ha.
  specialize (Ha ltac:(lia) ltac:(lia) ltac:(lia) ltac:(lia)).
  change (Z.to_nat 56) with 56%nat. change (Z.to_nat 48) with 48%nat in Ha.
  change (drop (Z.to_nat 0) ?l) with l in Ht.
  rewrite IH by lia. rewrite (load_aligns_cons _ _ _ i), (has_interp_cons _ _ _ i) by lia. unfold load_align.
  unfold p_type, p_align, sizeof_Phdr. rewrite Ht, Ha.
  set (t := le_get (take 4 _)). do 3 f_equal.
  - by destruct (t =? PT_LOAD).
  - rewrite <-orb_assoc. do 2 f_equal. destruct (Z.eqb_spec t PT_INTERP) as [->|Hne].
    + by rewrite bool_decide_true.
    + rewrite bool_decide_false; [done|]. congruence.
Qed.

Lemma elf_fixup_run :
  elf_needs_fixup fd s =
    Ret (mixed_aligns (load_aligns content phoff phnum 0) && has_interp content phoff phnum 0) s.
Proof using All.
  pose proof Helf as [Hwf Hmag Hcl Hoff Hent Hne].
  pose proof (wf_phnum_range _ _ _ Hwf) as Hr. pose proof Hwf as [_ Hnum H1 H2 H3].
  unfold elf_needs_fixup. unfold sizeof_Ehdr in *.
  destruct (pread_reads fd content 64 0 s Hread) as (b & E & Hb); [lia..|].
  rewrite (bind_Ret _ _ _ _ _ E), Hb. change (drop (Z.to_nat 0) content) with content.
  change (Z.to_nat 64) with 64%nat.
  assert (∀ k n, 0 ≤ k → (Z.to_nat k + n ≤ 64)%nat →
    load content k n = Some (le_get (take n (drop (Z.to_nat k) (take 64 content))))) as Hf.
  { intros k n Hk Hn. by rewrite <-(Z.add_0_l k) at 1; apply (field_of content 0 k n 64); [lia..|unfold sizeof_Phdr in *; lia]. }
  assert (zlength (take 64 content) = 64) as ->.
  { unfold zlength in *. rewrite length_take. unfold sizeof_Phdr in *. lia. }
  rewrite take_take. change (4 `min` 64)%nat with 4%nat. rewrite Hmag, bool_decide_true by done.
  cbn [negb]. rewrite Z.eqb_refl. cbn [negb].
  unfold off_class, off_phoff, off_phnum, off_phentsize in *.
  rewrite Hf in Hcl, Hoff, Hent, Hnum by (try lia; vm_compute; lia).
  injection Hcl as Hcl. injection Hoff as Hoff. injection Hent as Hent. injection Hnum as Hnum.
  change (drop 4 (take 64 content)) with (drop (Z.to_nat 4) (take 64 content)). rewrite Hcl.
  change (drop 56 (take 64 content)) with (drop (Z.to_nat 56) (take 64 content)). rewrite Hnum.
  change (drop 54 (take 64 content)) with (drop (Z.to_nat 54) (take 64 content)). rewrite Hent.
  change (drop 32 (take 64 content)) with (drop (Z.to_nat 32) (take 64 content)). rewrite Hoff.
  rewrite !Z.eqb_refl. cbn [negb]. apply Z.eqb_neq in Hne. rewrite Hne. cbn [orb].
  erewrite bind_Ret by (apply fixup_loop_spec; lia). done.
Qed.
End decision.


(** A file that [elfclamp] has treated is one exec takes as it is: the shim does not ask for the
    loader again. *)
Theorem elfclamp_cures_exec {W} `{!Kernel W, !Handlers W} fd mem mem' phoff phnum
    (s : State.st W) :
  elf64 mem phoff phnum → load_aligns mem phoff phnum 0 ≠ [] →
  snd <$> elfclamp mem = Some mem' → reads fd mem' (s_world s) →
  elf_needs_fixup fd s = Ret false s.
Proof.
  intros Helf Hld He Hr. destruct (elfclamp_run _ _ _ Helf Hld) as (c & m & E & Hc).
  rewrite E in He. injection He as ->. pose proof (clamped_elf64 _ _ _ _ _ Helf Hc) as Helf'.
  rewrite (elf_fixup_run fd mem' phoff phnum) by done.
  by erewrite mixed_uniform by (eapply clamped_aligns; [by destruct Helf|done]).
Qed.

(** ** What a failed exec reports *)
Section outcome.
Context {W : Type} `{!Kernel W, !Handlers W} {Hfuel : Fuel}.
Variable libc_has_argv0 : bool.

Lemma execve_fail_run fd px e (s s' : State.st W) r :
  execve_fail fd px e s = Ret r s' → r = None ∧ s_errno s' = e.
Proof. unfold execve_fail. intros H. do 2 run_inv H. by injection H as <- <-. Qed.

Lemma execve_interp_run fd path argv envp px (s s' : State.st W) r :
  execve_interp libc_has_argv0 fd path argv envp px s = Ret r s' → r = None.
Proof.
  unfold execve_interp. rewrite bind_getm. destruct (new_argv _ _ _ _) as [[a p]|].
  - intros H. do 2 run_inv H. by apply execve_fail_run in H as [-> _].
  - intros H. by apply execve_fail_run in H as [-> _].
Qed.

Lemma exec_Ret c (s s' : State.st W) u :
  exec c s = Ret u s' → ∃ e w, kstep c (s_world s) = (inr e, w) ∧ s' = mkst (s_mem s) w e.
Proof.
  unfold exec, sys, bind. destruct (kstep c (s_world s)) as [[r|e] w]; [done|].
  intros [= _ <-]. eauto.
Qed.

(** When [execve] comes back it answers -1. The kernel was asked with the caller's own arguments,
    after the synthetic descriptors had been swapped out; an error other than ENOEXEC is reported
    as the kernel gave it, whatever putting the descriptors back did to errno. *)
Theorem execve_reports path argv envp (s s' : State.st W) r :
  wslcompat_enabled (s_mem s) "execve" = true →
  execve libc_has_argv0 path argv envp s = Ret r s' →
  r = None ∧ ∃ px s1 e w,
    wslcompat_synth_preexec_save [] s = Ret px s1 ∧
    kstep (k_execve path argv envp) (s_world s1) = (inr e, w) ∧ (e ≠ ENOEXEC → s_errno s' = e).
Proof.
  intros Hen H. unfold execve, wslcompat_passthru in H. rewrite bind_getm, Hen in H.
  cbn [negb] in H. run_inv H. run_inv H. apply exec_Ret in E0 as (e & w & Ek & ->).
  rewrite bind_get_errno in H. cbn [s_errno] in H.
  destruct (e =? ENOEXEC) eqn:He; cbn [negb] in H.
  - apply Z.eqb_eq in He. split; [|by exists r0, s0, e, w].
    run_inv H. destruct r2 as [fd|]; [|by apply execve_fail_run in H as [-> _]].
    run_inv H. destruct r2 as [stt|]; [|by apply execve_fail_run in H as [-> _]].
    destruct (has_bits _ _); [by apply execve_fail_run in H as [-> _]|].
    run_inv H. destruct r2; [by apply execve_interp_run in H|by apply execve_fail_run in H as [-> _]].
  - apply execve_fail_run in H as [-> Hs]. split; [done|]. exists r0, s0, e, w. auto.
Qed.

(** The exec wrappers answer -1 with the errno of the kernel. *)
Lemma exec_replace_reports name c (s s' : State.st W) r :
  wslcompat_enabled (s_mem s) name = true → EXEC_REPLACE_SHIM name c s = Ret r s' →
  r = None ∧ ∃ px s1 e w,
    wslcompat_synth_preexec_save [] s = Ret px s1 ∧
    kstep c (s_world s1) = (inr e, w) ∧ s_errno s' = e.
Proof.
  intros Hen H. unfold EXEC_REPLACE_SHIM, wslcompat_passthru in H. rewrite bind_getm, Hen in H.
  cbn [negb] in H. do 3 run_inv H. injection H as <- <-. split; [done|].
  apply exec_Ret in E0 as (e & w & Ek & ->). exists r0, s0, e, w. split; [done|]. split; [done|].
  apply preserve_errno_run in E1. done.
Qed.

(** ** The variadic forms *)
Lemma va_collect_strings n args rest :
  (length args < n)%nat → va_collect n ((va_str <$> args) ++ va_null :: rest) = Some (args, rest).
Proof.
  revert n. induction args as [|a args IH]; intros [|n] Hn; csimpl in *; try lia; [done|].
  by rewrite IH by lia.
Qed.

Lemma va_collect_full args rest :
  va_collect (length args) ((va_str <$> args) ++ rest) = Some (args, rest).
Proof. induction args as [|a args IH]; csimpl; [done|]. by rewrite IH. Qed.

(** With at most 1022 arguments, program name included, [execle] is [execve] with them and with
    the environment given. With exactly one more it takes the terminating null pointer for the
    environment: the program is run without the one given. *)
Theorem execle_arguments path arg0 args env :
  if (length args <? MAX_NEW_ARGV - 2)%nat then
    execle (W:=W) libc_has_argv0 path arg0 ((va_str <$> args) ++ [va_null; va_envp env]) =
      Some (execve libc_has_argv0 path (Some (arg0 :: args)) (Some env))
  else length args = (MAX_NEW_ARGV - 2)%nat →
    execle (W:=W) libc_has_argv0 path arg0 ((va_str <$> args) ++ [va_null; va_envp env]) =
      Some (execve libc_has_argv0 path (Some (arg0 :: args)) None).
Proof.
  destruct (_ <? _)%nat eqn:E; [apply Nat.ltb_lt in E|intros El]; unfold execle, va_collect_argv.
  - rewrite va_collect_strings by done. done.
  - rewrite <-El, va_collect_full. done.
Qed.
End outcome.

(** ** Concrete files *)
Module FileKernel.
Definition str_of (l : list Z) : string :=
  String.string_of_list_ascii ((λ b, Ascii.ascii_of_nat (Z.to_nat b)) <$> l).

Lemma bytes_of_str l : Forall byte l → bytes_of (str_of l) = l.
Proof.
  unfold bytes_of, str_of. rewrite String.list_ascii_of_string_of_list_ascii.
  induction 1 as [|b l Hb _ IH]; [done|]. simpl. unfold byte in Hb. f_equal; [|exact IH].
  unfold chr. rewrite Ascii.nat_ascii_embedding by lia. lia.
Qed.

(** A kernel whose every descriptor reads the file [w]; exec fails with ENOEXEC. *)
Definition step {R} (c : call R) (w : list Z) : (R + Z) * list Z :=
  match c in call R return (R + Z) * list Z with
  | k_pread _ n off => (inl (str_of (take (Z.to_nat n) (drop (Z.to_nat off) w))), w)
  | k_execve path _ _ => (inr (if String.eqb path "/bin/mixed" then ENOEXEC else ENOENT), w)
  | k_open _ _ _ => (inr ENOENT, w)
  | _ => (inr ENOSYS, w)
  end.
#[global] Instance kernel : Kernel (list Z) := {| kstep := @step; kpid := λ _, 1 |}.
#[local] Instance demo_fuel : Fuel := 8%nat.

Lemma reads_world fd w : Forall byte w → reads fd w w.
Proof.
  intros Hb n off _ _. eexists. split; [done|]. apply bytes_of_str. by apply Forall_take, Forall_drop.
Qed.

Definition s (w : list Z) : st (list Z) := mkst init_mem w 0.
Definition treated : list Z := match elfclamp ElfDemo.mixed with Some (_, m) => m | None => [] end.
Definition failed : st (list Z) :=
  match execve true "/bin/none" (Some ["none"]) None (s []) with Ret _ s' => s' | _ => s [] end.
End FileKernel.
#[local] Existing Instance FileKernel.demo_fuel.


Lemma elfclamp_cures_exec_witness :
  elf_needs_fixup 3 (FileKernel.s FileKernel.treated) = Ret false (FileKernel.s FileKernel.treated).
Proof.
  apply (elfclamp_cures_exec 3 ElfDemo.mixed FileKernel.treated 64 3).
  - apply ElfDemo.mixed_elf.
  - by vm_compute.
  - by vm_compute.
  - apply FileKernel.reads_world. apply (bool_decide_unpack _). by vm_compute.
Defined.

Lemma execve_reports_witness :
  s_errno FileKernel.failed = ENOENT ∧
  ∃ px s1 e w, wslcompat_synth_preexec_save [] (FileKernel.s []) = Ret px s1 ∧
    kstep (k_execve "/bin/none" (Some ["none"]) None) (s_world s1) = (inr e, w) ∧
    (e ≠ ENOEXEC → s_errno FileKernel.failed = e).
Proof.
  split; [by vm_compute|].
  apply (execve_reports true "/bin/none" (Some ["none"]) None (FileKernel.s []) FileKernel.failed None);
    by vm_compute.
Defined.

Lemma execle_arguments_witness :
  execle (W:=list Z) true "/bin/none" "none" ((va_str <$> ["-v"]) ++ [va_null; va_envp ["A=1"]]) =
    Some (execve true "/bin/none" (Some ["none"; "-v"]) (Some ["A=1"])).
Proof. exact (execle_arguments true "/bin/none" "none" ["-v"] ["A=1"]). Defined.
