(* ===== verification/PreexecFacts.v ===== *)
(** * Descriptors across exec: what the new image sees, and what comes back

    The save and restore of synth.c against the interface of the descriptor table: a process image
    started in between finds the terminals behind the wrapped descriptors, and when there is none every
    descriptor is back where it was. *)

From stdpp Require Import gmap.
From S2P Require Import Prelude CString Kernel State Tunables Override Walk Internal Synth SynthFrames SynthFacts Close Tty Proc Dispatch Handlers FdTable TabKernel Preexec Execve.

Open Scope Z_scope.

#[local] Opaque SYNTH_TABLE_SIZE SYNTH_PREEXEC_MAX.

(** Entry [i] wraps a terminal that it still has open. *)
Definition backed (m : mem) (i : nat) : Prop := e_ops (entry_at m i) = h_tty ∧ real_of m i ≠ -1.

#[export] Instance backed_dec m i : Decision (backed m i).
Proof. unfold backed. apply _. Defined.

(** ** The candidates *)
Definition wrapb (m : mem) (s : stat) : bool :=
  existsb (λ i, live_match s (entry_at m i)) (seq 0 SYNTH_TABLE_SIZE).

Lemma wrapb_spec m s : wrapb m s = true ↔ is_wrap m s.
Proof.
  unfold wrapb. rewrite existsb_exists. split.
  - intros (i & Hi%list_elem_of_In%elem_of_seq & Hm). exists i. apply live_match_wraps; [lia|done].
  - intros (i & Hw). destruct (Hw) as [[Hi _] _]. exists i. split; [apply list_elem_of_In, elem_of_seq; lia|].
    by apply live_match_wraps.
Qed.

Definition is_candidate (m : mem) (T : gmap Z fdesc) (fd : Z) : bool :=
  match T !! fd with Some x => wrapb m (d_stat x) | None => false end.

Definition collect (m : mem) (T : gmap Z fdesc) (fd : Z) (c : list Z) : bool * list Z :=
  if (SYNTH_PREEXEC_MAX <=? length c)%nat then (true, c)
  else (false, if is_candidate m T fd then c ++ [fd] else c).

Lemma scan_collect m T l c :
  (length c ≤ SYNTH_PREEXEC_MAX)%nat →
  scan (collect m T) l c = take SYNTH_PREEXEC_MAX (c ++ filter (λ fd, is_candidate m T fd = true) l).
Proof.
  revert c. induction l as [|fd l IH]; intros c Hc; cbn [scan].
  - rewrite app_nil_r, take_ge by lia. done.
  - rewrite filter_cons. unfold collect at 1. destruct (Nat.leb_spec SYNTH_PREEXEC_MAX (length c)).
    + rewrite take_app_le, take_ge by lia. done.
    + destruct (is_candidate m T fd) eqn:E.
      * rewrite decide_True by done. rewrite IH by (rewrite length_app; simpl; lia).
        by rewrite <-app_assoc.
      * rewrite decide_False by congruence. by apply IH.
Qed.

Section preexec.
Context {W : Type} `{!Kernel W, !KernelProcFd W, !KernelTable W, !KernelPid W} {Hfuel : Fuel}.
Variables id t : Z.
Local Abbreviation calm := (calm id t).

(** ** Collecting *)
Lemma calm_walking d m (w w' : W) : calm m w → walking w d w' → calm m w'.
Proof.
  intros C (Hd & (x & Ht) & Hk). apply (calm_retable _ _ m w); [done..| |].
  - intros fd Hint. rewrite Ht, lookup_insert_ne; [done|]. intros ->.
    assert (is_Some (tab w' !! fd)) as Hs by (rewrite Ht, lookup_insert_eq; eauto). apply tab_range in Hs.
    destruct (internal_open _ _ m w fd C Hint) as [|[y Hy]]; [lia|congruence].
  - intros i Hl. destruct (calm_holder _ _ _ _ C i Hl) as (fd & y & Hy & H). exists fd, y.
    rewrite Ht, lookup_insert_ne by congruence. done.
Qed.

Lemma collect_run m (w : W) e :
  calm m w → spacious 4 w →
  ∃ l w' e', wslcompat_walk_proc_self_fd preexec_collect_visit [] (mkst m w e)
             = Ret (take SYNTH_PREEXEC_MAX (filter (λ fd, is_candidate m (tab w) fd = true) l)) (mkst m w' e') ∧
    tab w' = tab w ∧ kpid w' = kpid w ∧ NoDup l ∧ ∀ fd, fd ∈ l ↔ is_Some (tab w !! fd).
Proof.
  intros C [Hr Hf].
  edestruct (walk_pure preexec_collect_visit (collect m (tab w)) m w) with (u := @nil Z) (e := e)
    as (l & w' & e' & E & H); [|lia|lia|].
  - intros d w1 fd c e1 Hw [x Hx]. unfold preexec_collect_visit, collect, is_candidate. rewrite Hx.
    destruct (_ <=? _)%nat; [by exists e1|]. pose proof (calm_walking d m w w1 C Hw) as C1.
    destruct Hw as (Hd & (y & Ht) & _).
    assert (tab w1 !! fd = Some x) as Hx1 by (rewrite Ht, lookup_insert_ne by congruence; done).
    destruct (pin_fd_cases _ _ fd x m w1 e1 C1 Hx1) as [(i & Hi & Ep)|[Hn Ep]]; rewrite (bind_Ret _ _ _ _ _ Ep).
    + rewrite (proj2 (wrapb_spec m (d_stat x))) by (by exists i).
      rewrite (bind_Ret _ _ _ _ _ (unpin_pin i m w1 e1 (calm_len _ _ _ _ C) (proj1 Hi))). by exists e1.
    + destruct (wrapb m (d_stat x)) eqn:Eb; [|by exists e1]. by apply wrapb_spec in Eb.
  - exists l, w', e'. split; [|done]. rewrite E, scan_collect by (simpl; lia). done.
Qed.

(** ** Saving one descriptor *)

(** The backing that the passthru callback of entry [i] reports, -1 if it has none. *)
Definition backing (m : mem) (i : nat) : Z := if decide (backed m i) then real_of m i else -1.

Lemma passthru_backing i m (w : W) e :
  calm m w → live m i →
  (let* o := entry_ops i in
   match op_passthru o with Some f => f i SYNTH_OP_PREEXEC | None => ret (-1) end) (mkst (pin i m) w e)
  = Ret (backing m i) (mkst (pin i m) w e).
Proof.
  intros C Hl. destruct (calm_ident _ _ _ _ C i Hl) as [Hi Ht]. unfold entry_ops. rewrite bind_getm.
  cbn [s_mem]. rewrite (pin_same e_ops) by done. unfold backing.
  assert (e_ops (entry_at m i) ≠ h_tty → (if decide (backed m i) then real_of m i else -1) = -1) as Hnt
    by (intros ?; rewrite decide_False by (intros [? _]; done); done).
  destruct (e_ops (entry_at m i)) eqn:Eo; [by rewrite Hnt| |by rewrite Hnt..].
  cbn [ops_of lib_handlers tty_ops op_passthru]. unfold tty_passthru, tty_of, tty_real_fd_load.
  rewrite bind_getm. cbn [s_mem]. rewrite (load_base id t).
  - cbn [view_base]. change (real_fd (tty_at (pin i m) (tty_slot (pin i m) i))) with (real_of (pin i m) i).
    rewrite pin_real. case_decide as Hd; [done|]. destruct (decide (real_of m i = -1)) as [->|]; [done|by destruct Hd].
  - apply (calm_cache _ _ _ _ C).
  - apply (calm_pid _ _ _ _ C).
  - cbn [view_entry]. by rewrite (pin_same install_pid).
  - cbn [view_entry]. by rewrite (pin_same install_starttime).
Qed.

(** A backed descriptor is replaced by its backing and parked on a new number. *)
Definition saves (fd : Z) (x : fdesc) (i : nat) (m : mem) (T : gmap Z fdesc) (saved : Z) (m' : mem)
    (T' : gmap Z fdesc) : Prop :=
  ∃ y T1, T !! real_of m i = Some y ∧ T !! saved = None ∧
    shifted i fd x m (<[saved := with_cloexec true x]> T) m' T1 ∧
    T' = <[fd := with_cloexec (d_cloexec x) y]> T1 ∧ ¬ internal m' fd ∧ ¬ internal m' saved.

Lemma shifted_internal i fd x m (w : W) T m' T' n :
  calm m w → tab w !! n = None → 0 ≤ n → is_Some (T !! n) → shifted i fd x m T m' T' → ¬ internal m' n.
Proof.
  intros C Hn H0 HT Hsh Hint.
  assert (¬ internal m n) as Hm.
  { intros Hi. destruct (internal_open _ _ m w n C Hi) as [|[z Hz]]; [lia|congruence]. }
  destruct Hsh as [[-> _]|(k & _ & Hk & -> & _)]; [done|]. apply Hm.
  destruct Hint as [(j & Hj & [E|[Ho E]])|(sl & Hsl & E)]; [rewrite move_live in Hj..|].
  - rewrite move_entry in E. case_decide; [|left; eauto]. cbn [probe_fd set_probe_fd] in E. subst k.
    rewrite Hk in HT. by destruct HT.
  - rewrite (move_same e_ops) in Ho by done. rewrite move_real in E. left; eauto.
  - right; eauto.
Qed.

Lemma save_one_swaps fd x i sl m (w : W) e :
  calm m w → spacious 6 w → tab w !! fd = Some x → wraps m i (d_stat x) → backed m i →
  ∃ saved m' w' e', preexec_save_one fd sl (mkst m w e) =
      Ret (sl ++ [{| user_fd := fd; saved_fd := saved; orig_cloexec := d_cloexec x |}]) (mkst m' w' e') ∧
    calm m' w' ∧ saves fd x i m (tab w) saved m' (tab w').
Proof.
  intros C [Hr Hf] Hx Hw Hb. destruct (Hw) as [Hl _]. destruct (Hb) as [Ho Hne].
  destruct (calm_real _ _ _ _ C i Hl Ho) as [|(y & Hy & Hyw)]; [done|].
  assert (real_of m i ≠ fd) as Hrf by (intros E; apply Hyw; exists i; rewrite E in Hy; by simplify_eq).
  assert (0 ≤ real_of m i) as Hr0 by (apply (tab_range w); eauto).
  destruct (tab_dupfd fd (Z.of_nat SYNTH_TABLE_SIZE) w x Hx) as (n & w1 & E1 & Hn & Hfree & Ht1).
  { by vm_compute. } { lia. }
  pose proof (kstep_pid _ (k_fcntl fd F_DUPFD_CLOEXEC (arg_int (Z.of_nat SYNTH_TABLE_SIZE))) w) as Hk.
  rewrite E1 in Hk. cbn [snd] in Hk.
  assert (walking w n w1) as Hw1 by (split_and!; eauto).
  pose proof (calm_walking n m w w1 C Hw1) as C1.
  assert (∀ k z, tab w !! k = Some z → tab w1 !! k = Some z) as Hgrow.
  { intros k z Hz. rewrite Ht1, lookup_insert_ne by congruence. done. }
  assert (held_beside fd m w1) as Hheld.
  { intros j Hj. destruct (calm_holder _ _ _ _ C j Hj) as (h & z & Hz & Hzs & Hzw).
    destruct (decide (h = fd)) as [->|]; [|exists h, z; eauto].
    exists n, (with_cloexec true z). simplify_eq. split; [congruence|]. rewrite Ht1, lookup_insert_eq. done. }
  destruct (dup3_over_wrap _ _ (real_of m i) fd (d_cloexec x) i x y m w1 e C1) as (m2 & w2 & e2 & T & E2 & C2 & Hi2 & Hsh & Ht2);
    [eauto..|done|done| |].
  { unfold spacious. rewrite Ht1, map_size_insert_None by done. lia. }
  exists n, m2, w2, e2. split; [|split; [done|]].
  - unfold preexec_save_one. rewrite (bind_Ret _ _ _ _ _ (pin_wrap _ _ i fd x m w e C Hx Hw)).
    rewrite <-bind_assoc, (bind_Ret _ _ _ _ _ (passthru_backing i m w e C Hl)).
    unfold backing. rewrite decide_True by done.
    rewrite (bind_Ret _ _ _ _ _ (unpin_pin i m w e (calm_len _ _ _ _ C) Hl)).
    rewrite (proj2 (Z.ltb_ge _ _)) by done.
    unfold bind at 1, sys. cbn [s_world s_mem s_errno]. rewrite (tab_getfd fd w x Hx).
    unfold bind at 1. cbn [s_world s_mem s_errno]. rewrite E1.
    assert ((0 <=? (if d_cloexec x then FD_CLOEXEC else 0)) && has_bits (if d_cloexec x then FD_CLOEXEC else 0) FD_CLOEXEC
            = d_cloexec x) as -> by (by destruct (d_cloexec x)).
    by rewrite (bind_Ret _ _ _ _ _ E2).
  - exists y, T. rewrite <-Ht1. split_and!; [done..|].
    eapply (shifted_internal i fd x m w); [done|done|lia| |done]. rewrite Ht1, lookup_insert_eq. eauto.
Qed.

(** A descriptor that is not synthetic, or has no backing, is left alone. *)
Lemma save_one_skips fd x sl m (w : W) e :
  calm m w → tab w !! fd = Some x → (∀ i, wraps m i (d_stat x) → ¬ backed m i) →
  preexec_save_one fd sl (mkst m w e) = Ret sl (mkst m w e).
Proof.
  intros C Hx Hnb. unfold preexec_save_one.
  destruct (pin_fd_cases _ _ fd x m w e C Hx) as [(i & Hw & E)|[_ E]]; rewrite (bind_Ret _ _ _ _ _ E); [|done].
  rewrite <-bind_assoc, (bind_Ret _ _ _ _ _ (passthru_backing i m w e C (proj1 Hw))).
  unfold backing. rewrite decide_False by (by apply Hnb).
  by rewrite (bind_Ret _ _ _ _ _ (unpin_pin i m w e (calm_len _ _ _ _ C) (proj1 Hw))).
Qed.

(** ** The state between save and restore *)

(** Probes may have moved; nothing else of the memory changed. *)
Definition moves : relation mem := rtc (λ m m', ∃ i n, m' = move i n m).

Lemma moves_same {A} (g : mem → A) m m' :
  (∀ i n m, g (move i n m) = g m) → moves m m' → g m' = g m.
Proof. intros Hg. induction 1 as [|m1 m2 m3 (i & n & ->) _ IH]; [done|]. by rewrite IH, Hg. Qed.

Lemma moves_iff (P : mem → Prop) m m' :
  (∀ i n m, P (move i n m) ↔ P m) → moves m m' → P m' ↔ P m.
Proof. intros Hg. induction 1 as [|m1 m2 m3 (i & n & ->) _ IH]; [done|]. by rewrite IH, Hg. Qed.

Lemma moves_entry m m' i : moves m m' → ∃ p, entry_at m' i = set_probe_fd p (entry_at m i).
Proof.
  induction 1 as [m|a b d (j & n & ->) _ [p IH]].
  - exists (probe_fd (entry_at m i)). by destruct (entry_at m i).
  - rewrite IH, move_entry. case_decide; eauto.
Qed.

Lemma shifted_moves i fd x m T m' T' : shifted i fd x m T m' T' → moves m m'.
Proof. intros [[-> _]|(n & _ & _ & -> & _)]; [apply rtc_refl|]. apply rtc_once. eauto. Qed.

(** [T0] is the table before the save, [T] the table when the [slots] are still to be restored. *)
Record swapped (T0 : gmap Z fdesc) (slots : list preexec_slot) (m : mem) (T : gmap Z fdesc) : Prop := {
  sw_kept y x : T0 !! y = Some x → y ∉ user_fd <$> slots → T !! y = Some x;
  sw_slot sl : sl ∈ slots → ∃ i x y, T0 !! user_fd sl = Some x ∧ wraps m i (d_stat x) ∧ backed m i ∧
    T0 !! real_of m i = Some y ∧ ¬ is_wrap m (d_stat y) ∧ orig_cloexec sl = d_cloexec x ∧
    T !! user_fd sl = Some (with_cloexec (d_cloexec x) y) ∧
    T !! saved_fd sl = Some (with_cloexec true x) ∧ T0 !! saved_fd sl = None ∧
    ¬ internal m (user_fd sl) ∧ ¬ internal m (saved_fd sl);
  sw_users : NoDup (user_fd <$> slots);
  sw_saved : NoDup (saved_fd <$> slots);
  sw_new y : is_Some (T !! y) → T0 !! y = None →
    y ∈ saved_fd <$> slots ∨ ∃ i, live m i ∧ probe_fd (entry_at m i) = y;
}.

Lemma swapped_start m (w : W) : swapped (tab w) [] m (tab w).
Proof.
  split; [done|by intros ? ?%elem_of_nil|constructor|constructor|]. intros y [x Hx] Hn. congruence.
Qed.

(** Moving a probe to a number that was free makes no other number internal. *)
Lemma shifted_not_internal i fd x m T m' T' k :
  shifted i fd x m T m' T' → is_Some (T !! k) → ¬ internal m k → ¬ internal m' k.
Proof.
  intros [[-> _]|(n & _ & Hn & -> & _)] Hk Hi; [done|]. intros Hint. apply Hi.
  destruct Hint as [(j & Hj & [E|[Ho E]])|(sl & Hsl & E)]; [rewrite move_live in Hj..|].
  - rewrite move_entry in E. case_decide; [|left; eauto]. cbn [probe_fd set_probe_fd] in E. subst k.
    rewrite Hn in Hk. by destruct Hk.
  - rewrite (move_same e_ops) in Ho by done. rewrite move_real in E. left; eauto.
  - right; eauto.
Qed.

Lemma shifted_grows i fd x m T m' T' k z : shifted i fd x m T m' T' → T !! k = Some z → T' !! k = Some z.
Proof.
  intros [[_ ->]|(n & _ & Hn & _ & ->)] Hz; [done|]. by rewrite lookup_insert_ne by congruence.
Qed.

Lemma moves_facts m m' :
  moves m m' → (∀ j s, wraps m' j s ↔ wraps m j s) ∧ (∀ s, is_wrap m' s ↔ is_wrap m s) ∧
    (∀ j, live m' j ↔ live m j) ∧ (∀ j, real_of m' j = real_of m j) ∧ (∀ j, backed m' j ↔ backed m j).
Proof.
  intros H. split_and!.
  - intros j s. apply (moves_iff (λ m, wraps m j s)); [intros; apply move_wraps|done].
  - intros s. apply (moves_iff (λ m, is_wrap m s)); [intros; apply move_is_wrap|done].
  - intros j. apply (moves_iff (λ m, live m j)); [intros; apply move_live|done].
  - intros j. apply (moves_same (λ m, real_of m j)); [intros; apply move_real|done].
  - intros j. apply (moves_iff (λ m, backed m j)); [|done]. intros i n m1. unfold backed.
    by rewrite (move_same e_ops), move_real.
Qed.

(** One more descriptor is saved. *)
Lemma swapped_save T0 slots fd x i saved m T m' T' :
  length (synth_table m) = SYNTH_TABLE_SIZE → swapped T0 slots m T → T0 !! fd = Some x → fd ∉ user_fd <$> slots → wraps m i (d_stat x) → backed m i →
  T0 !! saved = None → (∃ y, T0 !! real_of m i = Some y ∧ ¬ is_wrap m (d_stat y) ∧ T !! real_of m i = Some y) →
  saves fd x i m T saved m' T' →
  swapped T0 (slots ++ [{| user_fd := fd; saved_fd := saved; orig_cloexec := d_cloexec x |}]) m' T'.
Proof.
  intros Hlen S Hx0 Hfd Hw Hb Hs0 (y & Hy0 & Hyw & Hy) (y' & T1 & Hy' & Hs & Hsh & -> & Hi1 & Hi2).
  rewrite Hy in Hy'. injection Hy' as <-.
  destruct (moves_facts _ _ (shifted_moves _ _ _ _ _ _ _ Hsh)) as (Fw & Fi & Fl & Fr & Fb).
  assert (saved ≠ fd) as Hsf by congruence.
  assert (∀ k z, T !! k = Some z → k ≠ fd → <[fd := with_cloexec (d_cloexec x) y]> T1 !! k = Some z) as Hgrow.
  { intros k z Hz Hk. rewrite lookup_insert_ne by done. eapply shifted_grows; [done|].
    by rewrite lookup_insert_ne by congruence. }
  split.
  - intros k z Hz Hk. rewrite fmap_app, not_elem_of_app in Hk. destruct Hk as [Hk1 Hk2].
    apply Hgrow; [by apply (sw_kept _ _ _ _ S)|]. intros ->. apply Hk2. left.
  - intros sl [Hsl|Hsl%list_elem_of_singleton]%elem_of_app.
    + destruct (sw_slot _ _ _ _ S sl Hsl) as (j & xj & yj & ? & ? & ? & ? & ? & ? & Hu & Hv & ? & ? & ?).
      exists j, xj, yj. rewrite Fw, Fb, Fr, Fi.
      assert (user_fd sl ≠ fd) by (intros E; apply Hfd; rewrite <-E; by apply list_elem_of_fmap_2).
      assert (saved_fd sl ≠ fd) by congruence.
      split_and!; [done..|by apply Hgrow|by apply Hgrow|done| |]; (eapply shifted_not_internal; [done| |done]);
        (rewrite lookup_insert_ne by congruence); eauto.
    + subst sl. exists i, x, y. cbn [user_fd saved_fd orig_cloexec]. rewrite Fw, Fb, Fr, Fi.
      split_and!; try done; [by rewrite lookup_insert_eq|].
      rewrite lookup_insert_ne by done. eapply shifted_grows; [done|]. by rewrite lookup_insert_eq.
  - rewrite fmap_app. apply NoDup_app. split; [apply S|]. split; [|apply NoDup_singleton].
    intros k Hk Hk'%list_elem_of_singleton. by subst k.
  - rewrite fmap_app. apply NoDup_app. split; [apply S|]. split; [|apply NoDup_singleton].
    intros k (sl & -> & Hsl)%list_elem_of_fmap Hk%list_elem_of_singleton. cbn [saved_fd] in Hk.
    destruct (sw_slot _ _ _ _ S sl Hsl) as (j & xj & yj & H). rewrite Hk in H. naive_solver congruence.
  - intros k Hk Hk0. assert (k ≠ fd) as Hkf by congruence. rewrite lookup_insert_ne in Hk by done.
    rewrite fmap_app, elem_of_app. destruct (decide (k = saved)) as [->|Hks]; [left; right; left|].
    destruct Hsh as [[-> ->]|(n & Hp & Hn & -> & ->)].
    + rewrite lookup_insert_ne in Hk by done. destruct (sw_new _ _ _ _ S k Hk Hk0); eauto.
    + destruct (decide (k = n)) as [->|Hkn].
      * right. exists i. rewrite move_live, move_entry. destruct (Hw) as [Hl _]. split; [done|].
        rewrite decide_True by (split; [done|rewrite Hlen; apply Hl]). done.
      * rewrite !lookup_insert_ne in Hk by done. destruct (sw_new _ _ _ _ S k Hk Hk0) as [|(j & Hj & Ej)]; [by left; left|].
        right. exists j. rewrite move_live, move_entry. split; [done|]. case_decide as Hd; [|done].
        destruct Hd as [<- _]. congruence.
Qed.

Lemma swapped_open T0 slots m T y : swapped T0 slots m T → is_Some (T0 !! y) → is_Some (T !! y).
Proof.
  intros S [x Hx]. destruct (decide (y ∈ user_fd <$> slots)) as [(sl & -> & Hsl)%list_elem_of_fmap|Hy].
  - destruct (sw_slot _ _ _ _ S sl Hsl) as (i & x' & y' & H). naive_solver.
  - rewrite (sw_kept _ _ _ _ S y x Hx Hy). eauto.
Qed.

Lemma saves_size fd x i m T saved m' T' :
  saves fd x i m T saved m' T' → is_Some (T !! fd) → (size T' ≤ size T + 2)%nat.
Proof.
  intros (y & T1 & _ & Hs & Hsh & -> & _) Hfd.
  assert (size (<[saved := with_cloexec true x]> T) = S (size T)) as Hsz by (by apply map_size_insert_None).
  assert (is_Some (T1 !! fd)) as Hfd1.
  { destruct Hfd as [z Hz]. exists z. eapply shifted_grows; [done|]. by rewrite lookup_insert_ne by congruence. }
  rewrite map_size_insert_Some by done.
  destruct Hsh as [[_ ->]|(n & _ & Hn & _ & ->)]; [lia|]. rewrite map_size_insert_None by done. lia.
Qed.

(** ** Saving the candidates *)
Section loop.
Variables (T0 : gmap Z fdesc) (m0 : mem).
(** The terminals behind the wraps, before the save. *)
Hypothesis backings : ∀ i, live m0 i → backed m0 i → ∃ y, T0 !! real_of m0 i = Some y ∧ ¬ is_wrap m0 (d_stat y).

(** [fd] stands for a wrapped terminal before the save. *)
Definition to_save (fd : Z) : Prop := ∃ x i, T0 !! fd = Some x ∧ wraps m0 i (d_stat x) ∧ backed m0 i.

(** The books are in order when [slots] have been saved. *)
Definition saving (slots : list preexec_slot) (m : mem) (w : W) : Prop :=
  calm m w ∧ swapped T0 slots m (tab w) ∧ moves m0 m.

Lemma save_step fd slots m (w : W) e :
  saving slots m w → is_Some (T0 !! fd) → spacious 6 w →
  ∃ slots' m' w' e', preexec_save_one fd slots (mkst m w e) = Ret slots' (mkst m' w' e') ∧
    saving slots' m' w' ∧ (size (tab w') ≤ size (tab w) + 2)%nat ∧
    (slots' = slots ∨ ∃ sl, slots' = slots ++ [sl]) ∧ (to_save fd → fd ∈ user_fd <$> slots').
Proof.
  intros (C & S & Hmv) [x Hx] Hsp. destruct (moves_facts _ _ Hmv) as (Fw & Fi & Fl & Fr & Fb).
  destruct (decide (fd ∈ user_fd <$> slots)) as [Hin|Hfd].
  { exists slots, m, w, e. split; [|split; [done|split; [lia|split; [by left|done]]]].
    apply list_elem_of_fmap in Hin as (sl & -> & Hsl).
    destruct (sw_slot _ _ _ _ S sl Hsl) as (i & x' & y' & _ & _ & _ & _ & Hyw & _ & Hu & _).
    apply (save_one_skips _ _ _ _ _ _ C Hu). intros j Hj. destruct Hyw. by exists j. }
  pose proof (sw_kept _ _ _ _ S fd x Hx Hfd) as HxT.
  destruct (wrapb m (d_stat x)) eqn:Ew.
  - apply wrapb_spec in Ew as [i Hw]. destruct (decide (backed m i)) as [Hb|Hnb].
    + destruct (save_one_swaps fd x i slots m w e C Hsp HxT Hw Hb) as (saved & m' & w' & e' & E & C' & Hsv).
      exists (slots ++ [{| user_fd := fd; saved_fd := saved; orig_cloexec := d_cloexec x |}]), m', w', e'.
      split; [done|]. assert (T0 !! saved = None) as Hs0.
      { apply eq_None_not_Some. intros Hs%(swapped_open _ _ _ _ _ S). destruct Hsv as (y & T1 & _ & Hs' & _).
        rewrite Hs' in Hs. by destruct Hs. }
      split; [split_and!; [done| |]|].
      * eapply (swapped_save T0 slots fd x i saved m (tab w)); [apply C|done..| |done].
        destruct (backings i) as (y & Hy & Hyw); [by apply Fl, Hw|by apply Fb|]. exists y.
        rewrite Fr, Fi. split; [done|]. split; [done|]. apply (sw_kept _ _ _ _ S); [done|].
        intros (sl & E' & Hsl)%list_elem_of_fmap. destruct (sw_slot _ _ _ _ S sl Hsl) as (j & ? & ? & H).
        destruct H as (_ & _ & _ & _ & _ & _ & _ & _ & _ & Hni & _). apply Hni. left. exists i.
        split; [apply Hw|]. right. rewrite Fr, E'. split; [apply Hb|done].
      * destruct Hsv as (y & T1 & _ & _ & Hsh & _). etrans; [done|]. by eapply shifted_moves.
      * split; [eapply saves_size; eauto|]. split; [eauto|]. intros _. rewrite fmap_app. apply elem_of_app. right. left.
    + exists slots, m, w, e. split; [|split; [done|split; [lia|split; [by left|]]]].
      * apply (save_one_skips _ _ _ _ _ _ C HxT). intros j Hj.
        by rewrite <-(calm_unique _ _ _ _ C _ _ _ Hw Hj).
      * intros (x' & j & Hx' & Hj & Hbj). simplify_eq. destruct Hnb. apply Fb.
        by rewrite (calm_unique _ _ _ _ C i j (d_stat x)); [|done|by apply Fw].
  - assert (¬ is_wrap m (d_stat x)) as Hn by (rewrite <-wrapb_spec; congruence).
    exists slots, m, w, e. split; [|split; [done|split; [lia|split; [by left|]]]].
    + apply (save_one_skips _ _ _ _ _ _ C HxT). intros j Hj. destruct Hn. by exists j.
    + intros (x' & j & Hx' & Hj & _). simplify_eq. destruct Hn. exists j. by apply Fw.
Qed.

Lemma save_loop_run k c slots m (w : W) e :
  (4 ≤ k)%nat → saving slots m w → (∀ fd, fd ∈ c → is_Some (T0 !! fd)) → (length slots + length c ≤ SYNTH_PREEXEC_MAX)%nat →
  spacious (2 * length c + k) w →
  ∃ slots' m' w' e', preexec_save_loop c slots (mkst m w e) = Ret slots' (mkst m' w' e') ∧
    saving slots' m' w' ∧ spacious k w' ∧
    ∀ fd, fd ∈ user_fd <$> slots ∨ fd ∈ c ∧ to_save fd → fd ∈ user_fd <$> slots'.
Proof.
  intros Hk4. revert slots m w e. induction c as [|fd c IH]; intros slots m w e Hs Hc Hlen Hsp; cbn [preexec_save_loop].
  { exists slots, m, w, e. split; [done|]. split; [done|]. split; [done|].
    intros fd [|[Hn _]]; [done|by apply elem_of_nil in Hn]. }
  cbn [length] in *. rewrite (proj2 (Nat.leb_gt _ _)) by lia. unfold spacious in Hsp.
  destruct (save_step fd slots m w e Hs) as (slots1 & m1 & w1 & e1 & E & Hs1 & Hsz & Hsl & Hdone);
    [apply Hc; left|unfold spacious; lia|].
  rewrite (bind_Ret _ _ _ _ _ E).
  assert (length slots1 ≤ S (length slots))%nat as Hl1.
  { destruct Hsl as [->|(sl & ->)]; [lia|]. rewrite length_app. simpl. lia. }
  assert (∀ k, k ∈ user_fd <$> slots → k ∈ user_fd <$> slots1) as Hmono.
  { destruct Hsl as [->|(sl & ->)]; [done|]. intros fd' Hk. rewrite fmap_app. apply elem_of_app. by left. }
  destruct (IH slots1 m1 w1 e1 Hs1) as (slots2 & m2 & w2 & e2 & E2 & Hs2 & Hsp2 & Hd2);
    [intros; apply Hc; by right|lia|unfold spacious; lia|].
  exists slots2, m2, w2, e2. split; [done|]. split; [done|]. split; [done|].
  intros fd' [Hk|[[->|Hk]%elem_of_cons Hts]]; apply Hd2; eauto.
Qed.
End loop.

(** ** Restoring *)
Lemma swapped_restore T0 sl slots m T x :
  swapped T0 (sl :: slots) m T → T !! saved_fd sl = Some x →
  swapped T0 slots m (delete (saved_fd sl) (<[user_fd sl := with_cloexec (orig_cloexec sl) x]> T)).
Proof.
  intros S HxT. destruct (sw_slot _ _ _ _ S sl (list_elem_of_here _ _))
    as (i & x0 & y & Hx0 & Hw & Hb & Hy & Hyw & Ho & Hu & Hs & Hs0 & Hi1 & Hi2). simplify_eq.
  pose proof (sw_users _ _ _ _ S) as HnU. pose proof (sw_saved _ _ _ _ S) as HnS.
  rewrite fmap_cons in HnU, HnS. apply NoDup_cons in HnU as [HnU HnU'], HnS as [HnS HnS'].
  assert (user_fd sl ≠ saved_fd sl) as Hus by congruence. split; [| |done|done|].
  - intros k z Hz Hk. assert (k ≠ saved_fd sl) by congruence. rewrite lookup_delete_ne by done.
    destruct (decide (k = user_fd sl)) as [->|Hne].
    + rewrite lookup_insert_eq, Ho, with_cloexec_twice. simplify_eq. by rewrite with_cloexec_id.
    + rewrite lookup_insert_ne by done. apply (sw_kept _ _ _ _ S); [done|]. rewrite fmap_cons, not_elem_of_cons. done.
  - intros sl' Hsl'. destruct (sw_slot _ _ _ _ S sl' (list_elem_of_further _ _ _ Hsl'))
      as (j & xj & yj & Hxj & ? & ? & ? & ? & ? & Huj & Hsj & Hsj0 & ? & ?).
    exists j, xj, yj.
    assert (user_fd sl' ≠ user_fd sl) by (intros E; apply HnU; rewrite <-E; by apply list_elem_of_fmap_2).
    assert (saved_fd sl' ≠ saved_fd sl) by (intros E; apply HnS; rewrite <-E; by apply list_elem_of_fmap_2).
    assert (user_fd sl' ≠ saved_fd sl) by congruence. assert (saved_fd sl' ≠ user_fd sl) by congruence.
    rewrite !lookup_delete_ne, !lookup_insert_ne by done. done.
  - intros k Hk Hk0. rewrite lookup_delete_is_Some in Hk. destruct Hk as [Hks Hk].
    rewrite lookup_insert_ne in Hk by congruence.
    destruct (sw_new _ _ _ _ S k Hk Hk0) as [Hin|]; [|by right]. left.
    rewrite fmap_cons, elem_of_cons in Hin. by destruct Hin as [->|].
Qed.

Lemma restore_one_run T0 sl slots m (w : W) e :
  calm m w → swapped T0 (sl :: slots) m (tab w) → spacious 4 w →
  ∃ w', preexec_restore_one sl (mkst m w e) = Ret None (mkst m w' e) ∧
    calm m w' ∧ swapped T0 slots m (tab w') ∧ spacious 4 w'.
Proof.
  intros C S [Hr Hf]. destruct (sw_slot _ _ _ _ S sl (list_elem_of_here _ _))
    as (i & x & y & Hx0 & Hw & Hb & Hy & Hyw & Ho & Hu & Hs & Hs0 & Hi1 & Hi2).
  assert (saved_fd sl ≠ user_fd sl) as Hne by congruence.
  destruct (dup3_over_plain _ _ (saved_fd sl) (user_fd sl) (orig_cloexec sl) _ _ m w e C Hu Hyw Hi1 Hs Hne)
    as (w1 & E1 & C1 & Ht1).
  assert (tab w1 !! saved_fd sl = Some (with_cloexec true x)) as Hs1 by (by rewrite Ht1, lookup_insert_ne).
  assert (held_beside (saved_fd sl) m w1) as Hheld.
  { intros j Hj. destruct (calm_holder _ _ _ _ C1 j Hj) as (h & z & Hz & Hzs & Hzw).
    destruct (decide (h = saved_fd sl)) as [->|]; [|exists h, z; eauto].
    exists (user_fd sl), (with_cloexec (orig_cloexec sl) (with_cloexec true x)). split; [done|].
    rewrite Ht1, lookup_insert_eq. rewrite Hs1 in Hz. injection Hz as <-. done. }
  assert (size (tab w1) = size (tab w)) as Hsz by (rewrite Ht1, map_size_insert_Some by eauto; done).
  destruct (close_wrap _ _ i (saved_fd sl) _ m w1 e C1 Hs1 Hw Hi2 Hheld) as (w2 & E2 & C2 & Ht2);
    [unfold spacious; by rewrite Hsz|].
  exists w2. split; [|split; [done|split]].
  - unfold preexec_restore_one. rewrite (bind_Ret _ _ _ _ _ E1), (bind_Ret _ _ _ _ _ E2). done.
  - rewrite Ht2, Ht1. by apply swapped_restore.
  - unfold spacious. rewrite Ht2. pose proof (map_size_delete (saved_fd sl) (tab w1)) as Hd.
    rewrite Hs1 in Hd. lia.
Qed.

Lemma restore_run T0 slots m (w : W) e :
  calm m w → swapped T0 slots m (tab w) → spacious 4 w →
  ∃ w', wslcompat_synth_preexec_restore slots (mkst m w e) = Ret [] (mkst m w' e) ∧
    swapped T0 [] m (tab w').
Proof.
  unfold wslcompat_synth_preexec_restore. revert w e.
  induction slots as [|sl slots IH]; intros w e C S Hsp; [by exists w|]. cbn [for_each].
  destruct (restore_one_run T0 sl slots m w e C S Hsp) as (w1 & E & C1 & S1 & Hsp1).
  rewrite bind_assoc, (bind_Ret _ _ _ _ _ E). by apply IH.
Qed.

(** ** The whole of it *)

(** What the table shows while the descriptors are saved: terminals in place of their wraps. *)
Definition image (m : mem) (T : gmap Z fdesc) (x x' : fdesc) : Prop :=
  (∃ i y, wraps m i (d_stat x) ∧ backed m i ∧ T !! real_of m i = Some y ∧ x' = with_cloexec (d_cloexec x) y) ∨
  ((∀ i, wraps m i (d_stat x) → ¬ backed m i) ∧ x' = x).

(** The descriptors of synthetic files. *)
Definition wrapped (m : mem) (T : gmap Z fdesc) : gset Z := filter (λ fd, is_candidate m T fd = true) (dom T).

Lemma save_run k m (w : W) e :
  (4 ≤ k)%nat → calm m w → spacious (2 * SYNTH_PREEXEC_MAX + k) w →
  ∃ slots m1 w1 e1, wslcompat_synth_preexec_save [] (mkst m w e) = Ret slots (mkst m1 w1 e1) ∧
    calm m1 w1 ∧ swapped (tab w) slots m1 (tab w1) ∧ moves m m1 ∧ spacious k w1 ∧
    ((size (wrapped m (tab w)) ≤ SYNTH_PREEXEC_MAX)%nat → ∀ fd, to_save (tab w) m fd → fd ∈ user_fd <$> slots).
Proof.
  intros Hk4 C Hsp. unfold spacious in Hsp.
  destruct (collect_run m w e C) as (l & w' & e' & E & Ht & Hk & Hnd & Hin); [unfold spacious; lia|].
  set (c := take SYNTH_PREEXEC_MAX (filter (λ fd, is_candidate m (tab w) fd = true) l)) in *.
  assert (length c ≤ SYNTH_PREEXEC_MAX)%nat as Hc by (unfold c; rewrite length_take; lia).
  assert (calm m w') as C' by (apply (calm_retable _ _ m w); rewrite ?Ht; [done..|apply C]).
  destruct (save_loop_run (tab w) m) with (k := k) (c := c) (slots := @nil preexec_slot) (m := m) (w := w') (e := e')
    as (slots & m1 & w1 & e1 & E1 & (C1 & S1 & Hmv) & Hsp1 & Hdone).
  - intros i Hl [Ho Hne]. destruct (calm_real _ _ _ _ C i Hl Ho) as [|(y & Hy & Hyw)]; [done|eauto].
  - done.
  - split; [done|]. split; [rewrite Ht; apply swapped_start|apply rtc_refl].
  - intros fd Hfd. unfold c in Hfd. apply elem_of_take in Hfd as (j & Hfd & _).
    apply list_elem_of_lookup_2, list_elem_of_filter in Hfd as [_ Hfd]. by apply Hin.
  - simpl. lia.
  - unfold spacious. rewrite Ht. lia.
  - exists slots, m1, w1, e1. split; [|split; [done|split; [done|split; [done|split; [done|]]]]].
    { unfold wslcompat_synth_preexec_save. by rewrite (bind_Ret _ _ _ _ _ E). }
    intros Hsize fd Hts. apply Hdone. right. split; [|done].
    assert (fd ∈ filter (λ fd, is_candidate m (tab w) fd = true) l) as Hf.
    { destruct Hts as (x & i & Hx & Hw & _). apply list_elem_of_filter. split; [|apply Hin; eauto].
      unfold is_candidate. rewrite Hx. apply wrapb_spec. by exists i. }
    unfold c. rewrite take_ge; [done|]. etrans; [|done].
    rewrite <-(size_list_to_set (C:=gset Z)) by (by apply NoDup_filter). apply subseteq_size.
    intros fd' Hk1. apply elem_of_list_to_set, list_elem_of_filter in Hk1 as [Hk1 Hk2].
    unfold wrapped. apply elem_of_filter. split; [done|]. by apply elem_of_dom, Hin.
Qed.


(** Descriptors opened while the others are saved do not matter to the restore. *)
Lemma swapped_grow T0 slots m T1 T1' :
  swapped T0 slots m T1 → T1 ⊆ T1' → swapped (T0 ∪ (T1' ∖ T1)) slots m T1'.
Proof.
  intros S Hsub. rewrite map_subseteq_spec in Hsub.
  assert (∀ y, is_Some (T1 !! y) → (T0 ∪ (T1' ∖ T1)) !! y = T0 !! y) as Hold.
  { intros y [x Hx]. rewrite lookup_union. destruct (T0 !! y); [by destruct ((T1' ∖ T1) !! y)|].
    rewrite (proj2 (lookup_difference_None _ _ _)); [done|]. right. eauto. }
  split; [| |apply S|apply S|].
  - intros y x Hx Hy. apply lookup_union_Some_raw in Hx as [Hx|[_ Hx%lookup_difference_Some]]; [|apply Hx].
    by apply Hsub, (sw_kept _ _ _ _ S).
  - intros sl Hsl. destruct (sw_slot _ _ _ _ S sl Hsl) as (i & x & y & Hx & ? & ? & Hy & ? & ? & Hu & Hs & ? & ? & ?).
    exists i, x, y. rewrite !Hold by eauto using swapped_open. eauto 20.
  - intros y Hy Hn. apply lookup_union_None in Hn as [Hn Hd]. apply (sw_new _ _ _ _ S); [|done].
    apply lookup_difference_None in Hd as [Hd|]; [|done]. rewrite Hd in Hy. by destruct Hy.
Qed.

(** The books of an application that has been through a save and a restore: its descriptors are where
    they were, flags included, the [new] ones are open, anything else that is open is a probe that had to move, and the
    entries are alive, with the same references. *)
Definition put_back (m : mem) (T new : gmap Z fdesc) (m' : mem) (T' : gmap Z fdesc) : Prop :=
  T ∪ new ⊆ T' ∧
  (∀ fd, is_Some (T' !! fd) → (T ∪ new) !! fd = None → ∃ i, live m i ∧ probe_fd (entry_at m' i) = fd) ∧
  (∀ i, ∃ p, entry_at m' i = set_probe_fd p (entry_at m i)).

(** Save and restore undo each other, whatever is opened in between. *)
Lemma preexec_roundtrip k m (w : W) e :
  (4 ≤ k)%nat → calm m w → spacious (2 * SYNTH_PREEXEC_MAX + k) w →
  ∃ slots m1 w1 e1, wslcompat_synth_preexec_save [] (mkst m w e) = Ret slots (mkst m1 w1 e1) ∧ spacious k w1 ∧
    ∀ w1' e1', tab w1 ⊆ tab w1' → kpid w1' = kpid w1 → spacious 4 w1' →
    ∃ w2, wslcompat_synth_preexec_restore slots (mkst m1 w1' e1') = Ret [] (mkst m1 w2 e1') ∧
      put_back m (tab w) (tab w1' ∖ tab w1) m1 (tab w2).
Proof.
  intros Hk4 C Hsp. destruct (save_run k m w e Hk4 C Hsp) as (slots & m1 & w1 & e1 & E & C1 & S & Hmv & Hsp1 & _).
  exists slots, m1, w1, e1. split; [done|]. split; [done|]. intros w1' e1' Ht Hk Hsp'.
  pose proof (swapped_grow _ _ _ _ _ S Ht) as S'. rewrite map_subseteq_spec in Ht.
  destruct (restore_run (tab w ∪ (tab w1' ∖ tab w1)) slots m1 w1' e1') as (w2 & E2 & S2); [|done|done|].
  { apply (calm_retable _ _ m1 w1); [done..| |].
    - intros fd Hi. destruct (tab w1 !! fd) as [x|] eqn:Ex; [by apply Ht|].
      destruct (internal_open _ _ m1 w1 fd C1 Hi) as [Hneg|[y Hy]]; [|congruence].
      apply eq_None_not_Some. intros Hs%tab_range. lia.
    - intros i Hl. destruct (calm_holder _ _ _ _ C1 i Hl) as (fd & x & Hx & H). eauto. }
  destruct (moves_facts _ _ Hmv) as (Fw & Fi & Fl & Fr & Fb).
  exists w2. split; [done|]. split; [|split].
  - apply map_subseteq_spec. intros fd x Hx. apply (sw_kept _ _ _ _ S2); [done|]. by apply not_elem_of_nil.
  - intros fd Hs Hn. destruct (sw_new _ _ _ _ S2 fd Hs Hn) as [Hi|(i & Hl & Hp)]; [by apply elem_of_nil in Hi|].
    exists i. by rewrite <-Fl.
  - intros i. by apply moves_entry.
Qed.

(** A call that fails without touching the table, as a failing exec does; a call that starts a child
    and may open one descriptor, as system and popen do. *)
Definition refused {A} (c : call A) (er : Z) : Prop :=
  ∀ w : W, ∃ w', kstep c w = (inr er, w') ∧ tab w' = tab w.
Definition spawns {A} (c : call A) (a : A) : Prop :=
  ∀ w : W, ∃ w', kstep c w = (inl a, w') ∧ tab w ⊆ tab w' ∧ (size (tab w') ≤ S (size (tab w)))%nat.

Lemma restore_preserving slots m1 w1 e1 m2 (w2 : W) e2 :
  wslcompat_synth_preexec_restore slots (mkst m1 w1 e1) = Ret [] (mkst m2 w2 e2) →
  preserve_errno (wslcompat_synth_preexec_restore slots) (mkst m1 w1 e1) = Ret [] (mkst m2 w2 e1).
Proof.
  intros E. unfold preserve_errno. rewrite bind_get_errno. cbn [s_errno].
  by rewrite (bind_Ret _ _ _ _ _ E).
Qed.


(** Starting a child leaves the descriptors of the parent as they were; the one that the call itself has
    opened is open, and its answer is passed on. *)
Theorem spawn_keeps_descriptors {A} name (c : call A) (a : A) m (w : W) e :
  calm m w → spacious (2 * SYNTH_PREEXEC_MAX + 5) w → wslcompat_enabled m name = true → spawns c a →
  ∃ m' w' e' new, around_spawn name (sys c) (mkst m w e) = Ret (Some a) (mkst m' w' e') ∧
    put_back m (tab w) new m' (tab w').
Proof.
  intros C Hsp Hen Hc. destruct (preexec_roundtrip 5 m w e ltac:(lia) C Hsp) as (slots & m1 & w1 & e1 & E & Hsp1 & H).
  destruct (Hc w1) as (w1' & Ec & Ht & Hsz). pose proof (kstep_pid _ c w1) as Hk. rewrite Ec in Hk.
  destruct (H w1' e1 Ht Hk) as (w2 & E2 & Hput); [unfold spacious in *; lia|].
  exists m1, w2, e1, (tab w1' ∖ tab w1). split; [|done].
  unfold around_spawn, wslcompat_passthru. rewrite bind_getm. cbn [s_mem]. rewrite Hen. cbn [negb].
  rewrite (bind_Ret _ _ _ _ _ E). unfold bind at 1, sys. cbn [s_world s_mem s_errno].
  rewrite Ec. by rewrite (bind_Ret _ _ _ _ _ (restore_preserving _ _ _ _ _ _ _ E2)).
Qed.
End preexec.

(** ** A wrapped terminal, concretely *)
#[local] Transparent SYNTH_TABLE_SIZE SYNTH_PREEXEC_MAX.

Module PreexecDemo.
Import TabKernel.
#[local] Instance bound : Fuel := 256%nat.

Definition tty_file : stat := {| st_dev := 5; st_ino := 9; st_mode := 0 |}.
Definition wrap_file : stat := {| st_dev := 7; st_ino := 50; st_mode := 0 |}.
Definition desc (s : stat) (c sh : bool) : fdesc := {| d_stat := s; d_cloexec := c; d_shared := sh; d_path := false |}.

(** Descriptor 4 is the wrap of a terminal, 5 its probe and 6 the terminal itself. *)
Definition T : gmap Z fdesc :=
  {[0 := desc tty_file false false; 4 := desc wrap_file false true;
    5 := desc wrap_file true false; 6 := desc tty_file true false]}.
Definition w : world := {| k_tab := T; k_dirs := ∅ |}.

Definition entry : synth_entry :=
  {| refcount := 1; probe_fd := 5; e_stat := wrap_file; e_ops := h_tty; pos := 0;
     e_userptr := up_tty 0; e_flags := 0; install_pid := 100; install_starttime := 77;
     probe_overrides := replicate 4 free_override |}.
Definition m : mem :=
  set_tty_table (set_claimed 1 (set_real_fd 6 free_tty) :: replicate 63 free_tty)
    (set_starttime_cache {| p_starttime := 77; p_pid := 100 |}
      (set_synth_live_entries 1 (set_synth_table (entry :: replicate 63 free_entry) init_mem))).

Lemma only_entry i : live m i → i = 0%nat.
Proof.
  intros [Hi Hr]. destruct i as [|i]; [done|]. exfalso. change (0 < refcount (replicate 63 free_entry !!! i)) in Hr.
  rewrite lookup_total_replicate_2 in Hr by (unfold SYNTH_TABLE_SIZE in Hi; lia). by vm_compute in Hr.
Qed.

Lemma wraps_only i s : wraps m i s → i = 0%nat ∧ st_dev s = 7 ∧ st_ino s = 50.
Proof.
  intros [Hl Hs]. apply only_entry in Hl as ->. split; [done|]. apply same_inode_eq in Hs as [H1 H2]. by vm_compute in H1, H2.
Qed.

Lemma live_entry : live m 0.
Proof. split; [unfold SYNTH_TABLE_SIZE; lia|by vm_compute]. Qed.

Lemma not_wrap s : st_dev s ≠ 7 → ¬ is_wrap m s.
Proof. intros H [i Hw]. by apply wraps_only in Hw as (_ & ? & _). Qed.

Lemma calm_start : calm 100 77 m w.
Proof.
  split.
  - done.
  - done.
  - by vm_compute.
  - by vm_compute.
  - by vm_compute.
  - by vm_compute.
  - done.
  - done.
  - intros i j s Hi%wraps_only Hj%wraps_only. destruct Hi as [-> _], Hj as [-> _]. done.
  - by intros i ->%only_entry.
  - intros i ->%only_entry. right. exists (desc wrap_file true false). split; [by vm_compute|]. split; [done|].
    split; [apply live_entry|by vm_compute].
  - intros i ->%only_entry _. right. exists (desc tty_file true false). split; [by vm_compute|]. by apply not_wrap.
  - intros i ->%only_entry. exists 4, (desc wrap_file false true). split; [by vm_compute|]. split; [by right|].
    split; [apply live_entry|by vm_compute].
  - intros sl (i & Hi & _). vm_compute in Hi. destruct i; done.
  - intros i ->%only_entry _. by vm_compute; split; [repeat constructor|].
  - by intros i j ->%only_entry ->%only_entry.
  - by intros i j ->%only_entry ->%only_entry.
  - intros i sl _ _ (j & Hj & _). vm_compute in Hj. destruct j; done.
Qed.

Lemma spacious_start : spacious (2 * SYNTH_PREEXEC_MAX + 4) w.
Proof. by vm_compute; split; repeat constructor. Qed.
End PreexecDemo.

#[local] Existing Instance PreexecDemo.bound.



Lemma spawn_keeps_descriptors_witness :
  ∃ m' w' e' new, system (Some "true") (mkst PreexecDemo.m PreexecDemo.w 0) = Ret (Some 0) (mkst m' w' e') ∧
    put_back PreexecDemo.m (tab PreexecDemo.w) new m' (tab w').
Proof.
  apply (spawn_keeps_descriptors 100 77 "system" (k_system (Some "true")) 0 PreexecDemo.m PreexecDemo.w 0).
  - exact PreexecDemo.calm_start.
  - by vm_compute; split; repeat constructor.
  - by vm_compute.
  - intros w. exists w. split; [done|]. split; [done|]. apply Nat.le_succ_diag_r.
Defined.

(** The probe of a wrap has the inode of the wrap, so that it is taken for one of its descriptors: it
    is saved and restored as well, although it has moved. Every failed exec, every system and every
    spawn leaves one more descriptor open, which no one knows of. *)
Theorem preexec_leaks_probe :
  ∃ slots m1 w1 w2,
    wslcompat_synth_preexec_save [] (mkst PreexecDemo.m PreexecDemo.w 0) = Ret slots (mkst m1 w1 0) ∧
    wslcompat_synth_preexec_restore slots (mkst m1 w1 0) = Ret [] (mkst m1 w2 0) ∧
    user_fd <$> slots = [5; 4] ∧
    size (tab w2) = S (size (tab PreexecDemo.w)) ∧
    probe_fd (entry_at m1 0) = 3 ∧ tab w2 !! 5 = tab PreexecDemo.w !! 5.
Proof.
  eexists _, _, _, _. split; [vm_compute; reflexivity|]. split; [vm_compute; reflexivity|].
  split_and!; by vm_compute.
Qed.
