(* ===== verification/Ioctl.v ===== *)
(** * ioctl.c: ioctl and the termios entry points

    The C library's own tc* functions reach the kernel without passing through the symbol [ioctl],
    so each is routed to it here. A successful change of terminal attributes makes the library take
    the descriptor over. *)

From stdpp Require Import gmap.
From S2P Require Import Prelude CString Kernel State Tunables Override Walk FdKernel Internal Synth SynthFrames SynthFacts Close Tty Dispatch Handlers Open.

Open Scope Z_scope.

Definition FIONCLEX : Z := 21584.
Definition FIOCLEX : Z := 21585.
Definition TCSBRK : Z := 21513.
Definition TCXONC : Z := 21514.
Definition TCFLSH : Z := 21515.
Definition TIOCGPGRP : Z := 21519.
Definition TIOCSPGRP : Z := 21520.
Definition TIOCGSID : Z := 21545.
Definition TCSANOW : Z := 0.
Definition TCSADRAIN : Z := 1.
Definition TCSAFLUSH : Z := 2.

Section ioctl.
Context {W : Type} `{!Kernel W} {Hfuel : Fuel}.
Local Abbreviation M := (prog (st W)).

(** On success, the return value and the argument as the kernel or a handler left it. *)
Definition ioctl (fd op : Z) (arg : ioctl_arg) : M (option (Z * ioctl_arg)) :=
  let* result := sys (k_ioctl fd op arg) in
  let* off := wslcompat_passthru "ioctl" in
  if (off : bool) then ret result
  else
    match result with
    | None =>
        let* e := get_errno in
        if negb (e =? EBADF) then ret result
        else
          autopin fd (λ e,
            match e with
            | None => ret result
            | Some _ =>
                if op =? FIOCLEX then
                  let* r := sys (k_fcntl fd F_SETFD (arg_int FD_CLOEXEC)) in
                  ret ((λ z, (z, arg)) <$> r)
                else if op =? FIONCLEX then
                  let* r := sys (k_fcntl fd F_SETFD (arg_int 0)) in
                  ret ((λ z, (z, arg)) <$> r)
                else
                  let* d := SYNTH_DISPATCH (λ o, (λ f i, f i op arg) <$> op_ioctl o)
                              (λ fd, sys (k_ioctl fd op arg)) fd in
                  match d with Some r => ret r | None => ret result end
            end)
    | Some (z, arg') =>
        if (z =? 0) && is_tcsets op then
          (* the kernel has just read a struct termios through this pointer *)
          match arg' with
          | io_termios t => wslcompat_tty_install open fd t ;;* ret result
          | _ => ret result
          end
        else ret result
    end.

Definition tcsetattr (fd optional_actions : Z) (t : termios) : M (option Z) :=
  let* off := wslcompat_passthru "tcsetattr" in
  if (off : bool) then sys (k_tcsetattr fd optional_actions t)
  else
    let go cmd := let* r := ioctl fd cmd (io_termios t) in ret (fst <$> r) in
    if optional_actions =? TCSANOW then go TCSETS
    else if optional_actions =? TCSADRAIN then go TCSETSW
    else if optional_actions =? TCSAFLUSH then go TCSETSF
    else fail_with EINVAL.

(** [t0] is what the caller's buffer holds before the call. *)
Definition tcgetattr (fd : Z) (t0 : termios) : M (option (Z * ioctl_arg)) :=
  let* off := wslcompat_passthru "tcgetattr" in
  if (off : bool) then
    let* r := sys (k_tcgetattr fd) in ret ((λ t, (0, io_termios t)) <$> r)
  else ioctl fd TCGETS (io_termios t0).

Definition isatty (fd : Z) (t0 : termios) : M Z :=
  let* off := wslcompat_passthru "isatty" in
  if (off : bool) then let* r := sys (k_isatty fd) in ret (default (-1) r)
  else
    let* r := ioctl fd TCGETS (io_termios t0) in
    ret (match r with Some (z, _) => if z =? 0 then 1 else 0 | None => 0 end).

Definition tcsetpgrp (fd pgrp : Z) : M (option Z) :=
  let* off := wslcompat_passthru "tcsetpgrp" in
  if (off : bool) then sys (k_tcsetpgrp fd pgrp)
  else let* r := ioctl fd TIOCSPGRP (io_pid pgrp) in ret (fst <$> r).

(** A process id read by ioctl into a local variable, whose initial value is [p0]. *)
Definition ioctl_get_pid (fd op p0 : Z) : M (option Z) :=
  let* r := ioctl fd op (io_pid p0) in
  match r with
  | Some (z, arg) => if z <? 0 then ret None
                     else ret (Some (match arg with io_pid p => p | _ => p0 end))
  | None => ret None
  end.

Definition tcgetpgrp (fd p0 : Z) : M (option Z) :=
  let* off := wslcompat_passthru "tcgetpgrp" in
  if (off : bool) then sys (k_tcgetpgrp fd) else ioctl_get_pid fd TIOCGPGRP p0.

Definition tcgetsid (fd p0 : Z) : M (option Z) :=
  let* off := wslcompat_passthru "tcgetsid" in
  if (off : bool) then sys (k_tcgetsid fd) else ioctl_get_pid fd TIOCGSID p0.

(** ioctl with an integer argument. *)
Definition ioctl_int (fd op z : Z) : M (option Z) :=
  let* r := ioctl fd op (io_int z) in ret (fst <$> r).

Definition tcdrain (fd : Z) : M (option Z) :=
  let* off := wslcompat_passthru "tcdrain" in
  if (off : bool) then sys (k_tcdrain fd) else ioctl_int fd TCSBRK 1.

Definition tcsendbreak (fd duration : Z) : M (option Z) :=
  let* off := wslcompat_passthru "tcsendbreak" in
  if (off : bool) then sys (k_tcsendbreak fd duration) else ioctl_int fd TCSBRK 0.

Definition tcflush (fd queue : Z) : M (option Z) :=
  let* off := wslcompat_passthru "tcflush" in
  if (off : bool) then sys (k_tcflush fd queue) else ioctl_int fd TCFLSH queue.

Definition tcflow (fd action : Z) : M (option Z) :=
  let* off := wslcompat_passthru "tcflow" in
  if (off : bool) then sys (k_tcflow fd action) else ioctl_int fd TCXONC action.

Definition ttyname (fd : Z) : M (option string) :=
  let* off := wslcompat_passthru "ttyname" in
  if (off : bool) then sys (k_ttyname fd)
  else
    let* real := wslcompat_synth_passthru fd SYNTH_OP_IO in
    if 0 <=? real then sys (k_ttyname real) else sys (k_ttyname fd).

Definition ttyname_r (fd buflen : Z) : M (option string) :=
  let* off := wslcompat_passthru "ttyname_r" in
  if (off : bool) then sys (k_ttyname_r fd buflen)
  else
    let* real := wslcompat_synth_passthru fd SYNTH_OP_IO in
    if 0 <=? real then sys (k_ttyname_r real buflen) else sys (k_ttyname_r fd buflen).
End ioctl.
