(* ===== verification/Session.v ===== *)
(** * A process and its descriptors over time

    Between calls every open descriptor is one the application has, or one the library accounts for in
    its tables; the calls that make, share and drop synthetic descriptors keep it so. *)

From stdpp Require Import gmap.
From S2P Require Import Prelude CString Kernel State Tunables Override Walk Internal Synth SynthFrames SynthFacts Close Tty Proc Dispatch Handlers FdTable TtyFacts Open WrapOpen WrapTty WrapClose.

Open Scope Z_scope.

Lemma map_size_delete_le (k : Z) (T : gmap Z fdesc) : (size (delete k T) ≤ size T)%nat.
Proof. rewrite map_size_delete. destruct (T !! k); cbn; lia. Qed.

Section session.
Context {W : Type} `{!Kernel W, !KernelProcFd W, !KernelTable W, !KernelPid W, !KernelOpens W} {Hfuel : Fuel}.
Variables id t : Z.
Local Abbreviation calm := (calm id t).

(** [A] are the descriptors of the application. *)
Record at_rest (A : gset Z) (m : mem) (w : W) : Prop := {
  rest_calm : calm m w;
  rest_redirect : wslcompat_tunable_bool (options m) "redirect" true = true;
  rest_count i : live m i → refcount (entry_at m i) = 1;
  rest_wrap fd x i : fd ∈ A → tab w !! fd = Some x → wraps m i (d_stat x) → locked m i x ∧ d_path x = true;
  rest_open fd : is_Some (tab w !! fd) ↔ fd ∈ A ∨ 0 ≤ fd ∧ internal m fd;
  rest_apart fd : fd ∈ A → ¬ internal m fd;
}.

Lemma rest_lookup A m w fd : at_rest A m w → fd ∈ A → ∃ x, tab w !! fd = Some x.
Proof. intros R Hfd. destruct (proj2 (rest_open _ _ _ R fd) (or_introl Hfd)) as [x Hx]. by exists x. Qed.

(** The entry of a descriptor, if it is synthetic. *)
Lemma is_wrap_dec m s : Decision (is_wrap m s).
Proof.
  destruct (decide (Exists (λ i, live_match s (entry_at m i) = true) (seq 0 SYNTH_TABLE_SIZE))) as [H|H].
  - left. apply Exists_exists in H as (i & Hi%elem_of_seq & H). exists i. apply live_match_wraps; [lia|done].
  - right. intros [i Hw]. apply H, Exists_exists. exists i. destruct (Hw) as [[Hi _] _].
    split; [apply elem_of_seq; lia|]. by apply live_match_wraps.
Qed.

(** Another descriptor of the entry that [fd] has. *)
Definition other (A : gset Z) (fd : Z) (i : nat) (m : mem) (w : W) (h : Z) : Prop :=
  h ≠ fd ∧ ∃ y, tab w !! h = Some y ∧ same_inode (e_stat (entry_at m i)) (d_stat y) = true.

#[local] Instance other_dec A fd i m w h : Decision (other A fd i m w h).
Proof.
  unfold other. destruct (decide (h = fd)) as [->|Hne]; [right; by intros []|].
  destruct (tab w !! h) as [y|] eqn:E; [|right; by intros [_ (y & ? & _)]].
  destruct (decide (same_inode (e_stat (entry_at m i)) (d_stat y) = true)) as [Hs|Hs].
  - left. eauto.
  - right. intros [_ (z & [= <-] & Hz)]. done.
Qed.

(** A synthetic descriptor of the application is one of several, or the last of its entry. *)
Lemma beside_or_last A m w fd x i :
  at_rest A m w → fd ∈ A → tab w !! fd = Some x → wraps m i (d_stat x) →
  held_beside fd m w ∨ last_of i fd m w.
Proof.
  intros R Hfd Hx Hw. pose proof (rest_calm _ _ _ R) as C.
  destruct (decide (set_Exists (other A fd i m w) A)) as [(h & HhA & Hne & y & Hy & Hs)|Hno].
  - left. intros j Hj. destruct (decide (j = i)) as [->|Hji].
    + assert (wraps m i (d_stat y)) as Hwy by done. exists h, y.
      destruct (rest_wrap _ _ _ R h y i HhA Hy Hwy) as [? _]. done.
    + destruct (calm_holder _ _ _ _ C j Hj) as (k & z & Hz & Hl & Hwz). exists k, z.
      split; [|done]. intros ->. assert (z = x) as -> by congruence.
      by apply Hji, (calm_unique _ _ _ _ C _ _ (d_stat x)).
  - right. intros h y Hy Hwy. destruct (decide (h = fd)) as [->|Hne]; [by left|right].
    destruct (proj1 (rest_open _ _ _ R h) ltac:(eauto)) as [HhA|[_ Hint]].
    + destruct Hno. exists h. split; [done|]. split; [done|]. exists y. split; [done|]. apply Hwy.
    + symmetry. by apply (internal_apart _ _ m w h y i C Hy Hwy).
Qed.

(** ** Dropping a descriptor *)

(** [fd] goes, and with it its entry: the probe and the hidden terminal are not the application's. *)
Lemma rest_retire A A' m (w w' : W) i T fd :
  at_rest A m w → live m i → fd ∈ A → calm (retire i m) w' →
  tab w' = delete (probe_fd (entry_at m i)) (delete (hidden m i) T) →
  (∀ k, k ≠ fd → T !! k = tab w !! k) → (∀ k, k ∈ A' ↔ k ∈ A ∧ (k = fd → is_Some (T !! fd))) →
  (∀ x j, T !! fd = Some x → wraps m j (d_stat x) → locked m j x ∧ d_path x = true) →
  at_rest A' (retire i m) w'.
Proof.
  intros R Hl Hfd C' T' Hrest HA' Hnew. pose proof (rest_calm _ _ _ R) as C.
  assert (∀ k, k ∈ A → k ≠ probe_fd (entry_at m i) ∧ k ≠ hidden m i) as Hap.
  { intros k Hk. pose proof (rest_apart _ _ _ R k Hk) as Hn. destruct (rest_lookup _ _ _ _ R Hk) as [x Hx].
    assert (0 ≤ k) by (apply (tab_range w); eauto). split; intros E; apply Hn; left; exists i; (split; [done|]); [by left|right].
    destruct (hidden_real i m ltac:(lia)) as [? ?]. split; [done|congruence]. }
  assert (∀ k, k ∈ A' → tab w' !! k = T !! k) as Hlk.
  { intros k [Hk _]%HA'. destruct (Hap k Hk). by rewrite T', !lookup_delete_ne. }
  split; [done|unfold retire, released; case_decide; apply R|..].
  - intros j [Hji Hj]%(retire_live id t i m w C Hl). rewrite (retire_ne i m) by done. by apply R.
  - intros k x j Hk Hx [Hji Hw]%(retire_wraps id t i m w C Hl). rewrite Hlk in Hx by done. unfold locked.
    rewrite (retire_ne i m) by done. destruct (decide (k = fd)) as [->|Hne]; [by apply (Hnew x j)|].
    rewrite Hrest in Hx by done. apply HA' in Hk as [Hk _]. by apply (rest_wrap _ _ _ R k x j).
  - intros k. split.
    + intros Hs. rewrite T', !lookup_delete_is_Some in Hs. destruct Hs as (Hp & Hh & Hs).
      destruct (decide (k = fd)) as [->|Hne]; [left; by apply HA'|]. rewrite Hrest in Hs by done.
      apply R in Hs as [Hk|[Hk Hin]]; [left; by apply HA'|right]. split; [done|].
      by apply (retire_internal id t i m w C Hl).
    + intros [Hk|[Hk Hin]].
      * rewrite Hlk by done. apply HA' in Hk as [Hk Hf]. destruct (decide (k = fd)) as [->|Hne]; [by apply Hf|].
        rewrite Hrest by done. destruct (rest_lookup _ _ _ _ R Hk); eauto.
      * apply (retire_internal id t i m w C Hl) in Hin as (Hin & Hp & Hh); [|done].
        rewrite T', !lookup_delete_ne, Hrest by (congruence || (intros ->; by apply (rest_apart _ _ _ R fd))).
        apply R. by right.
  - intros k [Hk _]%HA' Hin. destruct (rest_lookup _ _ _ _ R Hk) as [x Hx].
    apply (retire_internal id t i m w C Hl) in Hin as [Hin _]; [|apply (tab_range w); eauto]. by apply (rest_apart _ _ _ R k).
Qed.

(** [fd] changes or goes, the entries stay. *)
Lemma rest_retable A A' m (w w' : W) fd :
  at_rest A m w → fd ∈ A → calm m w' → (∀ k, k ≠ fd → tab w' !! k = tab w !! k) →
  (∀ k, k ∈ A' ↔ k ∈ A ∧ (k = fd → is_Some (tab w' !! fd))) →
  (∀ x j, tab w' !! fd = Some x → wraps m j (d_stat x) → locked m j x ∧ d_path x = true) →
  at_rest A' m w'.
Proof.
  intros R Hfd C' Hrest HA' Hnew. split; [done|apply R|apply R|..].
  - intros k x j Hk Hx Hw. destruct (decide (k = fd)) as [->|Hne]; [by apply (Hnew x j)|].
    rewrite Hrest in Hx by done. apply HA' in Hk as [Hk _]. by apply (rest_wrap _ _ _ R k x j).
  - intros k. destruct (decide (k = fd)) as [->|Hne].
    + rewrite HA'. pose proof (rest_apart _ _ _ R fd Hfd). tauto.
    + rewrite Hrest, HA' by done. rewrite (rest_open _ _ _ R k). tauto.
  - intros k [Hk _]%HA'. by apply R.
Qed.

Lemma rest_close A m (w : W) e fd :
  at_rest A m w → fd ∈ A → spacious 4 w →
  ∃ m' w', close fd (mkst m w e) = Ret (Some tt) (mkst m' w' e) ∧ at_rest (A ∖ {[fd]}) m' w' ∧ (size (tab w') ≤ size (tab w))%nat.
Proof.
  intros R Hfd Hsp. destruct (rest_lookup _ _ _ _ R Hfd) as [x Hx]. pose proof (rest_calm _ _ _ R) as C.
  pose proof (rest_apart _ _ _ R fd Hfd) as Hint.
  assert (∀ T, T = delete fd (tab w) → (size T ≤ size (tab w))%nat) as Hsz.
  { intros T ->. rewrite map_size_delete, Hx. lia. }
  assert (∀ w', calm m w' → tab w' = delete fd (tab w) → at_rest (A ∖ {[fd]}) m w') as Hdrop.
  { intros w' C' T'. apply (rest_retable A _ m w w' fd R Hfd C').
    - intros k Hk. by rewrite T', lookup_delete_ne.
    - intros k. rewrite T', lookup_delete_eq, is_Some_alt. set_solver.
    - intros z j. by rewrite T', lookup_delete_eq. }
  destruct (is_wrap_dec m (d_stat x)) as [[i Hw]|Hnw].
  2:{ destruct (close_plain _ _ fd x m w e C Hx Hnw Hint) as (w' & E & C' & T'). exists m, w'. eauto. }
  destruct (beside_or_last A m w fd x i R Hfd Hx Hw) as [Hb|Hlast].
  - destruct (close_wrap _ _ i fd x m w e C Hx Hw Hint Hb Hsp) as (w' & E & C' & T'). exists m, w'. eauto.
  - destruct (close_last _ _ i fd x m w e C Hx Hw Hint (rest_count _ _ _ R i (proj1 Hw)) Hlast Hsp) as (w' & E & C' & T').
    exists (retire i m), w'. split; [done|]. split.
    + apply (rest_retire A _ m w w' i (delete fd (tab w)) fd R (proj1 Hw) Hfd C' T').
      * intros k Hk. by rewrite lookup_delete_ne.
      * intros k. rewrite lookup_delete_eq, is_Some_alt. set_solver.
      * intros z j. by rewrite lookup_delete_eq.
    + rewrite T'. etrans; [apply map_size_delete_le|]. etrans; [apply map_size_delete_le|]. by apply Hsz.
Qed.

Lemma rest_dup3 A m (w : W) e old fd (b : bool) :
  at_rest A m w → old ∈ A → fd ∈ A → old ≠ fd → spacious 5 w →
  ∃ m' w' e', dup3 old fd (if b then O_CLOEXEC else 0) (mkst m w e) = Ret (Some fd) (mkst m' w' e') ∧
    at_rest A m' w' ∧ (size (tab w') ≤ size (tab w))%nat.
Proof.
  intros R Hold Hfd Hne Hsp. destruct (rest_lookup _ _ _ _ R Hfd) as [x Hx], (rest_lookup _ _ _ _ R Hold) as [y Hy].
  pose proof (rest_calm _ _ _ R) as C. pose proof (rest_apart _ _ _ R fd Hfd) as Hint.
  set (T := <[fd := with_cloexec b y]> (tab w)).
  assert (size T = size (tab w)) as Hsz by (unfold T; by rewrite map_size_insert_Some by eauto).
  assert (∀ k, k ≠ fd → T !! k = tab w !! k) as Hrest by (intros k Hk; unfold T; by rewrite lookup_insert_ne).
  assert (T !! fd = Some (with_cloexec b y)) as HTfd by (unfold T; by rewrite lookup_insert_eq).
  assert (∀ z j, T !! fd = Some z → wraps m j (d_stat z) → locked m j z ∧ d_path z = true) as Hnew.
  { intros z j. rewrite HTfd. intros [= <-] Hw. by apply (rest_wrap _ _ _ R old y j). }
  assert (∀ k, k ∈ A ↔ k ∈ A ∧ (k = fd → is_Some (T !! fd))) as HA by (intros k; rewrite HTfd, is_Some_alt; tauto).
  assert (∀ w', calm m w' → tab w' = T → at_rest A m w') as Hover.
  { intros w' C' T'. apply (rest_retable A _ m w w' fd R Hfd C'); by rewrite T'. }
  destruct (is_wrap_dec m (d_stat x)) as [[i Hw]|Hnw].
  2:{ destruct (dup3_over_plain _ _ old fd b y x m w e C Hx Hnw Hint Hy Hne) as (w' & E & C' & T').
      exists m, w', e. split; [done|]. split; [by apply Hover|]. rewrite T'. fold T. lia. }
  destruct (beside_or_last A m w fd x i R Hfd Hx Hw) as [Hb|Hlast].
  - destruct (dup3_over_wrap _ _ old fd b i x y m w e C Hx Hw Hy Hne Hb Hsp) as (m' & w' & e' & T1 & E & C' & _ & Hsh & T').
    destruct Hsh as [[-> ->]|(n & Hp & _)]; [|destruct Hint; left; exists i; split; [apply Hw|by left]].
    exists m, w', e'. split; [done|]. split; [by apply Hover|]. rewrite T'. fold T. lia.
  - assert (¬ wraps m i (d_stat y)) as Hny.
    { intros Hwy. destruct (Hlast old y Hy Hwy) as [|E]; [done|]. apply (rest_apart _ _ _ R old Hold).
      left. exists i. split; [apply Hw|by left]. }
    destruct Hsp as [Hr Hf]. assert (spacious 4 w) as Hsp by (unfold spacious; lia).
    destruct (dup3_last _ _ old fd b i x y m w e C Hx Hw Hint (rest_count _ _ _ R i (proj1 Hw)) Hlast Hy Hny Hsp)
      as (w' & E & C' & T'). exists (retire i m), w', e. split; [done|]. split.
    + by apply (rest_retire A _ m w w' i T fd R (proj1 Hw) Hfd C' T').
    + rewrite T'. etrans; [apply map_size_delete_le|]. etrans; [apply map_size_delete_le|]. fold T. lia.
Qed.

(** ** New descriptors *)
Lemma rest_alike A m (w w' : W) : at_rest A m w → alike w w' → at_rest A m w'.
Proof.
  intros R [Ht Hk]. pose proof (calm_alike _ _ m w w' (rest_calm _ _ _ R) (conj Ht Hk)).
  split; [done|apply R|apply R|..]; try (rewrite Ht; apply R). apply R.
Qed.

Lemma rest_upd_tty A m k f (w : W) : at_rest A m w → slot_idle m k → at_rest A (upd_tty k f m) w.
Proof.
  intros R Hk. split; [apply calm_upd_tty; [done|apply R]|apply R|apply R|apply R|..].
  - intros fd. rewrite internal_upd_tty by done. apply R.
  - intros fd Hfd. rewrite internal_upd_tty by done. by apply R.
Qed.

Section enrolled.
Variables (A : gset Z) (m : mem) (w w' : W) (i : nat) (s : stat) (ops : handler) (p : Z) (up : userptr) (fl : Z)
  (slots : list synth_override) (fd : Z) (y : fdesc).
Let m' := enrol i (published s ops p up fl id t slots) m.
Hypothesis R : at_rest A m w.
Hypothesis C' : calm m' w'.
Hypothesis Hi : (i < SYNTH_TABLE_SIZE)%nat.
Hypothesis Hfree : is_free m i.
Hypothesis Hfr : fresh s (tab w).
Hypothesis Hfd : tab w' !! fd = Some y.
Hypothesis Hy : d_stat y = s ∧ locked m' i y ∧ d_path y = true.
(** the new numbers are the descriptor, the probe and the terminal *)
Hypothesis Htab : ∀ k, k ≠ fd → tab w' !! k = tab w !! k ∨
  tab w !! k = None ∧ is_Some (tab w' !! k) ∧ (k = p ∨ ops = h_tty ∧ k = real_of m' i).
Hypothesis Hnew : ∀ k, k = p ∨ ops = h_tty ∧ k = real_of m' i → 0 ≤ k → k ≠ fd ∧ tab w !! k = None ∧ is_Some (tab w' !! k).
Hypothesis Hold : fd ∈ A ∨ tab w !! fd = None.

Lemma rest_enrol : at_rest ({[fd]} ∪ A) m' w'.
Proof.
  pose proof (rest_calm _ _ _ R) as C. pose proof (calm_len _ _ _ _ C) as Hlen.
  assert (∀ k, internal m' k ↔ internal m k ∨ k = p ∨ ops = h_tty ∧ k = real_of m' i) as Hin
    by (intros k; by apply enrol_internal).
  assert (∀ k, k ∈ A → ¬ internal m' k) as Hap.
  { intros k Hk Hk1. destruct (rest_lookup _ _ _ _ R Hk) as [x Hx]. assert (0 ≤ k) by (apply (tab_range w); eauto).
    apply Hin in Hk1 as [Hk1|Hk1]; [by apply (rest_apart _ _ _ R k)|]. destruct (Hnew k Hk1) as (_ & ? & _); [done|congruence]. }
  assert (¬ internal m' fd) as Hfi.
  { destruct Hold as [|Hn]; [by apply Hap|]. assert (0 ≤ fd) by (apply (tab_range w'); eauto).
    rewrite Hin. intros [Hk|Hk]; [|by destruct (Hnew fd Hk) as [? _]].
    destruct (internal_open _ _ m w fd C Hk) as [|[z Hz]]; [lia|congruence]. }
  split; [done|apply R|..].
  - intros j Hj. destruct (decide (j = i)) as [->|Hji]; [by unfold m'; rewrite (enrol_eq id t m i)|].
    apply (enrol_live id t m i s ops p up fl slots) in Hj as [|Hj]; [done| |done..]. unfold m'. rewrite enrol_ne by done. by apply R.
  - intros k x j Hk Hx Hw. apply (enrol_wraps id t m i s ops p up fl slots) in Hw; [|done..].
    destruct (decide (k = fd)) as [->|Hne].
    + assert (x = y) as -> by congruence. destruct Hw as [[-> _]|Hw]; [by apply Hy|]. exfalso.
      destruct Hy as [E _]. destruct (calm_holder _ _ _ _ C j (proj1 Hw)) as (h & z & Hz & _ & Hwz).
      pose proof (Hfr h z Hz) as Hn. rewrite <-E in Hn. destruct Hw as [_ [? ?]%same_inode_eq], Hwz as [_ [? ?]%same_inode_eq].
      rewrite (proj2 (same_inode_eq _ _)) in Hn; [done|]. split; congruence.
    + assert (k ∈ A) as HkA by set_solver. destruct (rest_lookup _ _ _ _ R HkA) as [x' Hx'].
      assert (x' = x) as -> by (destruct (Htab k Hne) as [|[? _]]; congruence).
      destruct Hw as [[-> Hs]|Hw].
      * exfalso. pose proof (Hfr k x Hx') as Hn. apply same_inode_eq in Hs as [].
        rewrite (proj2 (same_inode_eq _ _)) in Hn; done.
      * destruct (rest_wrap _ _ _ R k x j HkA Hx' Hw). unfold locked, m'. rewrite enrol_ne; [done|].
        intros ->. destruct Hw as [[_ Hr] _]. unfold is_free in Hfree. lia.
  - intros k. destruct (decide (k = fd)) as [->|Hne]; [rewrite Hfd; split; [set_solver|eauto]|].
    rewrite Hin. assert (k ∈ {[fd]} ∪ A ↔ k ∈ A) as -> by set_solver. split.
    + intros Hs. destruct (Htab k Hne) as [E|(_ & _ & Hk)].
      * rewrite E in Hs. apply R in Hs. tauto.
      * right. split; [by apply (tab_range w')|tauto].
    + intros Hs. assert (is_Some (tab w !! k) ∨ 0 ≤ k ∧ (k = p ∨ ops = h_tty ∧ k = real_of m' i)) as [Hk|[Hk0 Hk]].
      { rewrite (rest_open _ _ _ R k). tauto. }
      * destruct (Htab k Hne) as [->|(_ & ? & _)]; done.
      * by apply (Hnew k Hk).
  - intros k [->%elem_of_singleton|Hk]%elem_of_union; [done|by apply Hap].
Qed.
End enrolled.

Lemma with_probe_is_Some p s T : p ≠ -1 → is_Some (with_probe p s T !! p).
Proof. intros Hp. unfold with_probe. rewrite (proj2 (Z.eqb_neq _ _)) by done. rewrite lookup_insert_eq. eauto. Qed.

Definition gained (r : option Z) (A : gset Z) : gset Z :=
  match r with Some fd => {[fd]} ∪ A | None => A end.

Lemma rest_synth_open A m (w : W) e fl ops up :
  at_rest A m w → ops ≠ h_tty → spacious 7 w →
  ∃ r m' w' e', wslcompat_synth_open open_inner fl ops up (mkst m w e) = Ret r (mkst m' w' e') ∧
    at_rest (gained r A) m' w' ∧ (size (tab w') ≤ size (tab w) + 2)%nat.
Proof.
  intros R Hops Hsp. pose proof (rest_calm _ _ _ R) as C.
  assert (slot_ready m ops up w) as Hs by (by intros ?).
  destruct (synth_open_run id t fl ops up m w e C Hsp Hs)
    as [(w' & e' & E & Ha)|(fd & i & s & p & b & slots & m' & w' & e' & E & K & C' & O)].
  { exists None, m, w', e'. split; [done|]. split; [by eapply rest_alike|]. destruct Ha as [-> _]. lia. }
  exists (Some fd), m', w', e'. split; [done|]. split; [|by eapply so_size].
  destruct (so_facts _ _ _ _ _ _ _ _ _ _ _ _ _ _ _ O) as (Hsub & Hfd & Hp).
  pose proof (so_locked _ _ _ _ _ _ _ _ _ _ _ _ _ _ _ C O) as Hl.
  destruct O as [-> Hi Hf Hfr Ht Hn Hpr]. cbn [gained].
  apply (rest_enrol A m w w' i s ops p up fl slots fd (wrap_desc s fl b)); try done; [|..].
  - intros k Hk. rewrite Ht. destruct (decide (k = p)) as [->|Hkp].
    + destruct (decide (p = -1)) as [->|Hp1]; [left; by rewrite <-Ht, !tab_none|right].
      destruct Hpr as [|(_ & Hpn & _)]; [done|]. split; [done|]. split; [by apply with_probe_is_Some|by left].
    + left. by rewrite with_probe_fresh, lookup_insert_ne.
  - intros k Hk0 Hk. assert (k = p) as -> by tauto. destruct Hpr as [|(_ & Hpn & Hpf)]; [lia|]. destruct Hp as [|Hpp]; [lia|]. rewrite Hpp. eauto.
  - by right.
Qed.

Lemma rest_install A m (w : W) e fd x ti :
  at_rest A m w → fd ∈ A → tab w !! fd = Some x → ¬ is_wrap m (d_stat x) → spacious 8 w →
  ∃ r m' w' e', wslcompat_tty_install open fd ti (mkst m w e) = Ret r (mkst m' w' e') ∧
    at_rest A m' w' ∧ (size (tab w') ≤ size (tab w) + 2)%nat.
Proof.
  intros R Hfd Hx Hnw Hsp. pose proof (rest_calm _ _ _ R) as C.
  destruct (tty_install_run id t fd x ti m w e C Hx Hnw (rest_apart _ _ _ R fd Hfd) Hsp)
    as [(m' & w' & e' & E & Hid & Ha)|(m' & w' & e' & E & C' & Hin)].
  { exists (-1), m', w', e'. split; [done|]. split; [|destruct Ha as [-> _]; lia].
    destruct Hid as [->|(k & f & Hk & _ & ->)]; [by eapply rest_alike|]. apply rest_upd_tty; [by eapply rest_alike|done]. }
  exists 0, m', w', e'. split; [done|].
  destruct Hin as (i & k & real & p & s & b & nb & slots & -> & Hi & Hfree & Hk & Hc & Hfr & Hreal & Hpos & Hp & T').
  set (m1 := upd_tty k (wrapped_tty real ti nb) m) in *.
  assert (real_of (enrol i (published s h_tty p (up_tty k) O_CLOEXEC id t slots) m1) i = real) as Hro.
  { unfold real_of, tty_slot. rewrite (enrol_eq id t m1 i); [|apply C|done]. cbn [e_userptr published].
    change (tty_at (enrol _ _ m1) k) with (tty_at m1 k). unfold m1. rewrite tty_at_upd_eq; [done|].
    by rewrite (calm_tty_len _ _ _ _ C). }
  assert (real ≠ fd) as Hrf by congruence.
  assert (p ≠ fd) as Hpf by (destruct Hp as [->|(_ & ? & _)]; [intros <-; by rewrite tab_none in Hx|congruence]).
  assert (tab w' !! fd = Some (with_cloexec (d_cloexec x) (wrap_desc s O_CLOEXEC b))) as Hfd' by (by rewrite T', lookup_insert_eq).
  split.
  2:{ rewrite T', map_size_insert_Some by (rewrite with_probe_fresh, lookup_insert_ne by done; eauto). unfold with_probe.
      assert (size (<[real := with_cloexec true x]> (tab w)) = S (size (tab w))) as Hz by (by rewrite map_size_insert_None).
      destruct (p =? -1); [lia|]. rewrite map_size_insert, Hz. case_match; unfold Datatypes.id; lia. }
  replace A with ({[fd]} ∪ A) by set_solver.
  eapply (rest_enrol A m1 w w' i s h_tty p (up_tty k) O_CLOEXEC slots fd); try done.
  - apply rest_upd_tty; [done|by eapply slot_idle_free].
  - split; [done|]. split; [|done]. unfold locked. rewrite (enrol_eq id t m1 i); [|apply C|done]. cbn.
    destruct Hp as [|[-> _]]; auto.
  - intros n Hn. rewrite Hro, T', lookup_insert_ne by done. destruct (decide (n = p)) as [->|Hnp].
    + destruct Hp as [->|(_ & ? & ? & _)]; [left; unfold with_probe; cbn; by rewrite lookup_insert_ne by lia|right].
      split; [done|]. split; [apply with_probe_is_Some; lia|by left].
    + rewrite with_probe_fresh by done. destruct (decide (n = real)) as [->|Hnr]; [right|left; by rewrite lookup_insert_ne].
      rewrite lookup_insert_eq. eauto.
  - rewrite Hro. intros n Hn Hn0. rewrite T', lookup_insert_ne by (destruct Hn as [->|[_ ->]]; done).
    destruct Hn as [->|[_ ->]].
    + split; [done|]. destruct Hp as [|(_ & ? & _)]; [lia|]. split; [done|]. apply with_probe_is_Some. lia.
    + split; [done|]. split; [done|]. destruct (decide (real = p)) as [->|]; [apply with_probe_is_Some; lia|].
      rewrite with_probe_fresh, lookup_insert_eq by done. eauto.
  - by left.
Qed.

(** ** A wrapped terminal from its installation to its end *)
Lemma installed_closed T fd real p s x y :
  T !! fd = Some x → T !! real = None → (p = -1 ∨ T !! p = None) → T !! (-1) = None →
  delete p (delete real (delete fd (<[fd := y]> (with_probe p s (<[real := with_cloexec true x]> T))))) = delete fd T.
Proof.
  intros Hfd Hreal Hp Hneg. apply map_eq. intros k.
  assert (T !! p = None) as Hp1 by (destruct Hp as [->|]; done).
  destruct (decide (k = p)) as [->|H1]; [rewrite lookup_delete_eq; symmetry; by apply lookup_delete_None; right|].
  rewrite lookup_delete_ne by done.
  destruct (decide (k = real)) as [->|H2]; [rewrite lookup_delete_eq; symmetry; by apply lookup_delete_None; right|].
  rewrite lookup_delete_ne by done. destruct (decide (k = fd)) as [->|H3]; [by rewrite !lookup_delete_eq|].
  rewrite !lookup_delete_ne, lookup_insert_ne, with_probe_fresh, lookup_insert_ne by done. done.
Qed.

(** The entry of an installed terminal. *)
Section installed.
Variables (fd : Z) (x : fdesc) (ti : termios) (m : mem) (w : W) (i k : nat) (real p : Z) (s : stat) (nb : Z)
  (slots : list synth_override).
Let m1 := upd_tty k (wrapped_tty real ti nb) m.
Let m' := enrol i (published s h_tty p (up_tty k) O_CLOEXEC id t slots) m1.
Hypothesis C : calm m w.
Hypothesis Hi : (i < SYNTH_TABLE_SIZE)%nat.
Hypothesis Hfree : is_free m i.
Hypothesis Hk : (k < TTY_TABLE_SIZE)%nat.
Hypothesis Hc : claimed (tty_at m k) = 0.

Lemma installed_entry : entry_at m' i = published s h_tty p (up_tty k) O_CLOEXEC id t slots.
Proof. apply enrol_eq; [apply C|done]. Qed.

Lemma installed_hidden : hidden m' i = real.
Proof.
  unfold hidden. rewrite installed_entry. cbn [e_ops published]. rewrite decide_True by done.
  unfold real_of, tty_slot. rewrite installed_entry. cbn [e_userptr published].
  change (tty_at m' k) with (tty_at m1 k). unfold m1. rewrite tty_at_upd_eq; [done|]. by rewrite (calm_tty_len _ _ _ _ C).
Qed.

(** Without the entry again: the same entries are live, the same slots claimed. *)
Lemma installed_retired (w' : W) :
  calm m' w' →
  (∀ j, live (retire i m') j ↔ live m j) ∧ ∀ n, claimed (tty_at (retire i m') n) = claimed (tty_at m n).
Proof.
  intros C'. assert (live m' i) as Hl by (split; [done|by rewrite installed_entry]). split.
  - intros j. rewrite (retire_live id t i m' w' C' Hl). unfold m'. rewrite enrol_live by (by (apply C || done)).
    change (live m1 j) with (live m j). split; [tauto|]. intros Hj. split; [|by right].
    intros ->. destruct Hj. unfold is_free in Hfree. lia.
  - intros n. unfold retire. change (claimed (tty_at (released i m') n) = claimed (tty_at m n)). unfold released.
    rewrite installed_entry. cbn [e_ops published]. rewrite decide_True by done. unfold tty_slot. rewrite installed_entry.
    cbn [e_userptr published]. change (upd_tty k freed_tty m') with (upd_tty k freed_tty (enrol i (published s h_tty p (up_tty k) O_CLOEXEC id t slots) m1)).
    change (tty_at (upd_tty k freed_tty (enrol i (published s h_tty p (up_tty k) O_CLOEXEC id t slots) m1)) n)
      with (tty_at (upd_tty k freed_tty m1) n).
    unfold m1. rewrite upd_tty_compose. destruct (decide (n = k)) as [->|Hn]; [|by rewrite tty_at_upd_ne].
    rewrite tty_at_upd_eq, Hc; [done|]. by rewrite (calm_tty_len _ _ _ _ C).
Qed.
End installed.

(** The number that was the terminal is the only one of the new entry. *)
Lemma installed_last i fd real p s x y z m' (w w' : W) :
  tab w !! fd = Some x → fresh s (tab w) → e_stat (entry_at m' i) = s ∧ probe_fd (entry_at m' i) = p →
  tab w' = <[fd := y]> (with_probe p s (<[real := with_cloexec z x]> (tab w))) → last_of i fd m' w'.
Proof.
  intros Hx Hfr [Hs Hp] T' h u Hu [_ Hw]. rewrite Hs in Hw. rewrite Hp, T' in *.
  destruct (decide (h = fd)) as [|Hf]; [by left|]. destruct (decide (h = p)) as [|Hp']; [by right|]. exfalso.
  rewrite lookup_insert_ne, with_probe_fresh in Hu by done.
  assert (∃ n v, tab w !! n = Some v ∧ d_stat v = d_stat u) as (n & v & Hv & E).
  { destruct (decide (h = real)) as [->|Hr].
    - rewrite lookup_insert_eq in Hu. injection Hu as <-. by exists fd, x.
    - rewrite lookup_insert_ne in Hu by done. eauto. }
  pose proof (Hfr n v Hv) as Hn. apply same_inode_eq in Hw as []. rewrite E in Hn.
  rewrite (proj2 (same_inode_eq _ _)) in Hn; done.
Qed.

(** C12: A terminal that is wrapped and closed leaves no trace: the other descriptors are as they were, the
    same entries are live and the same slots are claimed. *)
Theorem tty_wrap_lifecycle A m (w : W) e fd x ti :
  at_rest A m w → fd ∈ A → tab w !! fd = Some x → ¬ is_wrap m (d_stat x) → spacious 8 w →
  ∃ r m' w' e', (let* r := wslcompat_tty_install open fd ti in close fd ;;* ret r) (mkst m w e) = Ret r (mkst m' w' e') ∧
    tab w' = delete fd (tab w) ∧ at_rest (A ∖ {[fd]}) m' w' ∧
    (∀ i, live m' i ↔ live m i) ∧ ∀ k, claimed (tty_at m' k) = claimed (tty_at m k).
Proof.
  intros R Hfd Hx Hnw Hsp. pose proof (rest_calm _ _ _ R) as C. pose proof (rest_apart _ _ _ R fd Hfd) as Hint.
  destruct (rest_install A m w e fd x ti R Hfd Hx Hnw Hsp) as (r & m1 & w1 & e1 & E1 & R1 & Hsz).
  pose proof (rest_calm _ _ _ R1) as C1.
  rewrite (bind_Ret _ _ _ _ _ E1). destruct (rest_close _ m1 w1 e1 fd R1 Hfd) as (m2 & w2 & E2 & R2 & _);
    [unfold spacious in *; lia|]. rewrite (bind_Ret _ _ _ _ _ E2). exists r, m2, w2, e1. split; [done|].
  assert (tab w2 = delete fd (tab w) ∧ (∀ i, live m2 i ↔ live m i) ∧ ∀ k, claimed (tty_at m2 k) = claimed (tty_at m k))
    as (H1 & H2 & H3); [|done].
  destruct (tty_install_run id t fd x ti m w e C Hx Hnw Hint Hsp)
    as [(m' & w' & e' & E & Hid & Ht & _)|(m' & w' & e' & E & C' & Hin)]; rewrite E in E1; injection E1 as <- <- <- <-.
  - destruct (close_plain id t fd x m' w' e') as (w3 & E3 & _ & T3); [done|by rewrite Ht| |by apply (rest_apart _ _ _ R1)|].
    { by destruct Hid as [->|(k & f & _ & _ & ->)]. }
    rewrite E2 in E3. injection E3 as -> ->. split; [by rewrite T3, Ht|]. split; [|intros k; by apply idle_claimed].
    by destruct Hid as [->|(k & f & _ & _ & ->)].
  - destruct Hin as (i & k & real & p & s & b & nb & slots & -> & Hi & Hfree & Hk & Hc & Hfr & Hreal & Hpos & Hp & T').
    pose proof (installed_entry ti m w i k real p s nb slots C Hi) as Hent.
    pose proof (installed_hidden ti m w i k real p s nb slots C Hi Hk) as Hhid.
    pose proof (installed_retired ti m w i k real p s nb slots C Hi Hfree Hk Hc w' C') as [Hlive Hcl].
    set (m' := enrol i _ _) in *.
    assert (live m' i) as Hl by (split; [done|by rewrite Hent]).
    assert (wraps m' i s) as Hw by (split; [done|]; rewrite Hent; by apply same_inode_eq).
    destruct (close_last id t i fd (with_cloexec (d_cloexec x) (wrap_desc s O_CLOEXEC b)) m' w' e' C')
      as (w3 & E3 & _ & T3); [by rewrite T', lookup_insert_eq|done|by apply (rest_apart _ _ _ R1)|by rewrite Hent|..].
    + eapply (installed_last i fd real p s x _ true m' w w'); [done|done|by rewrite Hent|exact T'].
    + unfold spacious in *. lia.
    + rewrite E2 in E3. injection E3 as -> ->. split; [|done]. rewrite T3, Hhid, Hent, T'. cbn [probe_fd published].
      apply installed_closed; [done..| |apply tab_none]. destruct Hp as [|(_ & ? & _)]; auto.
Qed.
End session.
