(* ===== verification/SessionIo.v ===== *)
(** * Calls on a descriptor, over time

    ioctl and read keep the account of descriptors, and the open of a synthetic file does: a session of
    such calls ends with every descriptor accounted for. *)

From stdpp Require Import gmap.
From S2P Require Import Prelude CString Kernel State Tunables Override Walk Internal Synth SynthFrames SynthFacts Close Tty Proc Dispatch Handlers FdTable Open WrapOpen WrapTty WrapClose Ioctl TtyFacts Session.

Open Scope Z_scope.

(** ** What a handler may change *)

(** The memory but for the positions of the files and the cached settings of the terminals. *)
Definition frame (m : mem) :=
  (options m, env_disabled m, starttime_cache m, (registry m, registry_count m), (debugfd m, mount_fd m),
   set_pos 0 <$> synth_table m, (λ s, (claimed s, real_fd s)) <$> tty_table m).

Definition touch (m m' : mem) : Prop := frame m' = frame m.

#[export] Instance touch_equiv : Equivalence touch.
Proof. unfold touch. split; [by intros m|by intros m m'|intros m1 m2 m3]; congruence. Qed.

Section touched.
Variables (m m' : mem).
Hypothesis H : touch m m'.

Lemma touch_fields :
  (options m' = options m ∧ env_disabled m' = env_disabled m ∧ starttime_cache m' = starttime_cache m) ∧
  (registry m' = registry m ∧ registry_count m' = registry_count m ∧ debugfd m' = debugfd m ∧ mount_fd m' = mount_fd m) ∧
  set_pos 0 <$> synth_table m' = set_pos 0 <$> synth_table m ∧
  (λ s, (claimed s, real_fd s)) <$> tty_table m' = (λ s, (claimed s, real_fd s)) <$> tty_table m.
Proof. unfold touch, frame in H. split_and!; congruence. Qed.

Lemma touch_entry i : set_pos 0 (entry_at m' i) = set_pos 0 (entry_at m i).
Proof.
  destruct touch_fields as (_ & _ & E & _).
  apply (f_equal (λ l, l !! i)) in E. rewrite !list_lookup_fmap in E. unfold entry_at.
  rewrite !list_lookup_total_alt. destruct (synth_table m' !! i), (synth_table m !! i); cbn in E |- *; congruence.
Qed.

Lemma touch_same {A} (g : synth_entry → A) i : (∀ x e, g (set_pos x e) = g e) → g (entry_at m' i) = g (entry_at m i).
Proof. intros Hg. rewrite <-(Hg 0 (entry_at m' i)), touch_entry. apply Hg. Qed.

Lemma touch_tty k : claimed (tty_at m' k) = claimed (tty_at m k) ∧ real_fd (tty_at m' k) = real_fd (tty_at m k).
Proof.
  destruct touch_fields as (_ & _ & _ & E).
  apply (f_equal (λ l, l !! k)) in E. rewrite !list_lookup_fmap in E. unfold tty_at.
  rewrite !list_lookup_total_alt. destruct (tty_table m' !! k), (tty_table m !! k); cbn in E |- *; simplify_eq; done.
Qed.

Lemma touch_live i : live m' i ↔ live m i.
Proof. unfold live. by rewrite (touch_same refcount). Qed.
Lemma touch_wraps i s : wraps m' i s ↔ wraps m i s.
Proof. unfold wraps. by rewrite touch_live, (touch_same e_stat). Qed.
Lemma touch_is_wrap s : is_wrap m' s ↔ is_wrap m s.
Proof. unfold is_wrap. by setoid_rewrite touch_wraps. Qed.
Lemma touch_slot i : tty_slot m' i = tty_slot m i.
Proof. unfold tty_slot. by rewrite (touch_same e_userptr). Qed.
Lemma touch_real i : real_of m' i = real_of m i.
Proof. unfold real_of. rewrite touch_slot. apply touch_tty. Qed.
Lemma touch_registered sl : registered m' sl ↔ registered m sl.
Proof. destruct touch_fields as (_ & (E1 & E2 & _) & _). unfold registered. by rewrite E1, E2. Qed.
Lemma touch_value sl : slot_value m' sl = slot_value m sl.
Proof. destruct touch_fields as (_ & (_ & _ & E1 & E2) & _). by destruct sl. Qed.
Lemma touch_locked i x : locked m' i x ↔ locked m i x.
Proof. unfold locked. by rewrite (touch_same probe_fd). Qed.

Lemma touch_internal fd : internal m' fd ↔ internal m fd.
Proof.
  unfold internal. setoid_rewrite touch_registered. setoid_rewrite touch_live. setoid_rewrite touch_real.
  setoid_rewrite touch_value. setoid_rewrite (touch_same probe_fd); [|done]. by setoid_rewrite (touch_same e_ops).
Qed.

Lemma touch_enabled name : wslcompat_enabled m' name = wslcompat_enabled m name.
Proof. destruct touch_fields as ((E1 & E2 & _) & _). unfold wslcompat_enabled. by rewrite E1, E2. Qed.

Lemma touch_lengths : length (synth_table m') = length (synth_table m) ∧ length (tty_table m') = length (tty_table m).
Proof.
  destruct touch_fields as (_ & _ & E1 & E2). apply (f_equal length) in E1, E2.
  rewrite !length_fmap in E1. rewrite !length_fmap in E2. done.
Qed.
End touched.

(** open(2), O_PATH: read and ioctl fail with EBADF; fcntl(2), F_SETFD. *)
Class KernelPath (W : Type) `{!Kernel W, !KernelProcFd W, !KernelTable W} : Prop := {
  path_read fd n w x : tab w !! fd = Some x → d_path x = true → (kstep (k_read fd n) w).1 = inr EBADF;
  path_ioctl fd op arg w x : tab w !! fd = Some x → d_path x = true → (kstep (k_ioctl fd op arg) w).1 = inr EBADF;
  setfd_law fd a w r w' x :
    tab w !! fd = Some x → kstep (k_fcntl fd F_SETFD (arg_int a)) w = (r, w') →
    match r with inl _ => tab w' = <[fd := with_cloexec (has_bits a FD_CLOEXEC) x]> (tab w) | inr _ => tab w' = tab w end;
}.

Section io.
Context {W : Type} `{!Kernel W, !KernelProcFd W, !KernelTable W, !KernelPid W, !KernelOpens W, !KernelPath W} {Hfuel : Fuel}.
Variables id t : Z.
Local Abbreviation calm := (calm id t).
Local Abbreviation at_rest := (at_rest id t).

Lemma calm_touch m m' (w : W) : touch m m' → calm m w → calm m' w.
Proof.
  intros H C. destruct (touch_fields _ _ H) as ((_ & _ & Hc) & _). destruct (touch_lengths _ _ H) as [L1 L2].
  split; rewrite ?(touch_enabled _ _ H), ?Hc, ?L1, ?L2; try apply C.
  - intros i j s. rewrite !(touch_wraps _ _ H). apply C.
  - intros i. rewrite (touch_live _ _ H), (touch_same _ _ H install_pid), (touch_same _ _ H install_starttime) by done. apply C.
  - intros i. rewrite (touch_live _ _ H), (touch_same _ _ H probe_fd) by done. setoid_rewrite (touch_wraps _ _ H). apply C.
  - intros i. rewrite (touch_live _ _ H), (touch_same _ _ H e_ops), (touch_real _ _ H) by done.
    setoid_rewrite (touch_is_wrap _ _ H). apply C.
  - intros i. rewrite (touch_live _ _ H). setoid_rewrite (touch_wraps _ _ H). setoid_rewrite (touch_locked _ _ H). apply C.
  - intros sl. rewrite (touch_registered _ _ H), (touch_value _ _ H). setoid_rewrite (touch_is_wrap _ _ H). apply C.
  - intros i. rewrite (touch_live _ _ H), (touch_same _ _ H e_ops), (touch_slot _ _ H) by done.
    rewrite (proj1 (touch_tty _ _ H _)). apply C.
  - intros i j. rewrite !(touch_live _ _ H), !(touch_same _ _ H e_ops), !(touch_slot _ _ H) by done. apply C.
  - intros i j. rewrite !(touch_live _ _ H), !(touch_same _ _ H e_ops), !(touch_real _ _ H) by done. apply C.
  - intros i sl. rewrite (touch_live _ _ H), (touch_same _ _ H e_ops), (touch_real _ _ H), (touch_registered _ _ H),
      (touch_value _ _ H) by done. apply C.
Qed.

Lemma rest_touch A m m' (w : W) : touch m m' → at_rest A m w → at_rest A m' w.
Proof.
  intros H R. destruct (touch_fields _ _ H) as ((Ho & _) & _).
  split; [by eapply calm_touch, R|rewrite Ho; apply R|..].
  - intros i. rewrite (touch_live _ _ H), (touch_same _ _ H refcount) by done. apply R.
  - intros fd x i. rewrite (touch_wraps _ _ H), (touch_locked _ _ H). apply R.
  - intros fd. rewrite (touch_internal _ _ H). apply R.
  - intros fd. rewrite (touch_internal _ _ H). apply R.
Qed.

(** ** The scope of a pin *)
Lemma touch_pin i m m' : touch m m' → touch (pin i m) (pin i m').
Proof.
  intros H. destruct (touch_fields _ _ H) as ((E1 & E2 & E3) & (E4 & E5 & E6 & E7) & E8 & E9).
  unfold touch, frame, pin, upd_entry. cbn. rewrite E1, E2, E3, E4, E5, E6, E7, E9. do 2 f_equal.
  rewrite (touch_same _ _ H refcount) by done.
  rewrite !(list_fmap_alter (set_pos 0) _ (set_refcount (refcount (entry_at m i) + 1))) by (by apply Forall_true).
  by rewrite E8.
Qed.

Lemma autopin_wrap {B} i fd x (body : option nat → prog (st W) B) m (w : W) e r m' w' e' :
  calm m w → tab w !! fd = Some x → wraps m i (d_stat x) → touch m m' →
  body (Some i) (mkst (pin i m) w e) = Ret r (mkst (pin i m') w' e') →
  autopin fd body (mkst m w e) = Ret r (mkst m' w' e').
Proof.
  intros C Hx Hw H E. unfold autopin. rewrite (bind_Ret _ _ _ _ _ (pin_wrap _ _ i fd x m w e C Hx Hw)).
  rewrite (bind_Ret _ _ _ _ _ E). erewrite bind_Ret; [done|]. apply unpin_pin.
  - rewrite (proj1 (touch_lengths _ _ H)). apply C.
  - apply (touch_live _ _ H), Hw.
Qed.

Lemma autopin_plain {B} fd x (body : option nat → prog (st W) B) m (w : W) e r s' :
  calm m w → tab w !! fd = Some x → ¬ is_wrap m (d_stat x) → body None (mkst m w e) = Ret r s' →
  autopin fd body (mkst m w e) = Ret r s'.
Proof.
  intros C Hx Hnw E. unfold autopin.
  destruct (pin_fd_cases _ _ fd x m w e C Hx) as [(j & Hj & _)|[_ E1]]; [destruct Hnw; by exists j|].
  by rewrite (bind_Ret _ _ _ _ _ E1), (bind_Ret _ _ _ _ _ E).
Qed.

Lemma calm_own i m (w : W) : calm m w → live m i → own id t i m w.
Proof.
  intros C Hl. destruct (calm_ident _ _ _ _ C i Hl). split_and!; [apply C|apply (calm_cache _ _ _ _ C)|done..].
Qed.

(** ** ioctl *)
Lemma ioctl_cache_run i op arg m (w : W) e :
  own id t i m w →
  ∃ r f w' e', tty_ioctl i op arg (mkst m w e) = Ret r (mkst (upd_tty (tty_slot m i) f m) w' e') ∧ alike w w' ∧
    ∀ s, claimed (f s) = claimed s ∧ real_fd (f s) = real_fd s.
Proof.
  intros Ho. assert (∀ k m0, upd_tty k (λ s, s) m0 = m0) as Hid.
  { intros k m0. unfold upd_tty. rewrite alter_id_total by done. by destruct m0. }
  unfold tty_ioctl, tty_of, tty_real_fd_load. rewrite bind_getm. cbn [s_mem].
  rewrite (bind_Ret _ _ _ _ _ (own_load id t (v_real i (tty_slot m i)) m w e Ho)).
  apply bind_sys_neutral; [done|]. intros r w1 e1 Ha.
  assert ((match r with
     | Some (0, _) => match arg with io_termios ti => if is_tcsets op then cache_termios (tty_slot m i) ti else ret tt | _ => ret tt end
     | _ => ret tt end) (mkst m w1 e1) = Ret tt (mkst m w1 e1) ∨ ∃ ti, 
     (match r with
     | Some (0, _) => match arg with io_termios ti => if is_tcsets op then cache_termios (tty_slot m i) ti else ret tt | _ => ret tt end
     | _ => ret tt end) (mkst m w1 e1) = cache_termios (tty_slot m i) ti (mkst m w1 e1)) as [E|[ti E]].
  { destruct r as [[[| |] a]|]; try (by left). destruct arg; try (by left). destruct (is_tcsets op); [right|by left]. eauto. }
  - exists r, (λ s, s), w1, e1. rewrite (bind_Ret _ _ _ _ _ E), Hid. done.
  - unfold cache_termios in E. rewrite !bind_setm in E. cbn in E. rewrite setm_run in E. cbn in E. rewrite !upd_tty_compose in E.
    eexists r, _, w1, e1. rewrite (bind_Ret _ _ _ _ _ E). split; [done|]. split; [done|]. done.
Qed.

Lemma touch_upd_tty k f m : (∀ s, claimed (f s) = claimed s ∧ real_fd (f s) = real_fd s) → touch m (upd_tty k f m).
Proof.
  intros Hf. unfold touch, frame, upd_tty. cbn. f_equal. apply list_fmap_alter_id. intros s.
  by destruct (Hf s) as [-> ->].
Qed.

Definition keeps_fds (f : tty_state → tty_state) : Prop := ∀ s, claimed (f s) = claimed s ∧ real_fd (f s) = real_fd s.

Lemma upd_tty_id k m : upd_tty k (λ s, s) m = m.
Proof. unfold upd_tty. rewrite alter_id_total by done. by destruct m. Qed.

(** The ioctl of the entry's table, or none. *)
Lemma dispatch_ioctl_run i fd x op arg m (w : W) e :
  calm m w → tab w !! fd = Some x → wraps m i (d_stat x) →
  ∃ d f w' e', SYNTH_DISPATCH (λ o, (λ f i, f i op arg) <$> op_ioctl o) (λ fd, sys (k_ioctl fd op arg)) fd (mkst m w e)
    = Ret d (mkst (upd_tty (tty_slot m i) f m) w' e') ∧ keeps_fds f ∧ alike w w'.
Proof.
  intros C Hx Hw. unfold SYNTH_DISPATCH. rewrite bind_get_errno. cbn [s_errno].
  set (body := λ e0 : option nat, _).
  assert (∃ d f w' e', body (Some i) (mkst (pin i m) w e) = Ret d (mkst (pin i (upd_tty (tty_slot m i) f m)) w' e') ∧
    alike w w' ∧ keeps_fds f) as (d & f & w' & e' & E & Ha & Hf).
  { pose proof (calm_own i _ w (calm_pin _ _ i m w C (proj1 Hw)) (proj2 (pin_live i i m (proj1 Hw)) (proj1 Hw))) as Ho.
    unfold body, entry_ops. rewrite bind_getm. cbn [s_mem]. rewrite (pin_same e_ops) by done.
    assert (∃ f w' e', (set_errno e ;;* ret (A:=option (option (Z * ioctl_arg))) None) (mkst (pin i m) w e) =
      Ret None (mkst (pin i (upd_tty (tty_slot m i) f m)) w' e') ∧ alike w w' ∧ keeps_fds f) as Hnone.
    { exists (λ s, s), w, e. by rewrite upd_tty_id. }
    destruct (e_ops (entry_at m i)); cbn [ops_of lib_handlers null_ops tty_ops mmap_min_addr_ops proc_pid_mem_ops op_ioctl op_passthru fmap option_fmap option_map];
      [by eexists None| |by eexists None..].
    destruct (ioctl_cache_run i op arg _ w e Ho) as (r & f & w' & e' & E & Ha & Hf).
    rewrite pin_slot in E. exists (Some r), f, w', e'. by rewrite (bind_Ret _ _ _ _ _ E). }
  exists d, f, w', e'. split; [|done]. eapply autopin_wrap; [done..| |done]. by apply touch_upd_tty.
Qed.

(** The close-on-exec flag of one of the application's descriptors. *)
Lemma rest_setfd A m m0 (w : W) e fd a :
  at_rest A m w → fd ∈ A →
  ∃ r w' e', sys (k_fcntl fd F_SETFD (arg_int a)) (mkst m0 w e) = Ret r (mkst m0 w' e') ∧ at_rest A m w' ∧
    (size (tab w') = size (tab w))%nat.
Proof.
  intros R Hfd. destruct (rest_lookup _ _ _ _ _ _ R Hfd) as [x Hx]. pose proof (rest_calm _ _ _ _ _ R) as C.
  unfold sys. cbn [s_world s_mem s_errno]. destruct (kstep _ w) as [r w'] eqn:E.
  pose proof (setfd_law _ _ _ _ _ _ Hx E) as Ht. pose proof (kstep_pid_eq _ _ _ _ E) as K.
  destruct r as [v|er]; eexists _, w', _; (split; [done|]); cbn beta iota in Ht.
  - split; [|by rewrite Ht, map_size_insert_Some by eauto].
    assert (∀ k, k ≠ fd → tab w' !! k = tab w !! k) as Hrest by (intros k Hk; by rewrite Ht, lookup_insert_ne).
    apply (rest_retable id t A _ m w w' fd R Hfd); [|done|..].
    + apply (calm_retable _ _ m w); [done..| |].
      * intros k Hk. apply Hrest. intros ->. by apply (rest_apart _ _ _ _ _ R fd).
      * intros j Hj. destruct (calm_holder _ _ _ _ C j Hj) as (h & z & Hz & Hl & Hw).
        destruct (decide (h = fd)) as [->|Hne]; [|exists h, z; by rewrite Hrest].
        assert (z = x) as -> by congruence. eexists fd, _. rewrite Ht, lookup_insert_eq. done.
    + intros k. rewrite Ht, lookup_insert_eq, is_Some_alt. tauto.
    + intros y j. rewrite Ht, lookup_insert_eq. intros [= <-] Hw. by apply (rest_wrap _ _ _ _ _ R fd x j).
  - split; [by apply (rest_alike _ _ _ _ w)|by rewrite Ht].
Qed.

(** ioctl on a descriptor that is not synthetic; a change of its settings wraps it. *)
Lemma rest_ioctl_plain A m (w : W) e fd op arg x :
  at_rest A m w → fd ∈ A → tab w !! fd = Some x → ¬ is_wrap m (d_stat x) → spacious 8 w →
  ∃ r m' w' e', ioctl fd op arg (mkst m w e) = Ret r (mkst m' w' e') ∧ at_rest A m' w' ∧
    (size (tab w') ≤ size (tab w) + 2)%nat.
Proof.
  intros R Hfd Hx Hnw Hsp. unfold ioctl. apply bind_sys_neutral; [done|]. intros result w1 e1 Ha.
  pose proof (rest_alike _ _ _ _ _ _ R Ha) as R1.
  assert (size (tab w1) ≤ size (tab w) + 2)%nat as Hsz by (destruct Ha as [-> _]; lia).
  assert (tab w1 !! fd = Some x) as Hx1 by (by destruct Ha as [-> _]).
  unfold wslcompat_passthru. rewrite bind_getm. cbn [s_mem].
  destruct (wslcompat_enabled m "ioctl"); cbn [negb]; [|by eexists _, m, w1, e1].
  destruct result as [[z arg']|].
  - destruct ((z =? 0) && is_tcsets op); [|by eexists _, m, w1, e1].
    destruct arg' as [?|ti|?]; [by eexists _, m, w1, e1| |by eexists _, m, w1, e1].
    destruct (rest_install _ _ A m w1 e1 fd x ti R1 Hfd Hx1 Hnw) as (r & m' & w' & e' & E & R' & Hsz').
    { by eapply spacious_alike. }
    rewrite (bind_Ret _ _ _ _ _ E). eexists _, m', w', e'. split; [done|]. split; [done|]. destruct Ha as [Ht _].
    rewrite Ht in Hsz'. lia.
  - rewrite bind_get_errno. cbn [s_errno]. destruct (negb (e1 =? EBADF)); [by eexists _, m, w1, e1|].
    exists None, m, w1, e1. split; [|done]. by eapply (autopin_plain fd x); [apply R1|..].
Qed.

(** ioctl on a synthetic descriptor. *)
Lemma rest_ioctl_wrap A m (w : W) e fd op arg x i :
  at_rest A m w → fd ∈ A → tab w !! fd = Some x → wraps m i (d_stat x) →
  ∃ r m' w' e', ioctl fd op arg (mkst m w e) = Ret r (mkst m' w' e') ∧ at_rest A m' w' ∧
    (size (tab w') ≤ size (tab w) + 2)%nat.
Proof.
  intros R Hfd Hx Hw. destruct (rest_wrap _ _ _ _ _ R fd x i Hfd Hx Hw) as [_ Hp].
  pose proof (path_ioctl fd op arg w x Hx Hp) as Hbad. unfold ioctl. rewrite bind_sys.
  destruct (kstep (k_ioctl fd op arg) w) as [r w1] eqn:E1. cbn in Hbad. subst r.
  destruct (neutral_step _ _ _ _ E1 eq_refl) as [T1 K1].
  pose proof (rest_alike _ _ _ _ _ _ R (conj T1 K1)) as R1.
  assert (tab w1 !! fd = Some x) as Hx1 by congruence. assert (size (tab w1) = size (tab w)) as Hsz by (by rewrite T1).
  unfold wslcompat_passthru. rewrite bind_getm. cbn [s_mem].
  destruct (wslcompat_enabled m "ioctl"); cbn [negb]; [|eexists _, m, w1, _; split; [done|]; split; [done|lia]].
  rewrite bind_get_errno. cbn [s_errno Z.eqb Pos.eqb negb EBADF].
  set (body := λ e0 : option nat, _).
  assert (∃ r m' w' e', body (Some i) (mkst (pin i m) w1 EBADF) = Ret r (mkst (pin i m') w' e') ∧ touch m m' ∧
    at_rest A m' w' ∧ size (tab w') = size (tab w)) as (r & m' & w' & e' & E & Ht & R' & Hsz').
  { assert (∀ a, ∃ r w' e', (let* r := sys (k_fcntl fd F_SETFD (arg_int a)) in ret ((λ z, (z, arg)) <$> r)) (mkst (pin i m) w1 EBADF)
      = Ret r (mkst (pin i m) w' e') ∧ at_rest A m w' ∧ size (tab w') = size (tab w)) as Hset.
    { intros a. destruct (rest_setfd A m (pin i m) w1 EBADF fd a R1 Hfd) as (r & w' & e' & E & R' & Hsz').
      rewrite (bind_Ret _ _ _ _ _ E). eexists _, w', e'. split; [done|]. split; [done|congruence]. }
    unfold body. destruct (op =? FIOCLEX); [|destruct (op =? FIONCLEX)].
    - destruct (Hset FD_CLOEXEC) as (r & w' & e' & E & R'). by exists r, m, w', e'.
    - destruct (Hset 0) as (r & w' & e' & E & R'). by exists r, m, w', e'.
    - destruct (dispatch_ioctl_run i fd x op arg (pin i m) w1 EBADF) as (d & f & w' & e' & E & Hf & Ha).
      { apply calm_pin; [apply R1|apply Hw]. }
      { done. }
      { by apply pin_wraps; [apply Hw|]. }
      rewrite (bind_Ret _ _ _ _ _ E). rewrite pin_slot. pose proof (touch_upd_tty (tty_slot m i) f m Hf) as Ht.
      exists (default None d), (upd_tty (tty_slot m i) f m), w', e'. split; [by destruct d|]. split; [done|].
      split; [|destruct Ha as [-> _]; done]. eapply rest_touch; [done|]. by eapply rest_alike. }
  exists r, m', w', e'. split; [|split; [done|lia]].
  eapply autopin_wrap; [apply R1|exact Hx1|exact Hw|exact Ht|exact E].
Qed.

Lemma rest_ioctl A m (w : W) e fd op arg :
  at_rest A m w → fd ∈ A → spacious 8 w →
  ∃ r m' w' e', ioctl fd op arg (mkst m w e) = Ret r (mkst m' w' e') ∧ at_rest A m' w' ∧
    (size (tab w') ≤ size (tab w) + 2)%nat.
Proof.
  intros R Hfd Hsp. destruct (rest_lookup _ _ _ _ _ _ R Hfd) as [x Hx].
  destruct (is_wrap_dec m (d_stat x)) as [[i Hw]|Hnw]; [by eapply rest_ioctl_wrap|by eapply rest_ioctl_plain].
Qed.

(** ** read *)
Definition moved (i : nat) (p : Z) (m : mem) : mem := upd_entry i (set_pos p) m.

Lemma moved_same i m : moved i (pos (entry_at m i)) m = m.
Proof.
  unfold moved, upd_entry. rewrite alter_id_total; [by destruct m|]. unfold entry_at. by destruct (synth_table m !!! i).
Qed.

Lemma moved_pin i p m : moved i p (pin i m) = pin i (moved i p m).
Proof.
  assert (refcount (entry_at (moved i p m) i) = refcount (entry_at m i)) as E.
  { unfold moved, entry_at, upd_entry. cbn [synth_table set_synth_table]. rewrite list_lookup_total_alter. by case_decide. }
  unfold pin. rewrite E. unfold moved. by rewrite !upd_entry_compose.
Qed.

Lemma touch_moved i p m : touch m (moved i p m).
Proof. unfold touch, frame, moved, upd_entry. cbn. do 2 f_equal. by apply list_fmap_alter_id. Qed.

Lemma poll_in_alike fd timeout m (w : W) e :
  ∃ r w' e', poll_in fd timeout (mkst m w e) = Ret r (mkst m w' e') ∧ alike w w'.
Proof. unfold poll_in. apply bind_sys_neutral; [done|]. intros [[n l]|] w1 e1 Ha; by eexists _, w1, e1. Qed.

Lemma tty_collect_alike n fd vm count timeout acc m (w : W) e :
  (Z.to_nat (vm - zlen acc) < n)%nat →
  ∃ r w' e', tty_collect n fd vm count timeout acc (mkst m w e) = Ret r (mkst m w' e') ∧ alike w w'.
Proof.
  revert acc w e. induction n as [|n IH]; intros acc w e Hn; [lia|]. cbn [tty_collect].
  destruct (Z.ltb_spec (zlen acc) vm) as [Hv|Hv]; cbn [andb negb]; [|by eexists _, w, e].
  destruct (zlen acc <? count); cbn [negb]; [|by eexists _, w, e].
  destruct (poll_in_alike fd timeout m w e) as (r & w1 & e1 & E1 & A1). rewrite (bind_Ret _ _ _ _ _ E1).
  destruct (r <=? 0); [by eexists _, w1, e1|]. apply bind_sys_neutral; [done|].
  intros [b|] w2 e2 A2; [|eexists _, w2, e2; split; [done|by etrans]].
  case_decide as Hb; [eexists _, w2, e2; split; [done|by etrans]|].
  destruct (IH (acc +:+ b) w2 e2) as (r' & w3 & e3 & E3 & A3); [|exists r', w3, e3; split; [done|]; etrans; [|done]; by etrans].
  rewrite zlen_app. apply zlen_pos in Hb. lia.
Qed.

Lemma tty_read_run i n m (w : W) e :
  own id t i m w → ∃ r w' e', tty_read i n (mkst m w e) = Ret r (mkst m w' e') ∧ alike w w'.
Proof.
  intros Ho. unfold tty_read, tty_of, tty_real_fd_load, wslcompat_passthru. rewrite bind_getm. cbn [s_mem].
  rewrite (bind_Ret _ _ _ _ _ (own_load id t (v_real i (tty_slot m i)) m w e Ho)). rewrite bind_getm. cbn [s_mem view_base].
  set (fd := real_fd _).
  assert (∃ r w' e', sys (k_read fd n) (mkst m w e) = Ret r (mkst m w' e') ∧ alike w w') as Hraw.
  { unfold sys. cbn [s_world s_mem s_errno]. destruct (kstep _ w) as [[b|er] w1] eqn:E;
      destruct (neutral_step _ _ _ _ E eq_refl); by eexists _, w1, _. }
  destruct (negb _); [done|]. rewrite bind_getm. cbn [s_mem]. destruct (_ || _); [done|].
  destruct (n =? 0); [by eexists _, w, e|]. unfold tty_read_raw_wait. set (s := tty_at m (tty_slot m i)).
  destruct (poll_in_alike fd (if 0 <? vmin s then -1 else vtime s * 100) m w e) as (r & w1 & e1 & E1 & A1).
  rewrite (bind_Ret _ _ _ _ _ E1). destruct (r <? 0); [by eexists _, w1, e1|]. destruct (r =? 0); [by eexists _, w1, e1|].
  apply bind_sys_neutral; [done|]. intros [b|] w2 e2 A2; [|eexists _, w2, e2; split; [done|by etrans]].
  destruct (_ || _); [eexists _, w2, e2; split; [done|by etrans]|].
  destruct (tty_collect_alike (S (Z.to_nat (vmin s))) fd (vmin s) n (if negb (vtime s =? 0) then vtime s * 100 else -1) b m w2 e2)
    as (r' & w3 & e3 & E3 & A3); [pose proof (zlen_nonneg b); lia|].
  exists r', w3, e3. split; [done|]. etrans; [|done]. by etrans.
Qed.

(** The read of an entry's table, or none. *)
Lemma handler_read_run i n m (w : W) e f :
  own id t i m w → op_read (ops_of (e_ops (entry_at m i))) = Some f →
  ∃ r p w' e', f i n (mkst m w e) = Ret r (mkst (moved i p m) w' e') ∧ alike w w'.
Proof.
  intros Ho. destruct (e_ops (entry_at m i)); cbn; intros [= <-].
  - destruct (tty_read_run i n m w e Ho) as (r & w' & e' & E & Ha). exists r, (pos (entry_at m i)), w', e'. by rewrite moved_same.
  - unfold mmap_min_addr_read, get_pos, put_pos. rewrite !bind_getm. cbn [s_mem].
    destruct (_ <=? _); [exists (Some ""), (pos (entry_at m i)), w, e; by rewrite moved_same|].
    rewrite bind_setm. by eexists _, _, w, e.
  - unfold proc_pid_mem_read, get_pos, entry_pid, advance. rewrite !bind_getm. cbn [s_mem].
    apply bind_sys_neutral; [done|].
    intros [b|] w1 e1 Ha; [|exists None, (pos (entry_at m i)), w1, e1; by rewrite moved_same].
    destruct (0 <? _); [|exists (Some b), (pos (entry_at m i)), w1, e1; by rewrite moved_same, bind_ret].
    unfold put_pos. run_simpl. by eexists _, _, w1, e1.
Qed.

Lemma dispatch_read_handler i fd x n m (w : W) e f r p w' e' :
  calm m w → tab w !! fd = Some x → wraps m i (d_stat x) → op_read (ops_of (e_ops (entry_at m i))) = Some f →
  f i n (mkst (pin i m) w e) = Ret r (mkst (moved i p (pin i m)) w' e') →
  SYNTH_DISPATCH (λ o, (λ f i, f i n) <$> op_read o) (λ fd, sys (k_read fd n)) fd (mkst m w e)
  = Ret (Some r) (mkst (moved i p m) w' e').
Proof.
  intros C Hx Hw Hf E. unfold SYNTH_DISPATCH. rewrite bind_get_errno. cbn [s_errno].
  eapply autopin_wrap; [done..|apply touch_moved|]. unfold entry_ops. rewrite bind_getm. cbn [s_mem].
  rewrite (pin_same e_ops), Hf by done. cbn [fmap option_fmap option_map].
  by rewrite (bind_Ret _ _ _ _ _ E), moved_pin.
Qed.

Lemma dispatch_read_run i fd x n m (w : W) e :
  calm m w → tab w !! fd = Some x → wraps m i (d_stat x) →
  ∃ d p w' e', SYNTH_DISPATCH (λ o, (λ f i, f i n) <$> op_read o) (λ fd, sys (k_read fd n)) fd (mkst m w e)
    = Ret d (mkst (moved i p m) w' e') ∧ alike w w'.
Proof.
  intros C Hx Hw.
  pose proof (calm_own i _ w (calm_pin _ _ i m w C (proj1 Hw)) (proj2 (pin_live i i m (proj1 Hw)) (proj1 Hw))) as Ho.
  destruct (op_read (ops_of (e_ops (entry_at m i)))) as [f|] eqn:Ef.
  - destruct (handler_read_run i n (pin i m) w e f Ho) as (r & p & w' & e' & E & Ha); [by rewrite (pin_same e_ops)|].
    exists (Some r), p, w', e'. split; [|done]. by eapply dispatch_read_handler.
  - exists None, (pos (entry_at m i)), w, e. split; [|done]. rewrite moved_same.
    unfold SYNTH_DISPATCH. rewrite bind_get_errno. cbn [s_errno]. eapply autopin_wrap; [done..|].
    unfold entry_ops. rewrite bind_getm. cbn [s_mem]. rewrite (pin_same e_ops), Ef by done. by destruct (e_ops _).
Qed.

Lemma rest_read A m (w : W) e fd n :
  at_rest A m w → fd ∈ A →
  ∃ r m' w' e', read fd n (mkst m w e) = Ret r (mkst m' w' e') ∧ at_rest A m' w' ∧ tab w' = tab w.
Proof.
  intros R Hfd. destruct (rest_lookup _ _ _ _ _ _ R Hfd) as [x Hx].
  unfold read, SYNTH_SHIM_E. apply bind_sys_neutral; [done|]. intros r w1 e1 Ha.
  pose proof (rest_alike _ _ _ _ _ _ R Ha) as R1. pose proof (rest_calm _ _ _ _ _ R1) as C1. destruct Ha as [T1 K1].
  destruct r as [b|]; [by eexists _, m, w1, e1|]. rewrite bind_get_errno. cbn [s_errno].
  destruct (negb _); [by eexists _, m, w1, e1|]. unfold wslcompat_passthru. rewrite bind_getm. cbn [s_mem].
  destruct (negb _); [by eexists _, m, w1, e1|]. rewrite <-T1 in Hx.
  destruct (is_wrap_dec m (d_stat x)) as [[i Hw]|Hnw].
  - destruct (dispatch_read_run i fd x n m w1 e1 C1 Hx Hw) as (d & p & w2 & e2 & E2 & T2 & K2).
    rewrite (bind_Ret _ _ _ _ _ E2). exists (default None d), (moved i p m), w2, e2. split; [by destruct d|].
    split; [|congruence]. eapply rest_touch; [apply touch_moved|]. by eapply rest_alike.
  - erewrite bind_Ret.
    2:{ unfold SYNTH_DISPATCH. rewrite bind_get_errno. cbn [s_errno]. eapply (autopin_plain fd x); [done..|].
        rewrite bind_set_errno. done. }
    by eexists _, m, w1, _.
Qed.

(** ** Opening a synthetic file *)
Inductive synth_file := sf_min_addr | sf_self_mem.

Definition sf_path (f : synth_file) : string :=
  match f with sf_min_addr => "/proc/sys/vm/mmap_min_addr" | sf_self_mem => "/proc/self/mem" end.
Definition sf_ops (f : synth_file) : handler :=
  match f with sf_min_addr => h_mmap_min_addr | sf_self_mem => h_proc_pid_mem end.
Definition sf_userptr (f : synth_file) : userptr :=
  match f with sf_min_addr => up_null | sf_self_mem => up_pid id end.

(** These paths are redirected. *)
Lemma open_redirected f fl mo m (w : W) e :
  wslcompat_enabled m "open" = true → wslcompat_enabled m "openat" = true →
  wslcompat_tunable_bool (options m) "redirect" true = true → kpid w = id → 0 < id → is_tmpfile fl = false →
  open (sf_path f) fl mo (mkst m w e) = wslcompat_synth_open open_inner fl (sf_ops f) (sf_userptr f) (mkst m w e).
Proof.
  intros H1 H2 H3 Hk Hid Htmp. unfold open, open_with, openat_with, wslcompat_passthru. rewrite bind_getm. cbn [s_mem].
  rewrite H1. cbn [negb]. rewrite bind_getm. cbn [s_mem]. rewrite H2. cbn [negb]. rewrite Htmp. cbn [andb].
  unfold match_redirects_table. rewrite bind_assoc, bind_getm. cbn [s_mem]. rewrite H3. cbn [negb].
  unfold dispatch. cbn [for_each]. destruct f; cbn [sf_path].
  - change (fnmatch "/proc/sys/vm/mmap_min_addr" "/proc/sys/vm/mmap_min_addr") with true. cbn [run_handler sf_ops sf_userptr].
    unfold bind, ret. by destruct (wslcompat_synth_open _ _ _ _ _).
  - change (fnmatch "/proc/sys/vm/mmap_min_addr" "/proc/self/mem") with false.
    change (fnmatch "/proc/*/mem" "/proc/self/mem") with true. cbv iota. rewrite !bind_assoc, bind_ret.
    cbn [run_handler sf_ops sf_userptr]. change (strdrop 6 "/proc/self/mem") with "self/mem".
    unfold proc_parse_pid. change (starts_with "self/" "self/mem") with true. cbv iota.
    rewrite !bind_assoc, bind_getpid. cbn [s_world]. rewrite Hk, (proj2 (Z.leb_gt id 0)) by lia.
    unfold bind, ret. by destruct (wslcompat_synth_open _ _ _ _ _).
Qed.

Hypothesis id_pos : 0 < id.

Lemma rest_open_file A m (w : W) e f fl mo :
  at_rest A m w → is_tmpfile fl = false → spacious 7 w →
  ∃ r m' w' e', open (sf_path f) fl mo (mkst m w e) = Ret r (mkst m' w' e') ∧ at_rest (gained r A) m' w' ∧
    (size (tab w') ≤ size (tab w) + 2)%nat.
Proof.
  intros R Hf Hsp. pose proof (rest_calm _ _ _ _ _ R) as C.
  rewrite open_redirected; [|apply C|apply C|apply R|apply C|done|done].
  apply rest_synth_open; [done|by destruct f|done].
Qed.

(** ** Sessions *)

(** What an application does with the descriptors it has. *)
Inductive app_call :=
| ac_open (f : synth_file) (flags mode : Z)
| ac_ioctl (fd op : Z) (arg : ioctl_arg)
| ac_read (fd count : Z)
| ac_dup3 (oldfd newfd : Z) (cloexec : bool)
| ac_close (fd : Z).

(** It makes calls on its own descriptors only; [A] are those it has, the result those it has then. *)
Definition run_call (A : gset Z) (c : app_call) : prog (st W) (gset Z) :=
  match c with
  | ac_open f fl mo =>
      if is_tmpfile fl then ret A else let* r := open (sf_path f) fl mo in ret (gained r A)
  | ac_ioctl fd op arg => if decide (fd ∈ A) then ioctl fd op arg ;;* ret A else ret A
  | ac_read fd n => if decide (fd ∈ A) then read fd n ;;* ret A else ret A
  | ac_dup3 old new b =>
      if decide (old ∈ A ∧ new ∈ A ∧ old ≠ new) then dup3 old new (if b then O_CLOEXEC else 0) ;;* ret A else ret A
  | ac_close fd => if decide (fd ∈ A) then close fd ;;* ret (A ∖ {[fd]}) else ret A
  end.

Fixpoint run_app (l : list app_call) (A : gset Z) : prog (st W) (gset Z) :=
  match l with
  | [] => ret A
  | c :: l => let* A' := run_call A c in run_app l A'
  end.

Lemma run_call_rest A c m (w : W) e :
  at_rest A m w → spacious 8 w →
  ∃ A' m' w' e', run_call A c (mkst m w e) = Ret A' (mkst m' w' e') ∧ at_rest A' m' w' ∧
    (size (tab w') ≤ size (tab w) + 2)%nat.
Proof.
  intros R Hsp. assert (∀ n, (n ≤ 8)%nat → spacious n w) as Hs by (unfold spacious in *; intros; lia).
  destruct c as [f fl mo|fd op arg|fd n|old new b|fd]; cbn [run_call].
  - destruct (is_tmpfile fl) eqn:Hf; [by eexists A, m, w, e; split_and!; [..|lia]|].
    destruct (rest_open_file A m w e f fl mo R Hf (Hs 7%nat ltac:(lia))) as (r & m' & w' & e' & E & H).
    rewrite (bind_Ret _ _ _ _ _ E). by eexists _, m', w', e'.
  - case_decide as Hfd; [|by eexists A, m, w, e; split_and!; [..|lia]].
    destruct (rest_ioctl A m w e fd op arg R Hfd Hsp) as (r & m' & w' & e' & E & H).
    rewrite (bind_Ret _ _ _ _ _ E). by eexists _, m', w', e'.
  - case_decide as Hfd; [|by eexists A, m, w, e; split_and!; [..|lia]].
    destruct (rest_read A m w e fd n R Hfd) as (r & m' & w' & e' & E & R' & Ht).
    rewrite (bind_Ret _ _ _ _ _ E). eexists _, m', w', e'. split; [done|]. split; [done|]. rewrite Ht. lia.
  - case_decide as Hfd; [|by eexists A, m, w, e; split_and!; [..|lia]]. destruct Hfd as (Ho & Hn & Hne).
    destruct (rest_dup3 _ _ A m w e old new b R Ho Hn Hne (Hs 5%nat ltac:(lia))) as (m' & w' & e' & E & R' & Hsz).
    rewrite (bind_Ret _ _ _ _ _ E). eexists _, m', w', e'. split; [done|]. split; [done|lia].
  - case_decide as Hfd; [|by eexists A, m, w, e; split_and!; [..|lia]].
    destruct (rest_close _ _ A m w e fd R Hfd (Hs 4%nat ltac:(lia))) as (m' & w' & E & R' & Hsz).
    rewrite (bind_Ret _ _ _ _ _ E). eexists _, m', w', e. split; [done|]. split; [done|lia].
Qed.

Lemma run_app_rest l A m (w : W) e :
  at_rest A m w → spacious (8 + 2 * length l) w →
  ∃ A' m' w' e', run_app l A (mkst m w e) = Ret A' (mkst m' w' e') ∧ at_rest A' m' w'.
Proof.
  revert A m w e. induction l as [|c l IH]; intros A m w e R Hsp; [by eexists A, m, w, e|]. cbn [run_app length] in *.
  destruct (run_call_rest A c m w e R) as (A1 & m1 & w1 & e1 & E1 & R1 & Hsz); [unfold spacious in *; lia|].
  rewrite (bind_Ret _ _ _ _ _ E1). apply IH; [done|]. unfold spacious in *. lia.
Qed.



(** ** A synthetic file from open to close *)

(** What an application does to read the beginning of a file. *)
Definition read_file (path : string) (fl mo n : Z) : prog (st W) (option string) :=
  let* fd := open path fl mo in
  match fd with
  | None => ret None
  | Some fd => let* b := read fd n in close fd ;;* ret b
  end.

(** The first read of the file, from its beginning. *)
Lemma read_min_addr i fd x n m (w : W) e :
  calm m w → tab w !! fd = Some x → d_path x = true → wraps m i (d_stat x) →
  e_ops (entry_at m i) = h_mmap_min_addr → pos (entry_at m i) = 0 → wslcompat_enabled m "read" = true →
  ∃ p w' e', read fd n (mkst m w e) = Ret (Some (slice (min_addr_text m) 0 n)) (mkst (moved i p m) w' e') ∧ alike w w'.
Proof.
  intros C Hx Hp Hw Ho Hpos Hen. unfold read, SYNTH_SHIM_E. rewrite bind_sys.
  pose proof (path_read fd n w x Hx Hp) as Hbad.
  destruct (kstep (k_read fd n) w) as [r w1] eqn:E1. cbn in Hbad. subst r.
  destruct (neutral_step _ _ _ _ E1 eq_refl) as [T1 K1].
  rewrite bind_get_errno. cbn [s_errno Z.eqb Pos.eqb negb EBADF]. unfold wslcompat_passthru. rewrite bind_getm. cbn [s_mem].
  rewrite Hen. cbn [negb]. assert (calm m w1) as C1 by (by eapply calm_alike). rewrite <-T1 in Hx.
  assert (mmap_min_addr_read i n (mkst (pin i m) w1 EBADF) = Ret (Some (slice (min_addr_text m) 0 n))
    (mkst (moved i (Z.of_nat (String.length (slice (min_addr_text m) 0 n))) (pin i m)) w1 EBADF)) as E.
  { unfold mmap_min_addr_read, get_pos, put_pos. rewrite !bind_getm. cbn [s_mem]. rewrite (pin_same pos), Hpos by done.
    change (min_addr_text (pin i m)) with (min_addr_text m). destruct (Z.leb_spec (Z.of_nat (String.length (min_addr_text m))) 0) as [Hz|Hz].
    - destruct (min_addr_text m); [|cbn in Hz; lia].
      assert (slice "" 0 n = "") as -> by (unfold slice; by destruct (Z.to_nat _)).
      cbn [String.length]. rewrite <-(moved_same i (pin i m)) at 1. by rewrite (pin_same pos), Hpos by done.
    - by rewrite bind_setm. }
  rewrite (bind_Ret _ _ _ _ _ (dispatch_read_handler i fd x n m w1 EBADF _ _ _ _ _ C1 Hx Hw ltac:(by rewrite Ho) E)).
  by eexists _, w1, EBADF.
Qed.

(** The descriptors without the ones of a file that is closed again. *)
Lemma with_probe_closed T fd p s fl b :
  T !! fd = None → (p = -1 ∨ T !! p = None) → T !! (-1) = None →
  delete p (delete (-1) (delete fd (with_probe p s (<[fd := wrap_desc s fl b]> T)))) = T.
Proof.
  intros Hfd Hp Hneg. apply map_eq. intros k. unfold with_probe.
  assert (T !! p = None) as Hp1 by (destruct Hp as [->|]; done).
  destruct (decide (k = p)) as [->|H1]; [by rewrite lookup_delete_eq|]. rewrite lookup_delete_ne by done.
  destruct (decide (k = -1)) as [->|H2]; [by rewrite lookup_delete_eq|]. rewrite lookup_delete_ne by done.
  destruct (decide (k = fd)) as [->|H3]; [by rewrite lookup_delete_eq|]. rewrite lookup_delete_ne by done.
  destruct (p =? -1); by rewrite !lookup_insert_ne.
Qed.

(** Nothing else refers to the new entry. *)
Lemma close_fresh fl ops up m (w : W) fd i s p b slots m1 (w1 : W) m2 w2 e :
  calm m w → ops ≠ h_tty → calm m1 w1 → sopened id t fl ops up m (tab w) fd i s p b slots m1 (tab w1) →
  touch m1 m2 → alike w1 w2 → spacious 6 w →
  ∃ m3 w3, close fd (mkst m2 w2 e) = Ret (Some tt) (mkst m3 w3 e) ∧ tab w3 = tab w.
Proof.
  intros C Hops C1 O Ht [T2 K2] Hsp. destruct (so_facts _ _ _ _ _ _ _ _ _ _ _ _ _ _ _ O) as (_ & Hfd & _).
  pose proof (so_wraps _ _ _ _ _ _ _ _ _ _ _ _ _ _ _ C O) as Hw.
  pose proof (so_entry _ _ _ _ _ _ _ _ _ _ _ _ _ _ _ C O) as Hent.
  assert (probe_fd (entry_at m2 i) = p ∧ hidden m2 i = -1) as [Hpr Hhid].
  { unfold hidden. rewrite (touch_same _ _ Ht probe_fd), (touch_same _ _ Ht e_ops), Hent by done. cbn. by rewrite decide_False. }
  destruct (close_last id t i fd (wrap_desc s fl b) m2 w2 e) as (w3 & E3 & _ & T3).
  - eapply calm_touch; [done|]. by eapply calm_alike.
  - by rewrite T2.
  - by apply (touch_wraps _ _ Ht).
  - rewrite (touch_internal _ _ Ht). apply (so_own _ _ _ _ _ _ _ _ _ _ _ _ _ _ _ C O). by intros ?.
  - by rewrite (touch_same _ _ Ht refcount), Hent by done.
  - intros h y Hy [_ Hwy]%(touch_wraps _ _ Ht). rewrite Hpr. rewrite Hent in Hwy. cbn in Hwy.
    rewrite T2, (so_tab _ _ _ _ _ _ _ _ _ _ _ _ _ _ _ O) in Hy.
    destruct (decide (h = p)) as [|Hhp]; [by right|]. destruct (decide (h = fd)) as [|Hhf]; [by left|]. exfalso.
    rewrite with_probe_fresh, lookup_insert_ne in Hy by done.
    pose proof (so_fresh _ _ _ _ _ _ _ _ _ _ _ _ _ _ _ O h y Hy) as Hn. apply same_inode_eq in Hwy as [].
    rewrite (proj2 (same_inode_eq _ _)) in Hn; done.
  - pose proof (so_size _ _ _ _ _ _ _ _ _ _ _ _ _ _ _ O). unfold spacious in *. rewrite T2. lia.
  - exists (retire i m2), w3. split; [done|].
    rewrite T3, Hpr, Hhid, T2, (so_tab _ _ _ _ _ _ _ _ _ _ _ _ _ _ _ O). apply with_probe_closed; [apply O| |apply tab_none].
    destruct (so_probe _ _ _ _ _ _ _ _ _ _ _ _ _ _ _ O) as [|(_ & ? & _)]; auto.
Qed.

End io.
