(* ===== verification/OpenKernel.v ===== *)
(** * The kernel with a descriptor table opens and locks files as documented

    [TabKernel] satisfies the interfaces of WrapOpen.v and SessionIo.v; the theorems on sessions, at a
    process with a terminal on descriptor 0. *)

From stdpp Require Import gmap.
From S2P Require Import Prelude CString Kernel State Tunables Override Walk Internal Synth SynthFrames SynthFacts Close Tty Proc Dispatch Handlers FdTable TabKernel Open WrapOpen WrapTty WrapClose Ioctl TtyFacts Session SessionIo.

Open Scope Z_scope.

Module OpenKernel.
Import TabKernel.

Lemma open_tab_replace fd x w : 0 ≤ fd ≤ INT_MAX → open_tab (replace fd x w) = <[fd := x]> (open_tab w).
Proof. intros Hd. unfold open_tab. simpl. by apply map_filter_insert_True. Qed.

Lemma open_as_spec x w r w' :
  open_as x w = (r, w') →
  match r with
  | inl d => open_tab w !! d = None ∧ open_tab w' = <[d := x]> (open_tab w)
  | inr _ => open_tab w' = open_tab w
  end.
Proof.
  unfold open_as. destruct (lowest 0 w) as [d|] eqn:E; intros [= <- <-]; [|done].
  apply lowest_range in E as [Hr Hn]; [|lia]. split; [done|]. apply open_tab_install. lia.
Qed.

Lemma proc_self_fd_inj a b : proc_self_fd a = proc_self_fd b → a = b.
Proof. unfold proc_self_fd. cbn. intros [= H]. by apply (inj pretty). Qed.

Lemma named_spec fd w x y : open_tab w !! fd = Some x → named (proc_self_fd fd) w = Some y → y = x.
Proof.
  unfold named. intros Hx ([k [d z]] & E & ->)%fmap_Some. apply list_find_Some in E as (Hk & Hn & _). cbn in Hn |- *.
  apply proc_self_fd_inj in Hn as ->. apply list_elem_of_lookup_2, elem_of_map_to_list in Hk. congruence.
Qed.

Lemma new_file_fresh w : fresh (new_file w) (open_tab w).
Proof.
  intros k y Hy. unfold same_inode. apply andb_false_iff. right. apply Z.eqb_neq. cbn.
  apply elem_of_map_to_list in Hy.
  assert (st_ino (d_stat y) ≤ foldr (λ p : Z * fdesc, Z.max (st_ino (d_stat p.2))) 0 (map_to_list (open_tab w))); [|lia].
  induction (map_to_list (open_tab w)) as [|p l IH]; [by apply elem_of_nil in Hy|].
  cbn. apply elem_of_cons in Hy as [<-|Hy]; [cbn; lia|]. specialize (IH Hy). lia.
Qed.

Lemma lock_spec fd w b op x :
  open_tab w !! fd = Some x → has_bits op LOCK_EX = false → has_bits op LOCK_SH = b →
  kstep (k_flock fd op) w = (inl tt, replace fd (with_shared b x) w) ∧
  relocked fd b (open_tab w) (open_tab (replace fd (with_shared b x) w)).
Proof.
  intros Hx H1 H2. cbn [kstep kernel step]. rewrite Hx, H1, H2. split; [done|].
  rewrite open_tab_replace by (apply (open_tab_range w); eauto). intros y Hy. assert (y = x) as -> by congruence.
  split; [by rewrite lookup_insert_eq|]. intros k Hk. left. by rewrite lookup_insert_ne.
Qed.

#[global] Instance kernel_opens : KernelOpens world.
Proof.
  split.
  - intros path fl mo w r w'. cbn [kstep kernel step]. case_decide.
    + destruct (lowest 0 w) as [d|] eqn:El; intros [= <- <-]; [|done].
      apply lowest_range in El as [Hr Hn]; [|lia]. split; [done|]. exists dir_file. cbn [tab kernel_table].
      change (open_tab (set_dir d ?l ?w1)) with (open_tab w1). apply open_tab_install. lia.
    + destruct (named path w) as [x|]; [|by intros [= <- <-]]. intros E%open_as_spec. destruct r; [|done].
      destruct E as [? ?]. split; [done|]. eauto.
  - intros dir path fl mo w r w'. cbn [kstep kernel step]. intros E%open_as_spec. destruct r; [|done].
    destruct E as [? ?]. split; [done|]. eauto.
  - intros fd fl mo w d w' x. cbn [kstep kernel step]. rewrite decide_False by done. intros E Hx.
    destruct (named _ w) as [y|] eqn:En; [|done]. apply (named_spec fd w x y Hx) in En as ->.
    apply open_as_spec in E as [_ E]. cbn [tab kernel_table]. by rewrite E, lookup_insert_eq.
  - intros dir path fl mo w d w' x. cbn [kstep kernel step]. intros E Hc He. rewrite Hc, He in E. cbn [andb] in E.
    apply open_as_spec in E as [_ E]. cbn [tab kernel_table]. rewrite E, lookup_insert_eq. intros [= <-]. apply new_file_fresh.
  - intros fd w r w' E. cbn [tab kernel_table]. destruct (open_tab w !! fd) as [x|] eqn:Hx.
    + destruct (lock_spec fd w true (Z.lor LOCK_SH LOCK_NB) x Hx eq_refl eq_refl) as [E1 H]. rewrite E1 in E. by injection E as <- <-.
    + cbn [kstep kernel step] in E. rewrite Hx in E. by injection E as <- <-.
  - intros fd w r w' E. cbn [tab kernel_table]. destruct (open_tab w !! fd) as [x|] eqn:Hx.
    + destruct (lock_spec fd w false LOCK_UN x Hx eq_refl eq_refl) as [E1 H]. rewrite E1 in E. by injection E as <- <-.
    + cbn [kstep kernel step] in E. rewrite Hx in E. by injection E as <- <-.
  - intros fd w x Hx Hs. cbn [kstep kernel step tab kernel_table] in *. rewrite Hx. by destruct (contended x w).
  - intros fd w Hx. cbn [kstep kernel step tab kernel_table] in *. by rewrite Hx.
  - intros A c w Hn. destruct c; cbn [neutral] in Hn; try done; cbn [kstep kernel step tab kernel_table]; try done.
    destruct arg as [a|]; [|done]. destruct (open_tab w !! fd) as [x|]; [|done].
    destruct (cmd =? F_DUPFD_CLOEXEC) eqn:E; [apply Z.eqb_eq in E; by subst cmd|].
    destruct (cmd =? F_GETFD); [done|]. destruct (cmd =? F_GETFL); done.
Qed.

#[global] Instance kernel_path : KernelPath world.
Proof.
  split.
  - intros fd n w x Hx Hp. cbn [kstep kernel step tab kernel_table] in *. by rewrite Hx, Hp.
  - intros fd op arg w x Hx Hp. cbn [kstep kernel step tab kernel_table] in *. by rewrite Hx, Hp.
  - intros fd a w r w' x Hx. cbn [kstep kernel step tab kernel_table] in *. rewrite Hx.
    change (F_SETFD =? F_DUPFD_CLOEXEC) with false. change (F_SETFD =? F_GETFD) with false.
    change (F_SETFD =? F_GETFL) with false. change (F_SETFD =? F_SETFD) with true. cbv iota. intros [= <- <-].
    apply open_tab_replace, (open_tab_range w). eauto.
Qed.
End OpenKernel.

#[local] Transparent SYNTH_TABLE_SIZE TTY_TABLE_SIZE.

(** ** A session, concretely *)
Module SessionDemo.
Import TabKernel OpenKernel.
#[local] Instance bound : Fuel := 256%nat.

Definition tty_file : stat := {| st_dev := 5; st_ino := 9; st_mode := 0 |}.

(** A process with a terminal on descriptor 0. *)
Definition w : world := {| k_tab := {[0 := new_desc tty_file 0]}; k_dirs := ∅ |}.
Definition m : mem := set_starttime_cache {| p_starttime := 77; p_pid := 100 |} init_mem.

Lemma none_live i : ¬ live m i.
Proof.
  intros [Hi Hr]. change (0 < refcount (replicate SYNTH_TABLE_SIZE free_entry !!! i)) in Hr.
  rewrite lookup_total_replicate_2 in Hr by done. by vm_compute in Hr.
Qed.

Lemma none_registered sl : ¬ registered m sl.
Proof. intros (i & Hi & _). vm_compute in Hi. by destruct i. Qed.

Lemma none_internal fd : ¬ internal m fd.
Proof. intros [(i & Hl & _)|(sl & Hsl & _)]; [by apply none_live in Hl|by apply none_registered in Hsl]. Qed.

Lemma rest_start : at_rest 100 77 {[0]} m w.
Proof.
  assert (∀ i s, ¬ wraps m i s) as Hnw by (intros i s [Hl _]; by apply none_live in Hl).
  split.
  - split; try done; try (by vm_compute).
    all: try (by intros i Hl%none_live). all: try (by intros i j Hl%none_live). all: try (by intros sl Hsl%none_registered).
    by intros i j s Hw%Hnw.
  - by vm_compute.
  - by intros i Hl%none_live.
  - by intros fd x i _ _ Hw%Hnw.
  - intros fd. assert (tab w = {[0 := new_desc tty_file 0]}) as -> by (by vm_compute).
    rewrite lookup_singleton_is_Some, elem_of_singleton. split; [by left|].
    intros [->|[_ ?%none_internal]]; done.
  - intros fd _. apply none_internal.
Qed.

Definition ti : termios := {| c_lflag := 0; c_vmin := 1; c_vtime := 0 |}.

(** The terminal is made raw, read, shared and given up; a synthetic file is opened, read and closed. *)
Definition session : list app_call :=
  [ac_ioctl 0 TCSETS (io_termios ti); ac_read 0 10; ac_open sf_min_addr O_RDONLY 0;
   ac_read 1 3; ac_dup3 1 0 true; ac_close 1; ac_read 0 100; ac_close 0].

Definition final : st world :=
  match run_app session {[0]} (mkst m w 0) with Ret _ s => s | _ => mkst m w 0 end.

Lemma session_room n : (n ≤ 100)%nat → spacious n w.
Proof.
  intros Hn. unfold spacious. assert (size (tab w) = 1%nat) as -> by (by vm_compute).
  change (room (W:=world)) with 256%nat. change fuel with 256%nat. lia.
Qed.

Lemma plain_start : ¬ is_wrap m tty_file.
Proof. intros (i & Hl & _). by apply none_live in Hl. Qed.
End SessionDemo.

#[local] Existing Instance SessionDemo.bound.
Import SessionDemo.

Definition outcome_value {S A} (o : outcome S A) : option A := match o with Ret a _ => Some a | _ => None end.


Lemma tty_wrap_lifecycle_witness :
  ∃ m' w' e', (let* r := wslcompat_tty_install open 0 ti in close 0 ;;* ret r) (mkst m w 0) = Ret 0 (mkst m' w' e') ∧
    tab w' = delete 0 (tab w).
Proof.
  destruct (tty_wrap_lifecycle 100 77 {[0]} m w 0 0 (new_desc tty_file 0) ti rest_start)
    as (r & m' & w' & e' & E & H & _); [set_solver|by vm_compute|apply plain_start|apply session_room; lia|].
  assert (r = 0) as -> by (apply (f_equal outcome_value) in E; vm_compute in E; congruence). exists m', w', e'. exact (conj E H).
Defined.



