(* ===== verification/Statx.v ===== *)
(** * statx.c: birth times, mount ids and mount roots

    WSL1 reports no birth time, no mount id and no mount-root attribute. The shim reads the birth
    time the open shim recorded in an extended attribute, looks the mount id up in
    /proc/self/mountinfo, and compares a directory with its parent. *)

From S2P Require Import Prelude CString Kernel State Tunables Override Walk Synth Dispatch Handlers Open.

Open Scope Z_scope.

Definition STATX_TYPE : Z := 1.
Definition STATX_MTIME : Z := 64.
Definition STATX_CTIME : Z := 128.
Definition STATX_INO : Z := 256.
Definition STATX_BTIME : Z := 2048.
Definition STATX_MNT_ID : Z := 4096.
Definition STATX_ATTR_MOUNT_ROOT : Z := 8192.
Definition AT_NO_AUTOMOUNT : Z := 2048.
Definition S_IFDIR : Z := 16384.

Definition set_stx_mask x (b : statx_t) : statx_t :=
  {| stx_mask := x; stx_attributes := stx_attributes b; stx_mode := stx_mode b; stx_ino := stx_ino b;
     stx_attributes_mask := stx_attributes_mask b; stx_btime := stx_btime b;
     stx_ctime := stx_ctime b; stx_mtime := stx_mtime b; stx_dev_major := stx_dev_major b;
     stx_dev_minor := stx_dev_minor b; stx_mnt_id := stx_mnt_id b |}.
Definition set_stx_mnt_id x (b : statx_t) : statx_t :=
  {| stx_mask := stx_mask b; stx_attributes := stx_attributes b; stx_mode := stx_mode b;
     stx_ino := stx_ino b; stx_attributes_mask := stx_attributes_mask b; stx_btime := stx_btime b;
     stx_ctime := stx_ctime b; stx_mtime := stx_mtime b; stx_dev_major := stx_dev_major b;
     stx_dev_minor := stx_dev_minor b; stx_mnt_id := x |}.
Definition set_stx_attrs a m (b : statx_t) : statx_t :=
  {| stx_mask := stx_mask b; stx_attributes := a; stx_mode := stx_mode b;
     stx_ino := stx_ino b; stx_attributes_mask := m; stx_btime := stx_btime b;
     stx_ctime := stx_ctime b; stx_mtime := stx_mtime b; stx_dev_major := stx_dev_major b;
     stx_dev_minor := stx_dev_minor b; stx_mnt_id := stx_mnt_id b |}.
Definition set_stx_btime x (b : statx_t) : statx_t :=
  {| stx_mask := stx_mask b; stx_attributes := stx_attributes b; stx_mode := stx_mode b;
     stx_ino := stx_ino b; stx_attributes_mask := stx_attributes_mask b; stx_btime := x;
     stx_ctime := stx_ctime b; stx_mtime := stx_mtime b; stx_dev_major := stx_dev_major b;
     stx_dev_minor := stx_dev_minor b; stx_mnt_id := stx_mnt_id b |}.

(** ** /proc/self/mountinfo

    [strchr (p, '\n') + 1]. *)
Fixpoint next_line (p : string) : option string :=
  match p with
  | EmptyString => None
  | String c p' => if chr c =? 10 then Some p' else next_line p'
  end.

(** One line: the mount id and the device, or [None] at a line of another form; and where the
    parser stopped. *)
Definition parse_mount (curr : string) : option (Z * Z * Z * string) :=
  let '(id, p) := strtoull curr 10 in
  let '(_, p) := strtoull p 10 in
  let '(r_maj, p) := strtoull p 10 in
  match p with
  | String c p =>
      if negb (chr c =? 58) then None
      else let '(r_min, p) := strtoull p 10 in Some (id, wrap_u 32 r_maj, wrap_u 32 r_min, p)
  | EmptyString => None
  end.

(** The loop; the text gets shorter at every line. *)
Fixpoint mount_scan (n : nat) (curr : string) (maj min : Z) : Z :=
  match n with
  | O => 0
  | S n' =>
      match curr with
      | EmptyString => 0
      | _ =>
          match parse_mount curr with
          | None => 0
          | Some (id, r_maj, r_min, p) =>
              if (r_maj =? maj) && (r_min =? min) then id
              else match next_line p with Some curr => mount_scan n' curr maj min | None => 0 end
          end
      end
  end.

Definition scan_mounts (buf : string) : Z → Z → Z := mount_scan (S (String.length buf)) buf.

(** ** Timestamps *)
Definition stx_ts_min (a b : timespec) : timespec :=
  if tv_sec a <? tv_sec b then a
  else if tv_sec b <? tv_sec a then b
  else if tv_nsec a <? tv_nsec b then a
  else b.

(** [sscanf (buf, "%lld.%u", &out->tv_sec, &out->tv_nsec)]: the number of conversions, and what
    they leave in [out]. *)
Definition sscanf_btime (buf : string) (out : timespec) : Z * timespec :=
  match scan_number 10 buf with
  | None => (0, out)
  | Some (neg, v, rest) =>
      let sec := Z.max LONG_MIN (Z.min LONG_MAX (if neg then - v else v)) in
      let part := {| tv_sec := sec; tv_nsec := tv_nsec out |} in
      match rest with
      | String c rest =>
          if negb (chr c =? 46) then (1, part)
          else match scan_number 10 rest with
               | None => (1, part)
               | Some _ => (2, {| tv_sec := sec; tv_nsec := wrap_u 32 (fst (strtoull rest 10)) |})
               end
      | EmptyString => (1, part)
      end
  end.

(** [makedev]. *)
Definition makedev (maj min : Z) : Z :=
  Z.lor (Z.lor (Z.shiftl (Z.land maj 4294963200) 32) (Z.shiftl (Z.land maj 4095) 8))
        (Z.lor (Z.shiftl (Z.land min 4294967040) 12) (Z.land min 255)).

Section statx.
Context {W : Type} `{!Kernel W, !Handlers W}.
Local Abbreviation M := (prog (st W)).

Definition lookup_mnt_id (maj min : Z) : M Z :=
  let* fd := getm mount_fd in
  let* fd :=
    (if fd <? -1 then
       let* opened := sys (k_open "/proc/self/mountinfo" (Z.lor O_RDONLY O_CLOEXEC) 0) in
       match opened with
       | None => setm (set_mount_fd (-1)) ;;* ret (-1)
       | Some opened =>
           let* cur := getm mount_fd in
           (if cur =? -2 then setm (set_mount_fd opened) else sys (k_close opened) ;;* ret tt) ;;*
           getm mount_fd
       end
     else ret fd) in
  if fd <? 0 then ret 0
  else
    let* r := sys (k_pread fd 8191 0) in
    match r with
    | Some buf => if (String.length buf =? 0)%nat then ret 0 else ret (scan_mounts (cstr buf) maj min)
    | None => ret 0
    end.

Definition is_mount_root (dirfd : Z) (pathname : string) (flags : Z) (b : statx_t) : M bool :=
  if negb (has_bits (stx_mask b) STATX_TYPE) || negb (Z.land (stx_mode b) S_IFMT =? S_IFDIR)
  then ret false
  else if negb (has_bits (stx_mask b) STATX_INO) then ret false
  else
    let path := if String.eqb pathname "" then ".." else pathname +:+ "/.." in
    if negb (String.eqb pathname "") && (PATH_MAX <=? String.length path)%nat then ret false
    else
      let* parent := sys (k_fstatat dirfd path (Z.land flags AT_NO_AUTOMOUNT)) in
      match parent with
      | None => ret false
      | Some p => ret (negb (makedev (stx_dev_major b) (stx_dev_minor b) =? st_dev p) ||
                       (stx_ino b =? st_ino p))
      end.

(** The attribute's value, whichever way the file is named. *)
Definition btime_xattr (dirfd : Z) (pathname : string) (flags : Z) : M (option string) :=
  match pathname with
  | String c _ =>
      let target := if negb (bool_decide (c = "/"%char)) && negb (dirfd =? AT_FDCWD)
                    then snprintf_s PATH_MAX (proc_self_fd dirfd +:+ "/" +:+ pathname)
                    else pathname in
      if has_bits flags AT_SYMLINK_NOFOLLOW then sys (k_lgetxattr target BTIME_XATTR 63)
      else sys (k_getxattr target BTIME_XATTR 63)
  | EmptyString =>
      if dirfd =? AT_FDCWD then sys (k_getxattr "." BTIME_XATTR 63)
      else fgetxattr dirfd BTIME_XATTR 63
  end.

Definition read_btime_xattr (dirfd : Z) (pathname : string) (flags : Z) (out : timespec) :
    M (bool * timespec) :=
  let* v := btime_xattr dirfd pathname flags in
  match v with
  | None => ret (false, out)
  | Some v => let '(n, out) := sscanf_btime (cstr v) out in ret (n =? 2, out)
  end.

Definition forced : Z := Z.lor STATX_INO (Z.lor STATX_TYPE (Z.lor STATX_MTIME STATX_CTIME)).

(** The three polyfills, in the order the code applies them. *)
Definition fill_mnt_id (mask : Z) (b : statx_t) : M statx_t :=
  if has_bits mask STATX_MNT_ID && negb (has_bits (stx_mask b) STATX_MNT_ID) then
    let* id := lookup_mnt_id (stx_dev_major b) (stx_dev_minor b) in
    let b := set_stx_mnt_id id b in
    ret (if negb (id =? 0) then set_stx_mask (Z.lor (stx_mask b) STATX_MNT_ID) b else b)
  else ret b.

Definition fill_mount_root (dirfd : Z) (pathname : string) (flags : Z) (b : statx_t) : M statx_t :=
  if negb (has_bits (stx_attributes_mask b) STATX_ATTR_MOUNT_ROOT) then
    let* root := is_mount_root dirfd pathname flags b in
    ret (set_stx_attrs (if (root : bool) then Z.lor (stx_attributes b) STATX_ATTR_MOUNT_ROOT
                        else stx_attributes b)
           (Z.lor (stx_attributes_mask b) STATX_ATTR_MOUNT_ROOT) b)
  else ret b.

Definition fill_btime (dirfd : Z) (pathname : string) (flags mask : Z) (b : statx_t) : M statx_t :=
  if has_bits mask STATX_BTIME && negb (has_bits (stx_mask b) STATX_BTIME) then
    let* r := read_btime_xattr dirfd pathname flags (stx_btime b) in
    let b := set_stx_btime (snd r) b in
    if (fst r : bool) then ret (set_stx_mask (Z.lor (stx_mask b) STATX_BTIME) b)
    else if has_bits (stx_mask b) STATX_MTIME && has_bits (stx_mask b) STATX_CTIME then
      ret (set_stx_mask (Z.lor (stx_mask b) STATX_BTIME)
             (set_stx_btime (stx_ts_min (stx_mtime b) (stx_ctime b)) b))
    else ret b
  else ret b.

Definition statx (dirfd : Z) (pathname : string) (flags mask : Z) : M (option statx_t) :=
  let* off := wslcompat_passthru "statx" in
  if (off : bool) then sys (k_statx dirfd pathname flags mask)
  else
    let* r := sys (k_statx dirfd pathname flags (Z.lor mask forced)) in
    match r with
    | None => ret None
    | Some b =>
        let* b := fill_mnt_id mask b in
        let* b := fill_mount_root dirfd pathname flags b in
        let* b := fill_btime dirfd pathname flags mask b in
        ret (Some (set_stx_mask (Z.land (stx_mask b) (Z.lnot (Z.ldiff forced mask))) b))
    end.
End statx.

(** ** The birth time: what the open shim writes, statx reads back *)
Fixpoint str_all (P : Ascii.ascii → bool) (s : string) : bool :=
  match s with EmptyString => true | String c s => P c && str_all P s end.

Lemma str_all_app P a b : str_all P (a +:+ b) = str_all P a && str_all P b.
Proof.
  induction a as [|c a IH]; [done|]. change (P c && str_all P (a +:+ b) = P c && str_all P a && str_all P b).
  by rewrite IH, andb_assoc.
Qed.

Lemma cstr_id s : str_all (λ c, bool_decide (c ≠ nul)) s = true → cstr s = s.
Proof.
  unfold cstr. induction s as [|c s IH]; [done|]. simpl. intros [Hc Hs]%andb_true_iff.
  apply bool_decide_eq_true in Hc. rewrite decide_False by done. simpl. by rewrite IH.
Qed.

Lemma str_all_pretty_go P x s :
  (∀ d, (d < 10)%N → P (pretty_N_char d) = true) → str_all P s = true →
  str_all P (pretty_N_go x s) = true.
Proof.
  intros HP. revert s. induction (N.lt_wf_0 x) as [x _ IH]. intros s Hs.
  destruct (decide (0 < x)%N) as [Hx|Hx].
  - rewrite pretty_N_go_step by done. apply IH; [by apply N.div_lt|].
    simpl. rewrite Hs, HP; [done|]. by apply N.mod_lt.
  - assert (x = 0%N) as -> by lia. by rewrite pretty_N_go_0.
Qed.

Lemma str_all_fmt_d P z :
  (∀ d, (d < 10)%N → P (pretty_N_char d) = true) → P "-"%char = true → str_all P (fmt_d z) = true.
Proof.
  intros HP Hm. assert (∀ x : N, str_all P (pretty x) = true) as Hx.
  { intros x. unfold pretty, pretty_N. case_decide; [apply andb_true_iff; split; [by apply (HP 0%N)|done]|].
    by apply str_all_pretty_go. }
  destruct z as [|p|p]; [apply (Hx 0%N)|apply (Hx (Npos p))|].
  change (P "-"%char && str_all P (pretty (Npos p)) = true). by rewrite Hm, Hx.
Qed.

Lemma str_all_zero_pad P n s : P "0"%char = true → str_all P s = true → str_all P (zero_pad n s) = true.
Proof. intros H0 Hs. induction n; [done|]. simpl. by rewrite H0. Qed.

Lemma length_zero_pad n s : String.length (zero_pad n s) = (n + String.length s)%nat.
Proof. induction n; simpl; [done|]. by rewrite IHn. Qed.

Lemma digits_not_nul d : (d < 10)%N → bool_decide (pretty_N_char d ≠ nul) = true.
Proof. intros Hd. revert d Hd. apply digit_cases; reflexivity. Qed.

Lemma scan_zero_pad n (x : N) : scan_digits 10 0 (zero_pad n (pretty x)) = (Z.of_N x, "").
Proof. induction n as [|n IH]; [apply scan_digits_pretty_N|]. exact IH. Qed.

Lemma scan_number_09 z :
  0 ≤ z → scan_number 10 (fmt_09d z) = Some (false, z, "").
Proof.
  intros Hz. unfold fmt_09d. rewrite !fmt_d_nonneg by done.
  destruct (9 - _)%nat as [|n] eqn:E.
  - simpl. rewrite scan_number_pretty. by rewrite Z2N.id.
  - unfold scan_number. cbn [zero_pad skip_spaces].
    change (scan_sign _) with (false, String "0" (zero_pad n (pretty (Z.to_N z)))). cbv beta iota.
    rewrite scan_radix_10. change (starts_digit _ _) with true. cbv beta iota.
    change (scan_digits _ _ (String _ ?s)) with (scan_digits 10 0 s).
    by rewrite scan_zero_pad, Z2N.id by done.
Qed.

Lemma btime_text_whole ts :
  in_s 64 (tv_sec ts) → 0 ≤ tv_nsec ts < 1000000000 →
  btime_text ts = fmt_d (tv_sec ts) +:+ "." +:+ fmt_09d (tv_nsec ts).
Proof.
  intros [Hs1 Hs2] Hn. unfold btime_text, snprintf_s. apply strtake_whole.
  rewrite !length_append. unfold fmt_09d. rewrite length_zero_pad.
  destruct (length_fmt_d 19 (tv_sec ts)) as [H1 _]; [lia|simpl in *; lia|].
  destruct (length_fmt_d 9 (tv_nsec ts)) as [_ H2]; [lia|simpl; lia|].
  specialize (H2 ltac:(lia)). simpl. lia.
Qed.

Lemma btime_text_cstr ts :
  in_s 64 (tv_sec ts) → 0 ≤ tv_nsec ts < 1000000000 → cstr (btime_text ts) = btime_text ts.
Proof.
  intros Hs Hn. rewrite btime_text_whole by done. apply cstr_id. rewrite !str_all_app.
  unfold fmt_09d. rewrite str_all_zero_pad, str_all_fmt_d; try done; [apply digits_not_nul|].
  apply str_all_fmt_d; [apply digits_not_nul|done].
Qed.

Lemma btime_scan ts out :
  in_s 64 (tv_sec ts) → 0 ≤ tv_nsec ts < 1000000000 →
  sscanf_btime (cstr (btime_text ts)) out = (2, ts).
Proof.
  intros Hs Hn. rewrite btime_text_cstr, btime_text_whole by done.
  unfold sscanf_btime. rewrite scan_number_fmt by done.
  change ("." +:+ ?x) with (String "." x). change (negb (chr "." =? 46)) with false. cbv beta iota.
  unfold strtoull. rewrite scan_number_09 by lia. cbn.
  destruct ts as [sec nsec]; simpl in *. unfold in_s in Hs. unfold LONG_MIN, LONG_MAX, ULONG_MAX.
  rewrite (proj2 (Z.ltb_ge 18446744073709551615 nsec)) by lia.
  rewrite wrap_u_id by (unfold in_u; lia).
  destruct (Z.ltb_spec sec 0); do 2 f_equal; simpl in *; lia.
Qed.

(** ** The mount table

    A line of /proc/self/mountinfo, as proc(5) documents it. *)
Record mount := { mnt_id : Z; mnt_parent : Z; mnt_major : Z; mnt_minor : Z; mnt_rest : string }.

Definition newline : Ascii.ascii := Ascii.ascii_of_nat 10.

Definition mount_line (m : mount) : string :=
  fmt_d (mnt_id m) +:+ String " " (fmt_d (mnt_parent m) +:+ String " " (fmt_d (mnt_major m) +:+
  String ":" (fmt_d (mnt_minor m) +:+ String " " (mnt_rest m +:+ String newline "")))).

Fixpoint mount_table (ms : list mount) : string :=
  match ms with [] => "" | m :: ms => mount_line m +:+ mount_table ms end.

Definition mount_ok (m : mount) : bool :=
  (0 <=? mnt_id m) && (mnt_id m <=? ULONG_MAX) && (0 <=? mnt_parent m) &&
  (0 <=? mnt_major m) && (mnt_major m <? 2 ^ 32) && (0 <=? mnt_minor m) &&
  (mnt_minor m <? 2 ^ 32) && str_all (λ c, negb (chr c =? 10)) (mnt_rest m) &&
  str_all (λ c, bool_decide (c ≠ nul)) (mnt_rest m).

Definition on_device (maj min : Z) (m : mount) : bool :=
  (mnt_major m =? maj) && (mnt_minor m =? min).

(** The id of the first mount of the device, 0 when there is none. *)
Fixpoint first_mount (ms : list mount) (maj min : Z) : Z :=
  match ms with
  | [] => 0
  | m :: ms => if on_device maj min m then mnt_id m else first_mount ms maj min
  end.

Lemma strtoull_fmt z rest :
  0 ≤ z ≤ ULONG_MAX → starts_digit 10 rest = false → strtoull (fmt_d z +:+ rest) 10 = (z, rest).
Proof.
  intros Hz Hr. unfold strtoull. rewrite scan_number_fmt by done.
  rewrite (proj2 (Z.ltb_ge _ _)) by lia. rewrite (proj2 (Z.ltb_ge z 0)) by lia.
  by rewrite Z.abs_eq by lia.
Qed.

Lemma strtoull_space s : scan_number 10 s ≠ None → strtoull (String " " s) 10 = strtoull s 10.
Proof. intros Hs. unfold strtoull. rewrite scan_number_space. by destruct (scan_number 10 s). Qed.

Lemma strtoull_rest z rest :
  starts_digit 10 rest = false →
  strtoull (fmt_d z +:+ rest) 10 = (fst (strtoull (fmt_d z +:+ "") 10), rest).
Proof. intros Hr. unfold strtoull. by rewrite !scan_number_fmt. Qed.

Lemma next_line_app a b :
  str_all (λ c, negb (chr c =? 10)) a = true → next_line (a +:+ String newline b) = Some b.
Proof.
  induction a as [|c a IH]; [done|]. change (String c a +:+ ?s) with (String c (a +:+ s)). simpl.
  intros [Hc Ha]%andb_true_iff. destruct (chr c =? 10); [done|]. by apply IH.
Qed.

Lemma parse_mount_line m s :
  mount_ok m = true →
  parse_mount (mount_line m +:+ s) =
    Some (mnt_id m, mnt_major m, mnt_minor m, String " " (mnt_rest m +:+ String newline s)).
Proof.
  unfold mount_ok. intros H. rewrite !andb_true_iff, !Z.leb_le, !Z.ltb_lt in H.
  destruct H as ((((((((? & ?) & ?) & ?) & ?) & ?) & ?) & _) & _).
  unfold parse_mount, mount_line. rewrite append_assoc.
  rewrite strtoull_fmt by done. cbv beta iota.
  change (String " " ?a +:+ ?b) with (String " " (a +:+ b)). rewrite append_assoc.
  change (String " " ?a +:+ ?b) with (String " " (a +:+ b)). rewrite append_assoc.
  rewrite strtoull_space by by rewrite scan_number_fmt.
  rewrite strtoull_rest by done. cbv beta iota.
  change (String ":" ?a +:+ ?b) with (String ":" (a +:+ b)). rewrite append_assoc.
  rewrite strtoull_space by by rewrite scan_number_fmt.
  rewrite strtoull_fmt by (done || unfold ULONG_MAX; lia).
  change (negb (chr ":" =? 58)) with false. cbv beta iota.
  change (String " " ?a +:+ ?b) with (String " " (a +:+ b)). rewrite append_assoc.
  rewrite strtoull_fmt by (done || unfold ULONG_MAX; lia).
  by rewrite !wrap_u_id by done.
Qed.

Lemma next_mount m s :
  mount_ok m = true → next_line (String " " (mnt_rest m +:+ String newline s)) = Some s.
Proof.
  intros H. unfold mount_ok in H. rewrite !andb_true_iff in H. destruct H as [[_ H] _].
  by apply (next_line_app (String " " (mnt_rest m))).
Qed.

Lemma mount_line_cons m s : ∃ c r, mount_line m +:+ s = String c r.
Proof.
  unfold mount_line. rewrite append_assoc. destruct (fmt_d (mnt_id m)) as [|c r]; eexists _, _; reflexivity.
Qed.

Lemma mount_scan_first ms maj min n :
  Forall (λ m, mount_ok m = true) ms → (length ms < n)%nat →
  mount_scan n (mount_table ms) maj min = first_mount ms maj min.
Proof.
  intros Hms. revert n. induction Hms as [|m ms Hm Hms IH]; intros [|n] Hn; simpl in Hn; try lia; [done|].
  cbn [mount_table first_mount mount_scan].
  destruct (mount_line_cons m (mount_table ms)) as (c & r & E). rewrite E, <-E.
  rewrite parse_mount_line by done. fold (on_device maj min m). destruct (on_device maj min m); [done|].
  rewrite next_mount by done. apply IH. lia.
Qed.

Lemma length_mount_table ms : (length ms ≤ String.length (mount_table ms))%nat.
Proof.
  induction ms as [|m ms IH]; simpl; [lia|].
  destruct (mount_line_cons m "") as (c & r & E). rewrite append_empty in E.
  rewrite length_append, E. simpl. lia.
Qed.

Lemma mount_table_cstr ms :
  Forall (λ m, mount_ok m = true) ms → cstr (mount_table ms) = mount_table ms.
Proof.
  intros Hms. apply cstr_id. induction Hms as [|m ms Hm Hms IH]; [done|].
  cbn [mount_table]. rewrite str_all_app, IH, andb_true_r. unfold mount_ok in Hm.
  rewrite !andb_true_iff in Hm. destruct Hm as [_ Hm]. unfold mount_line.
  pose proof (λ z, str_all_fmt_d (λ c, bool_decide (c ≠ nul)) z digits_not_nul eq_refl) as Hd.
  repeat first [ rewrite str_all_app | rewrite Hd | progress cbn [str_all] ]. by rewrite Hm.
Qed.

Lemma scan_mounts_first ms maj min :
  Forall (λ m, mount_ok m = true) ms →
  scan_mounts (cstr (mount_table ms)) maj min = first_mount ms maj min.
Proof.
  intros Hms. rewrite mount_table_cstr by done. unfold scan_mounts.
  apply mount_scan_first; [done|]. pose proof (length_mount_table ms). lia.
Qed.

Section facts.
Context {W : Type} `{!Kernel W, !Handlers W}.
Local Abbreviation M := (prog (st W)).

(** C33: The mount id that is reported for a device is the id of the first line of the mount table for
    that device, and 0 (not supported) when no line is, for every table that fits the buffer; the
    loop of the parser ends. *)
Theorem mnt_id_first_mount ms maj min fd w1 (s : st W) :
  Forall (λ m, mount_ok m = true) ms → mount_fd (s_mem s) = fd → 0 ≤ fd →
  kstep (k_pread fd 8191 0) (s_world s) = (inl (mount_table ms), w1) →
  lookup_mnt_id maj min s = Ret (first_mount ms maj min) (mkst (s_mem s) w1 (s_errno s)).
Proof.
  intros Hms Hfd Hpos E. unfold lookup_mnt_id. rewrite bind_getm, Hfd.
  rewrite (proj2 (Z.ltb_ge fd (-1))) by lia. rewrite bind_ret.
  rewrite (proj2 (Z.ltb_ge fd 0)) by lia. unfold bind, sys. rewrite E.
  destruct (String.length _ =? 0)%nat eqn:El; [|by rewrite scan_mounts_first].
  destruct ms as [|m ms]; [done|]. apply Nat.eqb_eq in El. pose proof (length_mount_table (m :: ms)).
  simpl in *. lia.
Qed.

(** C34: The birth time that the open shim stores when it creates a file is the birth time statx
    reports for the file: the text written by the one is read back by the other, whole, for every
    time of the clock. *)
Theorem btime_roundtrip ts dirfd pathname flags mask b (s s1 : st W) :
  in_s 64 (tv_sec ts) → 0 ≤ tv_nsec ts < 1000000000 →
  has_bits mask STATX_BTIME = true → has_bits (stx_mask b) STATX_BTIME = false →
  btime_xattr dirfd pathname flags s = Ret (Some (btime_text ts)) s1 →
  fill_btime dirfd pathname flags mask b s =
    Ret (set_stx_mask (Z.lor (stx_mask b) STATX_BTIME) (set_stx_btime ts b)) s1.
Proof.
  intros Hs Hn Hm Hb E. unfold fill_btime, read_btime_xattr. rewrite Hm, Hb. cbn [negb andb].
  rewrite bind_assoc, (bind_Ret _ _ _ _ _ E). by rewrite btime_scan.
Qed.

(** What the polyfills leave alone: the file's mode, number, device and times, and every bit of
    the masks but the three they provide. *)
Definition statx_kept (b b' : statx_t) : Prop :=
  (stx_mode b' = stx_mode b ∧ stx_ino b' = stx_ino b ∧ stx_ctime b' = stx_ctime b ∧
   stx_mtime b' = stx_mtime b ∧ stx_dev_major b' = stx_dev_major b ∧
   stx_dev_minor b' = stx_dev_minor b) ∧
  (∀ k, 0 ≤ k → k ≠ 13 → Z.testbit (stx_attributes b') k = Z.testbit (stx_attributes b) k).

#[local] Instance statx_kept_preorder : PreOrder statx_kept.
Proof.
  split; [by intros b|]. intros a b c [(H1 & H2 & H3 & H4 & H5 & H6) H7] [(G1 & G2 & G3 & G4 & G5 & G6) G7].
  split; [repeat split; congruence|]. intros k Hk Hn. by rewrite G7, H7.
Qed.

Lemma testbit_or_pow2 x n k : 0 ≤ n → Z.testbit (Z.lor x (2 ^ n)) k = Z.testbit x k || (k =? n).
Proof.
  intros Hn. rewrite Z.lor_spec. f_equal. rewrite Z.pow2_bits_eqb by done. apply Z.eqb_sym.
Qed.

Lemma fill_mnt_id_spec mask b b1 (s s1 : st W) :
  fill_mnt_id mask b s = Ret b1 s1 →
  statx_kept b b1 ∧ stx_btime b1 = stx_btime b ∧
  (∀ k, Z.testbit (stx_mask b1) k = Z.testbit (stx_mask b) k ||
     ((k =? 12) && Z.testbit mask 12 && negb (stx_mnt_id b1 =? 0))).
Proof.
  unfold fill_mnt_id. change STATX_MNT_ID with (2 ^ 12). rewrite !has_bits_pow2 by lia.
  destruct (Z.testbit mask 12) eqn:Em; cbn [andb];
    [|intros [= <- <-]; split; [done|]; split; [done|]; intros k; by rewrite andb_false_r, orb_false_r].
  destruct (Z.testbit (stx_mask b) 12) eqn:Eb; cbn [negb].
  { intros [= <- <-]. split; [done|]. split; [done|]. intros k.
    destruct (Z.eqb_spec k 12) as [->|]; [by rewrite Eb|]. by rewrite orb_false_r. }
  intros (id & s2 & _ & E)%bind_Ret_inv. injection E as <- <-.
  destruct (Z.eqb_spec id 0) as [->|Hid]; cbn [negb]; (split; [done|]; split; [done|]); intros k; cbn -[Z.pow Z.lor Z.testbit].
  - by rewrite andb_false_r, orb_false_r.
  - rewrite testbit_or_pow2 by lia. destruct (Z.eqb_spec id 0); [done|]. by rewrite !andb_true_r.
Qed.

Lemma fill_mount_root_spec dirfd pathname flags b b1 (s s1 : st W) :
  fill_mount_root dirfd pathname flags b s = Ret b1 s1 →
  statx_kept b b1 ∧ stx_btime b1 = stx_btime b ∧ stx_mask b1 = stx_mask b ∧
  stx_mnt_id b1 = stx_mnt_id b ∧ Z.testbit (stx_attributes_mask b1) 13 = true.
Proof.
  unfold fill_mount_root. change STATX_ATTR_MOUNT_ROOT with (2 ^ 13). rewrite has_bits_pow2 by lia.
  destruct (Z.testbit (stx_attributes_mask b) 13) eqn:E13; cbn [negb]; [by intros [= <- <-]|].
  intros (root & s2 & _ & E)%bind_Ret_inv. injection E as <- <-.
  split_and!; [|done|done|done|].
  2: { cbn -[Z.pow Z.lor Z.testbit]. by rewrite testbit_or_pow2, orb_true_r by lia. }
  split; [done|]. intros k Hk Hn. destruct root; [|done]. cbn -[Z.pow Z.lor Z.testbit].
  rewrite testbit_or_pow2 by lia. by rewrite (proj2 (Z.eqb_neq k 13)), orb_false_r.
Qed.

Lemma fill_btime_spec dirfd pathname flags mask b b1 (s s1 : st W) :
  fill_btime dirfd pathname flags mask b s = Ret b1 s1 →
  statx_kept b b1 ∧ stx_mnt_id b1 = stx_mnt_id b ∧ stx_attributes_mask b1 = stx_attributes_mask b ∧
  (∀ k, k ≠ 11 → Z.testbit (stx_mask b1) k = Z.testbit (stx_mask b) k) ∧
  (Z.testbit mask 11 = false ∨ Z.testbit (stx_mask b) 11 = true → b1 = b) ∧
  (Z.testbit mask 11 = true → Z.testbit (stx_mask b) 6 = true → Z.testbit (stx_mask b) 7 = true →
   Z.testbit (stx_mask b1) 11 = true).
Proof.
  unfold fill_btime. change STATX_BTIME with (2 ^ 11). rewrite !has_bits_pow2 by lia.
  destruct (Z.testbit mask 11) eqn:Em; cbn [andb];
    [|intros [= <- <-]; split_and!; (done || discriminate)].
  destruct (Z.testbit (stx_mask b) 11) eqn:Eb; cbn [negb]; [by intros [= <- <-]|].
  intros ([ok t] & s2 & _ & E)%bind_Ret_inv. cbn [fst snd] in E.
  change STATX_MTIME with (2 ^ 6) in E. change STATX_CTIME with (2 ^ 7) in E.
  rewrite !has_bits_pow2 in E by lia. cbn -[Z.pow Z.lor Z.testbit] in E.
  assert (∀ b2 : statx_t, (∀ k, k ≠ 11 → Z.testbit (Z.lor (stx_mask b2) (2 ^ 11)) k = Z.testbit (stx_mask b2) k)
    ∧ Z.testbit (Z.lor (stx_mask b2) (2 ^ 11)) 11 = true) as Ho.
  { intros b2. split; [|by rewrite testbit_or_pow2, orb_true_r by lia]. intros k Hk.
    rewrite testbit_or_pow2 by lia. by rewrite (proj2 (Z.eqb_neq k 11)), orb_false_r. }
  destruct ok; [|destruct (Z.testbit (stx_mask b) 6) eqn:E6, (Z.testbit (stx_mask b) 7) eqn:E7];
    injection E as <- <-; cbn -[Z.pow Z.lor Z.testbit]; split_and!;
    try first [done | apply Ho | by intros; apply Ho | by intros [?|?] | discriminate].
Qed.
Lemma forced_bit k : 0 ≤ k → Z.testbit forced k = bool_decide (k = 0 ∨ k = 6 ∨ k = 7 ∨ k = 8).
Proof.
  intros Hk. destruct (decide (k < 9)) as [H|H].
  - assert (k = 0 ∨ k = 1 ∨ k = 2 ∨ k = 3 ∨ k = 4 ∨ k = 5 ∨ k = 6 ∨ k = 7 ∨ k = 8) as Hc by lia.
    by repeat destruct Hc as [->|Hc]; [..|subst].
  - rewrite Z.bits_above_log2 by (done || change (Z.log2 forced) with 8; lia).
    symmetry. apply bool_decide_eq_false. lia.
Qed.

Lemma cleared_bit m mask k :
  0 ≤ k → Z.testbit (Z.land m (Z.lnot (Z.ldiff forced mask))) k =
    Z.testbit m k && (negb (Z.testbit forced k) || Z.testbit mask k).
Proof.
  intros Hk. rewrite Z.land_spec, Z.lnot_spec, Z.ldiff_spec by done.
  by destruct (Z.testbit m k), (Z.testbit forced k), (Z.testbit mask k).
Qed.

Lemma ret_Some_inv {S A} (a b : A) (s s' : S) : ret (Some a) s = Ret (Some b) s' → a = b ∧ s = s'.
Proof. by intros [= -> ->]. Qed.

End facts.

(** ** A concrete machine

    A mount table, one file with an attribute, and the kernel's statx answer for it. *)
Module StatKernel.
Record world := { table : string; attr : option string; answer : statx_t; parent : stat }.
Definition step {R} (c : call R) (w : world) : (R + Z) * world :=
  match c in call R return (R + Z) * world with
  | k_open _ _ _ => (inl 9, w)
  | k_pread 9 count _ => (inl (strtake (Z.to_nat count) (table w)), w)
  | k_statx _ _ _ _ => (inl (answer w), w)
  | k_fstatat _ _ _ => (inl (parent w), w)
  | k_getxattr _ _ size =>
      (match attr w with Some v => inl (strtake (Z.to_nat size) v) | None => inr EOPNOTSUPP end, w)
  | _ => (inr ENOSYS, w)
  end.
#[global] Instance kernel : Kernel world := {| kstep := @step; kpid := λ _, 1 |}.

Definition mounts : list mount :=
  [{| mnt_id := 20; mnt_parent := 0; mnt_major := 0; mnt_minor := 2; mnt_rest := "/ / rw - lxfs rootfs rw" |};
   {| mnt_id := 21; mnt_parent := 20; mnt_major := 8; mnt_minor := 16; mnt_rest := "/ /mnt/d rw - drvfs D: rw" |};
   {| mnt_id := 22; mnt_parent := 20; mnt_major := 8; mnt_minor := 1; mnt_rest := "/ /mnt/c rw - drvfs C: rw" |}].
Definition born : timespec := {| tv_sec := -86400; tv_nsec := 42 |}.
(** A directory of the 8:1 file system whose parent is on another one. *)
Definition dir : statx_t :=
  {| stx_mask := 2047; stx_attributes := 0; stx_mode := 16877; stx_ino := 5; stx_attributes_mask := 0;
     stx_btime := {| tv_sec := 0; tv_nsec := 0 |}; stx_ctime := {| tv_sec := 100; tv_nsec := 7 |};
     stx_mtime := {| tv_sec := 100; tv_nsec := 3 |}; stx_dev_major := 8; stx_dev_minor := 1;
     stx_mnt_id := 0 |}.
Definition w : world :=
  {| table := mount_table mounts; attr := Some (btime_text born); answer := dir;
     parent := {| st_dev := 2; st_ino := 5; st_mode := 16877 |} |}.
Definition s0 : st world := mkst (set_mount_fd 9 init_mem) w 0.
Definition ask : Z := STATX_BTIME + STATX_MNT_ID + STATX_CTIME.
Definition final : statx_t :=
  match statx AT_FDCWD "/mnt/c" 0 ask s0 with Ret (Some b) _ => b | _ => dir end.
End StatKernel.

Lemma mnt_id_first_mount_witness :
  lookup_mnt_id 8 1 StatKernel.s0 = Ret 22 StatKernel.s0.
Proof.
  refine (mnt_id_first_mount StatKernel.mounts 8 1 9 StatKernel.w StatKernel.s0 _ _ _ _).
  - repeat constructor.
  - reflexivity.
  - lia.
  - by vm_compute.
Defined.

Lemma btime_roundtrip_witness :
  fill_btime AT_FDCWD "/mnt/c" 0 StatKernel.ask StatKernel.dir StatKernel.s0 =
    Ret (set_stx_mask 4095 (set_stx_btime StatKernel.born StatKernel.dir)) StatKernel.s0.
Proof.
  refine (btime_roundtrip StatKernel.born _ _ _ _ _ _ _ _ _ _ _ _);
    [split; by vm_compute|split; by vm_compute|by vm_compute..].
Defined.


(** ** A mount table longer than the buffer

    The table is read into 8191 bytes. A longer one is cut, and the cut can fall inside the device
    number of a line, which then reads as another device: here 8:16 as 8:1, whose id is reported
    for a file of 8:1. *)
Definition long_mounts : list mount :=
  [{| mnt_id := 20; mnt_parent := 0; mnt_major := 0; mnt_minor := 2; mnt_rest := zero_pad (Z.to_nat 8172) "" |};
   {| mnt_id := 21; mnt_parent := 20; mnt_major := 8; mnt_minor := 16; mnt_rest := "/ /mnt/d rw - drvfs D: rw" |};
   {| mnt_id := 22; mnt_parent := 20; mnt_major := 8; mnt_minor := 1; mnt_rest := "/ /mnt/c rw - drvfs C: rw" |}].

(** With a mount table of more than 8191 bytes the id of another mount can be reported. *)
Theorem mnt_id_table_cut :
  Forall (λ m, mount_ok m = true) long_mounts ∧ first_mount long_mounts 8 1 = 22 ∧
  scan_mounts (cstr (strtake (Z.to_nat 8191) (mount_table long_mounts))) 8 1 = 21.
Proof. split_and!; [repeat constructor|done|by vm_compute]. Qed.
