(* ===== verification/Clock.v ===== *)
(** * clock.c: clocks that WSL1 does not have

    Sleeps on CLOCK_BOOTTIME, CLOCK_TAI and the CPU clock of the process, the resolution and the
    time of CLOCK_TAI, and the times of the CPU clocks that glibc encodes in a clock id. *)

From S2P Require Import Prelude CString Kernel State Tunables Open.

Open Scope Z_scope.

Definition CLOCK_MONOTONIC : Z := 1.
Definition CLOCK_PROCESS_CPUTIME_ID : Z := 2.
Definition CLOCK_BOOTTIME : Z := 7.
Definition CLOCK_TAI : Z := 11.
Definition TIMER_ABSTIME : Z := 1.
Definition RUSAGE_SELF : Z := 0.
Definition RUSAGE_THREAD : Z := 1.

Definition TAI_UTC_DEFAULT : Z := 37.
Definition WIN_TICK_NS : Z := 15625000.

Definition NS : Z := 1000000000.

Definition tv_to_ns (tv : timeval) : Z := wrap_s 64 (tvu_sec tv * NS + tvu_usec tv * 1000).

Definition ns_to_ts (ns : Z) : timespec := {| tv_sec := Z.quot ns NS; tv_nsec := Z.rem ns NS |}.

Section clock.
Context {W : Type} `{!Kernel W} {Hfuel : Fuel}.
Local Abbreviation M := (prog (st W)).

(** [sym_next (clock_nanosleep, ...)]: the return value, and what was written to [*rem]. *)
Definition next_nanosleep (clk flags : Z) (req : option timespec) (rem : bool) :
    M (Z * option timespec) :=
  let* r := sys (k_clock_nanosleep clk flags req rem) in
  match r with
  | Some r => ret r
  | None => ret (-1, None)
  end.

(** [inl] the CPU time, [inr] the error number. *)
Definition rusage_cpu_ns (who : Z) : M (Z + Z) :=
  let* r := sys (k_getrusage who) in
  match r with
  | None => let* e := get_errno in ret (inr e)
  | Some r => ret (inl (wrap_s 64 (tv_to_ns (ru_utime r) + tv_to_ns (ru_stime r))))
  end.

Definition handle_boottime (flags : Z) (req : timespec) (rem : bool) : M (Z * option timespec) :=
  next_nanosleep CLOCK_MONOTONIC flags (Some req) rem.

Definition handle_tai (flags : Z) (req : timespec) (rem : bool) : M (Z * option timespec) :=
  if negb (has_bits flags TIMER_ABSTIME)
  then next_nanosleep CLOCK_REALTIME flags (Some req) rem
  else
    let* offset := getm (λ m, wslcompat_tunable_int (options m) "taioffset" TAI_UTC_DEFAULT) in
    let adj :=
      if offset <=? tv_sec req
      then {| tv_sec := wrap_s 64 (tv_sec req - offset); tv_nsec := tv_nsec req |}
      else {| tv_sec := 0; tv_nsec := 0 |} in
    next_nanosleep CLOCK_REALTIME flags (Some adj) rem.

(** [while (now_ns < target_ns)], and the return after it. *)
Fixpoint cputime_loop (n : nat) (flags target_ns now_ns : Z) (rem : bool) :
    M (Z * option timespec) :=
  let relative := rem && negb (has_bits flags TIMER_ABSTIME) in
  if negb (now_ns <? target_ns)
  then ret (0, if relative then Some {| tv_sec := 0; tv_nsec := 0 |} else None)
  else match n with
  | O => nofuel
  | S n' =>
      let sleep_ns := Z.max (wrap_s 64 (target_ns - now_ns)) WIN_TICK_NS in
      let* r := next_nanosleep CLOCK_MONOTONIC 0 (Some (ns_to_ts sleep_ns)) false in
      let rc := fst r in
      if negb (rc =? 0) then
        if negb (rc =? EINTR) then ret (rc, None)
        else if (relative : bool) then
          let* cur := rusage_cpu_ns RUSAGE_SELF in
          match cur with
          | inl cur => ret (rc, Some (ns_to_ts (Z.max (wrap_s 64 (target_ns - cur)) 0)))
          | inr _ => ret (rc, None)
          end
        else ret (rc, None)
      else
        let* now := rusage_cpu_ns RUSAGE_SELF in
        match now with
        | inr rc => ret (rc, None)
        | inl now_ns => cputime_loop n' flags target_ns now_ns rem
        end
  end.

Definition handle_process_cputime (flags : Z) (req : timespec) (rem : bool) :
    M (Z * option timespec) :=
  if (tv_sec req <? 0) || (tv_nsec req <? 0) || (NS <=? tv_nsec req) then ret (EINVAL, None)
  else
    let* now := rusage_cpu_ns RUSAGE_SELF in
    match now with
    | inr rc => ret (rc, None)
    | inl now_ns =>
        let target_ns := wrap_s 64 (tv_sec req * NS + tv_nsec req) in
        let target_ns := if has_bits flags TIMER_ABSTIME then target_ns
                         else wrap_s 64 (target_ns + now_ns) in
        cputime_loop fuel flags target_ns now_ns rem
    end.

Definition nanosleep_dispatch : list (Z * (Z → timespec → bool → M (Z * option timespec))) :=
  [(CLOCK_BOOTTIME, handle_boottime); (CLOCK_TAI, handle_tai);
   (CLOCK_PROCESS_CPUTIME_ID, handle_process_cputime)].

Definition clock_nanosleep (clockid flags : Z) (request : option timespec) (remain : bool) :
    M (Z * option timespec) :=
  let* off := wslcompat_passthru "clock_nanosleep" in
  if (off : bool) then next_nanosleep clockid flags request remain
  else
    match request with
    | None => ret (EFAULT, None)
    | Some req =>
        match list_find (λ d, fst d = clockid) nanosleep_dispatch with
        | Some (_, (_, fn)) => fn flags req remain
        | None => next_nanosleep clockid flags request remain
        end
    end.

Definition handle_tai_getres (res : bool) : M (option timespec) :=
  sys (k_clock_getres CLOCK_REALTIME res).

Definition getres_dispatch : list (Z * (bool → M (option timespec))) := [(CLOCK_TAI, handle_tai_getres)].

Definition clock_getres (clockid : Z) (res : bool) : M (option timespec) :=
  let* off := wslcompat_passthru "clock_getres" in
  if (off : bool) then sys (k_clock_getres clockid res)
  else
    match list_find (λ d, fst d = clockid) getres_dispatch with
    | Some (_, (_, fn)) => fn res
    | None => sys (k_clock_getres clockid res)
    end.

Definition handle_tai_gettime (tp : bool) : M (option timespec) :=
  let* t := sys (k_clock_gettime CLOCK_REALTIME tp) in
  match t with
  | None => ret None
  | Some t =>
      let* offset := getm (λ m, wslcompat_tunable_int (options m) "taioffset" TAI_UTC_DEFAULT) in
      ret (Some {| tv_sec := wrap_s 64 (tv_sec t + offset); tv_nsec := tv_nsec t |})
  end.

Definition gettime_dispatch : list (Z * (bool → M (option timespec))) := [(CLOCK_TAI, handle_tai_gettime)].

(** [RUSAGE_SELF], [RUSAGE_THREAD], or -1 for a clock id of another form or process. *)
Definition encoded_cpuclock_who (clockid : Z) : M Z :=
  if 0 <=? clockid then ret (-1)
  else if negb (Z.land clockid 3 =? 2) then ret (-1)
  else
    let decoded := Z.lnot (Z.shiftr clockid 3) in
    let* self := getpid in
    let* ws :=
      (if has_bits clockid 4 then
         let* t := sys k_gettid in
         ret (RUSAGE_THREAD, match t with Some t => t | None => -1 end)
       else ret (RUSAGE_SELF, self)) in
    if negb (decoded =? 0) && negb (decoded =? snd ws) then ret (-1) else ret (fst ws).

Definition clock_gettime (clockid : Z) (tp : bool) : M (option timespec) :=
  let* off := wslcompat_passthru "clock_gettime" in
  if (off : bool) then sys (k_clock_gettime clockid tp)
  else
    let* who := encoded_cpuclock_who clockid in
    if 0 <=? who then
      let* ns := rusage_cpu_ns who in
      match ns with
      | inr _ => ret None
      | inl ns =>
          if negb tp then set_errno EFAULT ;;* ret None
          else ret (Some (ns_to_ts ns))
      end
    else
      match list_find (λ d, fst d = clockid) gettime_dispatch with
      | Some (_, (_, fn)) => fn tp
      | None => sys (k_clock_gettime clockid tp)
      end.
End clock.

(** ** Times *)
Definition ts_ns (t : timespec) : Z := tv_sec t * NS + tv_nsec t.

Definition cpu_ns (r : rusage) : Z := tv_to_ns (ru_utime r) + tv_to_ns (ru_stime r).

Lemma ts_ns_to_ts ns : ts_ns (ns_to_ts ns) = ns.
Proof. unfold ts_ns, ns_to_ts. cbn [tv_sec tv_nsec]. pose proof (Z.quot_rem' ns NS). lia. Qed.

Lemma ns_to_ts_range ns : 0 ≤ ns → 0 ≤ tv_sec (ns_to_ts ns) ∧ 0 ≤ tv_nsec (ns_to_ts ns) < NS.
Proof.
  intros H. cbn. split; [apply Z.quot_pos; [done|unfold NS; lia]|].
  apply Z.rem_bound_pos; [done|unfold NS; lia].
Qed.

(** What the CPU clock of the process promises: getrusage reads it, and a sleep of at least one
    tick of wall time that is not interrupted lets it advance, by at least [pace] (some thread is running) and, with one
    processor at work for the process, by no more than the time slept. *)
Class KernelCpu (W : Type) `{!Kernel W} (pace : Z) := {
  cpu : W → Z;
  cpu_range w : 0 ≤ cpu w;
  cpu_getrusage w : cpu w < 2 ^ 63 → ∃ u w', kstep (k_getrusage RUSAGE_SELF) w = (inl u, w') ∧
    cpu_ns u = cpu w ∧ cpu w' = cpu w;
  cpu_sleep t w r w' :
    WIN_TICK_NS ≤ ts_ns t →
    kstep (k_clock_nanosleep CLOCK_MONOTONIC 0 (Some t) false) w = (r, w') →
    match r with
    | inl (0, _) => cpu w + pace ≤ cpu w' ≤ cpu w + ts_ns t
    | inl (_, _) => cpu w ≤ cpu w'
    | inr _ => cpu w ≤ cpu w'
    end;
}.

Lemma next_run {W} `{!Kernel W} clk flags req rem (s : st W) r w' :
  kstep (k_clock_nanosleep clk flags req rem) (s_world s) = (inl r, w') →
  next_nanosleep clk flags req rem s = Ret r (mkst (s_mem s) w' (s_errno s)).
Proof. intros E. unfold next_nanosleep, bind, sys. by rewrite E. Qed.

Section cputime.
Context {W : Type} `{!Kernel W} {Hfuel : Fuel} (pace : Z) `{!KernelCpu W pace}.

Lemma rusage_run (s : st W) :
  cpu (s_world s) < 2 ^ 63 →
  ∃ w', rusage_cpu_ns RUSAGE_SELF s = Ret (inl (cpu (s_world s))) (mkst (s_mem s) w' (s_errno s)) ∧
    cpu w' = cpu (s_world s).
Proof.
  intros Hc. destruct (cpu_getrusage (s_world s) Hc) as (u & w' & E & Hu & Hw). exists w'.
  split; [|done]. unfold rusage_cpu_ns, bind, sys. rewrite E. unfold ret.
  fold (cpu_ns u). rewrite Hu, wrap_s_id; [done|lia|]. pose proof (cpu_range (s_world s)).
  split; [|done]. lia.
Qed.

(** The sleep is over: the clock has reached the target, and passed it by less than one tick. *)
Definition woken (start target : Z) (s' : st W) : Prop :=
  target ≤ cpu (s_world s') ∧
  (cpu (s_world s') = start ∨ cpu (s_world s') < target + WIN_TICK_NS).

Definition no_rem (flags : Z) (rem : bool) : option timespec :=
  if rem && negb (has_bits flags TIMER_ABSTIME) then Some {| tv_sec := 0; tv_nsec := 0 |} else None.

(** No sleep fails: the kernel has the call and no signal arrives. *)
Definition undisturbed : Prop := ∀ t (w : W), ∃ o w',
  kstep (k_clock_nanosleep CLOCK_MONOTONIC 0 (Some t) false) w = (inl (0, o), w').

Lemma cputime_loop_wakes n flags target rem (s : st W) :
  undisturbed → 0 < pace → target + WIN_TICK_NS < 2 ^ 63 → 0 ≤ target → cpu (s_world s) < 2 ^ 63 →
  target - cpu (s_world s) ≤ Z.of_nat n * pace →
  ∃ s', cputime_loop n flags target (cpu (s_world s)) rem s = Ret (0, no_rem flags rem) s' ∧
    s_mem s' = s_mem s ∧ woken (cpu (s_world s)) target s'.
Proof.
  intros Hu Hp Ht Ht0. revert s. induction n as [|n IH]; intros s Hc Hn; cbn [cputime_loop];
    destruct (Z.ltb_spec (cpu (s_world s)) target) as [Hlt|Hge]; cbn [negb];
    try (by eexists; split; [reflexivity|]; split; [done|]; split; [|left]); [simpl in Hn; lia|].
  rewrite Nat2Z.inj_succ, Z.mul_succ_l in Hn.
  pose proof (cpu_range (s_world s)) as Hpos.
  assert (wrap_s 64 (target - cpu (s_world s)) = target - cpu (s_world s)) as ->
    by (apply wrap_s_id; [lia|]; unfold in_s, WIN_TICK_NS in *; lia).
  set (ns := Z.max _ _). destruct (Hu (ns_to_ts ns) (s_world s)) as (o & w' & E).
  assert (WIN_TICK_NS ≤ ts_ns (ns_to_ts ns)) as Htick by (rewrite ts_ns_to_ts; unfold ns; lia).
  pose proof (cpu_sleep _ _ _ _ Htick E) as Hs. rewrite ts_ns_to_ts in Hs.
  assert (cpu w' < target + WIN_TICK_NS) as Hw by (unfold ns, WIN_TICK_NS in *; lia).
  rewrite (bind_Ret _ _ _ _ _ (next_run _ _ _ _ _ _ _ E)). cbn [fst].
  change (negb (0 =? 0)) with false. cbv beta iota.
  destruct (rusage_run (mkst (s_mem s) w' (s_errno s))) as (w2 & E2 & H2); [simpl; lia|].
  rewrite (bind_Ret _ _ _ _ _ E2). cbn [s_world s_mem s_errno] in *. rewrite <-H2 in *.
  destruct (IH (mkst (s_mem s) w2 (s_errno s))) as (s' & E3 & Hm & Hk); cbn [s_world] in *; [lia..|].
  exists s'. split; [exact E3|]. split; [done|]. destruct Hk as [Hk [Hk'|Hk']]; split; auto; right; lia.
Qed.

Definition in_range_from (w0 : W) : Prop := ∀ w, wreach w0 w → cpu w < 2 ^ 63.

Lemma next_reach clk flags req rem (s s1 : st W) r :
  next_nanosleep clk flags req rem s = Ret r s1 → wreach (s_world s) (s_world s1).
Proof.
  unfold next_nanosleep. intros (o & s2 & E & H)%bind_Ret_inv.
  destruct (sys_run (k_clock_nanosleep clk flags req rem) s) as (o' & s3 & E' & _ & Hr).
  rewrite E in E'. injection E' as -> ->. by destruct o'; injection H as _ <-.
Qed.

Lemma rusage_reach who (s s1 : st W) r :
  rusage_cpu_ns who s = Ret r s1 → wreach (s_world s) (s_world s1).
Proof.
  unfold rusage_cpu_ns. intros (o & s2 & E & H)%bind_Ret_inv.
  destruct (sys_run (k_getrusage who) s) as (o' & s3 & E' & _ & Hr).
  rewrite E in E'. injection E' as -> ->. by destruct o'; injection H as _ <-.
Qed.

Definition cpu_target (flags : Z) (req : timespec) (s : st W) : Z :=
  ts_ns req + (if has_bits flags TIMER_ABSTIME then 0 else cpu (s_world s)).

Definition sleep_ok (flags : Z) (req : timespec) (s : st W) : Prop :=
  0 ≤ tv_sec req ∧ 0 ≤ tv_nsec req < NS ∧ cpu_target flags req s + WIN_TICK_NS < 2 ^ 63 ∧
  cpu (s_world s) < 2 ^ 63.

Lemma process_cputime_run flags req rem (s : st W) :
  sleep_ok flags req s →
  ∃ w', cpu w' = cpu (s_world s) ∧ wreach (s_world s) w' ∧
    handle_process_cputime flags req rem s =
    cputime_loop fuel flags (cpu_target flags req s) (cpu w') rem (mkst (s_mem s) w' (s_errno s)).
Proof.
  intros (H1 & H2 & H3 & H4). pose proof (cpu_range (s_world s)) as Hpos.
  destruct (rusage_run s H4) as (w' & E & Hw). exists w'. split; [done|].
  split; [exact (rusage_reach _ _ _ _ E)|]. unfold handle_process_cputime. rewrite (proj2 (Z.ltb_ge _ _)) by lia.
  rewrite (proj2 (Z.ltb_ge _ _)) by lia. rewrite (proj2 (Z.leb_gt _ _)) by lia. cbn [orb].
  rewrite (bind_Ret _ _ _ _ _ E). rewrite Hw. f_equal.
  unfold cpu_target, ts_ns, WIN_TICK_NS in *.
  assert (wrap_s 64 (tv_sec req * NS + tv_nsec req) = tv_sec req * NS + tv_nsec req) as ->.
  { apply wrap_s_id; [lia|]. unfold in_s, NS in *. destruct (has_bits flags TIMER_ABSTIME); lia. }
  destruct (has_bits flags TIMER_ABSTIME); [lia|].
  apply wrap_s_id; [lia|]. unfold in_s, NS in *. lia.
Qed.


(** What a run of the loop that ends has to show for itself. *)
Definition slept (flags target : Z) (rem : bool) (r : Z * option timespec) (s' : st W) : Prop :=
  (fst r = 0 → target ≤ cpu (s_world s')) ∧
  (fst r = EINTR → rem = true → has_bits flags TIMER_ABSTIME = false →
   snd r = Some (ns_to_ts (Z.max (target - cpu (s_world s')) 0))).

Lemma cputime_loop_slept n flags target rem (s s' : st W) r :
  0 ≤ target < 2 ^ 63 → in_range_from (s_world s) →
  cputime_loop n flags target (cpu (s_world s)) rem s = Ret r s' → slept flags target rem r s'.
Proof.
  intros Ht. revert s. induction n as [|n IH]; intros s Hc; cbn [cputime_loop];
    destruct (Z.ltb_spec (cpu (s_world s)) target) as [Hlt|Hge]; cbn [negb];
    try (intros [= <- <-]; by split).
  intros ([rc o] & s1 & E1%next_reach & H)%bind_Ret_inv. cbn [fst] in H.
  destruct (Z.eqb_spec rc 0) as [->|Hrc]; cbn [negb] in H.
  - apply bind_Ret_inv in H as (now & s2 & E2 & H).
    destruct (rusage_run s1 (Hc _ E1)) as (w2 & E3 & Hw). pose proof (rusage_reach _ _ _ _ E3) as E4. rewrite E2 in E3. injection E3 as -> ->.
    apply (IH (mkst (s_mem s1) w2 (s_errno s1))); [|cbn [s_world]; by rewrite Hw].
    intros w Hr. apply Hc. by etrans; [|etrans; [exact E4|]].
  - destruct (Z.eqb_spec rc EINTR) as [->|Hei]; cbn [negb] in H;
      [|injection H as <- <-; by split].
    destruct (rem && negb (has_bits flags TIMER_ABSTIME)) eqn:Er;
      [|injection H as <- <-; split; [done|]; intros _ -> Hf; by rewrite Hf in Er].
    apply bind_Ret_inv in H as (cur & s2 & E2 & H).
    destruct (rusage_run s1 (Hc _ E1)) as (w2 & E3 & Hw). pose proof (rusage_reach _ _ _ _ E3) as E4. rewrite E2 in E3. injection E3 as -> ->.
    injection H as <- <-. split; [done|]. intros _ _ _. cbn [snd s_world]. rewrite Hw.
    rewrite wrap_s_id; [done|lia|]. pose proof (cpu_range (s_world s1)). specialize (Hc (s_world s1) E1).
    unfold in_s. lia.
Qed.

End cputime.

(** ** The encoded CPU clocks

    What clock_getcpuclockid and pthread_getcpuclockid hand out, in glibc's words:
    [MAKE_PROCESS_CPUCLOCK (pid, CPUCLOCK_SCHED)] and its per-thread form. *)
Definition make_cpuclock (pid : Z) (thread : bool) : Z :=
  Z.lor (Z.shiftl (Z.lnot pid) 3) (if thread then 6 else 2).

Lemma make_cpuclock_arith pid thread :
  make_cpuclock pid thread = - 8 * pid - 8 + (if thread then 6 else 2).
Proof.
  unfold make_cpuclock. rewrite Z.shiftl_mul_pow2 by lia. unfold Z.lnot.
  assert (∀ x b, 0 ≤ b < 8 → Z.lor (x * 2 ^ 3) b = x * 2 ^ 3 + b) as H.
  { intros x b Hb. rewrite <-Z.lxor_lor, <-Z.add_nocarry_lxor; [done|..];
      apply Z.bits_inj'; intros k Hk; rewrite Z.land_spec, Z.bits_0, <-Z.shiftl_mul_pow2 by lia;
      (destruct (decide (k < 3)); [rewrite Z.shiftl_spec_low by lia; done|]);
      assert (Z.testbit b k = false) as ->; try (by rewrite andb_false_r);
      (destruct (decide (b = 0)) as [->|]; [apply Z.bits_0|]); apply Z.bits_above_log2; try lia;
      apply Z.log2_lt_pow2; try lia; apply Z.lt_le_trans with (2 ^ 3); try lia; apply Z.pow_le_mono_r; lia. }
  rewrite H by (destruct thread; lia). unfold Z.pred. destruct thread; lia.
Qed.

Lemma make_cpuclock_decode pid thread :
  Z.shiftr (make_cpuclock pid thread) 3 = Z.lnot pid ∧ Z.land (make_cpuclock pid thread) 3 = 2 ∧
  has_bits (make_cpuclock pid thread) 4 = thread.
Proof.
  split_and!.
  - rewrite make_cpuclock_arith, Z.shiftr_div_pow2 by lia. unfold Z.lnot.
    symmetry. destruct thread; [apply Z.div_unique_pos with 6|apply Z.div_unique_pos with 2]; lia.
  - change 3 with (Z.ones 2). rewrite Z.land_ones, make_cpuclock_arith by lia.
    symmetry. destruct thread; [apply Z.mod_unique_pos with (- 2 * pid - 1)|apply Z.mod_unique_pos with (- 2 * pid - 2)]; lia.
  - change 4 with (2 ^ 2). rewrite has_bits_pow2 by lia. unfold make_cpuclock.
    rewrite Z.lor_spec, Z.shiftl_spec_low by lia. by destruct thread.
Qed.

Section tai.
Context {W : Type} `{!Kernel W} {Hfuel : Fuel}.

(** The decoding of the clock ids of CPU clocks: the clock of the calling process or thread,
    named by its number or by 0, is the CPU time getrusage counts for it, in nanoseconds; the
    clock of another process goes to the kernel. *)
Theorem cpuclock_gettime pid (thread : bool) self u w1 w2 (s : st W) :
  wslcompat_enabled (s_mem s) "clock_gettime" = true → 0 ≤ pid →
  (if thread then kstep k_gettid (s_world s) = (inl self, w1)
   else self = kpid (s_world s) ∧ w1 = s_world s) →
  kstep (k_getrusage (if thread then RUSAGE_THREAD else RUSAGE_SELF)) w1 = (inl u, w2) →
  in_s 64 (cpu_ns u) →
  clock_gettime (make_cpuclock pid thread) true s =
    if (pid =? 0) || (pid =? self)
    then Ret (Some (ns_to_ts (cpu_ns u))) (mkst (s_mem s) w2 (s_errno s))
    else sys (k_clock_gettime (make_cpuclock pid thread) true) (mkst (s_mem s) w1 (s_errno s)).
Proof.
  intros Hen Hp Hself Hu Hr. unfold clock_gettime, wslcompat_passthru. rewrite bind_getm, Hen. cbn [negb].
  destruct (make_cpuclock_decode pid thread) as (H3 & H2 & H4).
  assert (make_cpuclock pid thread < 0) as Hneg by (rewrite make_cpuclock_arith; destruct thread; lia).
  assert (encoded_cpuclock_who (make_cpuclock pid thread) s =
    Ret (if (pid =? 0) || (pid =? self) then if thread then RUSAGE_THREAD else RUSAGE_SELF else -1)
      (mkst (s_mem s) w1 (s_errno s))) as E.
  { unfold encoded_cpuclock_who. rewrite (proj2 (Z.leb_gt _ _)) by lia. rewrite H2, H3, H4.
    rewrite Z.lnot_involutive. cbn [Z.eqb Pos.eqb negb]. unfold getpid, bind, gets, sys, ret.
    destruct thread.
    - rewrite Hself. cbn [fst snd]. by destruct (pid =? 0), (pid =? self).
    - destruct Hself as [-> ->]. cbn [fst snd]. destruct s; by destruct (pid =? 0), (pid =? _). }
  rewrite (bind_Ret _ _ _ _ _ E). destruct ((pid =? 0) || (pid =? self)).
  - assert ((0 <=? (if thread then RUSAGE_THREAD else RUSAGE_SELF)) = true) as -> by (by destruct thread).
    unfold rusage_cpu_ns, bind, sys, ret. cbn [s_world]. rewrite Hu. cbn [negb].
    fold (cpu_ns u). by rewrite wrap_s_id.
  - change (0 <=? -1) with false. cbv beta iota.
    unfold gettime_dispatch. cbn [list_find fst]. rewrite decide_False; [done|]. unfold CLOCK_TAI. lia.
Qed.

Definition tai_offset (m : mem) : Z := wslcompat_tunable_int (options m) "taioffset" TAI_UTC_DEFAULT.

(** International Atomic Time: with the offset [o] of the options, the TAI clock reads [o] seconds
    more than the real-time clock, and an absolute sleep until a TAI time that lies [d] seconds
    after a reading of the TAI clock is a sleep until [d] seconds after the real time of that
    reading. *)
Theorem tai_sleep_consistent t w1 d flags rem (s s1 : st W) :
  wslcompat_enabled (s_mem s) "clock_gettime" = true →
  wslcompat_enabled (s_mem s) "clock_nanosleep" = true →
  s_mem s1 = s_mem s → has_bits flags TIMER_ABSTIME = true →
  kstep (k_clock_gettime CLOCK_REALTIME true) (s_world s) = (inl t, w1) →
  in_s 64 (tv_sec t + tai_offset (s_mem s)) → 0 ≤ tv_sec t + d → in_s 64 (tv_sec t + d) →
  ∃ t', clock_gettime CLOCK_TAI true s = Ret (Some t') (mkst (s_mem s) w1 (s_errno s)) ∧
    tv_sec t' = tv_sec t + tai_offset (s_mem s) ∧ tv_nsec t' = tv_nsec t ∧
    clock_nanosleep CLOCK_TAI flags (Some {| tv_sec := tv_sec t' + d; tv_nsec := tv_nsec t' |}) rem s1 =
    next_nanosleep CLOCK_REALTIME flags (Some {| tv_sec := tv_sec t + d; tv_nsec := tv_nsec t |}) rem s1.
Proof.
  intros Hg Hn Hm Ha E Ho Hd Hd'.
  exists {| tv_sec := tv_sec t + tai_offset (s_mem s); tv_nsec := tv_nsec t |}.
  split_and!; [|done|done|].
  - unfold clock_gettime, wslcompat_passthru. rewrite bind_getm, Hg. cbn [negb].
    change (handle_tai_gettime true s =
      Ret (Some {| tv_sec := tv_sec t + tai_offset (s_mem s); tv_nsec := tv_nsec t |})
        (mkst (s_mem s) w1 (s_errno s))).
    unfold handle_tai_gettime, bind, sys. rewrite E. unfold getm, gets, ret. cbn [s_mem].
    change (wslcompat_tunable_int _ _ _) with (tai_offset (s_mem s)). by rewrite wrap_s_id by (lia || done).
  - unfold clock_nanosleep, wslcompat_passthru. rewrite bind_getm, Hm, Hn. cbn [negb].
    change (handle_tai flags {| tv_sec := tv_sec t + tai_offset (s_mem s) + d; tv_nsec := tv_nsec t |} rem s1 =
      next_nanosleep CLOCK_REALTIME flags (Some {| tv_sec := tv_sec t + d; tv_nsec := tv_nsec t |}) rem s1).
    unfold handle_tai. rewrite Ha. cbn [negb]. rewrite bind_getm, Hm.
    change (wslcompat_tunable_int _ _ _) with (tai_offset (s_mem s)). cbn [tv_sec tv_nsec].
    rewrite (proj2 (Z.leb_le _ _)) by lia. do 3 f_equal.
    replace (tv_sec t + tai_offset (s_mem s) + d - tai_offset (s_mem s)) with (tv_sec t + d) by lia.
    by rewrite wrap_s_id by (lia || done).
Qed.

(** The target of a sleep is computed in 64 bits: a sleep until the end of time on the CPU clock,
    with [LONG_MAX] seconds, returns at once. *)
Theorem cputime_sleep_overflow u w1 rem (s : st W) :
  wslcompat_enabled (s_mem s) "clock_nanosleep" = true →
  kstep (k_getrusage RUSAGE_SELF) (s_world s) = (inl u, w1) → 0 ≤ cpu_ns u < 2 ^ 63 →
  clock_nanosleep CLOCK_PROCESS_CPUTIME_ID TIMER_ABSTIME
    (Some {| tv_sec := LONG_MAX; tv_nsec := 0 |}) rem s =
  Ret (0, None) (mkst (s_mem s) w1 (s_errno s)).
Proof.
  intros Hen E Hc. unfold clock_nanosleep, wslcompat_passthru. rewrite bind_getm, Hen.
  change (handle_process_cputime TIMER_ABSTIME {| tv_sec := LONG_MAX; tv_nsec := 0 |} rem s =
    Ret (0, None) (mkst (s_mem s) w1 (s_errno s))).
  unfold handle_process_cputime. cbn [tv_sec tv_nsec]. change ((_ <? _) || _ || _) with false. cbv beta iota.
  unfold rusage_cpu_ns, bind, sys. rewrite E. unfold ret. fold (cpu_ns u).
  rewrite (wrap_s_id 64 (cpu_ns u)) by (unfold in_s; lia).
  change (has_bits TIMER_ABSTIME TIMER_ABSTIME) with true. cbv beta iota.
  change (wrap_s 64 (LONG_MAX * NS + 0)) with (-1000000000).
  assert ((cpu_ns u <? -1000000000) = false) as Hlt by (apply Z.ltb_ge; lia).
  destruct fuel; cbn [cputime_loop]; rewrite Hlt; cbn [negb];
    change (has_bits TIMER_ABSTIME TIMER_ABSTIME) with true; by rewrite andb_false_r.
Qed.
End tai.

(** ** A concrete machine

    The world is the CPU time used, in microseconds. While a thread sleeps, [cpus] processors work
    for the process; with [intr] every sleep is interrupted at once. *)
Module CpuKernel.
Definition usage (w : N) : rusage :=
  {| ru_utime := {| tvu_sec := Z.of_N w / 1000000; tvu_usec := Z.of_N w mod 1000000 |};
     ru_stime := {| tvu_sec := 0; tvu_usec := 0 |} |}.
Definition step (cpus : Z) (intr : bool) {R} (c : call R) (w : N) : (R + Z) * N :=
  match c in call R return (R + Z) * N with
  | k_getrusage _ => (inl (usage w), w)
  | k_clock_nanosleep _ _ (Some t) _ =>
      if intr then (inl (EINTR, None), w)
      else (inl (0, None), (w + Z.to_N (cpus * ts_ns t / 1000))%N)
  | k_clock_gettime _ _ => (inl {| tv_sec := 1000; tv_nsec := 5 |}, w)
  | k_gettid => (inl 77, w)
  | _ => (inr ENOSYS, w)
  end.
Definition kernel cpus intr : Kernel N := {| kstep := @step cpus intr; kpid := λ _, 42 |}.
Definition used (w : N) : Z := 1000 * Z.of_N w.

Lemma usage_ns w : used w < 2 ^ 63 → cpu_ns (usage w) = used w.
Proof.
  unfold used, usage, cpu_ns, tv_to_ns, NS. cbn [tvu_sec tvu_usec ru_utime ru_stime]. intros H.
  change (wrap_s 64 (0 * 1000000000 + 0 * 1000)) with 0. pose proof (Z.div_mod (Z.of_N w) 1000000).
  rewrite wrap_s_id; [lia|lia|]. unfold in_s.
  pose proof (Z.mod_pos_bound (Z.of_N w) 1000000). pose proof (Z.div_pos (Z.of_N w) 1000000). lia.
Qed.

#[global] Instance steady : @KernelCpu N (kernel 1 false) 10000000.
Proof.
  refine {| cpu := used |}; unfold used.
  - lia.
  - intros w H. exists (usage w), w. split_and!; [done|by apply usage_ns|done].
  - intros t w r w' Ht [= <- <-]. unfold WIN_TICK_NS in Ht.
    pose proof (Z.div_mod (ts_ns t) 1000). pose proof (Z.mod_pos_bound (ts_ns t) 1000).
    rewrite Z.mul_1_l, N2Z.inj_add, Z2N.id by
      (apply Z.div_pos; lia). lia.
Defined.

#[global] Instance disturbed : @KernelCpu N (kernel 1 true) 0.
Proof.
  refine {| cpu := used |}; unfold used.
  - lia.
  - intros w H. exists (usage w), w. split_and!; [done|by apply usage_ns|done].
  - intros t w r w' Ht [= <- <-]. cbn. lia.
Defined.

Lemma disturbed_still (w w' : N) : @wreach N (kernel 1 true) w w' → w' = w.
Proof.
  induction 1 as [|w w1 w' (R & c & ->) _ IH]; [done|]. rewrite IH. destruct c; try done.
  by destruct req.
Qed.

Definition half : timespec := {| tv_sec := 0; tv_nsec := 500000000 |}.
Definition s0 : st N := mkst init_mem 3000000%N 0.
#[local] Instance bound : Fuel := 60%nat.
End CpuKernel.



Lemma cpuclock_gettime_witness :
  @clock_gettime N (CpuKernel.kernel 1 false) (make_cpuclock 77 true) true CpuKernel.s0 =
    Ret (Some {| tv_sec := 3; tv_nsec := 0 |}) CpuKernel.s0.
Proof.
  refine (@cpuclock_gettime N (CpuKernel.kernel 1 false) 77 true 77 (CpuKernel.usage 3000000) _ _
    CpuKernel.s0 _ _ _ _ _); [by vm_compute|lia|by vm_compute|by vm_compute|split; by vm_compute].
Defined.

Lemma tai_sleep_consistent_witness :
  ∃ t', @clock_gettime N (CpuKernel.kernel 1 false) CLOCK_TAI true CpuKernel.s0 =
    Ret (Some t') CpuKernel.s0 ∧ tv_sec t' = 1037.
Proof.
  destruct (@tai_sleep_consistent N (CpuKernel.kernel 1 false) CpuKernel.bound
    {| tv_sec := 1000; tv_nsec := 5 |} 3000000%N 9 1 true CpuKernel.s0 CpuKernel.s0)
    as (t' & E & Hs & _); [by vm_compute..|split; by vm_compute|cbn; lia|split; by vm_compute|].
  exists t'. split; [exact E|]. by rewrite Hs.
Defined.

Lemma cputime_sleep_overflow_witness :
  @clock_nanosleep N (CpuKernel.kernel 1 false) CpuKernel.bound CLOCK_PROCESS_CPUTIME_ID TIMER_ABSTIME
    (Some {| tv_sec := LONG_MAX; tv_nsec := 0 |}) true CpuKernel.s0 = Ret (0, None) CpuKernel.s0.
Proof.
  refine (@cputime_sleep_overflow N (CpuKernel.kernel 1 false) CpuKernel.bound
    (CpuKernel.usage 3000000) _ true CpuKernel.s0 _ _ _); [by vm_compute..|split; by vm_compute].
Defined.

(** With more than one processor at work for the process, CPU time does advance faster than wall
    time, and a sleep for the full remaining duration ends late: four threads running, a sleep of
    half a second of CPU time ends after two. *)
Theorem cputime_sleep_overshoots :
  ∃ s' : st N, @clock_nanosleep N (CpuKernel.kernel 4 false) CpuKernel.bound
      CLOCK_PROCESS_CPUTIME_ID 0 (Some CpuKernel.half) true CpuKernel.s0 =
      Ret (0, Some {| tv_sec := 0; tv_nsec := 0 |}) s' ∧
    CpuKernel.used (s_world s') = CpuKernel.used (s_world CpuKernel.s0) + 4 * ts_ns CpuKernel.half.
Proof. eexists. split; by vm_compute. Qed.
