(* ===== verification/Epoll.v ===== *)
(** * epoll.c

    A synthetic descriptor cannot be watched: the kernel refuses its placeholder. The shim then
    makes the request for the descriptor behind it. epoll_pwait2, which WSL1 does not have, becomes
    epoll_pwait with its timeout in milliseconds. *)

From stdpp Require Import gmap.
From S2P Require Import Prelude CString Kernel State Tunables Override Walk Synth SynthFrames Handlers TtyFacts Worlds Clock.

Open Scope Z_scope.

Definition EPOLL_CTL_ADD : Z := 1.
Definition EPOLL_CTL_DEL : Z := 2.
Definition EPOLL_CTL_MOD : Z := 3.

(** The errno by which the kernel gives a placeholder away; [None] for an operation the shim does
    not handle. *)
Definition expected_errno (op : Z) : option Z :=
  if op =? EPOLL_CTL_ADD then Some EPERM
  else if (op =? EPOLL_CTL_MOD) || (op =? EPOLL_CTL_DEL) then Some ENOENT
  else None.

(** [timeout->tv_sec * 1000 + (timeout->tv_nsec + 999999) / 1000000], computed as a [long] and
    stored in an [int]. *)
Definition timeout_ms (t : timespec) : Z :=
  wrap_s 32 (wrap_s 64 (wrap_s 64 (tv_sec t * 1000) + Z.quot (wrap_s 64 (tv_nsec t + 999999)) 1000000)).

Section epoll.
Context {W : Type} `{!Kernel W, !Handlers W}.
Local Abbreviation M := (prog (st W)).

Definition epoll_ctl (epfd op fd : Z) (event : option epoll_event) : M (option unit) :=
  let* r := sys (k_epoll_ctl epfd op fd event) in
  match r with
  | Some _ => ret r
  | None =>
      let* off := wslcompat_passthru "epoll_ctl" in
      if (off : bool) then ret None
      else match expected_errno op with
      | None => ret None
      | Some expected =>
          let* e := get_errno in
          if negb (e =? expected) then ret None
          else
            let* real := preserve_errno (wslcompat_synth_passthru fd SYNTH_OP_POLL) in
            if real <? 0 then ret None else sys (k_epoll_ctl epfd op real event)
      end
  end.

Definition epoll_create (size : Z) : M (option Z) := sys (k_epoll_create size).
Definition epoll_create1 (flags : Z) : M (option Z) := sys (k_epoll_create1 flags).

Definition epoll_wait (epfd maxevents timeout : Z) : M (option (list epoll_event)) :=
  sys (k_epoll_wait epfd maxevents timeout).

Definition epoll_pwait (epfd maxevents timeout : Z) (sigmask : option Z) :
    M (option (list epoll_event)) :=
  sys (k_epoll_pwait epfd maxevents timeout sigmask).

Definition epoll_pwait2 (epfd maxevents : Z) (timeout : option timespec) (sigmask : option Z) :
    M (option (list epoll_event)) :=
  let* r := sys (k_epoll_pwait2 epfd maxevents timeout sigmask) in
  match r with
  | Some _ => ret r
  | None =>
      let* e := get_errno in
      if negb (e =? ENOSYS) then ret None
      else
        let* off := wslcompat_passthru "epoll_pwait2" in
        if (off : bool) then ret None
        else
          let ms := match timeout with Some t => timeout_ms t | None => -1 end in
          epoll_pwait epfd maxevents ms sigmask
  end.
End epoll.

(** ** The interest list

    What epoll_ctl(2) says of the set of watched descriptors of an epoll instance. *)
Definition ctl_set (op fd : Z) (event : option epoll_event) (l : gmap Z epoll_event) :
    gmap Z epoll_event :=
  if op =? EPOLL_CTL_DEL then delete fd l
  else match event with Some ev => <[fd := ev]> l | None => l end.

Class KernelEpoll (W : Type) `{!Kernel W} := {
  interest : W → Z → gmap Z epoll_event;
  interest_quiet A (c : call A) w epfd :
    bookkeeping c = true → interest (snd (kstep c w)) epfd = interest w epfd;
  interest_ctl epfd op fd event w w' :
    kstep (k_epoll_ctl epfd op fd event) w = (inl tt, w') →
    interest w' epfd = ctl_set op fd event (interest w epfd);
  interest_ctl_fails epfd op fd event w e w' :
    kstep (k_epoll_ctl epfd op fd event) w = (inr e, w') → interest w' epfd = interest w epfd;
}.

Section interest.
Context {W : Type} `{!Kernel W, !KernelEpoll W}.

Definition same_interest (epfd : Z) : relation W := λ w w', interest w' epfd = interest w epfd.

#[local] Instance same_interest_preorder epfd : PreOrder (same_interest epfd).
Proof. split; [by intros w|]. intros a b c H1 H2. unfold same_interest in *. congruence. Qed.

#[local] Instance same_interest_quiet epfd : Quiet (same_interest epfd).
Proof. intros A c w Hc. by apply interest_quiet. Qed.

Lemma within_synth_passthru_w P `{!PreOrder P, !Quiet P} fd kind :
  within (wrel P) (wslcompat_synth_passthru (W:=W) fd kind).
Proof.
  unfold wslcompat_synth_passthru. apply within_autopin_w; [done|done|]. intros [i|]; [|within_auto].
  intros s. unfold entry_ops. rewrite bind_getm.
  destruct (op_passthru _) as [p|] eqn:Ep; [|by unfold ret, wrel]. by eapply within_passthru_w.
Qed.

End interest.

(** ** Timeouts *)
Lemma timeout_ms_exact t :
  0 ≤ tv_sec t → 0 ≤ tv_nsec t < NS → tv_sec t * 1000 + 1000 ≤ INT_MAX →
  timeout_ms t = tv_sec t * 1000 + (tv_nsec t + 999999) / 1000000.
Proof.
  unfold NS, INT_MAX. intros Hs Hn Hm. unfold timeout_ms.
  rewrite (wrap_s_id 64 (tv_sec t * 1000)), (wrap_s_id 64 (tv_nsec t + 999999)) by (unfold in_s; lia).
  rewrite Z.quot_div_nonneg by lia.
  pose proof (Z.div_mod (tv_nsec t + 999999) 1000000). pose proof (Z.mod_pos_bound (tv_nsec t + 999999) 1000000).
  rewrite (wrap_s_id 64) by (unfold in_s; lia). apply wrap_s_id; unfold in_s; lia.
Qed.

Section pwait2.
Context {W : Type} `{!Kernel W}.

(** C38: epoll_pwait2 on a kernel without it, for a timeout of up to 24 days: the wait is an epoll_pwait
    for the requested time rounded up to the next millisecond, never for less; no timeout is no
    timeout. *)
Theorem epoll_pwait2_timeout epfd maxevents timeout sigmask w1 (s : st W) :
  wslcompat_enabled (s_mem s) "epoll_pwait2" = true →
  kstep (k_epoll_pwait2 epfd maxevents timeout sigmask) (s_world s) = (inr ENOSYS, w1) →
  match timeout with
  | Some t => 0 ≤ tv_sec t ∧ 0 ≤ tv_nsec t < NS ∧ tv_sec t * 1000 + 1000 ≤ INT_MAX
  | None => True
  end →
  ∃ ms, epoll_pwait2 epfd maxevents timeout sigmask s =
      sys (k_epoll_pwait epfd maxevents ms sigmask) (mkst (s_mem s) w1 ENOSYS) ∧
    match timeout with
    | Some t => 0 ≤ ms ∧ ts_ns t ≤ ms * 1000000 < ts_ns t + 1000000
    | None => ms = -1
    end.
Proof.
  intros Hen E Ht. exists (match timeout with Some t => timeout_ms t | None => -1 end). split.
  - unfold epoll_pwait2, epoll_pwait, wslcompat_passthru. unfold bind at 1, sys at 1. rewrite E.
    rewrite bind_get_errno. cbn [s_errno]. change (negb (ENOSYS =? ENOSYS)) with false. cbv beta iota.
    rewrite bind_getm. cbn [s_mem]. by rewrite Hen.
  - destruct timeout as [t|]; [|done]. destruct Ht as (Hs & Hn & Hm). rewrite timeout_ms_exact by done.
    unfold ts_ns, NS in *. pose proof (Z.div_mod (tv_nsec t + 999999) 1000000).
    pose proof (Z.mod_pos_bound (tv_nsec t + 999999) 1000000). lia.
Qed.
End pwait2.

(** Beyond that the milliseconds do not fit an [int]: a wait of seven weeks returns at once, one of
    twenty-five days never does (a negative timeout blocks). *)
Theorem epoll_pwait2_wraps :
  timeout_ms {| tv_sec := 4294967; tv_nsec := 296000000 |} = 0 ∧
  timeout_ms {| tv_sec := 2147483; tv_nsec := 648000000 |} < 0.
Proof. by vm_compute. Qed.

(** ** A concrete machine

    One epoll instance; descriptor 4 is the placeholder of a wrapped terminal whose real descriptor
    is 9. *)
Module EpollKernel.
Definition ctl (op fd : Z) (event : option epoll_event) (l : gmap Z epoll_event) :
    (unit + Z) * gmap Z epoll_event :=
  if op =? EPOLL_CTL_ADD then
    if fd =? 4 then (inr EPERM, l)
    else match l !! fd, event with
         | Some _, _ => (inr EEXIST, l)
         | None, Some _ => (inl tt, ctl_set op fd event l)
         | None, None => (inr EFAULT, l)
         end
  else if (op =? EPOLL_CTL_MOD) || (op =? EPOLL_CTL_DEL) then
    match l !! fd with
    | Some _ => (inl tt, ctl_set op fd event l)
    | None => (inr ENOENT, l)
    end
  else (inr EINVAL, l).
Definition step {R} (c : call R) (w : gmap Z epoll_event) : (R + Z) * gmap Z epoll_event :=
  match c in call R return (R + Z) * gmap Z epoll_event with
  | k_fstat fd => (inl (if fd =? 4 then zero_stat else {| st_dev := 1; st_ino := fd; st_mode := 0 |}), w)
  | k_epoll_ctl _ op fd event => ctl op fd event w
  | k_epoll_pwait _ _ ms _ => (inl [{| ep_events := 0; ep_data := ms |}], w)
  | _ => (inr ENOSYS, w)
  end.
#[global] Instance kernel : Kernel (gmap Z epoll_event) := {| kstep := @step; kpid := λ _, 100 |}.

#[global] Instance epoll_kernel : KernelEpoll (gmap Z epoll_event).
Proof.
  refine {| interest := λ w _, w |}.
  - intros A c w epfd Hc. destruct c; done.
  - intros epfd op fd event w w'. cbn [kstep kernel step]. unfold ctl. repeat case_match; congruence.
  - intros epfd op fd event w e w'. cbn [kstep kernel step]. unfold ctl. repeat case_match; congruence.
Defined.

Definition ev : epoll_event := {| ep_events := 1; ep_data := 1234 |}.
Definition s0 : st (gmap Z epoll_event) := mkst TtyDemo.m ∅ 0.
Definition added : st (gmap Z epoll_event) :=
  match epoll_ctl 3 EPOLL_CTL_ADD 4 (Some ev) s0 with Ret _ s => s | _ => s0 end.
End EpollKernel.


Lemma epoll_pwait2_timeout_witness :
  ∃ ms, epoll_pwait2 3 1 (Some {| tv_sec := 2; tv_nsec := 1 |}) None EpollKernel.s0 =
      sys (k_epoll_pwait 3 1 ms None) (mkst TtyDemo.m ∅ ENOSYS) ∧ 2000 < ms.
Proof.
  destruct (epoll_pwait2_timeout 3 1 (Some {| tv_sec := 2; tv_nsec := 1 |}) None ∅ EpollKernel.s0)
    as (ms & E & Hm); [by vm_compute|by vm_compute|split_and!; by vm_compute|].
  exists ms. split; [exact E|]. unfold ts_ns, NS in Hm. cbn in Hm. lia.
Defined.
