(* ===== verification/CopyRange.v ===== *)
(** * copy_file_range.c

    copy_file_range by reading and writing, on a kernel that does not have the call. The reads,
    writes and seeks are the library's own shims. *)

From S2P Require Import Prelude CString Kernel State Tunables Override Walk Synth Dispatch.

Open Scope Z_scope.

Section copy.
Context {W : Type} `{!Kernel W, !Handlers W} {Hfuel : Fuel}.
Local Abbreviation M := (prog (st W)).

(** [for (written = 0; written < r;)]: false when a write failed. *)
Fixpoint write_loop (n : nat) (fd_out : Z) (buf : string) (off_out written : Z) : M bool :=
  if negb (written <? zlen buf) then ret true
  else match n with
  | O => nofuel
  | S n' =>
      let* w := pwrite fd_out (strdrop (Z.to_nat written) buf) (off_out + written) in
      match w with
      | None => ret false
      | Some w => write_loop n' fd_out buf off_out (written + w)
      end
  end.

(** [while (len > 0)]: whether the loop was left normally, [*off_in], [*off_out] and [total]. *)
Fixpoint copy_loop (n : nat) (fd_in fd_out len off_in off_out total : Z) : M (bool * Z * Z * Z) :=
  if negb (0 <? len) then ret (true, off_in, off_out, total)
  else match n with
  | O => nofuel
  | S n' =>
      let chunk := if len <? 4096 then len else 4096 in
      let* b := pread fd_in chunk off_in in
      match b with
      | None => ret (false, off_in, off_out, total)
      | Some b =>
          let r := zlen b in
          if r =? 0 then ret (true, off_in, off_out, total)
          else
            let* ok := write_loop fuel fd_out b off_out 0 in
            if negb ok then ret (false, off_in, off_out, total)
            else copy_loop n' fd_in fd_out (len - r) (off_in + r) (off_out + r) (total + r)
      end
  end.

(** The result, and what the caller's offsets hold afterwards. *)
Definition copy_file_range (fd_in : Z) (off_in : option Z) (fd_out : Z) (off_out : option Z)
    (len flags : Z) : M (option Z * option Z * option Z) :=
  let* r := sys (k_copy_file_range fd_in off_in fd_out off_out len flags) in
  match r with
  | Some (r, oi, oo) => ret (Some r, oi, oo)
  | None =>
      let* e := get_errno in
      if negb (e =? ENOSYS) then ret (None, off_in, off_out)
      else
        let* off := wslcompat_passthru "copy_file_range" in
        if (off : bool) then ret (None, off_in, off_out)
        else
          let* local_off_in := lseek fd_in 0 SEEK_CUR in
          let* local_off_out := lseek fd_out 0 SEEK_CUR in
          let in0 := default (default (-1) local_off_in) off_in in
          let out0 := default (default (-1) local_off_out) off_out in
          if (in0 =? -1) || (out0 =? -1) then ret (None, off_in, off_out)
          else
            let* l := copy_loop fuel fd_in fd_out len in0 out0 0 in
            let '(ended, oi, oo, total) := l in
            let oi' := (λ _, oi) <$> off_in in
            let oo' := (λ _, oo) <$> off_out in
            if negb ended then ret (if 0 <? total then Some total else None, oi', oo')
            else
              match off_in with Some _ => ret None | None => lseek fd_in oi SEEK_SET end ;;*
              match off_out with Some _ => ret None | None => lseek fd_out oo SEEK_SET end ;;*
              ret (Some total, oi', oo')
  end.
End copy.

(** ** File contents *)

(** [b] written over [d] at [off]; a gap is filled with zeros. *)
Fixpoint splice (off : nat) (b d : string) : string :=
  match off, d with
  | O, _ => b +:+ strdrop (String.length b) d
  | S o, String c d' => String c (splice o b d')
  | S o, EmptyString => String Ascii.zero (splice o b EmptyString)
  end.

Lemma strdrop_nil n : strdrop n "" = "".
Proof. by destruct n. Qed.

Lemma strdrop_strdrop a b d : strdrop a (strdrop b d) = strdrop (b + a) d.
Proof.
  revert d. induction b as [|b IH]; intros d; [done|]. destruct d; simpl; [apply strdrop_nil|apply IH].
Qed.

Lemma append_cons c a b : String c a +:+ b = String c (a +:+ b).
Proof. done. Qed.

Lemma splice_app a b e : splice (String.length a) b (a +:+ e) = a +:+ b +:+ strdrop (String.length b) e.
Proof. induction a as [|c a IH]; [done|]. rewrite !append_cons. simpl. by rewrite IH. Qed.

Lemma splice_splice off a b d :
  splice (off + String.length a) b (splice off a d) = splice off (a +:+ b) d.
Proof.
  revert d. induction off as [|off IH]; intros d; simpl.
  - rewrite splice_app, strdrop_strdrop, length_append. by rewrite append_assoc.
  - destruct d; simpl; by rewrite IH.
Qed.

Lemma strtake_strdrop n s : strtake n s +:+ strdrop n s = s.
Proof.
  revert s. induction n as [|n IH]; intros [|c s]; [done..|].
  simpl. rewrite append_cons. by rewrite IH.
Qed.

Lemma strtake_add a b s : strtake a s +:+ strtake b (strdrop a s) = strtake (a + b) s.
Proof.
  revert s. induction a as [|a IH]; intros s; [done|]. destruct s as [|c s]; [by destruct b|].
  simpl. rewrite append_cons. by rewrite IH.
Qed.

Lemma strdrop_length n s : String.length (strdrop n s) = (String.length s - n)%nat.
Proof. revert s. induction n; intros [|c s]; simpl; try done. Qed.

Lemma strdrop_all n s : (String.length s ≤ n)%nat → strdrop n s = "".
Proof. revert s. induction n; intros [|c s] H; simpl in *; [done|lia|done|]. apply IHn. lia. Qed.

(** What the manual says of reading, writing and seeking in two regular files that are open for it
    and are not the same: a read returns bytes of the file, some unless it is at its end; a write
    writes some of the bytes; the contents and the positions are otherwise left alone. *)
Class KernelFiles (W : Type) `{!Kernel W} (fin fout : Z) := {
  fdata : W → Z → string;
  fpos : W → Z → Z;
  fpos_nonneg w fd : 0 ≤ fpos w fd;
  files_pread n off w : 0 < n → 0 ≤ off → ∃ k w',
    kstep (k_pread fin n off) w = (inl (strtake k (strdrop (Z.to_nat off) (fdata w fin))), w') ∧
    (0 < k ≤ Z.to_nat n)%nat ∧ fdata w' = fdata w ∧ fpos w' = fpos w;
  files_pwrite b off w : b ≠ "" → 0 ≤ off → ∃ k w',
    kstep (k_pwrite fout b off) w = (inl (Z.of_nat k), w') ∧ (0 < k ≤ String.length b)%nat ∧
    fdata w' fout = splice (Z.to_nat off) (strtake k b) (fdata w fout) ∧
    fdata w' fin = fdata w fin ∧ fpos w' = fpos w;
  files_tell fd w : fd = fin ∨ fd = fout → ∃ w', kstep (k_lseek fd 0 SEEK_CUR) w = (inl (fpos w fd), w') ∧
    fdata w' = fdata w ∧ fpos w' = fpos w;
  files_seek fd o w : fd = fin ∨ fd = fout → 0 ≤ o → ∃ w', kstep (k_lseek fd o SEEK_SET) w = (inl o, w') ∧
    fdata w' = fdata w ∧ fpos w' fd = o ∧ ∀ fd', fd' ≠ fd → fpos w' fd' = fpos w fd';
}.

Lemma shim_success {W} `{!Kernel W, !Handlers W} {X} call canary
    (op : synth_ops W → option (nat → prog (st W) (option X))) next fd x (s s1 : st W) :
  next fd s = Ret (Some x) s1 → SYNTH_SHIM_E call canary op next fd s = Ret (Some x) s1.
Proof. intros E. unfold SYNTH_SHIM_E. by rewrite (bind_Ret _ _ _ _ _ E). Qed.

Lemma sys_ok {W} `{!Kernel W} {A} (c : call A) (s : st W) a w :
  kstep c (s_world s) = (inl a, w) → sys c s = Ret (Some a) (mkst (s_mem s) w (s_errno s)).
Proof. intros E. unfold sys. by rewrite E. Qed.

Section files.
Context {W : Type} `{!Kernel W, !Handlers W} {Hfuel : Fuel} (fin fout : Z) `{!KernelFiles W fin fout}.

(** The worlds agree but for the output file, which is [d] now. *)
Definition wrote (w : W) (d : string) (w' : W) : Prop :=
  fdata w' fout = d ∧ fdata w' fin = fdata w fin ∧ fpos w' = fpos w.

Lemma write_loop_ok n buf off written (s : st W) :
  0 ≤ off → 0 ≤ written ≤ zlen buf → (Z.to_nat (zlen buf - written) ≤ n)%nat →
  ∃ w', write_loop n fout buf off written s = Ret true (mkst (s_mem s) w' (s_errno s)) ∧
    wrote (s_world s) (splice (Z.to_nat (off + written)) (strdrop (Z.to_nat written) buf)
                        (fdata (s_world s) fout)) w' ∨
    written = zlen buf ∧ write_loop n fout buf off written s = Ret true s.
Proof.
  intros Ho. revert written s. induction n as [|n IH]; intros written s Hw Hn; cbn [write_loop].
  { assert (written = zlen buf) as -> by lia. rewrite Z.ltb_irrefl. by exists (s_world s); right. }
  destruct (Z.ltb_spec written (zlen buf)) as [Hlt|Hge]; cbn [negb];
    [|exists (s_world s); right; split; [lia|done]].
  unfold zlen in *. set (rest := strdrop (Z.to_nat written) buf).
  assert (String.length rest = (String.length buf - Z.to_nat written)%nat) as Hrest by apply strdrop_length.
  destruct (files_pwrite rest (off + written) (s_world s)) as (k & w1 & E & Hk & D1 & D2 & D3);
    [intros Hr; rewrite Hr in Hrest; simpl in Hrest; lia|lia|].
  unfold pwrite. erewrite bind_Ret; [|by apply shim_success, sys_ok].
  destruct (IH (written + Z.of_nat k) (mkst (s_mem s) w1 (s_errno s)))
    as (w2 & [[E2 (F1 & F2 & F3)]|[Hend E2]]); [lia|lia|..]; cbn [s_mem s_world s_errno] in *.
  - exists w2. left. split; [exact E2|]. split_and!; [|congruence|congruence].
    rewrite F1, D1. replace (Z.to_nat (off + (written + Z.of_nat k))) with
      (Z.to_nat (off + written) + String.length (strtake k rest))%nat by (rewrite strtake_length; lia).
    rewrite splice_splice. f_equal. unfold rest.
    replace (Z.to_nat (written + Z.of_nat k)) with (Z.to_nat written + k)%nat by lia.
    by rewrite <-strdrop_strdrop, strtake_strdrop.
  - exists w1. left. split; [exact E2|]. split_and!; [|done|done]. rewrite D1. f_equal.
    apply strtake_whole. lia.
Qed.

Definition put (off : nat) (c d : string) : string := if decide (c = "") then d else splice off c d.

Lemma put_splice off b c d :
  b ≠ "" → put (off + String.length b) c (splice off b d) = put off (b +:+ c) d.
Proof.
  intros Hb. unfold put. rewrite (decide_False (P := b +:+ c = "")) by (by destruct b).
  case_decide as Hc; [by subst; rewrite append_empty|]. apply splice_splice.
Qed.

Lemma strtake_twice k s : strtake (String.length (strtake k s)) s = strtake k s.
Proof. revert s. induction k as [|k IH]; intros [|c s]; [done..|]. simpl. by rewrite IH. Qed.

Lemma copy_loop_ok n len oi oo total (s : st W) :
  (4096 ≤ fuel)%nat → 0 ≤ len ≤ Z.of_nat n → 0 ≤ oi → 0 ≤ oo →
  let c := strtake (Z.to_nat len) (strdrop (Z.to_nat oi) (fdata (s_world s) fin)) in
  ∃ w', copy_loop n fin fout len oi oo total s =
      Ret (true, oi + zlen c, oo + zlen c, total + zlen c) (mkst (s_mem s) w' (s_errno s)) ∧
    wrote (s_world s) (put (Z.to_nat oo) c (fdata (s_world s) fout)) w'.
Proof.
  intros Hf. revert len oi oo total s. induction n as [|n IH]; intros len oi oo total s Hl Hi Ho c;
    cbn [copy_loop]; destruct (Z.ltb_spec 0 len) as [Hlen|Hlen]; try lia; cbn [negb];
    try (assert (len = 0) as -> by lia; exists (s_world s); change c with ""; change (zlen "") with 0;
         rewrite !Z.add_0_r; split; [by destruct s|by unfold wrote, put]).
  set (chunk := if len <? 4096 then len else 4096).
  assert (0 < chunk ≤ Z.min len 4096) as Hchunk by (unfold chunk; destruct (Z.ltb_spec len 4096); lia).
  set (avail := strdrop (Z.to_nat oi) (fdata (s_world s) fin)) in *.
  destruct (files_pread chunk oi (s_world s)) as (k & w1 & E & Hk & D1 & D2); [lia|lia|].
  unfold pread. erewrite bind_Ret; [|by apply shim_success, sys_ok]. fold avail.
  set (b := strtake k avail).
  assert (String.length b ≤ k)%nat as Hbk by (unfold b; rewrite strtake_length; lia).
  cbv beta iota zeta. destruct (zlen b =? 0) eqn:Hb; [apply Z.eqb_eq in Hb|apply Z.eqb_neq in Hb].
  { assert (avail = "") as Hav by (unfold zlen, b in Hb; destruct k, avail; simpl in *; (done || lia)).
    assert (c = "") as -> by (unfold c; rewrite Hav; by destruct (Z.to_nat len)).
    exists w1. change (zlen "") with 0. rewrite !Z.add_0_r. split; [done|].
    unfold wrote, put. rewrite D1, D2. by rewrite decide_True. }
  assert (b ≠ "") as Hne by (intros ->; by apply Hb).
  destruct (write_loop_ok fuel b oo 0 (mkst (s_mem s) w1 (s_errno s))) as (w2 & [[E2 (F1 & F2 & F3)]|[Hend _]]);
    [lia|unfold zlen; lia|unfold zlen; lia| |by rewrite <-Hend in Hb].
  rewrite (bind_Ret _ _ _ _ _ E2). cbn [negb s_mem s_world s_errno] in *.
  rewrite Z.add_0_r in F1. cbn [strdrop Z.to_nat] in F1. rewrite D1 in F1, F2. rewrite D2 in F3.
  destruct (IH (len - zlen b) (oi + zlen b) (oo + zlen b) (total + zlen b) (mkst (s_mem s) w2 (s_errno s)))
    as (w3 & E3 & (G1 & G2 & G3)); [unfold zlen in *; lia|unfold zlen; lia|unfold zlen; lia|].
  cbn [s_mem s_world s_errno] in *. rewrite F2 in E3, G1, G2.
  assert (b +:+ strtake (Z.to_nat (len - zlen b)) (strdrop (Z.to_nat (oi + zlen b)) (fdata (s_world s) fin)) = c)
    as Hc.
  { unfold c, zlen. replace (Z.to_nat (oi + _)) with (Z.to_nat oi + String.length b)%nat by lia.
    rewrite <-strdrop_strdrop. fold avail. unfold b at 1. rewrite <-strtake_twice. fold b.
    rewrite strtake_add. f_equal. lia. }
  set (c' := strtake (Z.to_nat (len - zlen b)) _) in *.
  assert (zlen c = zlen b + zlen c') as Hlc by (rewrite <-Hc; unfold zlen; rewrite length_append; lia).
  exists w3. split; [by rewrite E3, Hlc, !Z.add_assoc|].
  split_and!; [|done|congruence]. rewrite G1, F1.
  replace (Z.to_nat (oo + zlen b)) with (Z.to_nat oo + String.length b)%nat by (unfold zlen; lia).
  rewrite put_splice by done.
  f_equal. exact Hc.
Qed.

Lemma final_seek fd (off : option Z) o (s : st W) :
  fd = fin ∨ fd = fout → 0 ≤ o →
  ∃ r w', match off with Some _ => ret None | None => lseek fd o SEEK_SET end s =
      Ret r (mkst (s_mem s) w' (s_errno s)) ∧
    fdata w' = fdata (s_world s) ∧
    fpos w' fd = match off with Some _ => fpos (s_world s) fd | None => o end ∧
    ∀ fd', fd' ≠ fd → fpos w' fd' = fpos (s_world s) fd'.
Proof.
  intros Hfd Ho. destruct off as [x|]; [by exists None, (s_world s); destruct s|].
  destruct (files_seek fd o (s_world s)) as (w' & E & H); [done..|]. exists (Some o), w'.
  split; [|exact H]. unfold lseek. by apply shim_success, sys_ok.
Qed.

(** C19: copy_file_range on a kernel without it copies: for two regular files that can be read and
    written, however short the single reads and writes are, the call ends and reports the number of
    bytes there are in the requested range of the input; the output holds exactly these bytes at the
    output offset and is otherwise as it was; the offsets, in the caller's variables or, without
    them, of the descriptors, have advanced by that number. *)
Theorem copy_file_range_copies off_in off_out len flags w1 (s : st W) :
  wslcompat_enabled (s_mem s) "copy_file_range" = true → fin ≠ fout →
  kstep (k_copy_file_range fin off_in fout off_out len flags) (s_world s) = (inr ENOSYS, w1) →
  fdata w1 = fdata (s_world s) → fpos w1 = fpos (s_world s) →
  (4096 ≤ fuel)%nat → 0 ≤ len ≤ Z.of_nat fuel →
  (∀ o, off_in = Some o → 0 ≤ o) → (∀ o, off_out = Some o → 0 ≤ o) →
  let i0 := default (fpos (s_world s) fin) off_in in
  let o0 := default (fpos (s_world s) fout) off_out in
  let c := strtake (Z.to_nat len) (strdrop (Z.to_nat i0) (fdata (s_world s) fin)) in
  ∃ s', copy_file_range fin off_in fout off_out len flags s =
      Ret (Some (zlen c), (λ _, i0 + zlen c) <$> off_in, (λ _, o0 + zlen c) <$> off_out) s' ∧
    s_mem s' = s_mem s ∧
    fdata (s_world s') fout = put (Z.to_nat o0) c (fdata (s_world s) fout) ∧
    fdata (s_world s') fin = fdata (s_world s) fin ∧
    fpos (s_world s') fin = (match off_in with Some _ => fpos (s_world s) fin | None => i0 + zlen c end) ∧
    fpos (s_world s') fout = (match off_out with Some _ => fpos (s_world s) fout | None => o0 + zlen c end).
Proof.
  intros Hen Hne E0 Ed Ep Hf Hl Hi Ho i0 o0 c.
  assert (0 ≤ i0 ∧ 0 ≤ o0) as [Hi0 Ho0].
  { unfold i0, o0. split; [destruct off_in|destruct off_out]; simpl; auto using fpos_nonneg. }
  unfold copy_file_range. unfold bind at 1, sys at 1. rewrite E0. rewrite bind_get_errno.
  cbn [s_errno]. change (negb (ENOSYS =? ENOSYS)) with false. cbv beta iota.
  unfold wslcompat_passthru. rewrite bind_getm. cbn [s_mem]. rewrite Hen. cbn [negb].
  destruct (files_tell fin w1) as (w2 & E2 & D2 & P2); [by left|].
  destruct (files_tell fout w2) as (w3 & E3 & D3 & P3); [by right|].
  unfold lseek at 1. erewrite bind_Ret; [|by apply shim_success, sys_ok]. cbn [s_mem s_errno s_world].
  unfold lseek at 1. erewrite bind_Ret; [|by apply shim_success, sys_ok]. cbn [s_mem s_errno s_world default].
  rewrite P2, Ep. cbn [from_option]. unfold id.
  change (from_option _ (fpos (s_world s) fin) off_in) with i0.
  change (from_option _ (fpos (s_world s) fout) off_out) with o0.
  rewrite (proj2 (Z.eqb_neq i0 (-1))), (proj2 (Z.eqb_neq o0 (-1))) by lia. cbn [orb].
  destruct (copy_loop_ok fuel len i0 o0 0 (mkst (s_mem s) w3 ENOSYS)) as (w4 & E4 & (F1 & F2 & F3)); [done..|].
  cbn [s_mem s_world s_errno] in *. rewrite D3, D2, Ed in E4, F1, F2. fold c in E4, F1.
  rewrite (bind_Ret _ _ _ _ _ E4). cbn [negb]. rewrite Z.add_0_l.
  assert (0 ≤ zlen c) as Hc by (unfold zlen; lia).
  destruct (final_seek fin off_in (i0 + zlen c) (mkst (s_mem s) w4 ENOSYS))
    as (r5 & w5 & E5 & D5 & P5 & Q5); [by left|lia|]. rewrite (bind_Ret _ _ _ _ _ E5).
  destruct (final_seek fout off_out (o0 + zlen c) (mkst (s_mem s) w5 ENOSYS))
    as (r6 & w6 & E6 & D6 & P6 & Q6); [by right|lia|]. rewrite (bind_Ret _ _ _ _ _ E6).
  cbn [s_mem s_world s_errno] in *. rewrite F3, P3, P2, Ep in P5, Q5.
  eexists. split; [reflexivity|]. cbn [s_mem s_world].
  split_and!; [done|by rewrite D6, D5|by rewrite D6, D5|by rewrite Q6, P5|].
  rewrite P6. destruct off_out; [by apply Q5|done].
Qed.
End files.

(** ** A concrete machine

    Descriptors 3 and 4 on two files. A read returns at most [rmax] bytes and a write takes
    at most [wmax]; there may be a [limit] to the size of the output. *)
Module FileKernel.
Record world := { d_in : string; d_out : string; p_in : N; p_out : N }.
Definition step (rmax wmax : nat) (limit : option Z) {R} (c : call R) (w : world) : (R + Z) * world :=
  match c in call R return (R + Z) * world with
  | k_pread 3 n off => (inl (strtake (Nat.min rmax (Z.to_nat n)) (strdrop (Z.to_nat off) (d_in w))), w)
  | k_pwrite 4 b off =>
      if match limit with Some l => l <=? off | None => false end then (inr ENOSPC, w)
      else let k := Nat.min wmax (String.length b) in
        (inl (Z.of_nat k), {| d_in := d_in w; d_out := splice (Z.to_nat off) (strtake k b) (d_out w);
                              p_in := p_in w; p_out := p_out w |})
  | k_lseek fd o 1 => (inl (Z.of_N (if fd =? 3 then p_in w else p_out w)), w)
  | k_lseek 3 o 0 => (inl o, {| d_in := d_in w; d_out := d_out w; p_in := Z.to_N o; p_out := p_out w |})
  | k_lseek 4 o 0 => (inl o, {| d_in := d_in w; d_out := d_out w; p_in := p_in w; p_out := Z.to_N o |})
  | _ => (inr ENOSYS, w)
  end.
Definition kernel rmax wmax limit : Kernel world :=
  {| kstep := @step rmax wmax limit; kpid := λ _, 1 |}.

Definition pos_of (w : world) (fd : Z) : Z :=
  Z.of_N (if fd =? 3 then p_in w else if fd =? 4 then p_out w else 0%N).

#[global] Instance files : @KernelFiles world (kernel 5 3 None) 3 4.
Proof.
  refine {| fdata := λ w fd, if fd =? 3 then d_in w else d_out w; fpos := pos_of |}; unfold pos_of.
  - intros w fd. lia.
  - intros n off w Hn Ho. exists (Nat.min 5 (Z.to_nat n)), w. split_and!; [done|lia|lia|done|done].
  - intros b off w Hb Ho. eexists (Nat.min 3 (String.length b)), _.
    split; [reflexivity|]. destruct b as [|c b]; [done|]. split_and!; [cbn [String.length]; lia|cbn [String.length]; lia|done..].
  - intros fd w [->| ->]; by exists w.
  - intros fd o w Hfd Ho. destruct Hfd as [->| ->]; (eexists; split; [reflexivity|]; split; [done|]);
      (split; [cbn; lia|]); intros fd' Hne; cbn.
    + by rewrite (proj2 (Z.eqb_neq fd' 3)).
    + by rewrite (proj2 (Z.eqb_neq fd' 4)).
Defined.

Definition s0 : st world :=
  mkst init_mem {| d_in := "the quick brown fox"; d_out := "0123456789"; p_in := 4; p_out := 0 |} 0.
#[global] Instance no_handlers : Handlers world := λ _, null_ops.
#[local] Instance bound : Fuel := Z.to_nat 4096.
(** Five thousand bytes, and room for 4096. *)
Definition big : st world :=
  mkst init_mem {| d_in := splice (Z.to_nat 5000) "" ""; d_out := ""; p_in := 0; p_out := 0 |} 0.
End FileKernel.

Lemma copy_file_range_copies_witness :
  ∃ s', @copy_file_range FileKernel.world (FileKernel.kernel 5 3 None) FileKernel.no_handlers FileKernel.bound
      3 None 4 (Some 2) 11 0 FileKernel.s0 = Ret (Some 11, None, Some 13) s' ∧
    FileKernel.d_out (s_world s') = "01quick brown" ∧ FileKernel.p_in (s_world s') = 15%N.
Proof.
  destruct (@copy_file_range_copies FileKernel.world (FileKernel.kernel 5 3 None) FileKernel.no_handlers
    FileKernel.bound 3 4 FileKernel.files None (Some 2) 11 0 (s_world FileKernel.s0) FileKernel.s0)
    as (s' & E & _ & Hd & _ & Hp & _);
    [by vm_compute|done|by vm_compute|done|done|by vm_compute|split; by vm_compute|done|by intros o [= <-]|].
  exists s'. split; [exact E|]. split; [by vm_compute in Hd|]. change (Z.of_N (FileKernel.p_in (s_world s')) = 15) in Hp. lia.
Defined.

(** When a write fails after the first chunk, the bytes that were copied are reported, but the
    offsets of the descriptors are left where they were: a caller that continues without offset
    variables copies them again. *)
Theorem copy_partial_keeps_position :
  ∃ s', @copy_file_range FileKernel.world (FileKernel.kernel (Z.to_nat 4096) (Z.to_nat 4096) (Some 4096))
      FileKernel.no_handlers FileKernel.bound 3 None 4 None 5000 0 FileKernel.big =
      Ret (Some 4096, None, None) s' ∧
    zlen (FileKernel.d_out (s_world s')) = 4096 ∧
    FileKernel.p_in (s_world s') = 0%N ∧ FileKernel.p_out (s_world s') = 0%N.
Proof. eexists. split; [by vm_compute|]. by vm_compute. Qed.
