(* ===== verification/Sockopt.v ===== *)
(** * getsockopt.c and setsockopt.c

    SO_REUSEPORT as SO_REUSEADDR, which is what Windows shares ports with, and the two options of
    AF_UNIX sockets that WSL1 does not have. *)

From S2P Require Import Prelude CString Kernel State Tunables.

Open Scope Z_scope.

Definition SOL_SOCKET : Z := 1.
Definition SO_REUSEADDR : Z := 2.
Definition SO_REUSEPORT : Z := 15.
Definition SO_PROTOCOL : Z := 38.
Definition SO_DOMAIN : Z := 39.
Definition AF_UNIX : Z := 1.

(** The bytes of [v] over the first bytes of a buffer: [memcpy (buf, v, strlen (v))]. *)
Definition memcpy (buf v : string) : string := v +:+ strdrop (String.length v) buf.

Fixpoint zeros (n : nat) : string :=
  match n with O => "" | S n' => String Ascii.zero (zeros n') end.

(** An integer of [n] bytes in memory, least significant first. *)
Fixpoint le_bytes (n : nat) (z : Z) : string :=
  match n with
  | O => ""
  | S n' => String (Ascii.ascii_of_nat (Z.to_nat (z mod 256))) (le_bytes n' (z / 256))
  end.

Section sockopt.
Context {W : Type} `{!Kernel W}.
Local Abbreviation M := (prog (st W)).

(** The return value, with the contents of the caller's [optval] and [optlen] (if not NULL). *)
Definition sockopt_result : Type := option Z * option string * option Z.

Definition next_getsockopt (sockfd level optname : Z) (optval : option string) (optlen : option Z) :
    M sockopt_result :=
  let* r := sys (k_getsockopt sockfd level optname optlen) in
  match r with
  | Some v => ret (Some 0, (λ b, memcpy b v) <$> optval, (λ _, zlen v) <$> optlen)
  | None => ret (None, optval, optlen)
  end.

Definition getsockopt (sockfd level optname : Z) (optval : option string) (optlen : option Z) :
    M sockopt_result :=
  let* r := next_getsockopt sockfd level optname optval optlen in
  match r with
  | (Some _, _, _) => ret r
  | (None, _, _) =>
      let* off := wslcompat_passthru "getsockopt" in
      if (off : bool) then ret r
      else
        let* e := get_errno in
        if negb (e =? EINVAL) && negb (e =? ENOPROTOOPT) then ret r
        else if (e =? ENOPROTOOPT) && (level =? SOL_SOCKET) && (optname =? SO_REUSEPORT)
        then next_getsockopt sockfd level SO_REUSEADDR optval optlen
        else
          match negb (level =? SOL_SOCKET), optlen, optval with
          | false, Some len, Some buf =>
              let* sa := sys (k_getsockname sockfd) in
              match sa with
              | None => ret r
              | Some family =>
                  if negb (family =? AF_UNIX) then ret r
                  else if (optname =? SO_DOMAIN) && (2 <=? len) then
                    ret (Some 0, Some (memcpy (memcpy buf (zeros (Z.to_nat len))) (le_bytes 2 family)), Some 2)
                  else if (optname =? SO_PROTOCOL) && (4 <=? len) then
                    ret (Some 0, Some (memcpy buf (zeros 4)), Some 4)
                  else ret r
              end
          | _, _, _ => ret r
          end
  end.

Definition setsockopt (sockfd level optname : Z) (optval : string) : M (option Z) :=
  let* off := wslcompat_passthru "setsockopt" in
  if (off : bool) then sys (k_setsockopt sockfd level optname optval)
  else
    let optname := if (level =? SOL_SOCKET) && (optname =? SO_REUSEPORT) then SO_REUSEADDR else optname in
    sys (k_setsockopt sockfd level optname optval).
End sockopt.

(** What the kernel promises of its own options: a value that was set is read back, whatever other
    options of other sockets hold; SO_REUSEPORT cannot be read. *)
Class KernelSockopt (W : Type) `{!Kernel W} := {
  sockopts : W → Z → Z → string;
  sockopt_set fd level optname v w r w' :
    kstep (k_setsockopt fd level optname v) w = (inl r, w') → level = SOL_SOCKET →
    sockopts w' fd optname = v;
  sockopt_get fd w len w' r :
    kstep (k_getsockopt fd SOL_SOCKET SO_REUSEADDR (Some len)) w = (r, w') →
    zlen (sockopts w fd SO_REUSEADDR) ≤ len → r = inl (sockopts w fd SO_REUSEADDR);
  sockopt_no_reuseport fd w len : ∃ w',
    kstep (k_getsockopt fd SOL_SOCKET SO_REUSEPORT (Some len)) w = (inr ENOPROTOOPT, w') ∧
    sockopts w' fd = sockopts w fd;
}.

Section facts.
Context {W : Type} `{!Kernel W, !KernelSockopt W}.

(** SO_REUSEPORT reads back as it was set, although the kernel has no such option: the pair of
    shims keeps its value in SO_REUSEADDR. *)
Theorem reuseport_roundtrip fd v r buf len (s s1 : st W) :
  wslcompat_enabled (s_mem s) "setsockopt" = true →
  wslcompat_enabled (s_mem s) "getsockopt" = true →
  setsockopt fd SOL_SOCKET SO_REUSEPORT v s = Ret (Some r) s1 → zlen v ≤ len →
  ∃ s2, getsockopt fd SOL_SOCKET SO_REUSEPORT (Some buf) (Some len) s1 =
    Ret (Some 0, Some (memcpy buf v), Some (zlen v)) s2.
Proof.
  intros Hs Hg E Hl. unfold setsockopt, wslcompat_passthru in E. rewrite bind_getm, Hs in E.
  cbn [negb] in E. change ((SOL_SOCKET =? SOL_SOCKET) && (SO_REUSEPORT =? SO_REUSEPORT)) with true in E.
  pose proof (sys_step _ _ _ _ E) as K. cbn in K. apply sockopt_set in K; [|done].
  assert (s_mem s1 = s_mem s) as Hm.
  { unfold sys in E. destruct (kstep _ _) as [[?|?] ?]; by injection E as _ <-. }
  destruct (sockopt_no_reuseport fd (s_world s1) len) as (w2 & E2 & H2).
  unfold getsockopt, next_getsockopt, wslcompat_passthru. rewrite bind_assoc. unfold bind at 1, sys at 1.
  rewrite E2. rewrite bind_ret, bind_getm. cbn [s_mem]. rewrite Hm, Hg. cbn [negb].
  rewrite bind_get_errno. cbn [s_errno]. cbn [Z.eqb Pos.eqb ENOPROTOOPT EINVAL negb andb SOL_SOCKET SO_REUSEPORT].
  destruct (kstep (k_getsockopt fd SOL_SOCKET SO_REUSEADDR (Some len)) w2) as [r3 w3] eqn:E3.
  pose proof E3 as E3'. apply sockopt_get in E3; [|by rewrite H2, K]. subst r3. rewrite H2, K in E3'.
  eexists. unfold bind, sys. cbn [s_world]. by rewrite E3'.
Qed.
End facts.

Section unix.
Context {W : Type} `{!Kernel W}.

(** On a socket of the AF_UNIX family for which the kernel refuses them, SO_DOMAIN and SO_PROTOCOL
    are answered in the caller's [int]: the family, and 0. (The length reported with the family is 2,
    the size of the field it was copied from.) *)
Theorem unix_socket_options fd optname buf e w1 w2 (s : st W) :
  wslcompat_enabled (s_mem s) "getsockopt" = true → String.length buf = 4%nat →
  optname = SO_DOMAIN ∨ optname = SO_PROTOCOL → e = EINVAL ∨ e = ENOPROTOOPT →
  kstep (k_getsockopt fd SOL_SOCKET optname (Some 4)) (s_world s) = (inr e, w1) →
  kstep (k_getsockname fd) w1 = (inl AF_UNIX, w2) →
  ∃ s', getsockopt fd SOL_SOCKET optname (Some buf) (Some 4) s =
    if optname =? SO_DOMAIN then Ret (Some 0, Some (le_bytes 4 AF_UNIX), Some 2) s'
    else Ret (Some 0, Some (le_bytes 4 0), Some 4) s'.
Proof.
  intros Hen Hb Ho He E1 E2. unfold getsockopt, next_getsockopt, wslcompat_passthru.
  rewrite bind_assoc. unfold bind at 1, sys at 1. rewrite E1, bind_ret, bind_getm. cbn [s_mem].
  rewrite Hen. cbn [negb]. rewrite bind_get_errno. cbn [s_errno].
  assert (negb (e =? EINVAL) && negb (e =? ENOPROTOOPT) = false) as -> by (by destruct He as [->| ->]).
  assert ((optname =? SO_REUSEPORT) = false) as -> by (by destruct Ho as [->| ->]).
  rewrite andb_false_r. change (negb (SOL_SOCKET =? SOL_SOCKET)) with false. cbv beta iota.
  unfold bind, sys. cbn [s_world]. rewrite E2.
  assert (∃ a b c d, buf = String a (String b (String c (String d "")))) as (a & b & c & d & ->).
  { destruct buf as [|a [|b [|c [|d [|x buf]]]]]; simplify_eq/=. by eexists _, _, _, _. }
  destruct Ho as [->| ->]; eexists; reflexivity.
Qed.
End unix.

(** ** A concrete machine

    The value of SO_REUSEADDR of each socket; every socket is an AF_UNIX one. *)
Module SockKernel.
Definition world : Type := Z → string.
Definition step {R} (c : call R) (w : world) : (R + Z) * world :=
  match c in call R return (R + Z) * world with
  | k_setsockopt fd 1 2 v => (inl 0, λ fd', if fd' =? fd then v else w fd')
  | k_getsockopt fd 1 2 (Some len) => (inl (strtake (Z.to_nat len) (w fd)), w)
  | k_getsockopt _ _ 15 _ => (inr ENOPROTOOPT, w)
  | k_getsockopt _ _ _ _ => (inr EINVAL, w)
  | k_getsockname _ => (inl AF_UNIX, w)
  | _ => (inr ENOSYS, w)
  end.
#[global] Instance kernel : Kernel world := {| kstep := @step; kpid := λ _, 1 |}.
#[global] Instance options_of : KernelSockopt world.
Proof.
  refine {| sockopts := λ w fd _, w fd |}.
  - intros fd level optname v w r w' H ->. revert H. cbn [kstep kernel step].
    unfold SOL_SOCKET. destruct optname as [|[[]|[]|]|]; try discriminate. intros [= <- <-].
    by rewrite Z.eqb_refl.
  - intros fd w len w' r [= <- <-] Hl. f_equal. apply strtake_whole. unfold zlen in Hl. lia.
  - intros fd w len. by exists w.
Defined.
Definition s0 : st world := mkst init_mem (λ _, le_bytes 4 0) 0.
Definition one : string := le_bytes 4 1.
Definition s1 : st world :=
  match setsockopt 7 SOL_SOCKET SO_REUSEPORT one s0 with Ret _ s => s | _ => s0 end.
End SockKernel.

Lemma reuseport_roundtrip_witness :
  ∃ s2, getsockopt 7 SOL_SOCKET SO_REUSEPORT (Some (zeros 4)) (Some 4) SockKernel.s1 =
    Ret (Some 0, Some SockKernel.one, Some 4) s2.
Proof.
  refine (reuseport_roundtrip 7 SockKernel.one 0 (zeros 4) 4 SockKernel.s0 SockKernel.s1 _ _ _ _);
    by vm_compute.
Defined.

Lemma unix_socket_options_witness :
  ∃ s', getsockopt 7 SOL_SOCKET SO_DOMAIN (Some "????") (Some 4) SockKernel.s0 =
    Ret (Some 0, Some (le_bytes 4 1), Some 2) s'.
Proof.
  refine (unix_socket_options 7 SO_DOMAIN "????" EINVAL (s_world SockKernel.s0) (s_world SockKernel.s0)
    SockKernel.s0 _ _ _ _ _ _); [by vm_compute|done|by left|by left|by vm_compute|by vm_compute].
Defined.
