(* ===== verification/Rename.v ===== *)
(** * rename.c: renameat2

    WSL1 does not have RENAME_NOREPLACE: the new name is made by linkat, which does not replace,
    and the old one removed. *)

From S2P Require Import Prelude CString Kernel State Tunables.

Open Scope Z_scope.

Definition RENAME_NOREPLACE : Z := 1.

Section rename.
Context {W : Type} `{!Kernel W}.
Local Abbreviation M := (prog (st W)).

Definition renameat2 (olddirfd : Z) (oldpath : string) (newdirfd : Z) (newpath : string) (flags : Z) :
    M (option Z) :=
  let* off := wslcompat_passthru "renameat2" in
  if (off : bool) then sys (k_renameat2 olddirfd oldpath newdirfd newpath flags)
  else if flags =? RENAME_NOREPLACE then
    let* l := sys (k_linkat olddirfd oldpath newdirfd newpath 0) in
    match l with
    | None => ret None
    | Some _ =>
        let* u := sys (k_unlinkat olddirfd oldpath 0) in
        match u with Some _ => ret (Some 0) | None => ret None end
    end
  else if flags =? 0 then sys (k_renameat olddirfd oldpath newdirfd newpath)
  else sys (k_renameat2 olddirfd oldpath newdirfd newpath flags).
End rename.

(** The directory entries, by directory and path. What link(2) and unlink(2) say of them: a link is
    made only where there is no entry, to the file the old name stands for; unlink removes one
    entry; a call that fails changes none. *)
Definition name : Type := Z * string.

Class KernelNames (W : Type) `{!Kernel W} := {
  entry_of : W → name → option Z;
  names_linkat od op nd np fl w r w' :
    kstep (k_linkat od op nd np fl) w = (inl r, w') →
    (∃ i, entry_of w (od, op) = Some i) ∧ entry_of w (nd, np) = None ∧
    ∀ n, entry_of w' n = if decide (n = (nd, np)) then entry_of w (od, op) else entry_of w n;
  names_linkat_fails od op nd np fl w e w' :
    kstep (k_linkat od op nd np fl) w = (inr e, w') → entry_of w' = entry_of w;
  names_linkat_exists od op nd np w i j :
    entry_of w (od, op) = Some i → entry_of w (nd, np) = Some j →
    ∃ w', kstep (k_linkat od op nd np 0) w = (inr EEXIST, w');
  names_unlinkat d p w w' :
    kstep (k_unlinkat d p 0) w = (inl tt, w') →
    ∀ n, entry_of w' n = if decide (n = (d, p)) then None else entry_of w n;
  names_unlinkat_fails d p w e w' :
    kstep (k_unlinkat d p 0) w = (inr e, w') → entry_of w' = entry_of w;
}.

Section facts.
Context {W : Type} `{!Kernel W, !KernelNames W}.

(** C23: RENAME_NOREPLACE: the call ends; an entry that was there under the new name is still there
    afterwards, for the same file, and the call reported EEXIST if the old name existed too; when
    the call succeeds the file has moved: it is found under the new name, not under the old one,
    and every other entry is as it was; when it fails every entry is as it was, or only the removal
    of the old name failed and the file has both names. *)
Theorem rename_noreplace od op nd np (s : st W) :
  wslcompat_enabled (s_mem s) "renameat2" = true →
  let w := s_world s in
  ∃ r s', renameat2 od op nd np RENAME_NOREPLACE s = Ret r s' ∧
    (∀ j, entry_of w (nd, np) = Some j → r = None ∧ entry_of (s_world s') = entry_of w ∧
       (entry_of w (od, op) ≠ None → s_errno s' = EEXIST)) ∧
    match r with
    | Some _ =>
        (∃ i, entry_of w (od, op) = Some i ∧ entry_of (s_world s') (nd, np) = Some i) ∧
        entry_of (s_world s') (od, op) = None ∧
        ∀ n, n ≠ (od, op) → n ≠ (nd, np) → entry_of (s_world s') n = entry_of w n
    | None =>
        entry_of (s_world s') = entry_of w ∨
        (entry_of w (nd, np) = None ∧
         ∀ n, entry_of (s_world s') n = if decide (n = (nd, np)) then entry_of w (od, op) else entry_of w n)
    end.
Proof.
  intros Hen w. unfold renameat2, wslcompat_passthru. rewrite bind_getm, Hen. cbn [negb].
  change (RENAME_NOREPLACE =? RENAME_NOREPLACE) with true. cbv beta iota.
  unfold bind at 1, sys at 1. fold w.
  destruct (kstep (k_linkat od op nd np 0) w) as [[l|e] w1] eqn:E1.
  - destruct (names_linkat _ _ _ _ _ _ _ _ E1) as ((i & Hi) & Hn & Hl).
    unfold bind, sys. cbn [s_world]. destruct (kstep (k_unlinkat od op 0) w1) as [[[]|e] w2] eqn:E2.
    + pose proof (names_unlinkat _ _ _ _ E2) as Hu. eexists _, _. split; [reflexivity|]. cbn [s_world].
      split; [intros j Hj; congruence|]. assert ((nd, np) ≠ (od, op)) as Hne by congruence.
      split_and!.
      * exists i. split; [done|]. rewrite Hu, decide_False by done. by rewrite Hl, decide_True.
      * by rewrite Hu, decide_True.
      * intros n H1 H2. rewrite Hu, decide_False by done. by rewrite Hl, decide_False.
    + eexists _, _. split; [reflexivity|]. cbn [s_world]. split; [intros j Hj; congruence|].
      right. split; [done|]. intros n. by rewrite (names_unlinkat_fails _ _ _ _ _ E2), Hl.
  - eexists _, _. split; [reflexivity|]. cbn [s_world s_errno].
    pose proof (names_linkat_fails _ _ _ _ _ _ _ _ E1) as Hf. split; [|by left].
    intros j Hj. split_and!; [done|done|]. intros Hold.
    destruct (entry_of w (od, op)) as [i|] eqn:Hi; [|done].
    destruct (names_linkat_exists od op nd np w i j Hi Hj) as (w' & E'). congruence.
Qed.
End facts.

(** ** A concrete machine: the entries are the world *)
Module NameKernel.
Definition world : Type := list (name * Z).
Definition find (n : name) (w : world) : option Z :=
  snd <$> (snd <$> list_find (λ p : name * Z, p.1 = n) w).
Definition del (n : name) (w : world) : world := filter (λ p : name * Z, p.1 ≠ n) w.
Definition step {R} (c : call R) (w : world) : (R + Z) * world :=
  match c in call R return (R + Z) * world with
  | k_linkat od op nd np _ =>
      match find (od, op) w, find (nd, np) w with
      | Some i, None => (inl 0, ((nd, np), i) :: w)
      | Some _, Some _ => (inr EEXIST, w)
      | None, _ => (inr ENOENT, w)
      end
  | k_unlinkat d p _ => match find (d, p) w with
                        | Some _ => (inl tt, del (d, p) w)
                        | None => (inr ENOENT, w)
                        end
  | _ => (inr ENOSYS, w)
  end.
#[global] Instance kernel : Kernel world := {| kstep := @step; kpid := λ _, 1 |}.

Lemma find_cons n m i w : find n ((m, i) :: w) = if decide (n = m) then Some i else find n w.
Proof.
  unfold find. simpl. destruct (decide (m = n)) as [->|Hne]; [by rewrite decide_True|].
  rewrite (decide_False (P := n = m)) by congruence. by destruct (list_find _ w) as [[? []]|].
Qed.

Lemma find_del n m w : find n (del m w) = if decide (n = m) then None else find n w.
Proof.
  induction w as [|[k i] w IH]; [by case_decide|].
  assert (del m ((k, i) :: w) = if decide (k ≠ m) then (k, i) :: del m w else del m w) as -> by done.
  destruct (decide (k ≠ m)) as [Hk|Hk].
  - rewrite !find_cons, IH. destruct (decide (n = k)) as [->|]; [by rewrite decide_False|done].
  - apply dec_stable in Hk as ->. rewrite IH, find_cons. by case_decide.
Qed.

#[global] Instance names : KernelNames world.
Proof.
  refine {| entry_of := λ w n, find n w |}.
  - intros od op nd np fl w r w'. cbn [kstep kernel step].
    destruct (find (od, op) w) eqn:E1, (find (nd, np) w) eqn:E2; try discriminate.
    intros [= <- <-]. split; [eauto|]. split; [done|]. intros n. apply find_cons.
  - intros od op nd np fl w e w'. cbn [kstep kernel step]. repeat case_match; by intros [= _ <-].
  - intros od op nd np w i j H1 H2. exists w. cbn [kstep kernel step]. by rewrite H1, H2.
  - intros d p w w'. cbn [kstep kernel step]. case_match; [|discriminate].
    intros [= <-] n. apply find_del.
  - intros d p w e w'. cbn [kstep kernel step]. case_match; by intros [= _ <-].
Defined.

Definition s0 : st world := mkst init_mem [((-100, "a"), 11); ((-100, "b"), 22)] 0.
End NameKernel.

Lemma rename_noreplace_witness :
  (∃ s', renameat2 (-100) "a" (-100) "b" RENAME_NOREPLACE NameKernel.s0 = Ret None s' ∧ s_errno s' = EEXIST) ∧
  (∃ r s', renameat2 (-100) "a" (-100) "c" RENAME_NOREPLACE NameKernel.s0 = Ret r s' ∧
     NameKernel.find (-100, "c") (s_world s') = Some 11).
Proof.
  split.
  - destruct (rename_noreplace (-100) "a" (-100) "b" NameKernel.s0) as (r & s' & E & H & _); [by vm_compute|].
    destruct (H 22) as (-> & _ & He); [by vm_compute|]. exists s'. split; [exact E|]. by apply He.
  - destruct (rename_noreplace (-100) "a" (-100) "c" NameKernel.s0) as (r & s' & E & _ & H); [by vm_compute|].
    exists r, s'. split; [exact E|]. vm_compute in E. injection E as <- <-. by vm_compute.
Defined.
