(* ===== verification/Shim.v ===== *)
(** * shim.h: the next symbol

    Every shim reaches the function it stands in front of through a static pointer, which a constructor
    of its file fills with dlsym, and which the first call fills when it comes before the constructor.
    The rest of the development calls the next function directly; here is why it may. *)

From stdpp Require Import gmap.
From S2P Require Import Prelude Kernel.

Open Scope Z_scope.

(** ** The variadic macros *)
Section macros.
Context {A : Type} (M : string → A).

(** [_SHIM_FE_1] to [_SHIM_FE_20]; [None] when the macro is given the wrong number of arguments. *)
Fixpoint _SHIM_FE (n : nat) (xs : list string) : option (list A) :=
  match n, xs with
  | 1%nat, [x] => Some [M x]
  | S n', x :: xs' => (M x ::.) <$> _SHIM_FE n' xs'
  | _, _ => None
  end.

(** [_SHIM_FE_PICK (__VA_ARGS__, _SHIM_FE_20, ..., _SHIM_FE_1)]: its twenty-first argument. *)
Definition _SHIM_FE_PICK (xs : list string) : option nat :=
  match ((inl <$> xs) ++ (inr <$> rev (seq 1 20)) : list (string + nat)) !! 20%nat with
  | Some (inr n) => Some n
  | _ => None
  end.

Definition _SHIM_FOR_EACH (xs : list string) : option (list A) :=
  n ← _SHIM_FE_PICK xs; _SHIM_FE n xs.

Lemma fe_all xs n : length xs = S n → _SHIM_FE (S n) xs = Some (M <$> xs).
Proof.
  revert n. induction xs as [|x xs IH]; intros n Hn; [done|]. destruct xs as [|y xs]; cbn in Hn.
  - by injection Hn as <-.
  - destruct n as [|n]; [done|]. change (_SHIM_FE (S (S n)) (x :: y :: xs)) with ((M x ::.) <$> _SHIM_FE (S n) (y :: xs)).
    rewrite IH by (cbn; lia). done.
Qed.

Lemma fe_pick xs : (1 ≤ length xs ≤ 20)%nat → _SHIM_FE_PICK xs = Some (length xs).
Proof.
  intros Hl. unfold _SHIM_FE_PICK. rewrite lookup_app_r by (rewrite length_fmap; lia). rewrite length_fmap.
  rewrite list_lookup_fmap. set (k := (20 - length xs)%nat).
  assert (rev (seq 1 20) !! k = Some (20 - k)%nat) as ->; [|cbn; f_equal; lia].
  assert (k < 20)%nat as Hk by lia. clearbody k. clear Hl xs.
  do 20 (destruct k as [|k]; [done|]). lia.
Qed.

(** The macros apply to every name, for one to twenty of them, and to no more. *)
Lemma for_each_all xs :
  _SHIM_FOR_EACH xs = if decide (1 ≤ length xs ≤ 20)%nat then Some (M <$> xs) else None.
Proof.
  unfold _SHIM_FOR_EACH. case_decide as Hl.
  - rewrite fe_pick by done. cbn. destruct (length xs) as [|n] eqn:E; [lia|]. by apply fe_all.
  - destruct xs as [|x xs]; [done|]. unfold _SHIM_FE_PICK. cbn [length] in Hl.
    rewrite lookup_app_l by (rewrite length_fmap; cbn; lia). rewrite list_lookup_fmap.
    by destruct ((x :: xs) !! 20%nat).
Qed.
End macros.

(** ** Resolution *)

(** The static pointers of one file; 0 is NULL. *)
Record shim_st (W : Type) := mkshim { sym : gmap string Z; sh_errno : Z; sh_world : W }.
Arguments mkshim {W}.
Arguments sym {W}.
Arguments sh_errno {W}.
Arguments sh_world {W}.

Section resolution.
Context {W : Type}.
(** dlsym (RTLD_NEXT, name), 0 when there is none; and what is at an address: a function of the
    C library, which gives a value and may set errno. *)
Context (dlsym : string → Z) (code : Z → list Z → Z * W → Z * (Z * W)).
Local Abbreviation M := (prog (shim_st W)).

Definition _SHIM_DECLARE (name : string) : string * Z := (name, 0).

Definition _SHIM_DLSYM (name : string) : M unit :=
  modify (λ s, mkshim (<[name := dlsym name]> (sym s)) (sh_errno s) (sh_world s)).

Fixpoint run_all (l : list (M unit)) : M unit :=
  match l with [] => ret tt | c :: l => c ;;* run_all l end.

(** The constructor that [SHIM_INIT] writes for the [names] of a file. *)
Definition _shim_init (names : list string) : M unit :=
  match _SHIM_FOR_EACH _SHIM_DLSYM names with Some l => run_all l | None => ret tt end.

(** The pointers before any constructor has run. *)
Definition unset (names : list string) : gmap string Z :=
  list_to_map (default [] (_SHIM_FOR_EACH _SHIM_DECLARE names)).

Definition deref (s : shim_st W) (f : string) : Z := default 0 (sym s !! f).

Definition _shim_resolved (names : list string) (f : string) : M bool :=
  let* p := gets (λ s, deref s f) in
  if p =? 0 then _shim_init names ;;* let* p := gets (λ s, deref s f) in ret (negb (p =? 0))
  else ret true.

Definition sym_next (names : list string) (f : string) (args : list Z) : M Z :=
  let* ok := _shim_resolved names f in
  if (ok : bool) then
    let* p := gets (λ s, deref s f) in
    λ s, let '(v, (e, w)) := code p args (sh_errno s, sh_world s) in Ret v (mkshim (sym s) e w)
  else modify (λ s, mkshim (sym s) ENOSYS (sh_world s)) ;;* ret (-1).
End resolution.

(** How [wslcompat_chk_fail] ends the process. *)
Inductive fortify_end := ends_chk_fail | ends_trap.

Definition wslcompat_chk_fail (chk_fail_defined : bool) : fortify_end :=
  if chk_fail_defined then ends_chk_fail else ends_trap.

(** ** The names each file resolves *)
Definition shim_clock : list string :=
  ["clock_nanosleep"; "clock_getres"; "clock_gettime"].
Definition shim_close : list string :=
  ["close"; "dup2"; "dup3"; "close_range"].
Definition shim_copy_file_range : list string :=
  ["copy_file_range"].
Definition shim_epoll : list string :=
  ["epoll_ctl"; "epoll_create"; "epoll_create1"; "epoll_wait"; "epoll_pwait"; "epoll_pwait2"].
Definition shim_execve : list string :=
  ["execve"; "fexecve"; "execv"; "execvp"; "execvpe"; "system"; "popen"; "posix_spawn";
   "posix_spawnp"].
Definition shim_execveat : list string :=
  ["execveat"].
Definition shim_fcntl : list string :=
  ["fcntl"].
Definition shim_getsockopt : list string :=
  ["getsockopt"].
Definition shim_ioctl : list string :=
  ["ioctl"; "isatty"; "tcgetattr"; "tcsetattr"; "tcsetpgrp"; "tcgetpgrp"; "tcdrain";
   "tcsendbreak"; "tcflush"; "tcflow"; "tcgetsid"; "ttyname"; "ttyname_r"].
Definition shim_mincore : list string :=
  ["mincore"].
Definition shim_mmap : list string :=
  ["mmap"].
Definition shim_open : list string :=
  ["openat"; "open"].
Definition shim_poll : list string :=
  ["poll"; "ppoll"; "select"; "pselect"].
Definition shim_read : list string :=
  ["read"; "write"; "lseek"; "pread"; "pwrite"; "readv"; "writev"; "preadv"; "pwritev"; "fsync";
   "fdatasync"; "ftruncate"; "fchmod"; "fchown"; "fallocate"; "fgetxattr"; "fsetxattr";
   "flistxattr"; "fremovexattr"].
Definition shim_rename : list string :=
  ["renameat2"].
Definition shim_setsockopt : list string :=
  ["setsockopt"].
Definition shim_statx : list string :=
  ["statx"].
Definition shim_synth : list string :=
  ["fstat"; "fstat64"].
Definition shim_syscall : list string :=
  ["syscall"].
Definition shim_tty : list string :=
  ["read"; "ioctl"; "fcntl"; "close"; "poll"].

Definition SHIM_INIT : list (list string) :=
  [shim_clock; shim_close; shim_copy_file_range; shim_epoll; shim_execve; shim_execveat;
   shim_fcntl; shim_getsockopt; shim_ioctl; shim_mincore; shim_mmap; shim_open; shim_poll;
   shim_read; shim_rename; shim_setsockopt; shim_statx; shim_synth; shim_syscall; shim_tty].

(** Every list is short enough for the macros. *)
Lemma shim_lists_fit l : l ∈ SHIM_INIT → (1 ≤ length l ≤ 20)%nat.
Proof.
  intros Hl. assert (Forall (λ l, (1 ≤ length l ≤ 20)%nat) SHIM_INIT) as H by (vm_compute; repeat constructor).
  by apply (proj1 (Forall_forall _ _) H).
Qed.

Section facts.
Context {W : Type} (dlsym : string → Z) (code : Z → list Z → Z * W → Z * (Z * W)).

(** What the constructor makes of the pointers. *)
Definition resolved (names : list string) (σ : gmap string Z) : gmap string Z :=
  foldl (λ σ n, <[n := dlsym n]> σ) σ names.

(** The pointers as they can be while the process starts up and runs: the constructor has run or not, or
    a call has done its work before. *)
Inductive booted (names : list string) : gmap string Z → Prop :=
| boot_unset : booted names (unset names)
| boot_init σ : booted names σ → booted names (resolved names σ).

Lemma shim_init_run names σ e (w : W) :
  (1 ≤ length names ≤ 20)%nat → _shim_init dlsym names (mkshim σ e w) = Ret tt (mkshim (resolved names σ) e w).
Proof.
  intros Hl. unfold _shim_init. rewrite for_each_all, decide_True by done. clear Hl. unfold resolved.
  revert σ. induction names as [|n names IH]; intros σ; [done|]. cbn [fmap list_fmap run_all foldl].
  etrans; [|apply IH]. done.
Qed.

Lemma resolved_lookup names σ f :
  resolved names σ !! f = if decide (f ∈ names) then Some (dlsym f) else σ !! f.
Proof.
  unfold resolved. revert σ. induction names as [|n names IH]; intros σ; cbn [foldl]; [done|]. rewrite IH.
  destruct (decide (f ∈ names)) as [Hf|Hf]; [by rewrite decide_True by (by right)|].
  destruct (decide (f = n)) as [->|Hne].
  - rewrite lookup_insert_eq, decide_True by left. done.
  - rewrite lookup_insert_ne, decide_False; [done| |done]. by intros [->|?]%elem_of_cons.
Qed.

Lemma unset_lookup names f : (1 ≤ length names ≤ 20)%nat → f ∈ names → unset names !! f = Some 0.
Proof.
  intros Hl Hf. unfold unset. rewrite for_each_all, decide_True by done. cbn [default]. clear Hl. unfold Datatypes.id.
  induction names as [|n names IH]; [by apply elem_of_nil in Hf|]. cbn.
  destruct (decide (f = n)) as [->|Hne]; [by rewrite lookup_insert_eq|].
  rewrite lookup_insert_ne by done. apply IH. by apply elem_of_cons in Hf as [|].
Qed.

Lemma booted_lookup names σ f :
  (1 ≤ length names ≤ 20)%nat → booted names σ → f ∈ names → σ !! f = Some 0 ∨ σ !! f = Some (dlsym f).
Proof.
  intros Hl Hb Hf. destruct Hb as [|σ Hb]; [left; by apply unset_lookup|right]. by rewrite resolved_lookup, decide_True.
Qed.

(** C40: However the constructors and the first calls are ordered, a call of the next symbol is a call of what
    dlsym finds, with the arguments given; when it finds nothing, the call fails with ENOSYS. *)
Theorem sym_next_any_order names f args σ e (w : W) :
  names ∈ SHIM_INIT → f ∈ names → booted names σ →
  ∃ σ', booted names σ' ∧
    sym_next dlsym code names f args (mkshim σ e w) =
    if dlsym f =? 0 then Ret (-1) (mkshim σ' ENOSYS w)
    else let '(v, (e', w')) := code (dlsym f) args (e, w) in Ret v (mkshim σ' e' w').
Proof.
  intros Hn Hf Hb. apply shim_lists_fit in Hn as Hl. pose proof (booted_lookup names σ f Hl Hb Hf) as Hlk.
  assert (∃ σ' b, _shim_resolved dlsym names f (mkshim σ e w) = Ret b (mkshim σ' e w) ∧ booted names σ' ∧
    b = negb (dlsym f =? 0) ∧ (b = true → σ' !! f = Some (dlsym f))) as (σ' & b & E & Hb' & -> & Hs).
  { unfold _shim_resolved, bind at 1, gets. cbn [sym]. unfold deref at 1. cbn [sym].
    destruct (Z.eqb_spec (default 0 (σ !! f)) 0) as [Hz|Hz].
    - exists (resolved names σ), (negb (dlsym f =? 0)). rewrite (bind_Ret _ _ _ _ _ (shim_init_run names σ e w Hl)).
      unfold bind, gets, deref. cbn [sym]. rewrite resolved_lookup, decide_True by done. split; [done|].
      split; [by constructor|]. done.
    - exists σ, true. split; [done|]. split; [done|]. destruct Hlk as [E|E]; rewrite E in Hz |- *; [done|].
      cbn in Hz. by rewrite (proj2 (Z.eqb_neq _ _) Hz). }
  exists σ'. split; [done|]. unfold sym_next. rewrite (bind_Ret _ _ _ _ _ E).
  destruct (dlsym f =? 0) eqn:Ez; cbn [negb] in *; [done|]. unfold bind, gets, deref. cbn [sym sh_errno sh_world].
  rewrite Hs by done. cbn. by destruct (code _ _ _) as [v [e' w']].
Qed.
End facts.

(** ** A C library that has only read, concretely *)
Module ShimDemo.
Definition dlsym (f : string) : Z := if bool_decide (f = "read") then 4096 else 0.
Definition code (p : Z) (args : list Z) (s : Z * nat) : Z * (Z * nat) := (p + Z.of_nat (length args), (s.1, S s.2)).
End ShimDemo.

Lemma sym_next_any_order_witness :
  ∃ σ', sym_next ShimDemo.dlsym ShimDemo.code shim_read "read" [0; 7; 100] (mkshim (unset shim_read) 0 0%nat)
        = Ret 4099 (mkshim σ' 0 1%nat).
Proof.
  destruct (sym_next_any_order ShimDemo.dlsym ShimDemo.code shim_read "read" [0; 7; 100] (unset shim_read) 0 0%nat)
    as (σ' & _ & E); [vm_compute; repeat constructor|vm_compute; repeat constructor|constructor|].
  exists σ'. exact E.
Defined.

(** The value of a failed call is -1 whatever its type; for a function that returns a pointer, such as popen
    or ttyname, it is not the null pointer that its callers look for. *)
Lemma sym_next_failure_not_null : wrap_u 64 (-1) ≠ 0.
Proof. done. Qed.
