(* ===== verification/Logging.v ===== *)
(** * logging.c

    The log of the library. The other files leave the calls of the logging macros out; what makes
    that right is proved here. *)

From S2P Require Import Prelude CString Kernel State Tunables.

Open Scope Z_scope.

Definition WSLLOG_ERROR : Z := 0.
Definition WSLLOG_WARNING : Z := 1.
Definition WSLLOG_INFO : Z := 2.
Definition WSLLOG_DEBUG : Z := 3.
Definition WSLLOG_TRACE : Z := 4.
Definition O_APPEND : Z := 1024.

(** [loglevel], read from the options at the first call; the options do not change. *)
Definition loglevel (m : mem) : Z := wrap_s 32 (wslcompat_tunable_int (options m) "debug" 0).

Definition newline_str : string := String (Ascii.ascii_of_nat 10) "".

Section logging.
Context {W : Type} `{!Kernel W}.
Local Abbreviation M := (prog (st W)).

(** The descriptor of the log, opened at first use; [None] is an empty result of the open. *)
Definition log_fd : M Z :=
  let* fd := getm debugfd in
  if fd <? -1 then
    let* path := getm (λ m, default "/dev/tty" (wslcompat_tunable_str (options m) "logfile" (Some "/dev/tty"))) in
    let* o := sys (k_open path (Z.lor O_WRONLY (Z.lor O_CREAT (Z.lor O_APPEND O_CLOEXEC))) 384) in
    let new_fd := default (-1) o in
    let* cur := getm debugfd in
    if cur =? -2 then setm (set_debugfd new_fd) ;;* ret new_fd
    else (if 0 <=? new_fd then sys (k_close new_fd) ;;* ret tt else ret tt) ;;* ret cur
  else ret fd.

(** [msg] is the text [vsnprintf] makes of the format and its arguments, before truncation. *)
Definition wslcompat_debug_log (level : Z) (tag msg : string) : M (option Z) :=
  let* ll := getm loglevel in
  if ll <? level then ret (Some 0)
  else
    let* fd := log_fd in
    if fd <? 0 then ret None
    else
      let* pid := getpid in
      let prefix := snprintf_s 64 ("[wsl] " +:+ fmt_d pid +:+ " " +:+ tag +:+ ": ") in
      let buf := snprintf_s 512 msg in
      sys (k_writev_text fd [prefix; buf; newline_str]).

(** A message above the level of the options has no effect whatever, on memory, on the world or on
    errno: the calls the model of the other files leaves out are invisible unless the user asked
    for them. *)
Theorem log_silent level tag msg (s : st W) :
  loglevel (s_mem s) < level → wslcompat_debug_log level tag msg s = Ret (Some 0) s.
Proof.
  intros H. unfold wslcompat_debug_log. rewrite bind_getm. by rewrite (proj2 (Z.ltb_lt (loglevel (s_mem s)) level)).
Qed.

(** A message that is logged, with the log open, is one writev of one line of at most 575 bytes:
    the prefix and the text cut to their buffers, and the newline in any case. *)
Theorem log_line level tag msg fd (s : st W) :
  level ≤ loglevel (s_mem s) → debugfd (s_mem s) = fd → 0 ≤ fd →
  ∃ prefix text, wslcompat_debug_log level tag msg s = sys (k_writev_text fd [prefix; text; newline_str]) s ∧
    (String.length prefix ≤ 63)%nat ∧ (String.length text ≤ 511)%nat ∧
    text = strtake 511 msg ∧ starts_with "[wsl] " prefix = true.
Proof.
  intros Hl Hfd Hpos. unfold wslcompat_debug_log, log_fd.
  eexists _, _. split.
  - rewrite bind_getm, (proj2 (Z.ltb_ge (loglevel (s_mem s)) level)) by done. rewrite bind_assoc, bind_getm, Hfd.
    rewrite (proj2 (Z.ltb_ge fd (-1))) by lia. rewrite bind_ret, (proj2 (Z.ltb_ge fd 0)) by lia.
    unfold getpid. unfold bind, gets. reflexivity.
  - unfold snprintf_s. rewrite !strtake_length. split_and!; [apply Nat.le_min_l|apply Nat.le_min_l|done|done].
Qed.

(** A message that is logged when the log cannot be opened leaves the errno of the open behind: a
    shim that logs between a failing call and its return reports that errno instead of its own. *)
Theorem log_clobbers_errno level tag msg e w1 (s : st W) :
  level ≤ loglevel (s_mem s) → debugfd (s_mem s) = -2 → options (s_mem s) = [] →
  kstep (k_open "/dev/tty" 525377 384) (s_world s) = (inr e, w1) →
  ∃ s', wslcompat_debug_log level tag msg s = Ret None s' ∧ s_errno s' = e ∧ debugfd (s_mem s') = -1.
Proof.
  intros Hl Hd Ho E. unfold wslcompat_debug_log, log_fd.
  rewrite bind_getm, (proj2 (Z.ltb_ge (loglevel (s_mem s)) level)) by done. rewrite bind_assoc, bind_getm, Hd.
  change (-2 <? -1) with true. cbv beta iota. rewrite !bind_assoc, bind_getm, Ho.
  change (default "/dev/tty" _) with "/dev/tty". rewrite bind_assoc. unfold bind at 1, sys.
  change (Z.lor O_WRONLY _) with 525377. rewrite E. cbn [default]. rewrite bind_assoc, bind_getm. cbn [s_mem]. rewrite Hd.
  change (-2 =? -2) with true. cbv beta iota. eexists. split; [reflexivity|]. done.
Qed.
End logging.

(** ** A concrete machine without a terminal *)
Module LogKernel.
Definition step {R} (c : call R) (w : list string) : (R + Z) * list string :=
  match c in call R return (R + Z) * list string with
  | k_writev_text _ bufs => (inl (zlen (String.concat "" bufs)), w ++ [String.concat "" bufs])
  | _ => (inr ENOENT, w)
  end.
#[global] Instance kernel : Kernel (list string) := {| kstep := @step; kpid := λ _, 42 |}.
Definition s (fd : Z) : st (list string) := mkst (set_debugfd fd init_mem) [] 0.
End LogKernel.

Lemma log_line_witness :
  ∃ prefix text, wslcompat_debug_log WSLLOG_ERROR "open" "no luck" (LogKernel.s 5) =
    sys (k_writev_text 5 [prefix; text; newline_str]) (LogKernel.s 5) ∧ text = "no luck".
Proof.
  destruct (log_line WSLLOG_ERROR "open" "no luck" 5 (LogKernel.s 5)) as (p & t & E & _ & _ & Ht & _);
    [by vm_compute|done|lia|]. exists p, t. split; [exact E|]. by rewrite Ht.
Defined.

Lemma log_clobbers_errno_witness :
  ∃ s', wslcompat_debug_log WSLLOG_ERROR "open" "no luck" (LogKernel.s (-2)) = Ret None s' ∧
    s_errno s' = ENOENT.
Proof.
  destruct (log_clobbers_errno WSLLOG_ERROR "open" "no luck" ENOENT [] (LogKernel.s (-2)))
    as (s' & E & He & _); [by vm_compute|done|done|done|]. by exists s'.
Defined.
