(* ===== verification/Startup.v ===== *)
(** * Constructors and destructors

    What the dynamic linker runs of logging.c, statx.c and tunables.c before main and at exit. The order
    in which it takes the files of one library is not the program's to choose: the theorem is about
    every order. *)

From S2P Require Import Prelude CString Kernel State Tunables Internal Logging.

Open Scope Z_scope.

Section startup.
Context {W : Type} `{!Kernel W}.
Local Abbreviation M := (prog (st W)).

Definition logging_init : M unit := wslcompat_register_internal_fd s_debugfd.
Definition statx_init : M unit := wslcompat_register_internal_fd s_mount_fd.

Definition logging_fini : M unit :=
  let* fd := getm debugfd in
  if 0 <=? fd then sys (k_close fd) ;;* ret tt else ret tt.
Definition statx_fini : M unit :=
  let* fd := getm mount_fd in
  if 0 <=? fd then sys (k_close fd) ;;* ret tt else ret tt.
End startup.

(** The files that have a constructor of their own, besides the one of shim.h. *)
Inductive unit_name := u_tunables | u_logging | u_statx.

Definition run_ctor {W} `{!Kernel W} (u : unit_name) : prog (st W) unit :=
  match u with u_tunables => tunables_init | u_logging => logging_init | u_statx => statx_init end.

Fixpoint startup {W} `{!Kernel W} (order : list unit_name) : prog (st W) unit :=
  match order with [] => ret tt | u :: order => run_ctor u ;;* startup order end.

Section facts.
Context {W : Type} `{!Kernel W}.

(** What registration needs: the array of its length, and the entries below the counter. *)
Definition registry_holds (slots : list internal_slot) (m : mem) : Prop :=
  length (registry m) = MAX_INTERNAL_FDS ∧ registry_count m = Z.of_nat (length slots) ∧
  (∀ i sl, slots !! i = Some sl → registry m !! i = Some (Some sl)).

Lemma registry_holds_init : registry_holds [] init_mem.
Proof. split_and!; [done|done|]. by intros [|i] sl. Qed.

Lemma registry_holds_registered slots m sl :
  registry_holds slots m → (length slots ≤ MAX_INTERNAL_FDS)%nat → sl ∈ slots → registered m sl.
Proof.
  intros (_ & Hc & Hr) Hle [i Hi]%list_elem_of_lookup_1. apply lookup_lt_Some in Hi as Hlt.
  exists i. split_and!; [rewrite Hc; lia|lia|]. by apply list_lookup_total_correct, Hr.
Qed.

(** Everything of the memory but the options and the registry. *)
Definition startup_rest (m : mem) :=
  (synth_table m, synth_live_entries m, synth_acquire_lock m, starttime_cache m, tty_table m,
   debugfd m, mount_fd m, env_disabled m).

Lemma register_internal_run slots sl (s : st W) :
  registry_holds slots (s_mem s) → (length slots < MAX_INTERNAL_FDS)%nat →
  ∃ s', wslcompat_register_internal_fd sl s = Ret tt s' ∧ registry_holds (slots ++ [sl]) (s_mem s') ∧
        startup_rest (s_mem s') = startup_rest (s_mem s).
Proof.
  intros (Hl & Hc & Hr) Hlt. unfold wslcompat_register_internal_fd. rewrite bind_getm, bind_setm, Hc.
  unfold MAX_INTERNAL_FDS in *.
  rewrite (proj2 (Z.leb_gt (Z.of_nat 16) (Z.of_nat (length slots)))) by lia.
  eexists. split; [reflexivity|]. split; [|done]. unfold registry_holds. cbn.
  rewrite Nat2Z.id. split_and!.
  - by rewrite length_insert.
  - rewrite length_app. unfold wrap_u. rewrite Z.mod_small; cbn; lia.
  - intros i x Hi. apply lookup_app_Some in Hi as [Hi|[Hge Hi]].
    + apply lookup_lt_Some in Hi as Hb. rewrite list_lookup_insert_ne by lia. by apply Hr.
    + destruct (i - length slots)%nat eqn:E; [|done]. injection Hi as ->.
      replace i with (length slots) by lia. apply list_lookup_insert_eq. unfold MAX_INTERNAL_FDS in Hl. lia.
Qed.

(** The constructor of tunables.c returns and changes the options only. *)
Definition opts_only (m m' : mem) : Prop :=
  startup_rest m' = startup_rest m ∧ registry m' = registry m ∧ registry_count m' = registry_count m.

Lemma tunables_visit_run fd cur (s : st W) :
  ∃ r s', tunables_visit fd cur s = Ret r s' ∧ opts_only (s_mem s) (s_mem s').
Proof.
  unfold tunables_visit. destruct (negb _); [by exists None, s|].
  destruct (sys_Ret (k_fgetxattr fd cur (Z.of_nat VAL_BUF - 1)) s) as ([v|] & s1 & E & Hm);
    rewrite (bind_Ret _ _ _ _ _ E), <-Hm; [|by exists None, s1].
  rewrite bind_getm. destruct (tunables_add_option _ _ _) as [o|]; [|by exists (Some tt), s1].
  rewrite bind_setm. by eexists None, _.
Qed.

Lemma opts_only_trans m1 m2 m3 : opts_only m1 m2 → opts_only m2 m3 → opts_only m1 m3.
Proof. intros (? & ? & ?) (? & ? & ?). unfold opts_only. split_and!; by etrans. Qed.

Lemma tunables_loop_run fd names (s : st W) :
  ∃ r s', for_each names (tunables_visit fd) s = Ret r s' ∧ opts_only (s_mem s) (s_mem s').
Proof.
  revert s. induction names as [|n names IH]; intros s; [by exists None, s|]. cbn [for_each].
  destruct (tunables_visit_run fd n s) as (r & s1 & E & H1). rewrite (bind_Ret _ _ _ _ _ E).
  destruct r as [[]|]; [by exists (Some tt), s1|]. destruct (IH s1) as (r & s2 & E2 & H2).
  exists r, s2. split; [done|]. by eapply opts_only_trans.
Qed.

Lemma tunables_init_run (s : st W) :
  ∃ s', tunables_init s = Ret tt s' ∧ opts_only (s_mem s) (s_mem s').
Proof.
  unfold tunables_init. destruct (sys_Ret (k_open "/proc/self/exe" (Z.lor O_RDONLY O_CLOEXEC) 0) s)
    as ([fd|] & s1 & E & <-); rewrite (bind_Ret _ _ _ _ _ E); [|by exists s1].
  destruct (sys_Ret (k_flistxattr fd (Z.of_nat LIST_BUF - 1)) s1) as (l & s2 & E2 & <-).
  rewrite (bind_Ret _ _ _ _ _ E2).
  assert (∃ r s3, match l with
    | Some b => if decide (b = "") then ret None else for_each (nul_split b) (tunables_visit fd)
    | None => ret None end s2 = Ret r s3 ∧ opts_only (s_mem s2) (s_mem s3)) as (r & s3 & E3 & H3).
  { destruct l as [b|]; [|by exists None, s2]. case_decide; [by exists None, s2|]. apply tunables_loop_run. }
  rewrite (bind_Ret _ _ _ _ _ E3). destruct (sys_Ret (k_close fd) s3) as (r4 & s4 & E4 & Hm).
  rewrite (bind_Ret _ _ _ _ _ E4). exists s4. by rewrite Hm.
Qed.

(** The slots that the constructors of [order] register, in that order. *)
Definition ctor_slots (order : list unit_name) : list internal_slot :=
  order ≫= λ u, match u with u_tunables => [] | u_logging => [s_debugfd] | u_statx => [s_mount_fd] end.

Lemma ctor_slots_cons u order : ctor_slots (u :: order) = ctor_slots [u] ++ ctor_slots order.
Proof. by destruct u. Qed.

Lemma startup_run order slots (s : st W) :
  registry_holds slots (s_mem s) → (length slots + length (ctor_slots order) ≤ MAX_INTERNAL_FDS)%nat →
  ∃ s', startup order s = Ret tt s' ∧ registry_holds (slots ++ ctor_slots order) (s_mem s') ∧
        startup_rest (s_mem s') = startup_rest (s_mem s).
Proof.
  revert slots s. induction order as [|u order IH]; intros slots s Hr Hle.
  { exists s. by rewrite app_nil_r. }
  rewrite ctor_slots_cons in Hle |- *. rewrite length_app in Hle.
  assert (∃ s1, run_ctor u s = Ret tt s1 ∧ registry_holds (slots ++ ctor_slots [u]) (s_mem s1) ∧
    startup_rest (s_mem s1) = startup_rest (s_mem s)) as (s1 & E1 & Hr1 & Hm1).
  { destruct u; cbn in Hle |- *.
    - destruct (tunables_init_run s) as (s1 & E & Hf & Hg & Hc). exists s1. rewrite app_nil_r.
      split; [done|]. split; [|done]. unfold registry_holds. by rewrite Hg, Hc.
    - apply register_internal_run; [done|lia].
    - apply register_internal_run; [done|lia]. }
  cbn [startup]. rewrite (bind_Ret _ _ _ _ _ E1).
  destruct (IH (slots ++ ctor_slots [u]) s1 Hr1) as (s2 & E2 & Hr2 & Hm2).
  { rewrite length_app. lia. }
  exists s2. split; [done|]. rewrite <-app_assoc in Hr2. split; [done|]. by etrans.
Qed.

(** Whatever the order of the constructors, they return, and both descriptors are registered. *)
Lemma startup_registers order (s : st W) :
  order ≡ₚ [u_tunables; u_logging; u_statx] → s_mem s = init_mem →
  ∃ s1, startup order s = Ret tt s1 ∧ startup_rest (s_mem s1) = startup_rest init_mem ∧
    length (registry (s_mem s1)) = MAX_INTERNAL_FDS ∧ (∀ sl, registered (s_mem s1) sl).
Proof.
  intros Ho Hs.
  assert (ctor_slots order ≡ₚ [s_debugfd; s_mount_fd]) as Hp.
  { etrans; [unfold ctor_slots; by rewrite Ho|done]. }
  pose proof (Permutation_length Hp) as Hl. cbn in Hl.
  destruct (startup_run order [] s) as (s1 & E & Hr & Hm).
  { rewrite Hs. apply registry_holds_init. }
  { rewrite Hl. unfold MAX_INTERNAL_FDS. cbn. lia. }
  cbn [app] in Hr. exists s1. split_and!; [done|by rewrite Hm, Hs|by destruct Hr|]. intros sl.
  eapply registry_holds_registered; [done|rewrite Hl; unfold MAX_INTERNAL_FDS; lia|].
  rewrite Hp. destruct sl; set_solver.
Qed.

(** The destructor of logging.c closes the log but keeps its number: a message logged later, by a destructor
    or a thread that is still running, is written to whatever that number means by then. *)
Lemma log_after_fini level tag msg fd (s : st W) :
  level ≤ loglevel (s_mem s) → debugfd (s_mem s) = fd → 0 ≤ fd →
  ∃ s1 prefix text, logging_fini s = Ret tt s1 ∧
    s_world s1 = snd (kstep (k_close fd) (s_world s)) ∧
    wslcompat_debug_log level tag msg s1 = sys (k_writev_text fd [prefix; text; newline_str]) s1.
Proof.
  intros Hl Hd Hf. unfold logging_fini. rewrite bind_getm, Hd, (proj2 (Z.leb_le 0 fd)) by done.
  unfold bind at 1, sys. destruct (kstep (k_close fd) (s_world s)) as [[r|e] w] eqn:E.
  - destruct (log_line level tag msg fd (mkst (s_mem s) w (s_errno s))) as (p & x & El & _); [done..|].
    by exists (mkst (s_mem s) w (s_errno s)), p, x.
  - destruct (log_line level tag msg fd (mkst (s_mem s) w e)) as (p & x & El & _); [done..|].
    by exists (mkst (s_mem s) w e), p, x.
Qed.
End facts.
