(* ===== verification/LazyFd.v ===== *)
(** * Concurrent life of an internal descriptor

    The descriptors that the library opens for itself, the log and the mount table, are opened by the first
    thread that needs them and moved by any thread whose caller is about to reuse their number: logging.c
    and statx.c open with a compare-exchange from -2, internal.c moves with a compare-exchange from the old
    number. Here is one such slot, one atomic access or system call per step, for any number of threads. *)

From stdpp Require Import gmap.
From S2P Require Import Prelude CString Kernel State Tunables Internal Logging.

Open Scope Z_scope.

(** ** Threads *)
Inductive lazy_pc :=
| z_idle
| z_opening                  (* loaded a value below -1 *)
| z_install (n : Z)          (* opened [n], or -1: about to exchange *)
| z_lost (n : Z)             (* another thread was faster: about to close [n] *)
| z_dup (t : Z)              (* in relocation, found [t] in the slot *)
| z_move (t n : Z)           (* duplicated [t] to [n]: about to exchange *)
| z_drop (t n : Z)           (* the slot had changed: about to close [n] *)
| z_free (t : Z).            (* relocation done: about to close or reuse the number [t] *)

(** [z_open]: what the library has opened for the slot and nobody has closed. *)
Record lazy_fd := mklazy { z_slot : Z; z_open : gset Z; z_ts : list lazy_pc }.

(** What a step is, for the runs the theorems speak of. *)
Inductive event := e_quiet | e_reloc | e_open_fails | e_dup_fails.

Definition close_one (n : Z) (o : gset Z) : gset Z := if 0 <=? n then o ∖ {[n]} else o.

Inductive lazy_step (who : internal_slot) : event → relation lazy_fd :=
| z_load s o ts i :
    ts !! i = Some z_idle → s < -1 →
    lazy_step who e_quiet (mklazy s o ts) (mklazy s o (<[i := z_opening]> ts))
| z_open_ok s o ts i n :
    ts !! i = Some z_opening → 0 ≤ n → n ∉ o →
    lazy_step who e_quiet (mklazy s o ts) (mklazy s ({[n]} ∪ o) (<[i := z_install n]> ts))
| z_open_fails_log s o ts i :  (* logging.c exchanges -2 for -1 like any result *)
    who = s_debugfd → ts !! i = Some z_opening →
    lazy_step who e_open_fails (mklazy s o ts) (mklazy s o (<[i := z_install (-1)]> ts))
| z_open_fails_mount s o ts i :  (* statx.c stores -1 *)
    who = s_mount_fd → ts !! i = Some z_opening →
    lazy_step who e_open_fails (mklazy s o ts) (mklazy (-1) o (<[i := z_idle]> ts))
| z_install_ok o ts i n :
    ts !! i = Some (z_install n) →
    lazy_step who e_quiet (mklazy (-2) o ts) (mklazy n o (<[i := z_idle]> ts))
| z_install_lost s o ts i n :
    ts !! i = Some (z_install n) → s ≠ -2 →
    lazy_step who e_quiet (mklazy s o ts) (mklazy s o (<[i := z_lost n]> ts))
| z_close_lost s o ts i n :
    ts !! i = Some (z_lost n) →
    lazy_step who e_quiet (mklazy s o ts) (mklazy s (close_one n o) (<[i := z_idle]> ts))
| z_reloc_load o ts i t :
    ts !! i = Some z_idle → 0 ≤ t →
    lazy_step who e_reloc (mklazy t o ts) (mklazy t o (<[i := z_dup t]> ts))
| z_reloc_dup s o ts i t n :
    ts !! i = Some (z_dup t) → 0 ≤ n → n ∉ o →
    lazy_step who e_quiet (mklazy s o ts) (mklazy s ({[n]} ∪ o) (<[i := z_move t n]> ts))
| z_reloc_fails s o ts i t :  (* stores -2 *)
    ts !! i = Some (z_dup t) →
    lazy_step who e_dup_fails (mklazy s o ts) (mklazy (-2) o (<[i := z_free t]> ts))
| z_move_ok o ts i t n :
    ts !! i = Some (z_move t n) →
    lazy_step who e_quiet (mklazy t o ts) (mklazy n o (<[i := z_free t]> ts))
| z_move_lost s o ts i t n :
    ts !! i = Some (z_move t n) → s ≠ t →
    lazy_step who e_quiet (mklazy s o ts) (mklazy s o (<[i := z_drop t n]> ts))
| z_close_dropped s o ts i t n :
    ts !! i = Some (z_drop t n) →
    lazy_step who e_quiet (mklazy s o ts) (mklazy s (close_one n o) (<[i := z_free t]> ts))
| z_close_target s o ts i t :
    ts !! i = Some (z_free t) →
    lazy_step who e_quiet (mklazy s o ts) (mklazy s (close_one t o) (<[i := z_idle]> ts)).

Definition lazy_init (n : nat) : lazy_fd := mklazy (-2) ∅ (replicate n z_idle).

(** The runs that consist of the steps [ok]. *)
Definition run_with (who : internal_slot) (ok : event → Prop) : relation lazy_fd :=
  rtc (λ a b, ∃ e, ok e ∧ lazy_step who e a b).

(** ** Nothing is lost *)

(** The descriptor a thread answers for. *)
Definition answers (p : lazy_pc) : list Z :=
  match p with
  | z_install n | z_lost n | z_move _ n | z_drop _ n => [n]
  | z_free t => [t]
  | z_idle | z_opening | z_dup _ => []
  end.

(** A thread that found [t] in the slot, or is done with it, may still answer for it. *)
Definition accounted (a : lazy_fd) : Prop :=
  ∀ n, n ∈ z_open a → n = z_slot a ∨ ∃ p, p ∈ z_ts a ∧ n ∈ answers p.

(** No step but the change of one thread [i] touches what other threads answer for. *)
Lemma accounted_step s s' o o' ts i p p' :
  ts !! i = Some p → accounted (mklazy s o ts) →
  (∀ n, n ∈ o' → n ∉ o → n = s' ∨ n ∈ answers p') →
  (∀ n, n ∈ o' → n = s ∨ n ∈ answers p → n = s' ∨ n ∈ answers p') →
  accounted (mklazy s' o' (<[i := p']> ts)).
Proof.
  intros Hi Ha Hnew Hown n Hn. cbn in Hn |- *.
  assert (p' ∈ <[i := p']> ts) as Hp'.
  { apply list_elem_of_lookup. exists i. apply list_lookup_insert_eq. by eapply lookup_lt_Some. }
  destruct (decide (n ∈ o)) as [Ho|Ho]; [|destruct (Hnew n Hn Ho); eauto].
  destruct (Ha n Ho) as [E|(q & Hq & Hnq)]; [destruct (Hown n Hn); eauto|]. cbn in Hq.
  apply list_elem_of_lookup in Hq as [j Hj]. destruct (decide (i = j)) as [->|Hij].
  - rewrite Hi in Hj. injection Hj as <-. destruct (Hown n Hn); eauto.
  - right. exists q. split; [|done]. apply list_elem_of_lookup. exists j. by rewrite list_lookup_insert_ne.
Qed.

Lemma elem_close_one n x o : x ∈ close_one n o → x ∈ o ∧ (0 ≤ n → x ≠ n).
Proof.
  unfold close_one. destruct (Z.leb_spec 0 n) as [H|H]; [|intros; split; [done|lia]]. set_solver.
Qed.

(** The steps that keep the account: all but a failing open of the mount table and a failing
    duplication. *)
Definition gentle (who : internal_slot) (e : event) : Prop :=
  match e with e_quiet | e_reloc => True | e_open_fails => who = s_debugfd | e_dup_fails => False end.

Lemma accounted_gentle who e a b : gentle who e → lazy_step who e a b → (∀ n, n ∈ z_open a → 0 ≤ n) →
  accounted a → accounted b ∧ (∀ n, n ∈ z_open b → 0 ≤ n).
Proof.
  intros Hg Hs Hpos Ha. split.
  - destruct Hs; try (by destruct Hg); try (cbn in Hg; congruence);
      (eapply accounted_step; [done|exact Ha|..]); cbn [answers]; intros x; try set_solver;
      intros Hx%elem_close_one; set_solver.
  - destruct Hs; cbn in *; try done; intros x; try (intros [->%elem_of_singleton|?]%elem_of_union; auto);
      intros Hx%elem_close_one; apply Hpos, Hx.
Qed.

Lemma gentle_runs who k a :
  run_with who (gentle who) (lazy_init k) a → accounted a ∧ (∀ n, n ∈ z_open a → 0 ≤ n).
Proof.
  unfold run_with. intros Hr.
  refine (rtc_ind_r (λ a, accounted a ∧ (∀ n, n ∈ z_open a → 0 ≤ n)) (lazy_init k) _ _ a Hr).
  - split; intros n Hn; set_solver.
  - intros b c _ (e & Hg & Hs) [Ha Hp]. by eapply accounted_gentle.
Qed.

(** ** While nobody relocates, what the slot names is open *)
Definition opening_only (e : event) : Prop := e = e_quiet ∨ e = e_open_fails.
Definition no_reloc (p : lazy_pc) : Prop :=
  match p with z_idle | z_opening | z_install _ | z_lost _ => True | _ => False end.

Record steady (a : lazy_fd) : Prop := {
  sd_slot : 0 ≤ z_slot a → z_slot a ∈ z_open a;
  sd_held i p n : z_ts a !! i = Some p → n ∈ answers p → 0 ≤ n → n ∈ z_open a ∧ n ≠ z_slot a;
  sd_apart i j p q n : z_ts a !! i = Some p → z_ts a !! j = Some q → n ∈ answers p → n ∈ answers q → 0 ≤ n → i = j;
  sd_pc i p : z_ts a !! i = Some p → no_reloc p;
}.

(** A step of thread [i] that leaves the descriptors of the others alone. *)
Lemma steady_update s s' o o' ts i p p' :
  ts !! i = Some p → steady (mklazy s o ts) → no_reloc p' → (0 ≤ s' → s' ∈ o') →
  (∀ n, n ∈ answers p' → 0 ≤ n → (n ∈ o' ∧ n ≠ s') ∧ (n ∈ answers p ∨ n ∉ o)) →
  (∀ n, n ∈ o → 0 ≤ n → n ≠ s → n ∉ answers p → n ∈ o' ∧ n ≠ s') →
  steady (mklazy s' o' (<[i := p']> ts)).
Proof.
  intros Hi [S1 S2 S3 S4] Hp Hs Hmine Hrest. cbn [z_slot z_open z_ts] in *.
  assert (∀ j q, <[i := p']> ts !! j = Some q → j = i ∧ q = p' ∨ j ≠ i ∧ ts !! j = Some q) as Hlk.
  { intros j q Hj. apply list_lookup_insert_Some in Hj as [(<- & <- & _)|[? ?]]; [by left|by right]. }
  assert (∀ j q n, ts !! j = Some q → j ≠ i → n ∈ answers q → 0 ≤ n → n ∈ o ∧ n ≠ s ∧ n ∉ answers p) as Hoth.
  { intros j q n Hj Hne Hn Hn0. destruct (S2 j q n Hj Hn Hn0). split_and!; [done|done|]. intros Hn'. apply Hne. eauto. }
  split; cbn [z_slot z_open z_ts]; [done|..].
  - intros j q n [[-> ->]|[Hne Hj]]%Hlk Hn Hn0; [by apply Hmine|]. destruct (Hoth j q n) as (? & ? & ?); auto.
  - intros j k q r n [[-> ->]|[Hne Hj]]%Hlk [[-> ->]|[Hne' Hk]]%Hlk Hn Hn' Hn0; [done|..|by eauto].
    + destruct (Hoth k r n) as (? & ? & ?); try done. destruct (Hmine n Hn Hn0) as [_ []]; done.
    + destruct (Hoth j q n) as (? & ? & ?); try done. destruct (Hmine n Hn' Hn0) as [_ []]; done.
  - intros j q [[-> ->]|[Hne Hj]]%Hlk; [done|eauto].
Qed.

Lemma steady_step a b e :
  opening_only e → lazy_step s_debugfd e a b → steady a → steady b ∧ (0 ≤ z_slot a → z_slot b = z_slot a).
Proof.
  intros He Hs S. assert (∀ i p, z_ts a !! i = Some p → no_reloc p) as Hpc by apply S.
  pose proof (sd_slot a S) as S1. pose proof (sd_held a S) as S2.
  destruct Hs as [s o ts i Hi|s o ts i n Hi|s o ts i ? Hi|s o ts i ? Hi|o ts i n Hi|s o ts i n Hi|s o ts i n Hi
    |o ts i t Hi|s o ts i t n Hi|s o ts i t Hi|o ts i t n Hi|s o ts i t n Hi|s o ts i t n Hi|s o ts i t Hi];
    try (by destruct He); try (by apply Hpc in Hi); try done; cbn [z_slot z_open z_ts] in *;
    (split; [eapply steady_update; [exact Hi|exact S|done|..]|done || lia]); cbn [answers];
    try (specialize (S2 i _ n Hi)); unfold close_one; try destruct (Z.leb_spec 0 n); set_solver by lia.
Qed.

(** ** The theorems *)


Lemma steady_init k : steady (lazy_init k).
Proof.
  split; cbn [z_slot z_open z_ts lazy_init]; [lia|..].
  - by intros i p n [-> _]%lookup_replicate ?%elem_of_nil.
  - by intros i j p q n [-> _]%lookup_replicate _ ?%elem_of_nil.
  - by intros i p [-> _]%lookup_replicate.
Qed.

Lemma steady_runs a b :
  run_with s_debugfd opening_only a b → steady a → steady b ∧ (0 ≤ z_slot a → z_slot b = z_slot a).
Proof.
  unfold run_with. intros Hr S.
  refine (rtc_ind_r (λ b, steady b ∧ (0 ≤ z_slot a → z_slot b = z_slot a)) a _ _ b Hr); [done|].
  intros c d _ (e & He & Hs) [Sc Hc]. destruct (steady_step c d e He Hs Sc) as [Sd Hd]. split; [done|].
  intros Ha. rewrite Hd; [by apply Hc|]. by rewrite Hc.
Qed.

(** While the log is opened and not yet moved, every thread that finds a descriptor in the slot can write to
    it: it is open, and it stays in the slot. *)
Theorem lazy_open_once k a :
  run_with s_debugfd opening_only (lazy_init k) a →
  (0 ≤ z_slot a → z_slot a ∈ z_open a) ∧
  ∀ b, run_with s_debugfd opening_only a b → 0 ≤ z_slot a → z_slot b = z_slot a ∧ z_slot a ∈ z_open b.
Proof.
  intros Ha. destruct (steady_runs _ _ Ha (steady_init k)) as [S _]. split; [apply S|]. intros b Hb Hs.
  destruct (steady_runs _ _ Hb S) as [Sb E]. rewrite <-(E Hs). split; [done|]. apply Sb. by rewrite E.
Qed.

(** ** Runs step by step *)
Lemma run_cons who ok e a b c :
  ok e → lazy_step who e a b → run_with who ok b c → run_with who ok a c.
Proof. intros He Hs Hr. apply (rtc_l _ a b); [by exists e|done]. Qed.

(** The next step of a run, by rule [r]. *)
Tactic Notation "step_by" constr(e) uconstr(r) :=
  eapply (run_cons _ _ e); [first [done | by left | by right]|by apply r|].

(** ** The sequential code is one of the runs *)
Section sequential.
Context {W : Type} `{!Kernel W}.

Lemma log_fd_run o (s : st W) :
  (∀ p fl mo n w, kstep (k_open p fl mo) (s_world s) = (inl n, w) → 0 ≤ n ∧ n ∉ o) →
  ∃ fd s' o', log_fd s = Ret fd s' ∧
    run_with s_debugfd opening_only (mklazy (debugfd (s_mem s)) o [z_idle]) (mklazy (debugfd (s_mem s')) o' [z_idle]).
Proof.
  intros Hk. unfold log_fd. rewrite bind_getm. destruct (Z.ltb_spec (debugfd (s_mem s)) (-1)) as [Hlt|Hge].
  2: { exists (debugfd (s_mem s)), s, o. split; [done|]. apply rtc_refl. }
  rewrite bind_getm. unfold bind at 1, sys. specialize (Hk (default "/dev/tty" (wslcompat_tunable_str (options (s_mem s)) "logfile" (Some "/dev/tty")))
    (Z.lor O_WRONLY (Z.lor O_CREAT (Z.lor O_APPEND O_CLOEXEC))) 384).
  destruct (kstep _ (s_world s)) as [[n|er] w] eqn:E; cbn [default]; rewrite bind_getm; cbn [s_mem].
  - destruct (Hk n w eq_refl) as [Hn Ho]. cbn [id].
    destruct (Z.eqb_spec (debugfd (s_mem s)) (-2)) as [E2|E2].
    + rewrite bind_setm. eexists _, _, ({[n]} ∪ o). split; [reflexivity|]. cbn [s_mem debugfd set_debugfd]. rewrite E2.
      step_by e_quiet (z_load _ _ _ _ 0).
      step_by e_quiet (z_open_ok _ _ _ _ 0 n).
      step_by e_quiet (z_install_ok _ _ _ 0 n). apply rtc_refl.
    + rewrite (proj2 (Z.leb_le 0 n)) by done.
      assert (∃ s1, (sys (k_close n) ;;* ret tt) (mkst (s_mem s) w (s_errno s)) = Ret tt s1 ∧ s_mem s1 = s_mem s) as (s1 & E1 & Hm).
      { destruct (sys_Ret (k_close n) (mkst (s_mem s) w (s_errno s))) as (r & s1 & E1 & Hm). exists s1.
        by rewrite (bind_Ret _ _ _ _ _ E1). }
      rewrite (bind_Ret _ _ _ _ _ E1). eexists _, _, (close_one n ({[n]} ∪ o)). split; [reflexivity|]. rewrite Hm.
      step_by e_quiet (z_load _ _ _ _ 0).
      step_by e_quiet (z_open_ok _ _ _ _ 0 n).
      step_by e_quiet (z_install_lost _ _ _ _ 0 n).
      step_by e_quiet (z_close_lost _ _ _ _ 0 n). apply rtc_refl.
  - cbn [id]. destruct (Z.eqb_spec (debugfd (s_mem s)) (-2)) as [E2|E2].
    + rewrite bind_setm. eexists _, _, o. split; [reflexivity|]. cbn [s_mem debugfd set_debugfd]. rewrite E2.
      step_by e_quiet (z_load _ _ _ _ 0).
      step_by e_open_fails (z_open_fails_log _ _ _ _ 0).
      step_by e_quiet (z_install_ok _ _ _ 0 (-1)). apply rtc_refl.
    + change (0 <=? -1) with false. cbv iota. rewrite bind_ret. eexists _, _, (close_one (-1) o). split; [reflexivity|]. cbn [s_mem].
      step_by e_quiet (z_load _ _ _ _ 0).
      step_by e_open_fails (z_open_fails_log _ _ _ _ 0).
      step_by e_quiet (z_install_lost _ _ _ _ 0 (-1)).
      step_by e_quiet (z_close_lost _ _ _ _ 0 (-1)). apply rtc_refl.
Qed.
End sequential.

(** ** Two threads that open the log at once *)
Definition raced : lazy_fd := mklazy 5 (close_one 6 {[6; 5]}) [z_idle; z_idle].

Lemma raced_run : run_with s_debugfd (gentle s_debugfd) (lazy_init 2) raced.
Proof.
  step_by e_quiet (z_load s_debugfd (-2) ∅ [z_idle; z_idle] 0).
  step_by e_quiet (z_load s_debugfd (-2) ∅ [z_opening; z_idle] 1).
  step_by e_quiet (z_open_ok s_debugfd (-2) ∅ [z_opening; z_opening] 0 5).
  step_by e_quiet (z_open_ok s_debugfd (-2) ({[5]} ∪ ∅) [z_install 5; z_opening] 1 6).
  step_by e_quiet (z_install_ok s_debugfd ({[6]} ∪ ({[5]} ∪ ∅)) [z_install 5; z_install 6] 0 5).
  step_by e_quiet (z_install_lost s_debugfd 5 ({[6]} ∪ ({[5]} ∪ ∅)) [z_idle; z_install 6] 1 6).
  step_by e_quiet (z_close_lost s_debugfd 5 ({[6]} ∪ ({[5]} ∪ ∅)) [z_idle; z_lost 6] 1 6).
  apply rtc_refl.
Qed.


(** ** What the unconditional stores lose *)

(** statx.c stores -1 when its open fails, also over the descriptor that another thread has put there in the
    meantime: that one stays open, and nothing will find, move or close it. *)
Lemma mount_fd_lost :
  ∃ a, run_with s_mount_fd (λ e, e = e_quiet ∨ e = e_open_fails) (lazy_init 2) a ∧
    Forall (λ p, p = z_idle) (z_ts a) ∧ z_slot a = -1 ∧ 5 ∈ z_open a.
Proof.
  eexists. split.
  - step_by e_quiet (z_load s_mount_fd (-2) ∅ [z_idle; z_idle] 0).
    step_by e_quiet (z_load s_mount_fd (-2) ∅ [z_opening; z_idle] 1).
    step_by e_quiet (z_open_ok s_mount_fd (-2) ∅ [z_opening; z_opening] 0 5).
    step_by e_quiet (z_install_ok s_mount_fd ({[5]} ∪ ∅) [z_install 5; z_opening] 0 5).
    step_by e_open_fails (z_open_fails_mount s_mount_fd 5 ({[5]} ∪ ∅) [z_idle; z_opening] 1).
    apply rtc_refl.
  - split; [by repeat constructor|]. split; [done|]. set_solver.
Qed.

(** internal.c stores -2 when its duplication fails, also over the number to which another thread has moved
    the descriptor in the meantime. *)
Lemma relocated_fd_lost :
  ∃ a, run_with s_debugfd (λ _, True) (lazy_init 2) a ∧
    Forall (λ p, p = z_idle) (z_ts a) ∧ z_slot a = -2 ∧ 6 ∈ z_open a.
Proof.
  eexists. split.
  - step_by e_quiet (z_load s_debugfd (-2) ∅ [z_idle; z_idle] 0).
    step_by e_quiet (z_open_ok s_debugfd (-2) ∅ [z_opening; z_idle] 0 5).
    step_by e_quiet (z_install_ok s_debugfd ({[5]} ∪ ∅) [z_install 5; z_idle] 0 5).
    step_by e_reloc (z_reloc_load s_debugfd ({[5]} ∪ ∅) [z_idle; z_idle] 0 5).
    step_by e_reloc (z_reloc_load s_debugfd ({[5]} ∪ ∅) [z_dup 5; z_idle] 1 5).
    step_by e_quiet (z_reloc_dup s_debugfd 5 ({[5]} ∪ ∅) [z_dup 5; z_dup 5] 0 5 6).
    step_by e_quiet (z_move_ok s_debugfd ({[6]} ∪ ({[5]} ∪ ∅)) [z_move 5 6; z_dup 5] 0 5 6).
    step_by e_dup_fails (z_reloc_fails s_debugfd 6 ({[6]} ∪ ({[5]} ∪ ∅)) [z_free 5; z_dup 5] 1 5).
    step_by e_quiet (z_close_target s_debugfd (-2) ({[6]} ∪ ({[5]} ∪ ∅)) [z_free 5; z_free 5] 0 5).
    step_by e_quiet (z_close_target s_debugfd (-2) (close_one 5 ({[6]} ∪ ({[5]} ∪ ∅))) [z_idle; z_free 5] 1 5).
    apply rtc_refl.
  - split; [by repeat constructor|]. split; [done|]. unfold close_one. cbn. set_solver.
Qed.
