(* ===== verification/Syscall.v ===== *)
(** * syscall.c

    A program that calls syscall() has opted out of the shims; the [syscall] option opts it in
    again, for execve and mmap. *)

From S2P Require Import Prelude CString Kernel State Tunables Override Walk Synth Handlers Mmap Execve.

Open Scope Z_scope.

Definition SYS_mmap : Z := 9.
Definition SYS_execve : Z := 59.

Section syscall.
Context {W : Type} `{!Kernel W} {Hfuel : Fuel}.
Variable libc_has_argv0 : bool.
(** The strings and string arrays of the program at an address. *)
Variables (str_at : Z → string) (strv_at : Z → option (list string)).
Local Abbreviation M := (prog (st W)).

(** [SYSCALL_REDIRECT (fn)]: whether the call is handed to the shim. [redir] is set while one is
    running in this thread. *)
Definition SYSCALL_REDIRECT (redir : bool) (fn : string) : M bool :=
  getm (λ m, wslcompat_tunable_list (options m) "syscall" fn && negb redir).

(** The arguments are six [long]s; the shim takes the ones it declares [int] modulo 2^32. *)
Definition syscall (redir : bool) (number a0 a1 a2 a3 a4 a5 : Z) : M (option Z) :=
  let* to_execve := SYSCALL_REDIRECT redir "execve" in
  let* to_mmap := SYSCALL_REDIRECT redir "mmap" in
  if (number =? SYS_execve) && (to_execve : bool) then
    let* r := execve libc_has_argv0 (str_at a0) (strv_at a1) (strv_at a2) in
    ret (match r with Some _ => Some 0 | None => None end)
  else if (number =? SYS_mmap) && (to_mmap : bool) then
    mmap a0 (wrap_u 64 a1) (wrap_s 32 a2) (wrap_s 32 a3) (wrap_s 32 a4) a5
  else sys (k_syscall number [a0; a1; a2; a3; a4; a5]).

(** syscall() is the kernel's, whatever it is called for, unless the option names the call; and it
    is again inside a shim that was entered that way, so the shims cannot recurse. *)
Theorem syscall_opts_out redir number a0 a1 a2 a3 a4 a5 (s : st W) :
  redir = true ∨
  (number = SYS_execve → wslcompat_tunable_list (options (s_mem s)) "syscall" "execve" = false) ∧
  (number = SYS_mmap → wslcompat_tunable_list (options (s_mem s)) "syscall" "mmap" = false) →
  syscall redir number a0 a1 a2 a3 a4 a5 s = sys (k_syscall number [a0; a1; a2; a3; a4; a5]) s.
Proof.
  intros H. unfold syscall, SYSCALL_REDIRECT. rewrite !bind_getm.
  destruct H as [->|[He Hm]]; [by rewrite !andb_false_r|].
  destruct (Z.eqb_spec number SYS_execve) as [Hn|]; [by rewrite He, Hn|]. cbn [andb].
  destruct (Z.eqb_spec number SYS_mmap) as [Hn|]; [by rewrite Hm|done].
Qed.

(** With the option, syscall(SYS_mmap) is the mmap shim, for every argument an mmap can have. *)
Theorem syscall_mmap_redirects a0 a1 a2 a3 a4 a5 (s : st W) :
  wslcompat_tunable_list (options (s_mem s)) "syscall" "mmap" = true →
  in_u 64 a1 → in_s 32 a2 → in_s 32 a3 → in_s 32 a4 →
  syscall false SYS_mmap a0 a1 a2 a3 a4 a5 s = mmap a0 a1 a2 a3 a4 a5 s.
Proof.
  intros H H1 H2 H3 H4. unfold syscall, SYSCALL_REDIRECT. rewrite !bind_getm, H.
  change (SYS_mmap =? SYS_execve) with false. rewrite Z.eqb_refl. cbn [andb negb].
  by rewrite wrap_u_id, !wrap_s_id by done.
Qed.
End syscall.
