(* ===== verification/XattrLocks.v ===== *)
(** * future/xattr_locks.c: byte-range locks on a bulletin board

    A sketch of record locks kept as extended attributes of the locked file, one lock per
    attribute, the board guarded by a short-term flock. It is not linked into the library: its calls
    go straight to the kernel. *)

From S2P Require Import Prelude CString Kernel State Tunables Override ProcStat Sockopt.

Open Scope Z_scope.

Definition MAX_SLOTS : nat := 8.

(** The loop that counts 19 blanks: the text after the [n]-th blank. *)
Fixpoint after_blanks (n : nat) (p : string) : string :=
  match n with
  | O => p
  | S n' =>
      (fix go (p : string) : string :=
         match p with
         | EmptyString => EmptyString
         | String c p' => if bool_decide (c = " "%char) then after_blanks n' p' else go p'
         end) p
  end.

(** What get_start_time makes of the text it has read. *)
Definition start_time_of (buf : string) : Z :=
  match strrchr_after buf ")" with
  | None => 0
  | Some p => match scan_number 10 (after_blanks 19 p) with
              | Some _ => fst (strtoull (after_blanks 19 p) 10)
              | None => 0
              end
  end.

Definition range_conflict (a b : flock_t) : bool :=
  if (l_type a =? F_RDLCK) && (l_type b =? F_RDLCK) then false
  else if (l_len a =? 0) || (l_len b =? 0) then true
  else if wrap_s 64 (l_start b + l_len b) <=? l_start a then false
  else if wrap_s 64 (l_start a + l_len a) <=? l_start b then false
  else true.

(** ** The text of a lock

    [sscanf (val, "%d:%lu:%hd:%ld:%ld", ...)]: one number and the colon after it. *)
Definition scan_colon (s : string) : option (Z * string) :=
  match scan_number 10 s with
  | Some (neg, v, String c rest) =>
      if chr c =? 58 then Some (if neg then - v else v, rest) else None
  | _ => None
  end.

Record posted := { owner : Z; start_time : Z; p_type : Z; p_start : Z; p_len : Z }.

Definition clamp_long (z : Z) : Z := Z.max LONG_MIN (Z.min LONG_MAX z).

Definition sscanf_lock (val : string) : option posted :=
  ow ← scan_colon val;
  st ← scan_colon (snd ow);
  ty ← scan_colon (snd st);
  ls ← scan_colon (snd ty);
  ll ← scan_number 10 (snd ls);
  let '(neg, v, _) := ll in
  Some {| owner := wrap_s 32 (clamp_long (fst ow)); start_time := fst (strtoull (snd ow) 10);
          p_type := wrap_s 16 (clamp_long (fst ty)); p_start := clamp_long (fst ls);
          p_len := clamp_long (if (neg : bool) then - v else v) |}.

(** The owner and the start time, [sscanf (val, "%d:%lu:", ...) == 2]. *)
Definition sscanf_owner (val : string) : option (Z * Z) :=
  ow ← scan_colon val;
  _ ← scan_number 10 (snd ow);
  Some (wrap_s 32 (clamp_long (fst ow)), fst (strtoull (snd ow) 10)).

Definition lock_text (p : posted) : string :=
  fmt_d (owner p) +:+ String ":" (fmt_d (start_time p) +:+ String ":" (fmt_d (p_type p) +:+
  String ":" (fmt_d (p_start p) +:+ String ":" (fmt_d (p_len p))))).

Definition lock_attr (i : nat) : string := "user.wslcompat.lock." +:+ fmt_d (Z.of_nat i).

Definition as_flock (p : posted) : flock_t :=
  {| l_type := p_type p; l_whence := SEEK_SET; l_start := p_start p; l_len := p_len p; l_pid := 0 |}.

Section locks.
Context {W : Type} `{!Kernel W} {Hfuel : Fuel}.
Local Abbreviation M := (prog (st W)).

Definition get_start_time (pid : Z) : M Z :=
  let* fd := sys (k_open (snprintf_s 64 ("/proc/" +:+ fmt_d pid +:+ "/stat")) O_RDONLY 0) in
  match fd with
  | None => ret 0
  | Some fd =>
      let* r := sys (k_read fd 511) in
      sys (k_close fd) ;;*
      match r with
      | None => ret 0
      | Some buf => if (String.length buf =? 0)%nat then ret 0 else ret (start_time_of (cstr buf))
      end
  end.

(** [fgetxattr (fd, attr, val, sizeof (val)) > 0]: the buffer afterwards, which keeps what was in
    it after the value. *)
Definition get_slot (fd : Z) (i : nat) (val : string) : M (bool * string) :=
  let* r := sys (k_fgetxattr fd (lock_attr i) 128) in
  match r with
  | Some v => ret ((0 <? String.length v)%nat, memcpy val v)
  | None => ret (false, val)
  end.

(** One turn of the loop of scan_range_conflicts: the answer, if the loop ends, and the buffer. *)
Definition scan_slot (fd : Z) (fl : flock_t) (my_start : Z) (i : nat) (val : string) :
    M (bool * string) :=
  let* g := get_slot fd i val in
  let val := snd g in
  if negb (fst g) then ret (false, val)
  else
    match sscanf_lock (cstr val) with
    | None => sys (k_fremovexattr fd (lock_attr i)) ;;* ret (false, val)
    | Some p =>
        let* pid := getpid in
        if (owner p =? pid) && (start_time p =? my_start) then ret (false, val)
        else
          let* k := sys (k_kill (owner p) 0) in
          let* e := get_errno in
          if match k with None => e =? ESRCH | Some _ => false end
          then sys (k_fremovexattr fd (lock_attr i)) ;;* ret (false, val)
          else
            let* st := get_start_time (owner p) in
            if negb (st =? start_time p)
            then sys (k_fremovexattr fd (lock_attr i)) ;;* ret (false, val)
            else ret (range_conflict fl (as_flock p), val)
    end.

Fixpoint scan_loop (idx : list nat) (fd : Z) (fl : flock_t) (my_start : Z) (val : string) : M bool :=
  match idx with
  | [] => ret false
  | i :: idx =>
      let* r := scan_slot fd fl my_start i val in
      if (fst r : bool) then ret true else scan_loop idx fd fl my_start (snd r)
  end.

(** [stack] is what the uninitialized buffer happens to hold; a call reads the values of the board
    into one such buffer, this one or that of fcntl_lock_shim. *)
Definition scan_range_conflicts (stack : string) (fd : Z) (fl : flock_t) : M bool :=
  let* pid := getpid in
  let* my_start := get_start_time pid in
  scan_loop (seq 0 MAX_SLOTS) fd fl my_start stack.

(** The loop that removes the caller's locks. *)
Fixpoint unlock_loop (idx : list nat) (fd pid my_start : Z) (val : string) : M unit :=
  match idx with
  | [] => ret tt
  | i :: idx =>
      let* g := get_slot fd i val in
      (if negb (fst g) then ret tt
       else match sscanf_owner (cstr (snd g)) with
            | Some (o, s) => if (o =? pid) && (s =? my_start)
                             then sys (k_fremovexattr fd (lock_attr i)) ;;* ret tt else ret tt
            | None => ret tt
            end) ;;*
      unlock_loop idx fd pid my_start (snd g)
  end.

(** The loop that posts a lock in the first empty slot. *)
Fixpoint post_loop (idx : list nat) (fd : Z) (text val : string) : M (option Z) :=
  match idx with
  | [] => sys (k_flock fd LOCK_UN) ;;* fail_with ENOLCK
  | i :: idx =>
      let* g := get_slot fd i val in
      if (fst g : bool) then post_loop idx fd text (snd g)
      else
        let* r := sys (k_fsetxattr fd (lock_attr i) text 0) in
        sys (k_flock fd LOCK_UN) ;;*
        ret (match r with Some _ => Some 0 | None => None end)
  end.

Definition is_setlk (cmd : Z) : bool := (cmd =? F_SETLK) || (cmd =? F_OFD_SETLK).

Definition whole_file_lock (stack : string) (fd cmd : Z) (fl : flock_t) : M (option Z) :=
  let operation := if l_type fl =? F_RDLCK then LOCK_SH
                   else if l_type fl =? F_WRLCK then LOCK_EX else LOCK_UN in
  let operation := if is_setlk cmd then Z.lor operation LOCK_NB else operation in
  let* r := sys (k_flock fd operation) in
  match r with
  | None => ret None
  | Some _ =>
      if operation =? LOCK_UN then ret (Some 0)
      else
        let* c := scan_range_conflicts stack fd fl in
        if (c : bool) then sys (k_flock fd LOCK_UN) ;;* fail_with EAGAIN else ret (Some 0)
  end.

Definition fcntl_lock_shim (stack : string) (fd cmd : Z) (fl : flock_t) : M (option Z) :=
  let* pid := getpid in
  let* my_start := get_start_time pid in
  if (l_start fl =? 0) && (l_len fl =? 0) then whole_file_lock stack fd cmd fl
  else
    let* r := sys (k_flock fd LOCK_EX) in
    match r with
    | None => ret None
    | Some _ =>
        if l_type fl =? F_UNLCK then
          unlock_loop (seq 0 MAX_SLOTS) fd pid my_start stack ;;*
          sys (k_flock fd LOCK_UN) ;;*
          ret (Some 0)
        else
          let* c := scan_range_conflicts stack fd fl in
          if (c : bool) then sys (k_flock fd LOCK_UN) ;;* fail_with EAGAIN
          else
            let text := snprintf_s 128 (lock_text {| owner := pid; start_time := my_start;
              p_type := l_type fl; p_start := l_start fl; p_len := l_len fl |}) in
            post_loop (seq 0 MAX_SLOTS) fd text stack
    end.

(** The blocking commands poll. *)
Fixpoint lock_wait (n : nat) (stack : string) (fd cmd : Z) (fl : flock_t) : M (option Z) :=
  match n with
  | O => nofuel
  | S n' =>
      let* r := fcntl_lock_shim stack fd cmd fl in
      match r with
      | Some _ => ret (Some 0)
      | None =>
          let* e := get_errno in
          if negb (e =? EAGAIN) then ret None
          else sys (k_usleep 10000) ;;* lock_wait n' stack fd cmd fl
      end
  end.

Definition fcntl_common (stack : string) (fd cmd : Z) (arg : fcntl_arg) : M (option Z) :=
  match arg with
  | arg_flock fl =>
      if is_setlk cmd then fcntl_lock_shim stack fd cmd fl
      else if (cmd =? F_SETLKW) || (cmd =? F_OFD_SETLKW) then lock_wait fuel stack fd cmd fl
      else sys (k_fcntl fd cmd arg)
  | arg_int _ => sys (k_fcntl fd cmd arg)
  end.
End locks.

(** ** Ranges *)
Definition covers (l : flock_t) (x : Z) : Prop := l_start l ≤ x < l_start l + l_len l.

Definition range_ok (l : flock_t) : Prop := 0 ≤ l_start l ∧ 0 < l_len l ∧ l_start l + l_len l < 2 ^ 63.

(** Two locks on ranges conflict exactly when some byte is in both and one of them is for writing. *)
Theorem range_conflict_overlaps a b :
  range_ok a → range_ok b →
  range_conflict a b = true ↔
  ¬ (l_type a = F_RDLCK ∧ l_type b = F_RDLCK) ∧ ∃ x, covers a x ∧ covers b x.
Proof.
  intros (Ha1 & Ha2 & Ha3) (Hb1 & Hb2 & Hb3). unfold range_conflict, covers.
  rewrite !wrap_s_id by (unfold in_s; lia).
  destruct (Z.eqb_spec (l_type a) F_RDLCK) as [Ta|Ta], (Z.eqb_spec (l_type b) F_RDLCK) as [Tb|Tb];
    cbn [andb]; try (split; [done|tauto]).
  all: rewrite (proj2 (Z.eqb_neq (l_len a) 0)), (proj2 (Z.eqb_neq (l_len b) 0)) by lia; cbn [orb].
  all: destruct (Z.leb_spec (l_start b + l_len b) (l_start a)); [split; [done|intros (_ & x & ?); lia]|].
  all: destruct (Z.leb_spec (l_start a + l_len a) (l_start b)); [split; [done|intros (_ & x & ?); lia]|].
  all: split; [intros _; split; [tauto|]; exists (Z.max (l_start a) (l_start b)); lia|done].
Qed.

(** ** The text of a lock reads back *)
Lemma scan_colon_fmt z rest : scan_colon (fmt_d z +:+ String ":" rest) = Some (z, rest).
Proof.
  unfold scan_colon. rewrite scan_number_fmt by done. change (chr ":" =? 58) with true. cbv beta iota.
  destruct (Z.ltb_spec z 0); do 2 f_equal; lia.
Qed.

Definition posted_ok (p : posted) : Prop :=
  in_s 32 (owner p) ∧ 0 ≤ start_time p ≤ ULONG_MAX ∧ in_s 16 (p_type p) ∧
  in_s 64 (p_start p) ∧ in_s 64 (p_len p).

Lemma clamp_long_id z : in_s 64 z → clamp_long z = z.
Proof. unfold in_s, clamp_long, LONG_MIN, LONG_MAX. simpl. lia. Qed.

(** A posted lock is read back as it was posted, by whichever process. *)
Theorem lock_text_roundtrip p : posted_ok p → sscanf_lock (lock_text p) = Some p.
Proof.
  intros (Ho & Hs & Ht & Hl & Hn). unfold sscanf_lock, lock_text.
  rewrite scan_colon_fmt. cbn [mbind option_bind snd fst]. rewrite scan_colon_fmt.
  cbn [mbind option_bind snd fst]. rewrite scan_colon_fmt. cbn [mbind option_bind snd fst].
  rewrite scan_colon_fmt. cbn [mbind option_bind snd fst].
  rewrite <-(append_empty (fmt_d (p_len p))) at 1. rewrite scan_number_fmt by done. cbn [mbind option_bind].
  unfold strtoull. rewrite scan_number_fmt by done.
  rewrite (proj2 (Z.ltb_ge ULONG_MAX _)) by lia. rewrite (proj2 (Z.ltb_ge (start_time p) 0)) by lia.
  cbn [fst].
  assert ((if p_len p <? 0 then - Z.abs (p_len p) else Z.abs (p_len p)) = p_len p) as ->
    by (destruct (Z.ltb_spec (p_len p) 0); lia).
  assert (∀ w z, 0 < w ≤ 64 → in_s w z → in_s 64 z) as Hw.
  { intros w z Hw [H1 H2]. assert (2 ^ (w - 1) ≤ 2 ^ (64 - 1)) by (apply Z.pow_le_mono_r; lia).
    unfold in_s. lia. }
  rewrite !clamp_long_id by (done || by (eapply Hw; [|done]; lia)).
  rewrite !wrap_s_id by (done || lia). rewrite Z.abs_eq by lia. by destruct p.
Qed.

(** ** What the sketch gets wrong *)
Definition sample_stat : string :=
  "42 (sh) S 1 42 42 0 -1 4194304 5 0 0 0 1 2 0 0 20 0 1 0 123456 0 0".

(** The start time is taken from field 21, which is always 0, where the library takes field 22. *)
Theorem start_time_wrong_field : start_time_of sample_stat = 0 ∧ parse_starttime sample_stat = 123456.
Proof. by vm_compute. Qed.

Definition lock_a : posted := {| owner := 10; start_time := 0; p_type := 1; p_start := 0; p_len := 12345 |}.
Definition lock_b : posted := {| owner := 11; start_time := 0; p_type := 1; p_start := 0; p_len := 1 |}.

(** The buffer is not terminated after a value: a lock of one byte that is read after a lock of
    12345 bytes is read as a lock of 12345 bytes. *)
Theorem stale_lock_buffer :
  sscanf_lock (cstr (memcpy (memcpy (zeros 128) (lock_text lock_a)) (lock_text lock_b))) =
    Some {| owner := 11; start_time := 0; p_type := 1; p_start := 0; p_len := 12345 |}.
Proof. by vm_compute. Qed.

(** One process, 42, and the attributes of one file. Process 10, alive, has posted [lock_a]. *)
Module BoardKernel.
Definition world : Type := list (string * string).
Definition step {R} (c : call R) (w : world) : (R + Z) * world :=
  match c in call R return (R + Z) * world with
  | k_open _ _ _ => (inl 5, w)
  | k_read _ _ => (inl sample_stat, w)
  | k_close _ => (inl tt, w)
  | k_flock _ _ => (inl tt, w)
  | k_kill _ _ => (inl tt, w)
  | k_fgetxattr _ name _ =>
      (match list_find (λ p : string * string, p.1 = name) w with
       | Some (_, (_, v)) => inl v
       | None => inr EOPNOTSUPP
       end, w)
  | k_fsetxattr _ name v _ => (inl 0, (name, v) :: w)
  | _ => (inr ENOSYS, w)
  end.
#[global] Instance kernel : Kernel world := {| kstep := @step; kpid := λ _, 42 |}.
Definition s0 : st world := mkst init_mem [(lock_attr 0, lock_text lock_a)] 0.
Definition request (type start len : Z) : flock_t :=
  {| l_type := type; l_whence := SEEK_SET; l_start := start; l_len := len; l_pid := 0 |}.
End BoardKernel.

(** Locks of the board at work: a range that process 10 holds is refused, another is posted. *)
Example board_run :
  (∃ s, fcntl_lock_shim (zeros 128) 3 F_SETLK (BoardKernel.request F_WRLCK 12344 2) BoardKernel.s0 = Ret None s ∧
     s_errno s = EAGAIN) ∧
  (∃ s, fcntl_lock_shim (zeros 128) 3 F_SETLK (BoardKernel.request F_WRLCK 12345 2) BoardKernel.s0 = Ret (Some 0) s ∧
     s_world s = [(lock_attr 1, "42:0:1:12345:2"); (lock_attr 0, lock_text lock_a)]).
Proof. split; eexists; (split; [by vm_compute|by vm_compute]). Qed.

(** Giving a whole-file lock back with F_SETLK fails while another process holds a range: the
    operation is compared with LOCK_UN after LOCK_NB was added to it. *)
Theorem unlock_refused :
  ∃ s, fcntl_lock_shim (zeros 128) 3 F_SETLK (BoardKernel.request F_UNLCK 0 0) BoardKernel.s0 = Ret None s ∧
    s_errno s = EAGAIN.
Proof. eexists. split; by vm_compute. Qed.
