(* ===== verification/SharedLocks.v ===== *)
(** * future/locks.c: a table of locks in shared memory

    The sketch of a lock manager that is not linked into the library. What it has is the set-up of the
    shared segment, [init_shm], and the test [file_locked]; the three lock functions after them are
    outlines in comments around an undeclared variable and do not compile. *)

From stdpp Require Import gmap.
From S2P Require Import Prelude CString Kernel.

Open Scope Z_scope.

Definition SHM_NAME : string := "/dev/shm/wslcompat".
Definition SHM_MAGIC : Z := 829191031.
Definition SHM_VERSION : Z := 1.
Definition MAX_LOCKS : Z := 1024.
Definition MAP_FAILED : Z := -1.

(** sizeof (struct filelock): a struct stat, a struct flock and a mutex; and of the table of them. *)
Definition sizeof_filelock : Z := 144 + 32 + 40.
Definition sizeof_locktable : Z := 4 + 4 + 40 + MAX_LOCKS * sizeof_filelock.

(** The calls of the sketch, with the loads and stores it makes through the mapped pointer. *)
Inductive shm_call : Type → Type :=
| c_open (path : string) (flags mode : Z) : shm_call Z
| c_mkstemp (template : string) : shm_call (Z * string)
| c_ftruncate (fd length : Z) : shm_call Z
| c_mmap (length fd : Z) : shm_call Z
| c_load_magic (lt : Z) : shm_call Z
| c_mutex_init (lt : Z) : shm_call unit
| c_store_magic (lt v : Z) : shm_call unit
| c_store_version (lt v : Z) : shm_call unit
| c_link (old new : string) : shm_call Z
| c_unlink (path : string) : shm_call Z
| c_close (fd : Z) : shm_call Z
| c_munmap (lt length : Z) : shm_call Z
| c_flock (fd op : Z) : shm_call Z.

(** A call gives its value, -1 of a failing one included, and the errno it sets, if it does. *)
Class ShmKernel (W : Type) := shm_step : ∀ {R}, shm_call R → W → R * option Z * W.

Record shm_st (W : Type) := mkshm { shm_world : W; shm_errno : Z }.
Arguments mkshm {W}.
Arguments shm_world {W}.
Arguments shm_errno {W}.

(** strstr (s, needle) != NULL *)
Fixpoint strstr (needle s : string) : bool :=
  starts_with needle s || match s with EmptyString => false | String _ s' => strstr needle s' end.

Section init_shm.
Context {W : Type} `{!ShmKernel W}.
Local Abbreviation M := (prog (shm_st W)).

Definition c {R} (x : shm_call R) : M R :=
  λ s, let '(r, e, w) := shm_step x (shm_world s) in Ret r (mkshm w (default (shm_errno s) e)).

(** From the label [cleanup] on. *)
Definition init_shm_cleanup (fd lt : Z) (tmpfile : string) : M Z :=
  (if fd =? -1 then ret tt else c (c_close fd) ;;* ret tt) ;;*
  (if lt =? MAP_FAILED then ret tt else c (c_munmap lt sizeof_locktable) ;;* ret tt) ;;*
  (if strstr ".XXXXXX" tmpfile then c (c_unlink tmpfile) ;;* ret tt else ret tt) ;;*
  ret lt.

(** The installation of a segment that was just initialised; [again] is the recursive call at the label
    [retry], which falls through to [cleanup]. *)
Definition init_shm_install (again : M Z) (fd lt : Z) (tmpfile : string) : M Z :=
  let* r := c (c_link tmpfile SHM_NAME) in
  if r =? 0 then c (c_unlink tmpfile) ;;* c (c_close fd) ;;* ret lt
  else
    let* e := gets shm_errno in
    if e =? EEXIST then let* lt := again in init_shm_cleanup fd lt tmpfile
    else init_shm_cleanup fd lt tmpfile.

(** From the mapping on. *)
Definition init_shm_map (again : M Z) (fd : Z) (tmpfile : string) : M Z :=
  let* lt := c (c_mmap sizeof_locktable fd) in
  if lt =? MAP_FAILED then init_shm_cleanup fd lt tmpfile
  else
    let* magic := c (c_load_magic lt) in
    if magic =? SHM_MAGIC then c (c_close fd) ;;* ret lt
    else
      c (c_mutex_init lt) ;;*
      c (c_store_magic lt SHM_MAGIC) ;;*
      c (c_store_version lt SHM_VERSION) ;;*
      init_shm_install again fd lt tmpfile.

(** [fuel] bounds the depth of the recursion. *)
Fixpoint init_shm (fuel : nat) : M Z :=
  match fuel with
  | O => nofuel
  | S fuel =>
      let template := SHM_NAME +:+ ".XXXXXX" in
      let* fd := c (c_open SHM_NAME O_RDWR 0) in
      if 0 <=? fd then init_shm_map (init_shm fuel) fd template
      else
        let* e := gets shm_errno in
        if negb (e =? ENOENT) then init_shm_cleanup fd MAP_FAILED template
        else
          let* made := c (c_mkstemp template) in
          let fd := fst made in
          let tmpfile := snd made in
          if fd <? 0 then init_shm_cleanup fd MAP_FAILED tmpfile
          else
            let* r := c (c_ftruncate fd sizeof_locktable) in
            if r <? 0 then init_shm_cleanup fd MAP_FAILED tmpfile
            else init_shm_map (init_shm fuel) fd tmpfile
  end.

Definition file_locked (fd : Z) : M Z :=
  let* r := c (c_flock fd (Z.lor LOCK_EX LOCK_NB)) in
  if r =? 0 then ret 0 else ret 1.
End init_shm.

(** ** A file system, an address space, and a rival

    What the calls do, as their manual pages say: names lead to inodes, descriptors and mappings refer to
    them. [rival] is a process that installs a finished segment just before the next link. *)
Module ShmWorld.
Record inode := mkino { i_magic : Z; i_version : Z; i_mutex : bool }.
Record world := mkw {
  names : gmap string nat;
  inodes : gmap nat inode;
  fds : gmap Z nat;
  maps : gmap Z nat;
  next_fd : Z;
  next_addr : Z;
  next_ino : nat;
  suffix : string;
  rival : bool;
}.

Definition set_maps f (w : world) :=
  mkw (names w) (inodes w) (fds w) (f (maps w)) (next_fd w) (next_addr w) (next_ino w) (suffix w) (rival w).
Definition set_names f (w : world) :=
  mkw (f (names w)) (inodes w) (fds w) (maps w) (next_fd w) (next_addr w) (next_ino w) (suffix w) (rival w).
Definition set_inodes f (w : world) :=
  mkw (names w) (f (inodes w)) (fds w) (maps w) (next_fd w) (next_addr w) (next_ino w) (suffix w) (rival w).
Definition set_fds f (w : world) :=
  mkw (names w) (inodes w) (f (fds w)) (maps w) (next_fd w) (next_addr w) (next_ino w) (suffix w) (rival w).

Definition blank : inode := mkino 0 0 false.
Definition ready : inode := mkino SHM_MAGIC SHM_VERSION true.

Definition new_fd (ino : nat) (w : world) : world :=
  mkw (names w) (inodes w) (<[next_fd w := ino]> (fds w)) (maps w) (next_fd w + 1) (next_addr w) (next_ino w)
    (suffix w) (rival w).
Definition new_map (ino : nat) (w : world) : world :=
  mkw (names w) (inodes w) (fds w) (<[next_addr w := ino]> (maps w)) (next_fd w) (next_addr w + 4096) (next_ino w)
    (suffix w) (rival w).
Definition new_file (name : string) (i : inode) (w : world) : world :=
  mkw (<[name := next_ino w]> (names w)) (<[next_ino w := i]> (inodes w)) (fds w) (maps w) (next_fd w) (next_addr w)
    (S (next_ino w)) (suffix w) (rival w).
Definition rival_moves (w : world) : world :=
  if rival w then
    let w := new_file SHM_NAME ready w in
    mkw (names w) (inodes w) (fds w) (maps w) (next_fd w) (next_addr w) (next_ino w) (suffix w) false
  else w.

(** A store through a pointer changes the file that is mapped there. *)
Definition store (f : inode → inode) (lt : Z) (w : world) : world :=
  match maps w !! lt with Some ino => set_inodes (alter f ino) w | None => w end.

Definition step {R} (x : shm_call R) (w : world) : R * option Z * world :=
  match x in shm_call R return R * option Z * world with
  | c_open path _ _ => match names w !! path with
                       | Some ino => (next_fd w, None, new_fd ino w)
                       | None => (-1, Some ENOENT, w)
                       end
  | c_mkstemp template =>
      let name := strtake (String.length template - 6) template +:+ suffix w in
      ((next_fd w, name), None, new_fd (next_ino w) (new_file name blank w))
  | c_ftruncate _ _ => (0, None, w)
  | c_mmap _ fd => match fds w !! fd with
                   | Some ino => (next_addr w, None, new_map ino w)
                   | None => (-1, Some EBADF, w)
                   end
  | c_load_magic lt =>
      (default 0 (ino ← maps w !! lt; i_magic <$> (inodes w !! ino)), None, w)
  | c_mutex_init lt => (tt, None, store (λ i, mkino (i_magic i) (i_version i) true) lt w)
  | c_store_magic lt v => (tt, None, store (λ i, mkino v (i_version i) (i_mutex i)) lt w)
  | c_store_version lt v => (tt, None, store (λ i, mkino (i_magic i) v (i_mutex i)) lt w)
  | c_link old new =>
      let w := rival_moves w in
      match names w !! old, names w !! new with
      | Some ino, None => (0, None, set_names <[new := ino]> w)
      | None, _ => (-1, Some ENOENT, w)
      | _, Some _ => (-1, Some EEXIST, w)
      end
  | c_unlink path => match names w !! path with
                     | Some _ => (0, None, set_names (delete path) w)
                     | None => (-1, Some ENOENT, w)
                     end
  | c_close fd => match fds w !! fd with
                  | Some _ => (0, None, set_fds (delete fd) w)
                  | None => (-1, Some EBADF, w)
                  end
  | c_munmap lt _ => (0, None, set_maps (delete lt) w)
  | c_flock _ _ => (0, None, w)
  end.
#[global] Instance kernel : ShmKernel world := @step.

(** The name mkstemp makes in this world. *)
Definition tmpname (w : world) : string := SHM_NAME +:+ "." +:+ suffix w.
End ShmWorld.

Import ShmWorld.

(** Fresh numbers and addresses, a name for the temporary file that is not in use, and a random suffix as
    mkstemp draws it. *)
Record shm_fresh (w : world) : Prop := {
  fresh_fd : 0 ≤ next_fd w ∧ fds w !! next_fd w = None;
  fresh_addr : 0 ≤ next_addr w ∧ maps w !! next_addr w = None ∧ maps w !! (next_addr w + 4096) = None;
  fresh_ino : inodes w !! next_ino w = None;
  fresh_name : names w !! tmpname w = None;
  fresh_suffix : strstr ".XXXXXX" (tmpname w) = false;
}.

Lemma tmp_template w :
  strtake (String.length (SHM_NAME +:+ ".XXXXXX") - 6) (SHM_NAME +:+ ".XXXXXX") +:+ suffix w = tmpname w.
Proof. done. Qed.

Lemma tmp_not_shm w : tmpname w ≠ SHM_NAME.
Proof. done. Qed.

(** One call of the sketch, run. *)
Lemma bind_c {R A} (x : shm_call R) (k : R → prog (shm_st world) A) (w : world) e :
  bind (c x) k (mkshm w e) =
  let '(r, o, w') := step x w in k r (mkshm w' (default e o)).
Proof. unfold c, bind. cbn [shm_world shm_errno]. unfold shm_step, kernel. by destruct (step x w) as [[r o] w']. Qed.

Lemma bind_errno {A} (k : Z → prog (shm_st world) A) (w : world) e :
  bind (gets shm_errno) k (mkshm w e) = k e (mkshm w e).
Proof. done. Qed.

Lemma shm_bind_ret {S A B} (a : A) (k : A → prog S B) s : bind (ret a) k s = k a s.
Proof. done. Qed.

(** The mapping of a finished segment. *)
Lemma map_ready again fd tmp ino w e :
  0 ≤ next_addr w → fds w !! fd = Some ino → inodes w !! ino = Some ready →
  init_shm_map again fd tmp (mkshm w e) = Ret (next_addr w) (mkshm (set_fds (delete fd) (new_map ino w)) e).
Proof.
  intros Ha Hf Hi. unfold init_shm_map. rewrite bind_c. cbn [step]. rewrite Hf. cbn [default id].
  rewrite (proj2 (Z.eqb_neq _ _)) by (unfold MAP_FAILED; lia). rewrite bind_c. cbn [step new_map maps inodes].
  rewrite lookup_insert_eq. cbn. rewrite Hi. cbn. rewrite bind_c. cbn [step fds new_map]. by rewrite Hf.
Qed.

Lemma store_mapped f lt w ino : maps w !! lt = Some ino → store f lt w = set_inodes (alter f ino) w.
Proof. intros E. unfold store. by rewrite E. Qed.

(** The mapping of a new segment: by the time it is to be installed it is finished. *)
Lemma map_blank again fd tmp ino w e :
  0 ≤ next_addr w → fds w !! fd = Some ino → inodes w !! ino = Some blank →
  init_shm_map again fd tmp (mkshm w e) =
  init_shm_install again fd (next_addr w) tmp (mkshm (set_inodes <[ino := ready]> (new_map ino w)) e).
Proof.
  intros Ha Hf Hi. unfold init_shm_map. rewrite bind_c. cbn [step]. rewrite Hf. cbn [default id].
  rewrite (proj2 (Z.eqb_neq _ _)) by (unfold MAP_FAILED; lia). rewrite bind_c. cbn [step new_map maps inodes].
  rewrite lookup_insert_eq. cbn [mbind option_bind]. rewrite Hi. cbn [fmap option_fmap option_map i_magic blank default id].
  change (0 =? SHM_MAGIC) with false. cbv iota.
  do 3 (rewrite bind_c; cbn [step default id]; rewrite (store_mapped _ _ _ ino) by apply lookup_insert_eq).
  do 2 f_equal. unfold set_inodes. cbn. f_equal. apply map_eq. intros j.
  destruct (decide (j = ino)) as [->|]; [|by rewrite lookup_insert_ne, !lookup_alter_ne by done].
  by rewrite lookup_insert_eq, !lookup_alter_eq, Hi.
Qed.

(** The world in which a new segment has a name of its own and is mapped. *)
Definition prepared (w : world) : world :=
  set_inodes <[next_ino w := ready]>
    (new_map (next_ino w) (new_fd (next_ino w) (new_file (tmpname w) blank w))).

Lemma init_shm_prepares n w e :
  shm_fresh w → names w !! SHM_NAME = None →
  init_shm (S n) (mkshm w e) =
  init_shm_install (init_shm n) (next_fd w) (next_addr w) (tmpname w) (mkshm (prepared w) ENOENT).
Proof.
  intros [[Hf Hf'] (Ha & Hm & _) Hi _ _] Hn. cbn [init_shm]. rewrite bind_c. cbn [step]. rewrite Hn. cbn [default id].
  change (0 <=? -1) with false. cbv iota. rewrite bind_errno. change (negb (ENOENT =? ENOENT)) with false. cbv iota.
  rewrite bind_c. cbn [step]. rewrite tmp_template. cbn [default id fst snd next_ino new_file next_fd].
  rewrite (proj2 (Z.ltb_ge _ _)) by lia. rewrite bind_c. cbn [step default id]. change (0 <? 0) with false. cbv iota.
  rewrite (map_blank _ _ _ (next_ino w)); [done|done|apply lookup_insert_eq|apply lookup_insert_eq].
Qed.

(** A segment that is there and finished is mapped, and nothing else is left of the call. *)
Lemma init_shm_opens n ino w e :
  0 ≤ next_fd w → fds w !! next_fd w = None → 0 ≤ next_addr w →
  names w !! SHM_NAME = Some ino → inodes w !! ino = Some ready →
  ∃ w', init_shm (S n) (mkshm w e) = Ret (next_addr w) (mkshm w' e) ∧
    maps w' = <[next_addr w := ino]> (maps w) ∧ names w' = names w ∧ fds w' = fds w ∧ inodes w' = inodes w.
Proof.
  intros Hf Hf' Ha Hn Hi. cbn [init_shm]. rewrite bind_c. cbn [step].
  rewrite Hn. cbn [fst snd default id]. rewrite (proj2 (Z.leb_le 0 _)) by done.
  rewrite (map_ready _ _ _ ino); [|done|apply lookup_insert_eq|done]. eexists. split; [done|]. cbn.
  split_and!; [done|done|by apply delete_insert_id|done].
Qed.

(** The installation, when nobody is in the way. *)
Lemma install_alone again fd fi lt tmp ino w e :
  rival w = false → names w !! tmp = Some ino → tmp ≠ SHM_NAME → names w !! SHM_NAME = None → fds w !! fd = Some fi →
  init_shm_install again fd lt tmp (mkshm w e) =
  Ret lt (mkshm (set_fds (delete fd) (set_names (delete tmp) (set_names <[SHM_NAME := ino]> w))) e).
Proof.
  intros Hr Ht Hne Hn Hf. unfold init_shm_install. rewrite bind_c. cbn [step]. unfold rival_moves. rewrite Hr, Ht, Hn.
  cbn [default id]. change (0 =? 0) with true. cbv iota. rewrite bind_c. cbn [step set_names names].
  rewrite lookup_insert_ne, Ht by done. cbn [default id]. rewrite bind_c. cbn [step set_names fds]. by rewrite Hf.
Qed.

(** The installation, when the rival was faster. *)
Lemma install_loser again fd lt tmp ino w e :
  rival w = true → names w !! tmp = Some ino → tmp ≠ SHM_NAME →
  init_shm_install again fd lt tmp (mkshm w e) =
  (let* lt := again in init_shm_cleanup fd lt tmp) (mkshm (rival_moves w) EEXIST).
Proof.
  intros Hr Ht Hne. unfold init_shm_install. rewrite bind_c. cbn [step].
  assert (names (rival_moves w) !! tmp = Some ino ∧ names (rival_moves w) !! SHM_NAME = Some (next_ino w)) as [E1 E2].
  { unfold rival_moves. rewrite Hr. cbn. by rewrite lookup_insert_eq, lookup_insert_ne. }
  rewrite E1, E2. cbn [default id]. change (-1 =? 0) with false. cbv iota. by rewrite bind_errno.
Qed.

(** Alone, the first process makes a segment, finishes it before it has its name, and leaves no other trace. *)
Lemma init_shm_creates n w e :
  shm_fresh w → names w !! SHM_NAME = None → rival w = false →
  ∃ w', init_shm (S n) (mkshm w e) = Ret (next_addr w) (mkshm w' ENOENT) ∧
    names w' = <[SHM_NAME := next_ino w]> (names w) ∧ inodes w' !! next_ino w = Some ready ∧
    maps w' = <[next_addr w := next_ino w]> (maps w) ∧ fds w' = fds w.
Proof.
  intros Hw Hn Hr. rewrite init_shm_prepares by done. destruct Hw as [[Hf Hf'] _ _ Ht _].
  rewrite (install_alone _ _ (next_ino w) _ _ (next_ino w)).
  - eexists. split; [done|]. cbn. split_and!; [|apply lookup_insert_eq|done|by apply delete_insert_id].
    rewrite delete_insert_ne by done. by rewrite delete_insert_id.
  - done.
  - apply lookup_insert_eq.
  - apply tmp_not_shm.
  - cbn. by rewrite lookup_insert_ne by done.
  - apply lookup_insert_eq.
Qed.

(** The loser of the race for the name maps the winner's segment, and then falls through to the cleanup,
    which unmaps it: the pointer it returns leads nowhere. Its own segment stays mapped, and its temporary
    file stays in the file system, since the name that mkstemp has filled in has no X's left. *)
Lemma init_shm_loser n w e :
  shm_fresh w → names w !! SHM_NAME = None → rival w = true → fds w !! (next_fd w + 1) = None →
  ∃ w' lt, init_shm (S (S n)) (mkshm w e) = Ret lt (mkshm w' EEXIST) ∧ lt ≠ MAP_FAILED ∧
    maps w' !! lt = None ∧ maps w' !! next_addr w = Some (next_ino w) ∧
    names w' !! tmpname w = Some (next_ino w) ∧ names w' !! SHM_NAME = Some (S (next_ino w)) ∧ fds w' = fds w.
Proof.
  intros Hw Hn Hr Hf2. rewrite init_shm_prepares by done. destruct Hw as [[Hf Hf'] (Ha & Hm & Hm2) Hi Ht Hx].
  rewrite (install_loser _ _ _ _ (next_ino w)); [|done|apply lookup_insert_eq|apply tmp_not_shm].
  set (w1 := rival_moves (prepared w)).
  assert (w1 = mkw (<[SHM_NAME := S (next_ino w)]> (<[tmpname w := next_ino w]> (names w)))
    (inodes w1) (<[next_fd w := next_ino w]> (fds w)) (<[next_addr w := next_ino w]> (maps w))
    (next_fd w + 1) (next_addr w + 4096) (S (S (next_ino w))) (suffix w) false ∧
    inodes w1 !! S (next_ino w) = Some ready) as [Hw1 Hi1].
  { assert (rival (prepared w) = true) as E by exact Hr. unfold w1, rival_moves. rewrite E.
    split; [done|]. apply lookup_insert_eq. }
  clearbody w1.
  destruct (init_shm_opens n (S (next_ino w)) w1 EEXIST) as (w2 & E & Em & En & Ef & _);
    [rewrite Hw1; cbn; lia|rewrite Hw1; cbn; rewrite lookup_insert_ne by lia; done|rewrite Hw1; cbn; lia
    |rewrite Hw1; apply lookup_insert_eq|done|].
  rewrite Hw1 in Em, En, Ef. cbn [next_addr maps names fds] in Em, En, Ef.
  rewrite (bind_Ret _ _ _ _ _ E). rewrite Hw1. cbn [next_addr]. unfold init_shm_cleanup.
  rewrite (proj2 (Z.eqb_neq _ _)) by lia. rewrite bind_assoc, bind_c. cbn [step]. rewrite Ef, lookup_insert_eq.
  cbn [default id]. rewrite shm_bind_ret. rewrite (proj2 (Z.eqb_neq _ _)) by (unfold MAP_FAILED; lia).
  rewrite bind_assoc, bind_c. cbn [step default id]. rewrite shm_bind_ret, Hx, shm_bind_ret.
  eexists _, _. split; [done|]. cbn. rewrite Em, En, Ef. split_and!.
  - unfold MAP_FAILED. lia.
  - apply lookup_delete_eq.
  - rewrite lookup_delete_ne, lookup_insert_ne by lia. apply lookup_insert_eq.
  - rewrite lookup_insert_ne by done. apply lookup_insert_eq.
  - apply lookup_insert_eq.
  - by apply delete_insert_id.
Qed.

(** ** A first process, with and without a rival *)
Module ShmDemo.
Definition w (r : bool) : world := mkw ∅ ∅ ∅ ∅ 3 4096 0 "a1b2c3" r.
Lemma fresh r : shm_fresh (w r).
Proof. split; [done|done|done|done|by vm_compute]. Qed.
End ShmDemo.

Example loser_holds_nothing :
  ∃ w' lt, init_shm 2 (mkshm (ShmDemo.w true) 0) = Ret lt (mkshm w' EEXIST) ∧ maps w' !! lt = None ∧
    names w' !! "/dev/shm/wslcompat.a1b2c3" = Some 0%nat.
Proof.
  destruct (init_shm_loser 0 (ShmDemo.w true) 0 (ShmDemo.fresh true)) as (w' & lt & E & _ & Hm & _ & Hn & _); [done..|].
  by exists w', lt.
Qed.
