(* ===== verification/Library.v ===== *)
(** * The library as a whole

    Every entry point an application can call, and the invariant of the table of synthetic
    descriptors along any sequence of calls. *)

From stdpp Require Import gmap.
From S2P Require Import Prelude CString Kernel State Tunables Override Walk FdKernel Internal Synth SynthFrames SynthFacts Close Tty Proc Dispatch Handlers Mmap Fcntl Poll Select Open Elf Preexec Execve Ioctl Statx Clock Epoll CopyRange Sockopt Rename Syscall.

Open Scope Z_scope.

(** The calls of ioctl.c on a terminal. *)
Inductive tty_call :=
| t_tcsetattr (fd actions : Z) (t : termios)
| t_tcgetattr (fd : Z) (t0 : termios)
| t_isatty (fd : Z) (t0 : termios)
| t_tcsetpgrp (fd pgrp : Z)
| t_tcgetpgrp (fd p0 : Z)
| t_tcgetsid (fd p0 : Z)
| t_tcdrain (fd : Z)
| t_tcsendbreak (fd duration : Z)
| t_tcflush (fd queue : Z)
| t_tcflow (fd action : Z)
| t_ttyname (fd : Z)
| t_ttyname_r (fd buflen : Z).

Definition run_tty {W} `{!Kernel W} {Hfuel : Fuel} (c : tty_call) : prog (st W) unit :=
  match c with
  | t_tcsetattr fd a t => tcsetattr fd a t ;;* ret tt
  | t_tcgetattr fd t => tcgetattr fd t ;;* ret tt
  | t_isatty fd t => isatty fd t ;;* ret tt
  | t_tcsetpgrp fd p => tcsetpgrp fd p ;;* ret tt
  | t_tcgetpgrp fd p => tcgetpgrp fd p ;;* ret tt
  | t_tcgetsid fd p => tcgetsid fd p ;;* ret tt
  | t_tcdrain fd => tcdrain fd ;;* ret tt
  | t_tcsendbreak fd d => tcsendbreak fd d ;;* ret tt
  | t_tcflush fd q => tcflush fd q ;;* ret tt
  | t_tcflow fd a => tcflow fd a ;;* ret tt
  | t_ttyname fd => ttyname fd ;;* ret tt
  | t_ttyname_r fd n => ttyname_r fd n ;;* ret tt
  end.

(** The calls that have nothing to do with descriptors of the library's own. *)
Inductive plain_call :=
| p_clock_getres (clk : Z) (res : bool)
| p_epoll_create (size : Z)
| p_epoll_create1 (flags : Z)
| p_epoll_wait (epfd maxevents timeout : Z)
| p_epoll_pwait2 (epfd maxevents : Z) (timeout : option timespec) (sigmask : option Z)
| p_getsockopt (fd level optname : Z) (optval : option string) (optlen : option Z)
| p_setsockopt (fd level optname : Z) (optval : string)
| p_renameat2 (od : Z) (op : string) (nd : Z) (np : string) (flags : Z)
| p_mincore (addr length : Z).

Definition run_plain {W} `{!Kernel W} (c : plain_call) : prog (st W) unit :=
  match c with
  | p_clock_getres clk res => clock_getres clk res ;;* ret tt
  | p_epoll_create n => epoll_create n ;;* ret tt
  | p_epoll_create1 f => epoll_create1 f ;;* ret tt
  | p_epoll_wait e n t => epoll_wait e n t ;;* ret tt
  | p_epoll_pwait2 e n t sg => epoll_pwait2 e n t sg ;;* ret tt
  | p_getsockopt fd l o v n => getsockopt fd l o v n ;;* ret tt
  | p_setsockopt fd l o v => setsockopt fd l o v ;;* ret tt
  | p_renameat2 od op nd np f => renameat2 od op nd np f ;;* ret tt
  | p_mincore a l => mincore a l ;;* ret tt
  end.

Section frames.
Context {W : Type} `{!Kernel W} {Hfuel : Fuel}.
Local Abbreviation M := (prog (st W)).

#[local] Hint Resolve within_set_errno_grow within_set_errno_reach within_reach_grow
  within_pin_fd within_unpin within_passthru within_close within_dup2 within_dup3
  within_close_range within_preexec_save within_preexec_restore within_fstat_shim : within.

Lemma within_fail_reach {A} e : within (@tbreach W) (fail_with (R:=A) e).
Proof. unfold fail_with. within_auto. Qed.
#[local] Hint Resolve within_fail_reach : within.

Lemma within_dispatch_reach {A} (op : synth_ops W → option (nat → M A)) next fd :
  (∀ h f i, op (ops_of h) = Some f → within (same cores) (f i)) →
  (∀ fd, within tbreach (next fd)) → within tbreach (SYNTH_DISPATCH op next fd).
Proof.
  intros Hop Hn. unfold SYNTH_DISPATCH. apply within_bind; [apply _|by within_auto|].
  intros saved. apply within_autopin. intros [i|]; [|by within_auto].
  intros s. unfold entry_ops. rewrite bind_getm.
  destruct (op _) as [f|] eqn:Ef.
  { within_run (@tbreach W). within_auto. apply within_cores_reach. by eapply Hop. }
  destruct (op_passthru _) as [p|] eqn:Ep; within_run (@tbreach W); within_auto; auto.
  apply within_cores_reach. by eapply passthru_frame.
Qed.

Lemma within_shim_reach {X} call canary (op : synth_ops W → option (nat → M (option X))) next fd :
  (∀ h f i, op (ops_of h) = Some f → within (same cores) (f i)) →
  (∀ fd, within tbreach (next fd)) → within tbreach (SYNTH_SHIM_E call canary op next fd).
Proof.
  intros Hop Hn. unfold SYNTH_SHIM_E, wslcompat_passthru. within_auto; auto.
  by apply within_dispatch_reach.
Qed.

Lemma within_io c : within (@tbreach W) (run_io c).
Proof.
  pose proof (lib_handlers_io (W:=W)). destruct c; cbn [run_io];
    (apply within_bind; [apply _| |intros; apply within_ret, _]);
    (apply within_shim_reach; [|intros; auto with within typeclass_instances]);
    intros h g i Hg; simpl in Hg; try (apply fmap_Some in Hg as (f & Hf & ->));
    eauto using read_frame, write_frame, lseek_frame, pread_frame, pwrite_frame, readv_frame,
      writev_frame, preadv_frame, pwritev_frame, fsync_frame, fdatasync_frame, ftruncate_frame,
      fchmod_frame, fchown_frame, fallocate_frame, fgetxattr_frame, fsetxattr_frame,
      flistxattr_frame, fremovexattr_frame.
Qed.

(** ** open.c *)
Lemma within_openat_with redirect dirfd path flags mode :
  (∀ d p f m, within (@tbgrow W) (redirect d p f m)) →
  within (@tbgrow W) (openat_with redirect dirfd path flags mode).
Proof.
  intros Hr. unfold openat_with, wslcompat_passthru, handle_tmpfile_at, record_btime_now.
  within_auto; auto.
Qed.

Lemma within_open_inner path flags mode : within (@tbgrow W) (open_inner path flags mode).
Proof.
  unfold open_inner, open_with, wslcompat_passthru. within_auto.
  apply within_openat_with. intros. within_auto.
Qed.

Lemma within_redirects d p f m : within (@tbgrow W) (match_redirects_table open_inner d p f m).
Proof.
  unfold match_redirects_table, run_handler, proc_parse_pid.
  within_auto; apply within_synth_open, within_open_inner.
Qed.

Lemma within_openat dirfd path flags mode : within (@tbgrow W) (openat dirfd path flags mode).
Proof. apply within_openat_with, within_redirects. Qed.

Lemma within_open path flags mode : within (@tbgrow W) (open path flags mode).
Proof.
  unfold open, open_with, wslcompat_passthru. within_auto. apply within_openat_with, within_redirects.
Qed.
#[local] Hint Resolve within_openat within_open : within.

(** ** tty.c and ioctl.c *)
Lemma within_tty_install fd ti : within (@tbgrow W) (wslcompat_tty_install open fd ti).
Proof.
  assert (∀ t f, within (@tbgrow W) (setm (upd_tty t f))) as Ht.
  { intros t f. apply within_reach_grow, within_cores_reach, within_upd_tty. }
  assert (∀ f h u, within (@tbgrow W) (wslcompat_synth_open open f h u)) as Ho.
  { intros f h u. apply within_synth_open, within_open. }
  unfold wslcompat_tty_install, tty_install_fail, tty_alloc, tty_alloc_slot, cache_termios.
  within_auto; auto.
Qed.
#[local] Hint Resolve within_tty_install : within.

Lemma within_ioctl fd op arg : within (@tbgrow W) (ioctl fd op arg).
Proof.
  unfold ioctl, wslcompat_passthru. within_auto.
  apply within_reach_grow, within_autopin. intros [i|]; [|by within_auto]. within_auto.
  apply within_dispatch_reach; [|intros; by within_auto].
  intros h g j Hg. apply fmap_Some in Hg as (f & Hf & ->). destruct h; [done| |done..].
  injection Hf as <-. unfold tty_ioctl, tty_of, cache_termios. within_auto;
    auto using within_upd_tty, within_tty_load.
Qed.
#[local] Hint Resolve within_ioctl : within.

(** ** fcntl.c *)
Lemma within_fcntl fd cmd arg : within (@tbreach W) (fcntl fd cmd arg).
Proof.
  assert (∀ fd, within (@tbreach W) (next_fcntl cmd arg fd)) as Hn.
  { intros fd'. unfold next_fcntl. within_auto. }
  assert (∀ h g i, (λ f i, f i cmd arg) <$> op_fcntl (ops_of (W:=W) h) = Some g →
    within (same cores) (g i)) as Hop.
  { intros h g i Hg. apply fmap_Some in Hg as (f & Hf & ->). destruct h; [done| |done..].
    injection Hf as <-. unfold tty_fcntl, tty_of. within_auto;
      auto using within_upd_tty, within_tty_load. }
  assert (within (@tbreach W) (SYNTH_DISPATCH (λ o, (λ f i, f i cmd arg) <$> op_fcntl o)
    (next_fcntl cmd arg) fd)) as Hd by (by apply within_dispatch_reach).
  unfold fcntl, wslcompat_passthru, fcntl_lock_shim, flock_status_query, flock, SYNTH_DISPATCH_EXCL.
  within_auto; auto. all: apply within_autopin; intros []; within_auto.
Qed.

(** ** poll.c *)
Lemma within_translate fd : within (@tbreach W) (translate_synth_fd fd).
Proof. unfold translate_synth_fd. within_auto. Qed.
#[local] Hint Resolve within_translate : within.

Lemma within_poll fds c : within (@tbreach W) (poll_dispatch fds c).
Proof.
  assert (∀ idx fds sw, within (@tbreach W) (swap_in_loop idx fds sw)) as Hs.
  { induction idx as [|i idx IH]; intros fds' sw; cbn [swap_in_loop]; within_auto; auto. }
  assert (∀ fds, within (@tbreach W) (poll_canary_fired fds)) as Hc.
  { induction fds0 as [|p l IH]; cbn [poll_canary_fired]; within_auto; auto. }
  unfold poll_dispatch, wslcompat_passthru, wslcompat_synth_active, kernel_probe, canary_retry,
    kernel_call, poll_swap_in.
  within_auto; auto.
Qed.

Lemma within_select nfds sets c : within (@tbreach W) (sel_dispatch nfds sets c).
Proof.
  assert (∀ l sets sw n, within (@tbreach W) (sel_swap_loop l sets sw n)) as Hs.
  { induction l as [|i l IH]; intros sets' sw n; cbn [sel_swap_loop]; within_auto; auto. }
  unfold sel_dispatch, wslcompat_passthru, sel_kernel_call, sel_swap_in, preserve_errno.
  within_auto; auto.
Qed.

(** ** mmap.c *)
Lemma within_mmap a l p f fd o : within (@tbreach W) (mmap a l p f fd o).
Proof.
  assert (within (@tbreach W) (mmap_synth_fallback a l p f fd o)) as Hf.
  { apply within_autopin. intros [i|]; [|by within_auto]. intros s. unfold entry_ops.
    rewrite bind_getm. assert (∀ h, op_mmap (ops_of (W:=W) h) = None) as -> by (by intros []).
    destruct (op_passthru _) as [g|] eqn:Eg; within_run (@tbreach W); within_auto.
    apply within_cores_reach. by eapply passthru_frame. }
  unfold mmap, wslcompat_passthru, mmap_emulate, mmap_finish, preserve_errno. within_auto.
Qed.

(** ** execve.c *)
Lemma within_exec c : within (@tbreach W) (exec c).
Proof. unfold exec. within_auto. Qed.
#[local] Hint Resolve within_exec : within.

Lemma within_pread fd n o : within (@tbreach W) (pread fd n o).
Proof.
  apply within_shim_reach; [|intros; by within_auto]. intros h g i Hg.
  apply fmap_Some in Hg as (f & Hf & ->). by eapply pread_frame.
Qed.
#[local] Hint Resolve within_pread : within.

Lemma within_fixup fd : within (@tbreach W) (elf_needs_fixup fd).
Proof.
  assert (∀ n i p st d, within (@tbreach W) (fixup_loop n i fd p st d)) as Hl.
  { induction n as [|n IH]; intros; cbn [fixup_loop]; within_auto; auto. }
  unfold elf_needs_fixup. within_auto; auto.
Qed.
#[local] Hint Resolve within_fixup : within.

Lemma within_execve b path argv envp : within (@tbgrow W) (execve b path argv envp).
Proof.
  assert (∀ fd px e, within (@tbgrow W) (execve_fail fd px e)) as Hf.
  { intros. apply within_reach_grow. unfold execve_fail. within_auto. }
  unfold execve, wslcompat_passthru, execve_interp, fstat. within_auto; auto.
Qed.

Lemma within_exec_replace name c : within (@tbreach W) (EXEC_REPLACE_SHIM name c).
Proof. unfold EXEC_REPLACE_SHIM, wslcompat_passthru, preserve_errno. within_auto. Qed.

Lemma within_posix_spawn {A} name (m : M A) :
  within tbreach m → within tbreach (around_posix_spawn name m).
Proof. intros Hm. unfold around_posix_spawn, wslcompat_passthru, preserve_errno. within_auto. Qed.

Lemma within_execveat b dirfd path argv envp flags :
  within (@tbgrow W) (execveat b dirfd path argv envp flags).
Proof.
  unfold execveat, wslcompat_passthru. within_auto;
    auto using within_execve, within_fcntl, within_reach_grow, within_fail_reach.
Qed.

Lemma within_spawn {A} name (m : M A) : within tbreach m → within tbreach (around_spawn name m).
Proof. intros Hm. unfold around_spawn, wslcompat_passthru, preserve_errno. within_auto. Qed.

(** ** The terminal calls of ioctl.c *)
Lemma within_tty_call (c : tty_call) : within (@tbgrow W) (run_tty c).
Proof.
  destruct c; cbn [run_tty]; (apply within_bind; [apply _| |intros; apply within_ret, _]);
    unfold tcsetattr, tcgetattr, isatty, tcsetpgrp, tcgetpgrp, tcgetsid, ioctl_get_pid, tcdrain,
      tcsendbreak, tcflush, tcflow, ioctl_int, ttyname, ttyname_r, wslcompat_passthru, preserve_errno;
    within_auto; apply within_ioctl.
Qed.

(** ** statx.c *)
Lemma within_set_mount_fd fd : within (@tbreach W) (setm (set_mount_fd fd)).
Proof. apply within_setm. intros. apply rtc_refl. Qed.
#[local] Hint Resolve within_set_mount_fd : within.

Lemma within_statx dirfd path flags mask : within (@tbreach W) (statx dirfd path flags mask).
Proof.
  assert (∀ fd n z, within (@tbreach W) (fgetxattr fd n z)) as Hg.
  { intros. apply within_shim_reach; [|intros; by within_auto]. intros h g i Hg.
    apply fmap_Some in Hg as (f & Hf & ->). by eapply fgetxattr_frame. }
  unfold statx, wslcompat_passthru, fill_mnt_id, lookup_mnt_id, fill_mount_root, is_mount_root,
    fill_btime, read_btime_xattr, btime_xattr. within_auto; auto.
Qed.

(** ** epoll.c, copy_file_range.c, clock.c *)
Lemma within_epoll_ctl epfd op fd ev : within (@tbreach W) (epoll_ctl epfd op fd ev).
Proof. unfold epoll_ctl, wslcompat_passthru, preserve_errno. within_auto. Qed.

Lemma within_copy fi oi fo oo len flags : within (@tbreach W) (copy_file_range fi oi fo oo len flags).
Proof.
  assert (∀ fd b o, within (@tbreach W) (pwrite fd b o)) as Hw.
  { intros. apply within_shim_reach; [|intros; by within_auto]. intros h g i Hg.
    apply fmap_Some in Hg as (f & Hf & ->). by eapply pwrite_frame. }
  assert (∀ fd o wh, within (@tbreach W) (lseek fd o wh)) as Hl.
  { intros. apply within_shim_reach; [|intros; by within_auto]. intros h g i Hg.
    apply fmap_Some in Hg as (f & Hf & ->). by eapply lseek_frame. }
  assert (∀ n fd b o w, within (@tbreach W) (write_loop n fd b o w)) as Hwl.
  { induction n as [|n IH]; intros; cbn [write_loop]; within_auto; auto. }
  assert (∀ n a b c d e f, within (@tbreach W) (copy_loop n a b c d e f)) as Hcl.
  { induction n as [|n IH]; intros; cbn [copy_loop]; within_auto; auto. }
  unfold copy_file_range, wslcompat_passthru. within_auto; auto.
Qed.

Lemma within_nanosleep clk flags req rem : within (@tbreach W) (clock_nanosleep clk flags req rem).
Proof.
  assert (∀ c f r b, within (@tbreach W) (next_nanosleep c f r b)) as Hn.
  { intros. unfold next_nanosleep. within_auto. }
  assert (∀ w, within (@tbreach W) (rusage_cpu_ns w)) as Hr.
  { intros. unfold rusage_cpu_ns. within_auto. }
  assert (∀ n f t now b, within (@tbreach W) (cputime_loop n f t now b)) as Hl.
  { induction n as [|n IH]; intros; cbn [cputime_loop]; within_auto; auto. }
  unfold clock_nanosleep, wslcompat_passthru. apply within_bind; [apply _|by within_auto|].
  intros []; [auto|]. destruct req as [req|]; [|by within_auto].
  destruct (list_find _ _) as [[i [c fn]]|] eqn:E; [|auto].
  apply list_find_Some in E as [E _]. destruct i as [|[|[|i]]]; simplify_eq/=;
    unfold handle_boottime, handle_tai, handle_process_cputime; within_auto; auto.
Qed.

(** A table of clocks with one row. *)
Lemma within_clock_row {A} id clk (fn : bool → M A) (b : bool) next :
  within (@tbreach W) (fn b) → within (@tbreach W) next →
  within (@tbreach W) match list_find (λ d : Z * (bool → M A), fst d = clk) [(id, fn)] with
                      | Some (_, (_, fn)) => fn b
                      | None => next
                      end.
Proof. intros Hf Hn. cbn [list_find fst]. by destruct (decide (id = clk)). Qed.

Lemma within_gettime clk tp : within (@tbreach W) (clock_gettime clk tp).
Proof.
  unfold clock_gettime, wslcompat_passthru, encoded_cpuclock_who, rusage_cpu_ns, gettime_dispatch.
  assert (within (@tbreach W) (handle_tai_gettime tp)) by (unfold handle_tai_gettime; within_auto).
  repeat (apply within_clock_row || done || within_step).
Qed.

(** ** The calls that leave the table alone altogether *)
Lemma within_plain (c : plain_call) : within (@tbreach W) (run_plain c).
Proof.
  destruct c; cbn [run_plain]; (apply within_bind; [apply _| |intros; apply within_ret, _]);
    unfold clock_getres, getres_dispatch, handle_tai_getres, epoll_create, epoll_create1, epoll_wait, epoll_pwait2,
      epoll_pwait, getsockopt, next_getsockopt, setsockopt, renameat2, mincore, wslcompat_passthru;
    repeat (apply within_clock_row || within_step).
Qed.
End frames.

(** ** Sequences of library calls *)
Inductive lib_call :=
| c_open (path : string) (flags mode : Z)
| c_openat (dirfd : Z) (path : string) (flags mode : Z)
| c_creat (path : string) (mode : Z)
| c_close (fd : Z)
| c_dup2 (oldfd newfd : Z)
| c_dup3 (oldfd newfd flags : Z)
| c_close_range (first last flags : Z)
| c_fstat (fd : Z)
| c_io (c : io_call)
| c_fcntl (fd cmd : Z) (arg : fcntl_arg)
| c_ioctl (fd op : Z) (arg : ioctl_arg)
| c_poll (fds : list pollfd) (timeout : Z)
| c_ppoll (fds : list pollfd) (tmo : option timespec) (sigmask : option Z)
| c_select (nfds : Z) (sets : fdsets) (tv : option timeval)
| c_pselect (nfds : Z) (sets : fdsets) (tmo : option timespec) (sigmask : option Z)
| c_mmap (addr length prot flags fd offset : Z)
| c_execve (path : string) (argv envp : option (list string))
| c_fexecve (fd : Z) (argv envp : option (list string))
| c_execveat (dirfd : Z) (path : option string) (argv envp : option (list string)) (flags : Z)
| c_system (cmd : option string)
| c_popen (cmd mode : string)
| c_posix_spawn (path : string) (argv envp : option (list string))
| c_tty (c : tty_call)
| c_statx (dirfd : Z) (path : string) (flags mask : Z)
| c_epoll_ctl (epfd op fd : Z) (event : option epoll_event)
| c_copy_file_range (fd_in : Z) (off_in : option Z) (fd_out : Z) (off_out : option Z) (len flags : Z)
| c_clock_nanosleep (clk flags : Z) (req : option timespec) (rem : bool)
| c_clock_gettime (clk : Z) (tp : bool)
| c_plain (c : plain_call).

Section calls.
Context {W : Type} `{!Kernel W} {Hfuel : Fuel}.
Variable libc_has_argv0 : bool.

Definition run_call (c : lib_call) : prog (st W) unit :=
  match c with
  | c_open p f m => open p f m ;;* ret tt
  | c_openat d p f m => openat d p f m ;;* ret tt
  | c_creat p m => creat p m ;;* ret tt
  | c_close fd => close fd ;;* ret tt
  | c_dup2 a b => dup2 a b ;;* ret tt
  | c_dup3 a b f => dup3 a b f ;;* ret tt
  | c_close_range a b f => close_range a b f ;;* ret tt
  | c_fstat fd => fstat fd ;;* ret tt
  | c_io c => run_io c
  | c_fcntl fd cmd arg => fcntl fd cmd arg ;;* ret tt
  | c_ioctl fd op arg => ioctl fd op arg ;;* ret tt
  | c_poll fds t => poll fds t ;;* ret tt
  | c_ppoll fds t sg => ppoll fds t sg ;;* ret tt
  | c_select n sets tv => select n sets tv ;;* ret tt
  | c_pselect n sets t sg => pselect n sets t sg ;;* ret tt
  | c_mmap a l p f fd o => mmap a l p f fd o ;;* ret tt
  | c_execve p a e => execve libc_has_argv0 p a e ;;* ret tt
  | c_fexecve fd a e => fexecve fd a e ;;* ret tt
  | c_execveat d p a e f => execveat libc_has_argv0 d p a e f ;;* ret tt
  | c_system cmd => system cmd ;;* ret tt
  | c_popen cmd mode => popen cmd mode ;;* ret tt
  | c_posix_spawn p a e => posix_spawn p a e ;;* ret tt
  | c_tty c => run_tty c
  | c_statx d p f k => statx d p f k ;;* ret tt
  | c_epoll_ctl e op fd ev => epoll_ctl e op fd ev ;;* ret tt
  | c_copy_file_range fi oi fo oo len f => copy_file_range fi oi fo oo len f ;;* ret tt
  | c_clock_nanosleep clk f req rem => clock_nanosleep clk f req rem ;;* ret tt
  | c_clock_gettime clk tp => clock_gettime clk tp ;;* ret tt
  | c_plain c => run_plain c
  end.

Fixpoint run_calls (l : list lib_call) : prog (st W) unit :=
  match l with [] => ret tt | c :: l' => run_call c ;;* run_calls l' end.

Lemma within_call c : within (@tbgrow W) (run_call c).
Proof.
  destruct c; cbn [run_call]; try (apply within_bind; [apply _| |intros; apply within_ret, _]);
    first [ apply within_open | apply within_openat | apply within_ioctl | apply within_execve
          | apply within_execveat | apply within_tty_call
          | apply within_reach_grow;
            first [ apply within_close | apply within_dup2 | apply within_dup3
                  | apply within_close_range | apply within_fstat_shim | apply within_io
                  | apply within_fcntl | apply within_poll | apply within_select
                  | apply within_mmap | apply within_exec_replace
                  | apply within_statx | apply within_epoll_ctl | apply within_copy
                  | apply within_nanosleep | apply within_gettime | apply within_plain
                  | apply within_spawn; apply allows_sys
                  | apply within_posix_spawn; apply allows_sys ] ].
Qed.

Lemma within_calls l : within (@tbgrow W) (run_calls l).
Proof.
  induction l as [|c l IH]; [apply within_ret, _|].
  apply within_bind; [apply _|apply within_call|done].
Qed.

(** C1: Whatever an application calls, in whatever order, from the initial state of the library: after
    every call that returns, no entry of the table is in transit, no reference count is negative,
    and [synth_live_entries] is the number of live entries, so that the fast path of the shims is
    taken exactly when there is nothing to look up. *)
Theorem library_invariant l (s s' : st W) :
  s_mem s = init_mem → run_calls l s = Ret tt s' →
  table_ok (s_mem s') ∧
  (wslcompat_synth_active s' = Ret false s' ↔
   ∀ i, (i < SYNTH_TABLE_SIZE)%nat → refcount (entry_at (s_mem s') i) = 0).
Proof.
  intros Hi Hr. assert (table_ok (s_mem s')) as Hok.
  { refine (within_Ret (keeps (λ s, table_ok (s_mem s))) _ _ _ _ _ Hr _).
    - apply within_table_ok, within_calls.
    - rewrite Hi. apply init_table_ok. }
  split; [done|]. by apply active_iff_live.
Qed.
End calls.

(** ** A concrete run *)
Module LibDemo.
#[local] Instance bound : Fuel := 20%nat.
Definition start : st FdKernel.world := mkst init_mem (SynthDemo.w0 false) 0.
(** Open the synthesized file, which becomes descriptor 1, read it in two parts, poll it; then
    close it. *)
Definition calls : list lib_call :=
  [c_open "/proc/sys/vm/mmap_min_addr" O_RDONLY 0; c_io (io_read 1 2); c_io (io_read 1 2);
   c_fstat 1; c_poll [{| pfd := 1; pevents := POLLIN; prevents := 0 |}] 0].
Definition closing : list lib_call := calls ++ [c_close 1].
Definition final (l : list lib_call) : st FdKernel.world :=
  match run_calls true l start with Ret _ s => s | _ => start end.
Lemma calls_run : run_calls true calls start = Ret tt (final calls).
Proof. by vm_compute. Qed.
Lemma closing_run : run_calls true closing start = Ret tt (final closing).
Proof. by vm_compute. Qed.
End LibDemo.

Lemma library_invariant_witness :
  (pos (entry_at (s_mem (LibDemo.final LibDemo.calls)) 0) = 4 ∧
   table_ok (s_mem (LibDemo.final LibDemo.calls))) ∧
  (synth_live_entries (s_mem (LibDemo.final LibDemo.closing)) = 0 ∧
   table_ok (s_mem (LibDemo.final LibDemo.closing))).
Proof.
  split; (split; [by vm_compute|]).
  - exact (proj1 (library_invariant true LibDemo.calls LibDemo.start _ eq_refl LibDemo.calls_run)).
  - exact (proj1 (library_invariant true LibDemo.closing LibDemo.start _ eq_refl LibDemo.closing_run)).
Defined.
