(* ===== verification/LibFrame.v ===== *)
(** * Frames through the whole library

    A relation between states that the primitive steps of the code respect is respected by every entry
    point. The relations of interest ([WellTyped], [RefBalance]) say what a call keeps; some of them hold of
    a reference only when it is given back, so that the interface has, next to the relation [R], the
    relation [G o] of code that gives back the reference [o]: with it every pin must meet its unpin. *)

From S2P Require Import Prelude CString Kernel State Tunables Override Walk FdKernel Internal Synth SynthFrames SynthFacts Close Tty Proc Dispatch Handlers Mmap Fcntl Poll Select Open Preexec Execve Ioctl Statx Clock Epoll CopyRange Sockopt Rename Logging Startup Library.

Open Scope Z_scope.

(** ** The shape of the memory *)
Definition is_flag (z : Z) : Prop := z = 0 ∨ z = 1.

Definition entry_typed (e : synth_entry) : Prop := length (probe_overrides e) = SYNTH_OVERRIDE_SLOTS.

Record tty_typed (t : tty_state) : Prop := {
  tt_slots : length (real_overrides t) = SYNTH_OVERRIDE_SLOTS;
  tt_claimed : is_flag (claimed t);
  tt_canon : is_flag (canon t);
  tt_nonblock : is_flag (nonblock t);
}.

Record mem_typed (m : mem) : Prop := {
  mt_table : length (synth_table m) = SYNTH_TABLE_SIZE;
  mt_entries : Forall entry_typed (synth_table m);
  mt_tty_table : length (tty_table m) = TTY_TABLE_SIZE;
  mt_ttys : Forall tty_typed (tty_table m);
  mt_registry : length (registry m) = MAX_INTERNAL_FDS;
}.

Lemma init_typed : mem_typed init_mem.
Proof. split; [done| |done| |done]; apply Forall_replicate; [done|]. split; [done|by left..]. Qed.

Lemma typed_upd_entry i f m :
  (∀ e, entry_typed e → entry_typed (f e)) → mem_typed m → mem_typed (upd_entry i f m).
Proof.
  intros Hf []. split; cbn; [by rewrite length_alter| |done..]. apply Forall_alter; [done|]. eauto.
Qed.

Lemma typed_upd_tty i f m :
  (∀ t, tty_typed t → tty_typed (f t)) → mem_typed m → mem_typed (upd_tty i f m).
Proof.
  intros Hf []. split; cbn; [done..|by rewrite length_alter| |done]. apply Forall_alter; [done|]. eauto.
Qed.

Create HintDb typed discriminated.

Lemma flag_if (b : bool) : is_flag (if b then 1 else 0).
Proof. destruct b; [by right|by left]. Qed.
#[export] Hint Resolve flag_if : typed.
#[export] Hint Extern 1 (is_flag _) => by (left + right) : typed.

Lemma typed_lookup {A} `{!Inhabited A} (P : A → Prop) (l : list A) i : P inhabitant → Forall P l → P (l !!! i).
Proof.
  intros Hd Hl. rewrite list_lookup_total_alt. destruct (l !! i) as [x|] eqn:E; [|done]. cbn. by eapply Forall_lookup.
Qed.

Lemma typed_view_slots v m : mem_typed m → length (view_slots v m) = SYNTH_OVERRIDE_SLOTS.
Proof.
  intros []. destruct v as [i|i t]; cbn.
  - by apply (typed_lookup entry_typed).
  - apply (typed_lookup (λ t, length (real_overrides t) = SYNTH_OVERRIDE_SLOTS)); [done|].
    eapply Forall_impl; [done|]. by intros x [].
Qed.

Lemma typed_upd_slot v i f m : mem_typed m → mem_typed (upd_slot v i f m).
Proof.
  intros Hm. pose proof (typed_view_slots v m Hm) as Hl. unfold upd_slot.
  assert (length (alter f i (view_slots v m)) = SYNTH_OVERRIDE_SLOTS) as Hl' by (by rewrite length_alter).
  destruct v; cbn [set_view_slots]; [by apply typed_upd_entry|]. apply typed_upd_tty; [|done]. by intros ? [].
Qed.

Lemma typed_view_base v x m : mem_typed m → mem_typed (set_view_base v x m).
Proof.
  destruct v; cbn [set_view_base]; intros Hm; [by apply typed_upd_entry|]. apply typed_upd_tty; [|done]. by intros ? [].
Qed.


(** ** The interface *)

(** A change of the memory that leaves alone its shape, the reference counts, the lock, the options and the
    registry. *)
Record tame (f : mem → mem) : Prop := {
  tame_typed m : mem_typed m → mem_typed (f m);
  tame_refs m : refcount <$> synth_table (f m) = refcount <$> synth_table m;
  tame_lock m : synth_acquire_lock (f m) = synth_acquire_lock m;
  tame_registry m : registry (f m) = registry m;
  tame_count m : registry_count (f m) = registry_count m;
  tame_options m : options (f m) = options m;
}.

(** [wslcompat_synth_unpin], with the cleanup left open. *)
Definition unpin_with {W} (i : nat) (cleanup : prog (st W) unit) : prog (st W) unit :=
  let* cur := getm (λ m, refcount (entry_at m i)) in
  if 0 <? cur then
    let next := if cur =? 1 then -1 else cur - 1 in
    setm (upd_entry i (set_refcount next)) ;;*
    if next =? -1 then cleanup else ret tt
  else ret tt.

(** [m] under the spin lock of the acquisition. *)
Definition locked {W A} (m : prog (st W) A) : prog (st W) A :=
  let* held := getm synth_acquire_lock in
  if (held : bool) then nofuel
  else
    setm (set_synth_acquire_lock true) ;;*
    let* r := m in
    setm (set_synth_acquire_lock false) ;;*
    ret r.

Class LibFrame {W} `{!Kernel W} (R : relation (st W)) (G : option nat → relation (st W)) : Prop := {
  lf_preorder :: PreOrder R;
  lf_sys A (c : call A) : within R (sys c);
  lf_errno e : within R (set_errno e);
  lf_tame f : tame f → within R (setm f);
  lf_low i z : z ≤ 1 → within R (setm (upd_entry i (set_refcount z)));
  lf_pin A i (k : bool → prog (st W) A) :
    within (G (Some i)) (k true) → within R (k false) → within R (bind (synth_pin i) k);
  lf_unpin i cleanup : within R cleanup → within (G (Some i)) (unpin_with i cleanup);
  lf_locked A (m : prog (st W) A) : within R m → within R (locked m);
  lf_none s s' : R s s' → G None s s';
  lf_gave o s s' : G o s s' → R s s';
  lf_before o s1 s2 s3 : R s1 s2 → G o s2 s3 → G o s1 s3;
  lf_after o s1 s2 s3 : G o s1 s2 → R s2 s3 → G o s1 s3;
}.

(** A relation that does not count references: every write of one is allowed. *)
Lemma plain_frame {W} `{!Kernel W} (R : relation (st W)) `{!PreOrder R} :
  (∀ A (c : call A), within R (sys c)) → (∀ e, within R (set_errno e)) → (∀ f, tame f → within R (setm f)) →
  (∀ i z, within R (setm (upd_entry i (set_refcount z)))) →
  (∀ A (m : prog (st W) A), within R m → within R (locked m)) → LibFrame R (λ _, R).
Proof.
  intros Hs He Hf Hz Hl. split; try done.
  - intros A i k Ht Hk. unfold synth_pin. apply within_bind; [apply _|within_auto|]. by intros [].
  - intros i c Hc. unfold unpin_with. within_auto.
  - intros _ s1 s2 s3. apply transitivity.
  - intros _ s1 s2 s3. apply transitivity.
Qed.

Create HintDb gave discriminated.

Section frame.
Context {W : Type} `{!Kernel W} {Hfuel : Fuel}.
Context (R : relation (st W)) (G : option nat → relation (st W)) `{!LibFrame R G}.
Local Abbreviation M := (prog (st W)).

#[local] Instance frame_preorder : PreOrder R := lf_preorder.

(** ** Primitive steps *)
Lemma tame_entry i f :
  (∀ e, refcount (f e) = refcount e) → (∀ e, entry_typed e → entry_typed (f e)) → tame (upd_entry i f).
Proof. intros Hr Hf. split; try done; intros m; [by apply typed_upd_entry|]. by apply list_fmap_alter_id. Qed.

Lemma tame_tty i f : (∀ t, tty_typed t → tty_typed (f t)) → tame (upd_tty i f).
Proof. intros Hf. split; try done. intros m. by apply typed_upd_tty. Qed.

Lemma frame_entry i f :
  (∀ e, refcount (f e) = refcount e) → (∀ e, entry_typed e → entry_typed (f e)) → within R (setm (upd_entry i f)).
Proof. intros. by apply lf_tame, tame_entry. Qed.

Lemma frame_tty i f : (∀ t, tty_typed t → tty_typed (f t)) → within R (setm (upd_tty i f)).
Proof. intros. by apply lf_tame, tame_tty. Qed.

Lemma frame_slot sl x : within R (setm (set_slot sl x)).
Proof. apply lf_tame. split; intros m; destruct sl; try done; by intros []. Qed.

#[local] Instance frame_allows_sys : AllowsSys R.
Proof. intros A c. apply lf_sys. Qed.

#[local] Instance frame_ident : AllowsIdent R.
Proof. split; intros; [apply lf_sys|apply lf_tame]; split; try done; by intros m []. Qed.

#[local] Instance frame_cow v : AllowsCow R v.
Proof.
  split; intros; apply lf_tame; destruct v as [e|e t]; split; try done; intros m;
    try apply typed_upd_slot; try (by apply (typed_view_base (v_probe e))); try (by apply (typed_view_base (v_real e t)));
    by apply list_fmap_alter_id.
Qed.

(** The acquisition of a slot: the collection, then the two passes under the lock. *)
Lemma acquire_locked v id t fd (s : st W) :
  wslcompat_override_acquire_pid v id t fd s =
  (wslcompat_override_gc v ;;* locked (
    let* slots := getm (view_slots v) in
    match wslcompat_override_get_pid slots id t with
    | Some i => ret (Some i)
    | None => for_each (seq 0 (length slots)) (override_claim v id t fd)
    end)) s.
Proof.
  unfold wslcompat_override_acquire_pid. destruct (wslcompat_override_gc v s) as [[] s1| |] eqn:E; [|by unfold bind; rewrite E..].
  rewrite !(bind_Ret _ _ _ _ _ E). unfold locked.
  rewrite !bind_getm. destruct (synth_acquire_lock (s_mem s1)); [done|]. by rewrite !bind_setm, bind_assoc, !bind_getm.
Qed.

#[local] Instance frame_acquire v : AllowsAcquire R v.
Proof.
  intros id t fd s. rewrite acquire_locked. revert s. apply within_bind; [apply _|by apply within_override_gc; apply _|].
  intros _. apply lf_locked. unfold override_claim. within_auto.
Qed.

(** The operation table of an entry is one of the four. *)
Lemma ops_cases {A} (Q : relation (st W)) e (k : synth_ops W → M A) :
  (∀ h, within Q (k (lib_handlers h))) → within Q (bind (entry_ops e) k).
Proof. intros Hk s. unfold entry_ops. rewrite bind_getm. apply Hk. Qed.

Lemma frame_walk {U} (visit : Z → U → M (bool * U)) u :
  (∀ fd u, within R (visit fd u)) → within R (wslcompat_walk_proc_self_fd visit u).
Proof. intros Hv. apply within_walk; [apply _|intros; apply lf_sys|done]. Qed.

(** A row of a table of clocks. *)
Lemma frame_row {A B} (P : Z * A → Prop) `{!∀ x, Decision (P x)} (l : list (Z * A)) (k : A → M B) next :
  (∀ f, f ∈ l.*2 → within R (k f)) → within R next →
  within R match list_find P l with Some (_, (_, f)) => k f | None => next end.
Proof.
  intros Hk Hn. destruct (list_find P l) as [[i [z f]]|] eqn:E; [|done]. apply Hk.
  apply list_find_Some in E as (E & _). apply list_elem_of_lookup. exists i. by rewrite list_lookup_fmap, E.
Qed.

(** ** Code that gives a reference back *)
Lemma gave_frame {A} o (m : M A) : within (G o) m → within R m.
Proof. apply within_mono. intros s s'. apply lf_gave. Qed.

Lemma gave_none {A} (m : M A) : within R m → within (G None) m.
Proof. apply within_mono. apply lf_none. Qed.

Lemma gave_before {A B} o (m : M A) (k : A → M B) :
  within R m → (∀ a, within (G o) (k a)) → within (G o) (bind m k).
Proof.
  intros Hm Hk s. specialize (Hm s). unfold bind. destruct (m s) as [a s1| |]; [|done..].
  specialize (Hk a s1). destruct (k a s1); [|done..]. by eapply lf_before.
Qed.

Lemma gave_after {A B} o (m : M A) (k : A → M B) :
  within (G o) m → (∀ a, within R (k a)) → within (G o) (bind m k).
Proof.
  intros Hm Hk s. specialize (Hm s). unfold bind. destruct (m s) as [a s1| |]; [|done..].
  specialize (Hk a s1). destruct (k a s1); [|done..]. by eapply lf_after.
Qed.

Ltac frame_leaf :=
  first [ apply lf_errno | apply frame_slot
        | apply lf_low; lia
        | apply frame_entry; [done | intros ?; exact (λ H, H)]
        | apply frame_entry; [done | intros ? ?; unfold entry_typed, wslcompat_override_init; cbn; by rewrite ?length_fmap]
        | apply frame_tty; intros ? []; split; cbn; unfold wslcompat_override_init; rewrite ?length_fmap; auto with typed
        | apply lf_tame; split; try done; by intros ? [] ].

Ltac prog_head p := match p with ?f _ => prog_head f | _ => p end.
Ltac frame_unfold :=
  match goal with |- within _ ?p => let h := prog_head p in progress unfold h end.
Ltac ops_step :=
  apply ops_cases; intros []; cbn [lib_handlers null_ops tty_ops mmap_min_addr_ops proc_pid_mem_ops
    op_read op_write op_pread op_pwrite op_readv op_writev op_preadv op_pwritev op_lseek op_mmap
    op_ioctl op_fcntl op_fsync op_fdatasync op_ftruncate op_fchmod op_fchown op_fallocate
    op_fgetxattr op_fsetxattr op_flistxattr op_fremovexattr op_close op_dup op_release op_passthru
    op_relocate op_describe fmap option_fmap option_map].

(** The cleanup of a slot, and with it the unpin. *)
Ltac frame_step0 := first [ ops_step | frame_leaf | within_step | frame_unfold ].

Lemma frame_cleanup i : within R (synth_cleanup i).
Proof.
repeat frame_step0.
Qed.

Lemma gave_unpin i : within (G (Some i)) (wslcompat_synth_unpin i).
Proof. apply lf_unpin, frame_cleanup. Qed.

Lemma gave_preserve {A} o (m : M A) : within (G o) m → within (G o) (preserve_errno m).
Proof.
  intros Hm. apply gave_before; [frame_step0|]. intros e. apply gave_after; [done|]. intros a. repeat frame_step0.
Qed.
#[local] Hint Resolve gave_unpin gave_preserve : gave.

Lemma frame_unpin i : within R (wslcompat_synth_unpin i).
Proof. eapply gave_frame, gave_unpin. Qed.
#[local] Hint Resolve frame_unpin : within.

(** A lookup takes the reference of the entry it finds. *)
Lemma frame_pin_lookup {A} key l (k : option nat → M A) :
  (∀ o, within (G o) (k o)) → within R (bind (for_each l (pin_lookup_slot key)) k).
Proof.
  intros Hk. assert (within R (k None)) as Hn by apply (gave_frame None), Hk.
  induction l as [|i l IH]; [exact Hn|]. cbn [for_each]. intros s. rewrite bind_assoc. unfold pin_lookup_slot at 1.
  rewrite bind_assoc. revert s. apply lf_pin; cbv iota; [|exact IH]. intros s. rewrite !bind_assoc. revert s.
  apply gave_before; [frame_step0|]. intros e. destruct (same_inode _ _); [apply (Hk (Some i))|].
  intros s. rewrite bind_assoc. revert s. apply gave_after; [apply gave_unpin|]. intros _. exact IH.
Qed.

Lemma frame_pin_fd {A} fd (k : option nat → M A) :
  (∀ o, within (G o) (k o)) → within R (bind (wslcompat_synth_pin_fd fd) k).
Proof.
  intros Hk. unfold wslcompat_synth_pin_fd. intros s. rewrite bind_assoc. revert s.
  apply within_bind; [apply _|apply lf_sys|]. intros [key|]; [by apply frame_pin_lookup|].
  apply (gave_frame None), Hk.
Qed.

Lemma frame_pre_close {A} fd (k : option nat → M A) :
  (∀ o, within (G o) (k o)) → within R (bind (wslcompat_synth_pre_close fd) k).
Proof. apply frame_pin_fd. Qed.

Lemma frame_autopin {A} fd (body : option nat → M A) :
  (∀ o, within R (body o)) → within R (autopin fd body).
Proof.
  intros Hb. apply frame_pin_fd. intros o. apply gave_before; [done|]. intros r.
  destruct o as [i|]; [apply gave_after; [apply gave_unpin|]|apply gave_none]; repeat frame_step0.
Qed.

Ltac frame_step :=
  first [ ops_step
        | apply frame_walk; intros ? ?
        | apply frame_autopin; intros [?|]
        | apply frame_pin_fd; intros [?|] | apply frame_pre_close; intros [?|]
        | apply lf_pin
        | apply frame_row; [let H := fresh in intros ? H; cbn in H;
            repeat (apply elem_of_cons in H as [->|H]; [|]); [..|by apply elem_of_nil in H] | ]
        | apply gave_none
        | lazymatch goal with
          | |- within (G (Some _)) (bind _ _) =>
              first [ apply gave_after; [solve [auto with gave] | intros ?] | apply gave_before; [ | intros ?] ]
          | |- within (G (Some _)) _ => solve [auto with gave]
          end
        | frame_leaf | within_step | frame_unfold ].
Ltac frame_auto := repeat frame_step.

Lemma frame_collect n fd vm count timeout acc :
  within R (tty_collect n fd vm count timeout acc).
Proof. revert acc. induction n as [|n IH]; intros acc; cbn [tty_collect]; frame_auto; apply IH. Qed.
#[local] Hint Resolve frame_collect : within.

Lemma gave_post_close i : within (G (Some i)) (wslcompat_synth_post_close (Some i)).
Proof. unfold wslcompat_synth_post_close. frame_auto. Qed.
#[local] Hint Resolve gave_post_close : gave.
Lemma frame_post_close e : within R (wslcompat_synth_post_close e).
Proof. destruct e as [i|]; [apply (gave_frame (Some i)), gave_post_close|frame_auto]. Qed.
#[local] Hint Resolve frame_post_close : within.

Lemma frame_close fd : within R (close fd).
Proof. frame_auto. Qed.
#[local] Hint Resolve frame_close : within.

Lemma frame_dup3 a b c : within R (dup3 a b c).
Proof. frame_auto. Qed.
Lemma frame_dup2 a b : within R (dup2 a b).
Proof. frame_auto. Qed.
Lemma frame_close_range a b c : within R (close_range a b c).
Proof. frame_auto. Qed.
Lemma frame_fstat fd : within R (fstat fd).
Proof. frame_auto. Qed.
#[local] Hint Resolve frame_dup3 frame_dup2 frame_close_range frame_fstat : within.

Lemma frame_io c : within R (run_io c).
Proof. destruct c; frame_auto. Qed.
#[local] Hint Resolve frame_io : within.

Lemma frame_pread fd n o : within R (pread fd n o).
Proof. frame_auto. Qed.
#[local] Hint Resolve frame_pread : within.

Lemma frame_fcntl fd cmd arg : within R (fcntl fd cmd arg).
Proof. frame_auto. Qed.
#[local] Hint Resolve frame_fcntl : within.

Lemma frame_relocate_internal t : within R (wslcompat_relocate_internal_fd t).
Proof. frame_auto. Qed.

(** ** open.c, tty.c, ioctl.c *)
Lemma frame_open_inner path flags mode : within R (open_inner path flags mode).
Proof. frame_auto. Qed.
#[local] Hint Resolve frame_open_inner : within.

Lemma frame_redirects d p f m : within R (match_redirects_table open_inner d p f m).
Proof. frame_auto. Qed.
#[local] Hint Resolve frame_redirects : within.

Lemma frame_openat dirfd path flags mode : within R (openat dirfd path flags mode).
Proof. frame_auto. Qed.
Lemma frame_open path flags mode : within R (open path flags mode).
Proof. frame_auto. Qed.
#[local] Hint Resolve frame_openat frame_open : within.

Lemma frame_ioctl fd op arg : within R (ioctl fd op arg).
Proof. frame_auto. Qed.
#[local] Hint Resolve frame_ioctl : within.

(** ** poll.c *)
Lemma frame_swap_in idx fds sw : within R (swap_in_loop idx fds sw).
Proof. revert fds sw. induction idx as [|i idx IH]; intros fds sw; cbn [swap_in_loop]; frame_auto; apply IH. Qed.
Lemma frame_canary fds : within R (poll_canary_fired fds).
Proof. induction fds as [|p l IH]; cbn [poll_canary_fired]; frame_auto; apply IH. Qed.
Lemma frame_sel_swap l sets sw n : within R (sel_swap_loop l sets sw n).
Proof. revert sets sw n. induction l as [|i l IH]; intros sets sw n; cbn [sel_swap_loop]; frame_auto; apply IH. Qed.
#[local] Hint Resolve frame_swap_in frame_canary frame_sel_swap : within.

Lemma frame_poll fds c : within R (poll_dispatch fds c).
Proof. frame_auto. Qed.
Lemma frame_select nfds sets c : within R (sel_dispatch nfds sets c).
Proof. frame_auto. Qed.

(** ** mmap.c, execve.c *)
Lemma frame_mmap a l p f fd o : within R (mmap a l p f fd o).
Proof. frame_auto. Qed.

Lemma frame_fixup n i fd p st d : within R (fixup_loop n i fd p st d).
Proof. revert i st d. induction n as [|n IH]; intros; cbn [fixup_loop]; frame_auto; apply IH. Qed.
Lemma frame_save_loop c slots : within R (preexec_save_loop c slots).
Proof. revert slots. induction c as [|x c IH]; intros slots; cbn [preexec_save_loop]; frame_auto; apply IH. Qed.
#[local] Hint Resolve frame_fixup frame_save_loop : within.

Lemma frame_save sl : within R (wslcompat_synth_preexec_save sl).
Proof. frame_auto. Qed.
Lemma frame_restore st : within R (wslcompat_synth_preexec_restore st).
Proof. frame_auto. Qed.
#[local] Hint Resolve frame_save frame_restore : within.

Lemma frame_execve b path argv envp : within R (execve b path argv envp).
Proof. frame_auto. Qed.
#[local] Hint Resolve frame_execve : within.
Lemma frame_execveat b dirfd path argv envp flags : within R (execveat b dirfd path argv envp flags).
Proof. frame_auto. Qed.

(** ** copy_file_range.c, clock.c *)
Lemma frame_write_loop n fd b o w : within R (write_loop n fd b o w).
Proof. revert b o w. induction n as [|n IH]; intros; cbn [write_loop]; frame_auto; apply IH. Qed.
#[local] Hint Resolve frame_write_loop : within.
Lemma frame_copy_loop n a b c d e f : within R (copy_loop n a b c d e f).
Proof. revert c d e f. induction n as [|n IH]; intros; cbn [copy_loop]; frame_auto; apply IH. Qed.
Lemma frame_cputime_loop n f t now b : within R (cputime_loop n f t now b).
Proof. revert now. induction n as [|n IH]; intros; cbn [cputime_loop]; frame_auto; apply IH. Qed.
#[local] Hint Resolve frame_copy_loop frame_cputime_loop : within.

Lemma frame_nanosleep clk flags req rem : within R (clock_nanosleep clk flags req rem).
Proof. frame_auto. Qed.
Lemma frame_gettime clk tp : within R (clock_gettime clk tp).
Proof. frame_auto. Qed.
#[local] Hint Resolve frame_poll frame_select frame_mmap frame_execveat frame_nanosleep frame_gettime : within.

Lemma frame_call b c : within R (run_call b c).
Proof.
  destruct c; cbn [run_call]; frame_auto.
Qed.

Lemma frame_calls b l : within R (run_calls b l).
Proof.
  induction l as [|c l IH]; [apply within_ret, _|]. apply within_bind; [apply _|apply frame_call|done].
Qed.

End frame.
