(* ===== verification/RefBalance.v ===== *)
(** * Every reference is given back, and the lock

    A shim that looks an entry up holds a reference to it until it returns: by [autopin] (the cleanup
    attribute of synth.h), by [pre_close] and [post_close] around a close, by the garbage collector around
    the entry it inspects. An early return that kept one would leave the entry in the table for the life of
    the process, since only the drop of the last reference frees it. As a frame of the library
    ([LibFrame]): no call leaves a count above the larger of what it found and one, and code that holds a
    reference gives back that one. The same for the spin lock of the override slots, on which every later
    call would hang: it is free between two calls. *)

From S2P Require Import Prelude CString Kernel State Tunables Override Walk FdKernel Internal Synth SynthFrames SynthFacts Close Tty Proc Dispatch Handlers Mmap Fcntl Poll Select Open Preexec Execve Ioctl Statx Clock Epoll CopyRange Sockopt Rename Logging Startup Library LibFrame.

Open Scope Z_scope.

Definition rc {W} (s : st W) (i : nat) : Z := refcount (entry_at (s_mem s) i).

(** One for the reference that the code in question holds. *)
Definition held (o : option nat) (i : nat) : Z := if decide (o = Some i) then 1 else 0.

Definition gave {W} (o : option nat) (s s' : st W) : Prop := ∀ i, rc s' i ≤ Z.max (rc s i - held o i) 1.
Definition refs_le {W} (s s' : st W) : Prop := ∀ i, rc s' i ≤ Z.max (rc s i) 1.

Lemma held_bound o i : 0 ≤ held o i ≤ 1.
Proof. unfold held. case_decide; lia. Qed.

Lemma held_None i : held None i = 0.
Proof. done. Qed.

Section balance.
Context {W : Type} `{!Kernel W} {Hfuel : Fuel}.
Local Abbreviation M := (prog (st W)).

#[export] Instance refs_preorder : PreOrder (@refs_le W).
Proof.
  split; [intros s i; lia|]. intros s1 s2 s3 H1 H2 i. specialize (H1 i). specialize (H2 i). lia.
Qed.

Lemma gave_seq o s1 s2 s3 : @refs_le W s1 s2 → gave o s2 s3 → gave o s1 s3.
Proof. intros H1 H2 i. specialize (H1 i). specialize (H2 i). pose proof (held_bound o i). lia. Qed.

Lemma gave_then o s1 s2 s3 : @gave W o s1 s2 → refs_le s2 s3 → gave o s1 s3.
Proof. intros H1 H2 i. specialize (H1 i). specialize (H2 i). lia. Qed.

(** A write to the count of one entry: it is the new count, or the index is out of the table. *)
Lemma rc_write i z m w e j :
  (rc (W := W) (mkst (upd_entry i (set_refcount z) m) w e) j = rc (W := W) (mkst m w e) j ∧
   (j = i → rc (W := W) (mkst m w e) j = 0)) ∨
  (j = i ∧ rc (W := W) (mkst (upd_entry i (set_refcount z) m) w e) j = z).
Proof.
  unfold rc. cbn [s_mem]. destruct (decide (i = j)) as [<-|Hij]; [|left; split; [by rewrite entry_at_upd_ne|done]].
  destruct (decide (i < length (synth_table m))%nat) as [Hl|Hl]; [right; by rewrite entry_at_upd_eq|left].
  unfold entry_at, upd_entry. cbn. rewrite !list_lookup_total_alt, !lookup_ge_None_2 by (rewrite ?length_alter; lia).
  done.
Qed.

Lemma rc_tame f m w w' e e' j : tame f → rc (W := W) (mkst (f m) w e) j = rc (W := W) (mkst m w' e') j.
Proof.
  intros Hf. unfold rc, entry_at. cbn [s_mem]. pose proof (f_equal (.!! j) (tame_refs f Hf m)) as E.
  rewrite !list_lookup_fmap in E. rewrite !list_lookup_total_alt.
  destruct (synth_table (f m) !! j), (synth_table m !! j); cbn in *; congruence.
Qed.

Lemma refs_pin {A} i (k : bool → M A) :
  within (gave (Some i)) (k true) → within refs_le (k false) → within refs_le (bind (synth_pin i) k).
Proof.
  intros Ht Hf [m w e]. unfold synth_pin. rewrite bind_assoc, bind_getm. cbn [s_mem].
  destruct (Z.ltb_spec 0 (refcount (entry_at m i))) as [Hp|_]; [|apply Hf].
  set (s1 := mkst (upd_entry i (set_refcount (refcount (entry_at m i) + 1)) m) w e).
  change (match k true s1 with Ret _ s' => refs_le (mkst m w e) s' | _ => True end).
  specialize (Ht s1). destruct (k true s1) as [a s2| |]; [|done..].
  intros j. specialize (Ht j). unfold held in Ht.
  destruct (rc_write i (refcount (entry_at m i) + 1) m w e j) as [[E Hj]|[-> E]]; fold s1 in E; rewrite E in Ht.
  - case_decide as Hd; [injection Hd as Hd; specialize (Hj (eq_sym Hd))|]; lia.
  - rewrite decide_True in Ht by done. unfold rc in *. cbn [s_mem] in *. lia.
Qed.

Lemma refs_unpin i (cleanup : M unit) :
  within refs_le cleanup → within (gave (Some i)) (unpin_with i cleanup).
Proof.
  intros Hc [m w e]. unfold unpin_with. rewrite bind_getm. cbn [s_mem].
  destruct (Z.ltb_spec 0 (refcount (entry_at m i))) as [Hp|Hn]; cycle 1.
  { intros j. unfold held. case_decide; simplify_eq; unfold rc; cbn [s_mem]; lia. }
  cbv zeta. set (next := if refcount (entry_at m i) =? 1 then -1 else refcount (entry_at m i) - 1).
  set (s1 := mkst (upd_entry i (set_refcount next) m) w e).
  assert (gave (Some i) (mkst m w e) s1) as H1.
  { intros j. unfold held. destruct (rc_write i next m w e j) as [[E Hj]|[-> E]]; fold s1 in E; rewrite E.
    - case_decide as Hd; [injection Hd as Hd; specialize (Hj (eq_sym Hd))|]; lia.
    - rewrite decide_True by done. unfold rc, next. cbn [s_mem]. case_match; lia. }
  change (match (if next =? -1 then cleanup else ret tt) s1 with Ret _ s' => gave (Some i) (mkst m w e) s' | _ => True end).
  destruct (next =? -1); [|done]. specialize (Hc s1). destruct (cleanup s1); [|done..]. by eapply gave_then.
Qed.

Lemma refs_low i z : z ≤ 1 → within (@refs_le W) (setm (upd_entry i (set_refcount z))).
Proof.
  intros Hz. apply within_setm. intros m w e j. destruct (rc_write i z m w e j) as [[-> _]|[_ ->]]; lia.
Qed.

Lemma refs_lock (x : bool) : within (@refs_le W) (setm (set_synth_acquire_lock x)).
Proof. apply within_setm. intros m w e i. unfold rc, entry_at. cbn. lia. Qed.
#[local] Hint Resolve refs_lock : within.

#[export] Instance refs_frame : LibFrame (@refs_le W) gave.
Proof.
  split.
  - apply _.
  - intros A c. apply within_sys. intros m w w' e e' i. unfold rc. cbn [s_mem]. lia.
  - intros e. apply within_set_errno. intros m w e' i. unfold rc. cbn [s_mem]. lia.
  - intros f Hf. apply within_setm. intros m w e i. rewrite (rc_tame f m w w e e i Hf). lia.
  - apply refs_low.
  - intros A. apply refs_pin.
  - apply refs_unpin.
  - intros A m Hm. unfold locked. within_auto.
  - intros s s' H i. specialize (H i). rewrite held_None. lia.
  - intros o s s' H i. specialize (H i). pose proof (held_bound o i). lia.
  - apply gave_seq.
  - apply gave_then.
Qed.

Definition refs_of (m : mem) : list Z := refcount <$> synth_table m.

(** The spin lock, once free, is free again. *)
Definition lock_free (s s' : st W) : Prop :=
  synth_acquire_lock (s_mem s) = false → synth_acquire_lock (s_mem s') = false.

#[export] Instance lock_preorder : PreOrder lock_free.
Proof. split; [by intros s|]. intros s1 s2 s3 H1 H2 H. auto. Qed.

#[export] Instance lock_frame : LibFrame lock_free (λ _, lock_free).
Proof.
  apply plain_frame; [apply _|..].
  - intros A c. apply within_sys. intros m w w' e e' H. exact H.
  - intros e. apply within_set_errno. intros m w e' H. exact H.
  - intros f Hf. apply within_setm. intros m w e. unfold lock_free. cbn [s_mem]. by rewrite (tame_lock f Hf).
  - intros i z. apply within_setm. intros m w e H. exact H.
  - intros A m _ s. unfold locked. rewrite bind_getm. destruct (synth_acquire_lock (s_mem s)); [done|].
    rewrite bind_setm. unfold bind. by destruct (m _).
Qed.

(** The counts of a table in which each is zero or one add up to the number of entries in use. *)
Lemma sum_live (l : list synth_entry) :
  Forall (λ e, refcount e = 0 ∨ refcount e = 1) l → Z.of_nat (live_count l) = foldr Z.add 0 (refcount <$> l).
Proof.
  unfold live_count. induction 1 as [|e l He _ IH]; [done|]. rewrite filter_cons. cbn [fmap list_fmap foldr].
  rewrite <-IH. case_decide; cbn [length]; lia.
Qed.

(** No entry is in transit, none has a reference but that of the descriptor it stands for, and the lock is
    free. *)
Definition balanced (m : mem) : Prop :=
  table_ok m ∧ Forall (λ z, z = 0 ∨ z = 1) (refs_of m) ∧ synth_acquire_lock m = false.

Lemma init_balanced : balanced init_mem.
Proof. split_and!; [apply init_table_ok| |done]. apply Forall_fmap, Forall_replicate. by left. Qed.

Lemma balanced_calls b l : within (keeps (λ s, balanced (s_mem s))) (run_calls b l).
Proof.
  intros s. pose proof (within_table_ok _ (within_calls b l) s) as Ht.
  pose proof (frame_calls refs_le gave b l s) as Hle. pose proof (frame_calls lock_free _ b l s) as Hk.
  destruct (run_calls b l s) as [[] s'| |]; [|done..].
  intros (Hok & Hr & Hl). specialize (Ht Hok). split_and!; [done| |by apply Hk]. apply Forall_fmap, Forall_lookup. intros i e He.
  pose proof (proj1 (Forall_lookup _ _) (proj1 (proj2 Ht)) i e He) as H0.
  assert (rc s i ≤ 1) as H1.
  { unfold rc, entry_at. apply (typed_lookup (λ e, refcount e ≤ 1)); [done|]. apply Forall_fmap in Hr.
    eapply Forall_impl; [exact Hr|]. cbn. lia. }
  specialize (Hle i). assert (rc s' i = refcount e) as E by (unfold rc, entry_at; by rewrite list_lookup_total_alt, He).
  cbn in *. lia.
Qed.

(** C3: Whatever an application calls, in whatever order: when the calls have returned, no call has kept a
    reference or the spin lock. Every entry of the table has the one reference of the descriptor it stands
    for, or is free, and the references add up to [synth_live_entries]. *)
Theorem library_balances b l (s s' : st W) :
  balanced (s_mem s) → run_calls b l s = Ret tt s' →
  balanced (s_mem s') ∧ synth_live_entries (s_mem s') = foldr Z.add 0 (refs_of (s_mem s')).
Proof.
  intros Hs Hr. assert (balanced (s_mem s')) as Hb by exact (within_Ret _ _ _ _ _ (balanced_calls b l) Hr Hs).
  split; [done|]. destruct Hb as ((_ & _ & Hn) & HF & _). cbn [fst snd] in Hn. rewrite Hn.
  apply sum_live. by apply Forall_fmap in HF.
Qed.
End balance.

Lemma library_balances_witness :
  refcount (entry_at (s_mem (LibDemo.final LibDemo.calls)) 0) = 1 ∧ balanced (s_mem (LibDemo.final LibDemo.calls)).
Proof.
  split; [by vm_compute|].
  exact (proj1 (library_balances (Hfuel := 20%nat) true LibDemo.calls LibDemo.start _ init_balanced LibDemo.calls_run)).
Defined.
