(* ===== verification/WellTyped.v ===== *)
(** * The memory of the library stays well-formed

    What the C types say of the library's memory and the lists of the model do not: arrays keep their
    sizes, and the flags of a terminal, which are [int] in the source but only ever true or false, stay 0
    or 1. And what the development relies on throughout: nothing but the constructors changes the options
    or the registry. Both are a frame of the library ([LibFrame]), so that they hold through every entry
    point, along any sequence of calls. *)

From S2P Require Import Prelude CString Kernel State Tunables Override Walk FdKernel Internal Synth SynthFrames SynthFacts Close Tty Proc Dispatch Handlers Mmap Fcntl Poll Select Open Preexec Execve Ioctl Statx Clock Epoll CopyRange Sockopt Rename Logging Startup Library LibFrame.

Open Scope Z_scope.

(** ** What every entry point keeps *)
Definition settled {W} (s s' : st W) : Prop :=
  (mem_typed (s_mem s) → mem_typed (s_mem s')) ∧ registry_of s' = registry_of s ∧
  options (s_mem s') = options (s_mem s).

#[export] Instance settled_preorder {W} : PreOrder (@settled W).
Proof.
  split; [by intros s|]. intros s1 s2 s3 (H1 & E1 & O1) (H2 & E2 & O2). split_and!; [auto|by etrans|by etrans].
Qed.

Section settled.
Context {W : Type} `{!Kernel W} {Hfuel : Fuel}.
Local Abbreviation M := (prog (st W)).

Lemma settled_setm (f : mem → mem) :
  (∀ m, mem_typed m → mem_typed (f m)) →
  (∀ m, registry (f m) = registry m ∧ registry_count (f m) = registry_count m ∧ options (f m) = options m) →
  within (@settled W) (setm f).
Proof.
  intros Hf Hr. apply within_setm. intros m w e. destruct (Hr m) as (H1 & H2 & H3).
  split_and!; [apply Hf| |done]. unfold registry_of. cbn. by rewrite H1, H2.
Qed.

#[export] Instance settled_frame : LibFrame (@settled W) (λ _, settled).
Proof.
  apply plain_frame; [apply _|..].
  - intros A c. by apply within_sys.
  - intros e. by apply within_set_errno.
  - intros f []. by apply settled_setm.
  - intros i z. apply settled_setm; [|done]. intros m. by apply typed_upd_entry.
  - intros A m Hm. assert (∀ b, within (@settled W) (setm (set_synth_acquire_lock b))) as Hl.
    { intros x. apply settled_setm; [|done]. by intros ? []. }
    unfold locked. within_auto.
Qed.

(** C2: Whatever the order of the constructors, they return; and whatever is called after them, when it has
    returned every array of the library still has its length, every flag of a terminal is 0 or 1, the
    options are those the constructor read, and both descriptors that the library keeps for itself are
    registered, so that every later relocation returns and lets neither keep the number it makes room for. *)
Theorem library_well_typed `{!KernelDup W} order b (s : st W) :
  order ≡ₚ [u_tunables; u_logging; u_statx] → s_mem s = init_mem →
  ∃ s1, startup order s = Ret tt s1 ∧
    ∀ l s2, run_calls b l s1 = Ret tt s2 →
      mem_typed (s_mem s2) ∧ options (s_mem s2) = options (s_mem s1) ∧
      ∀ t, 0 ≤ t → ∃ s3, wslcompat_relocate_internal_fd t s2 = Ret tt s3 ∧ mem_typed (s_mem s3) ∧
        ∀ sl, slot_value (s_mem s3) sl ≠ t.
Proof.
  intros Ho Hs. destruct (startup_registers order s Ho Hs) as (s1 & E & Hrest & Hlen & Hreg).
  exists s1. split; [done|]. intros l s2 Hl.
  destruct (within_Ret _ _ _ _ _ (frame_calls settled _ b l) Hl) as (Ht & Hr & Hopt).
  assert (mem_typed (s_mem s1)) as Ht1.
  { injection Hrest as E1 _ _ _ E2 _ _ _. destruct init_typed. split; [by rewrite E1..|by rewrite E2|by rewrite E2|done]. }
  split_and!; [by apply Ht|done|]. intros t Hp.
  destruct (relocate_internal_rescues t s2 Hp) as (s3 & E3 & Hres & _). exists s3. split_and!; [done| |].
  - assert (within (@settled W) (wslcompat_relocate_internal_fd t)) as Hw by exact (frame_relocate_internal settled _ t).
    apply (within_Ret _ _ _ _ _ Hw E3). by apply Ht.
  - intros sl. apply Hres. injection Hr as Hg Hc. destruct (Hreg sl) as (i & Hi & Hb & Hv). exists i. by rewrite Hg, Hc.
Qed.
End settled.

(** ** The constructors, then the calls of the concrete run *)
Module TypedDemo.
#[local] Instance bound : Fuel := 20%nat.
Definition order : list unit_name := [u_statx; u_logging; u_tunables].
Definition started : st FdKernel.world :=
  match startup order LibDemo.start with Ret _ s => s | _ => LibDemo.start end.
Definition final : st FdKernel.world :=
  match run_calls true LibDemo.calls started with Ret _ s => s | _ => started end.
Lemma order_perm : order ≡ₚ [u_tunables; u_logging; u_statx].
Proof. by apply Permutation_rev. Qed.
Lemma started_run : startup order LibDemo.start = Ret tt started.
Proof. by vm_compute. Qed.
Lemma final_run : run_calls true LibDemo.calls started = Ret tt final.
Proof. by vm_compute. Qed.
End TypedDemo.

Lemma library_well_typed_witness :
  synth_live_entries (s_mem TypedDemo.final) = 1 ∧ registry_count (s_mem TypedDemo.final) = 2 ∧
  mem_typed (s_mem TypedDemo.final).
Proof.
  split; [by vm_compute|]. split; [by vm_compute|].
  destruct (library_well_typed (Hfuel := 20%nat) TypedDemo.order true LibDemo.start TypedDemo.order_perm eq_refl) as (s1 & E & H).
  rewrite TypedDemo.started_run in E. injection E as <-.
  exact (proj1 (H LibDemo.calls TypedDemo.final TypedDemo.final_run)).
Defined.
